(** * koishi-plugin-pku-blackboard-watcher: a shallow embedding

    The development follows the layout of the plugin:
    - [JS]        the string and buffer primitives of the runtime that the
                  code calls (code units, [trim], [slice], [padEnd],
                  [split], [toLowerCase], UTF-8 and hex codecs);
    - [JSON]      what the handlers read of a parsed column: property
                  reads, [||], [includes], [length] and concatenation, for
                  any value [JSON.parse] can return;
    - [Vault]     [CryptoUtils] of [utils.ts], over a block cipher;
    - [AES]       the [aes-256] block cipher that [CryptoUtils] asks
                  [createCipheriv] for;
    - [Html]      the regular-expression transforms of [utils.ts];
    - [Run], [Client], [Database]
                  the effects of a pass, [BlackboardClient] of
                  [core/blackboard.ts] and record creation of [database.ts];
    - [NoticeHandler], [CalendarHandler]
                  the two [process] passes of [core/notice_handler.ts] and
                  [core/calendar_handler.ts];
    - [ConfigCommand]
                  the dialogue [blackboard.config.set] of
                  [commands/config.ts];
    - [IAAAUser], [Accounts], [BBConfig], [Commands]
                  the accounts of [database.ts] and the actions of
                  [iaaa.bind] and [blackboard.check] of [commands/iaaa.ts]
                  and [commands/check.ts].

    The properties follow in the modules whose names end in [Facts] or
    [More], and [VaultRuns] runs the vault under AES-256.

    A JavaScript string is a sequence of UTF-16 code units; it is modelled
    as a [list Z].  Bytes of a [Buffer] are modelled as [Z] as well. *)

From Stdlib Require Import ZArith Lia Btauto.
From Stdlib Require Import String Ascii.
From stdpp Require Import base list gmap.

Local Open Scope Z_scope.

(** ** The runtime primitives *)

Module JS.

Definition jsstring := list Z.

(** An ASCII literal as a JavaScript string. *)
Definition lit (s : String.string) : jsstring :=
  List.map (fun a => Z.of_nat (nat_of_ascii a)) (list_ascii_of_string s).

Definition code_unit (c : Z) : Prop := 0 <= c < 65536.
Definition byte (b : Z) : Prop := 0 <= b < 256.
Definition is_ascii (c : Z) : bool := (0 <=? c) && (c <? 128).

Definition jseqb (s t : jsstring) : bool := bool_decide (s = t).

(** What a [throw] carries.  Only the class of the error is kept; an error
    of the HTTP client carries the response when there is one, as its status
    and the text of [JSON.stringify(e.response.data)]. *)
Inductive error : Type :=
| TypeError
| InvalidArgValue
| InvalidKeyLength
| InvalidIV
| WrongFinalBlockLength
| BadDecrypt
| AxiosError (response : option (Z * list Z))
| DatabaseError
| SendError
| DecryptFailed (cause : error)
| LoginRejected
| NoticeFetchFailed (cause : error)
| CalendarFetchFailed (cause : error)
| PageFetchFailed (cause : error).

Inductive result (A : Type) : Type :=
| Ok (a : A)
| Throw (e : error).
Arguments Ok {A} a.
Arguments Throw {A} e.

(** [WhiteSpace] and [LineTerminator] code units: the set removed by
    [String.prototype.trim] and matched by [\s]. *)
Definition is_space (c : Z) : bool :=
  ((9 <=? c) && (c <=? 13)) || (c =? 32) || (c =? 160) || (c =? 5760)
  || ((8192 <=? c) && (c <=? 8202)) || (c =? 8232) || (c =? 8233)
  || (c =? 8239) || (c =? 8287) || (c =? 12288) || (c =? 65279).

Fixpoint trimStart (s : jsstring) : jsstring :=
  match s with
  | c :: r => if is_space c then trimStart r else s
  | [] => []
  end.

Definition trimEnd (s : jsstring) : jsstring := rev (trimStart (rev s)).

Definition trim (s : jsstring) : jsstring := trimEnd (trimStart s).

(** [ToIntegerOrInfinity] followed by the clamping of [slice]: a negative
    index counts from the end, and both ends are clamped to the string. *)
Definition clamp_index (len i : Z) : Z :=
  if i <? 0 then Z.max (len + i) 0 else Z.min i len.

Definition slice (s : jsstring) (start stop : Z) : jsstring :=
  let len := Z.of_nat (length s) in
  let from := clamp_index len start in
  let to := clamp_index len stop in
  take (Z.to_nat (to - from)) (drop (Z.to_nat from) s).

(** [s.padEnd(n, c)] for a one-unit filler [c]. *)
Definition padEnd (s : jsstring) (n : nat) (c : Z) : jsstring :=
  s ++ replicate (n - length s)%nat c.

Fixpoint startsWith (s p : jsstring) : bool :=
  match p, s with
  | [], _ => true
  | x :: p', y :: s' => (x =? y) && startsWith s' p'
  | _ :: _, [] => false
  end.

(** [s.includes(c)] for a one-unit needle. *)
Definition includes (s : jsstring) (c : Z) : bool :=
  existsb (Z.eqb c) s.

(** [s.split(sep)] for a one-unit separator: never the empty array. *)
Fixpoint split (sep : Z) (s : jsstring) : list jsstring :=
  match s with
  | [] => [[]]
  | c :: r =>
    if c =? sep then [] :: split sep r
    else match split sep r with
         | p :: ps => (c :: p) :: ps
         | [] => [[c]]
         end
  end.

(** The folding of the [i] flag of a regular expression whose letters are
    all Basic Latin: a unit outside Basic Latin never folds onto one
    inside. *)
Definition lower_unit (c : Z) : Z :=
  if (65 <=? c) && (c <=? 90) then c + 32 else c.

(** *** [Buffer.from(s, 'utf8')] and [buf.toString('utf8')] *)

Definition is_high_surrogate (c : Z) : bool := (55296 <=? c) && (c <=? 56319).
Definition is_low_surrogate (c : Z) : bool := (56320 <=? c) && (c <=? 57343).

(** U+FFFD, which replaces what cannot be encoded or decoded. *)
Definition replacement : Z := 65533.
Definition replacement_utf8 : list Z := [239; 191; 189].

Definition utf8_1 (c : Z) : list Z := [c].
Definition utf8_2 (c : Z) : list Z := [192 + c / 64; 128 + c mod 64].
Definition utf8_3 (c : Z) : list Z :=
  [224 + c / 4096; 128 + (c / 64) mod 64; 128 + c mod 64].
Definition utf8_4 (cp : Z) : list Z :=
  [240 + cp / 262144; 128 + (cp / 4096) mod 64;
   128 + (cp / 64) mod 64; 128 + cp mod 64].

(** The code point of a surrogate pair. *)
Definition pair_code_point (hi lo : Z) : Z :=
  65536 + (hi - 55296) * 1024 + (lo - 56320).

(** UTF-16 to UTF-8: a surrogate pair gives four bytes, an unpaired
    surrogate is replaced by U+FFFD. *)
Fixpoint utf8_encode (s : jsstring) : list Z :=
  match s with
  | [] => []
  | c :: r =>
    if c <? 128 then utf8_1 c ++ utf8_encode r
    else if c <? 2048 then utf8_2 c ++ utf8_encode r
    else if is_high_surrogate c then
      match r with
      | d :: r' =>
        if is_low_surrogate d
        then utf8_4 (pair_code_point c d) ++ utf8_encode r'
        else replacement_utf8 ++ utf8_encode r
      | [] => replacement_utf8
      end
    else if is_low_surrogate c then replacement_utf8 ++ utf8_encode r
    else utf8_3 c ++ utf8_encode r
  end.

Definition in_range (lo hi b : Z) : bool := (lo <=? b) && (b <=? hi).

(** The code units of a decoded code point. *)
Definition units_of_code_point (cp : Z) : list Z :=
  if cp <? 65536 then [cp]
  else [55296 + (cp - 65536) / 1024; 56320 + (cp - 65536) mod 1024].

(** Bounds of the second byte after a three- or four-byte lead. *)
Definition second_lo (lead : Z) : Z :=
  if lead =? 224 then 160 else if lead =? 240 then 144 else 128.
Definition second_hi (lead : Z) : Z :=
  if lead =? 237 then 159 else if lead =? 244 then 143 else 191.

(** UTF-8 to UTF-16 as the WHATWG decoder does it: every maximal
    ill-formed subsequence gives one U+FFFD; decoding never throws. *)
Fixpoint utf8_decode (bs : list Z) : jsstring :=
  match bs with
  | [] => []
  | b :: r =>
    if in_range 0 127 b then b :: utf8_decode r
    else if in_range 194 223 b then
      match r with
      | b1 :: r1 =>
        if in_range 128 191 b1
        then ((b - 192) * 64 + (b1 - 128)) :: utf8_decode r1
        else replacement :: utf8_decode r
      | [] => [replacement]
      end
    else if in_range 224 239 b then
      match r with
      | b1 :: r1 =>
        if in_range (second_lo b) (second_hi b) b1 then
          match r1 with
          | b2 :: r2 =>
            if in_range 128 191 b2
            then ((b - 224) * 4096 + (b1 - 128) * 64 + (b2 - 128))
                 :: utf8_decode r2
            else replacement :: utf8_decode r1
          | [] => [replacement]
          end
        else replacement :: utf8_decode r
      | [] => [replacement]
      end
    else if in_range 240 244 b then
      match r with
      | b1 :: r1 =>
        if in_range (second_lo b) (second_hi b) b1 then
          match r1 with
          | b2 :: r2 =>
            if in_range 128 191 b2 then
              match r2 with
              | b3 :: r3 =>
                if in_range 128 191 b3
                then units_of_code_point
                       ((b - 240) * 262144 + (b1 - 128) * 4096
                        + (b2 - 128) * 64 + (b3 - 128))
                     ++ utf8_decode r3
                else replacement :: utf8_decode r2
              | [] => [replacement]
              end
            else replacement :: utf8_decode r1
          | [] => [replacement]
          end
        else replacement :: utf8_decode r
      | [] => [replacement]
      end
    else replacement :: utf8_decode r
  end.

(** A string every surrogate of which is paired: the strings UTF-8 can
    carry. *)
Fixpoint well_formed (s : jsstring) : Prop :=
  match s with
  | [] => True
  | c :: r =>
    code_unit c /\
    if is_high_surrogate c then
      match r with
      | d :: r' => is_low_surrogate d = true /\ well_formed r'
      | [] => False
      end
    else is_low_surrogate c = false /\ well_formed r
  end.

(** *** [buf.toString('hex')] and [Buffer.from(s, 'hex')] *)

Definition hex_digit (n : Z) : Z := if n <? 10 then 48 + n else 87 + n.

Definition hex_value (c : Z) : option Z :=
  if in_range 48 57 c then Some (c - 48)
  else if in_range 97 102 c then Some (c - 87)
  else if in_range 65 70 c then Some (c - 55)
  else None.

Definition hex_encode (bs : list Z) : jsstring :=
  flat_map (fun b => [hex_digit (b / 16); hex_digit (b mod 16)]) bs.

(** Decoding stops at the first pair that is not two hex digits; a
    trailing single unit is dropped. *)
Fixpoint hex_decode (s : jsstring) : list Z :=
  match s with
  | a :: b :: r =>
    match hex_value a, hex_value b with
    | Some x, Some y => (16 * x + y) :: hex_decode r
    | _, _ => []
    end
  | _ => []
  end.

(** *** [String.prototype.toLowerCase] *)

(** The method maps code points, not code units, with the case mapping of
    the Unicode Character Database; the tables are those of Unicode 14.0.
    A run [(first, last, stride, delta)] says that every [stride]-th code
    point from [first] to [last] has the lower-case form [delta] further
    on. *)
Definition lower_runs : list (Z * Z * Z * Z) :=
  [
   (65, 90, 1, 32); (192, 214, 1, 32); (216, 222, 1, 32);
   (256, 302, 2, 1); (306, 310, 2, 1); (313, 327, 2, 1);
   (330, 374, 2, 1); (376, 376, 1, -121); (377, 381, 2, 1);
   (385, 385, 1, 210); (386, 388, 2, 1); (390, 390, 1, 206);
   (391, 391, 1, 1); (393, 394, 1, 205); (395, 395, 1, 1);
   (398, 398, 1, 79); (399, 399, 1, 202); (400, 400, 1, 203);
   (401, 401, 1, 1); (403, 403, 1, 205); (404, 404, 1, 207);
   (406, 406, 1, 211); (407, 407, 1, 209); (408, 408, 1, 1);
   (412, 412, 1, 211); (413, 413, 1, 213); (415, 415, 1, 214);
   (416, 420, 2, 1); (422, 422, 1, 218); (423, 423, 1, 1);
   (425, 425, 1, 218); (428, 428, 1, 1); (430, 430, 1, 218);
   (431, 431, 1, 1); (433, 434, 1, 217); (435, 437, 2, 1);
   (439, 439, 1, 219); (440, 440, 1, 1); (444, 444, 1, 1);
   (452, 452, 1, 2); (453, 453, 1, 1); (455, 455, 1, 2);
   (456, 456, 1, 1); (458, 458, 1, 2); (459, 475, 2, 1);
   (478, 494, 2, 1); (497, 497, 1, 2); (498, 500, 2, 1);
   (502, 502, 1, -97); (503, 503, 1, -56); (504, 542, 2, 1);
   (544, 544, 1, -130); (546, 562, 2, 1); (570, 570, 1, 10795);
   (571, 571, 1, 1); (573, 573, 1, -163); (574, 574, 1, 10792);
   (577, 577, 1, 1); (579, 579, 1, -195); (580, 580, 1, 69);
   (581, 581, 1, 71); (582, 590, 2, 1); (880, 882, 2, 1);
   (886, 886, 1, 1); (895, 895, 1, 116); (902, 902, 1, 38);
   (904, 906, 1, 37); (908, 908, 1, 64); (910, 911, 1, 63);
   (913, 929, 1, 32); (931, 939, 1, 32); (975, 975, 1, 8);
   (984, 1006, 2, 1); (1012, 1012, 1, -60); (1015, 1015, 1, 1);
   (1017, 1017, 1, -7); (1018, 1018, 1, 1); (1021, 1023, 1, -130);
   (1024, 1039, 1, 80); (1040, 1071, 1, 32); (1120, 1152, 2, 1);
   (1162, 1214, 2, 1); (1216, 1216, 1, 15); (1217, 1229, 2, 1);
   (1232, 1326, 2, 1); (1329, 1366, 1, 48); (4256, 4293, 1, 7264);
   (4295, 4295, 1, 7264); (4301, 4301, 1, 7264); (5024, 5103, 1, 38864);
   (5104, 5109, 1, 8); (7312, 7354, 1, -3008); (7357, 7359, 1, -3008);
   (7680, 7828, 2, 1); (7838, 7838, 1, -7615); (7840, 7934, 2, 1);
   (7944, 7951, 1, -8); (7960, 7965, 1, -8); (7976, 7983, 1, -8);
   (7992, 7999, 1, -8); (8008, 8013, 1, -8); (8025, 8031, 2, -8);
   (8040, 8047, 1, -8); (8072, 8079, 1, -8); (8088, 8095, 1, -8);
   (8104, 8111, 1, -8); (8120, 8121, 1, -8); (8122, 8123, 1, -74);
   (8124, 8124, 1, -9); (8136, 8139, 1, -86); (8140, 8140, 1, -9);
   (8152, 8153, 1, -8); (8154, 8155, 1, -100); (8168, 8169, 1, -8);
   (8170, 8171, 1, -112); (8172, 8172, 1, -7); (8184, 8185, 1, -128);
   (8186, 8187, 1, -126); (8188, 8188, 1, -9); (8486, 8486, 1, -7517);
   (8490, 8490, 1, -8383); (8491, 8491, 1, -8262); (8498, 8498, 1, 28);
   (8544, 8559, 1, 16); (8579, 8579, 1, 1); (9398, 9423, 1, 26);
   (11264, 11311, 1, 48); (11360, 11360, 1, 1); (11362, 11362, 1, -10743);
   (11363, 11363, 1, -3814); (11364, 11364, 1, -10727); (11367, 11371, 2, 1);
   (11373, 11373, 1, -10780); (11374, 11374, 1, -10749); (11375, 11375, 1, -10783);
   (11376, 11376, 1, -10782); (11378, 11378, 1, 1); (11381, 11381, 1, 1);
   (11390, 11391, 1, -10815); (11392, 11490, 2, 1); (11499, 11501, 2, 1);
   (11506, 11506, 1, 1); (42560, 42604, 2, 1); (42624, 42650, 2, 1);
   (42786, 42798, 2, 1); (42802, 42862, 2, 1); (42873, 42875, 2, 1);
   (42877, 42877, 1, -35332); (42878, 42886, 2, 1); (42891, 42891, 1, 1);
   (42893, 42893, 1, -42280); (42896, 42898, 2, 1); (42902, 42920, 2, 1);
   (42922, 42922, 1, -42308); (42923, 42923, 1, -42319); (42924, 42924, 1, -42315);
   (42925, 42925, 1, -42305); (42926, 42926, 1, -42308); (42928, 42928, 1, -42258);
   (42929, 42929, 1, -42282); (42930, 42930, 1, -42261); (42931, 42931, 1, 928);
   (42932, 42946, 2, 1); (42948, 42948, 1, -48); (42949, 42949, 1, -42307);
   (42950, 42950, 1, -35384); (42951, 42953, 2, 1); (42960, 42960, 1, 1);
   (42966, 42968, 2, 1); (42997, 42997, 1, 1); (65313, 65338, 1, 32);
   (66560, 66599, 1, 40); (66736, 66771, 1, 40); (66928, 66964, 2, 39);
   (66929, 66937, 2, 39); (66941, 66953, 2, 39); (66957, 66961, 2, 39);
   (66965, 66965, 1, 39); (68736, 68786, 1, 64); (71840, 71871, 1, 32);
   (93760, 93791, 1, 32); (125184, 125217, 1, 34)
  ].

(** The code points with the property [Case_Ignorable], as ranges. *)
Definition case_ignorable_ranges : list (Z * Z) :=
  [
   (39, 39); (46, 46); (58, 58); (94, 94); (96, 96);
   (168, 168); (173, 173); (175, 175); (180, 180); (183, 184);
   (688, 879); (884, 885); (890, 890); (900, 901); (903, 903);
   (1155, 1161); (1369, 1369); (1375, 1375); (1425, 1469); (1471, 1471);
   (1473, 1474); (1476, 1477); (1479, 1479); (1524, 1524); (1536, 1541);
   (1552, 1562); (1564, 1564); (1600, 1600); (1611, 1631); (1648, 1648);
   (1750, 1757); (1759, 1768); (1770, 1773); (1807, 1807); (1809, 1809);
   (1840, 1866); (1958, 1968); (2027, 2037); (2042, 2042); (2045, 2045);
   (2070, 2093); (2137, 2139); (2184, 2184); (2192, 2193); (2200, 2207);
   (2249, 2306); (2362, 2362); (2364, 2364); (2369, 2376); (2381, 2381);
   (2385, 2391); (2402, 2403); (2417, 2417); (2433, 2433); (2492, 2492);
   (2497, 2500); (2509, 2509); (2530, 2531); (2558, 2558); (2561, 2562);
   (2620, 2620); (2625, 2626); (2631, 2632); (2635, 2637); (2641, 2641);
   (2672, 2673); (2677, 2677); (2689, 2690); (2748, 2748); (2753, 2757);
   (2759, 2760); (2765, 2765); (2786, 2787); (2810, 2815); (2817, 2817);
   (2876, 2876); (2879, 2879); (2881, 2884); (2893, 2893); (2901, 2902);
   (2914, 2915); (2946, 2946); (3008, 3008); (3021, 3021); (3072, 3072);
   (3076, 3076); (3132, 3132); (3134, 3136); (3142, 3144); (3146, 3149);
   (3157, 3158); (3170, 3171); (3201, 3201); (3260, 3260); (3263, 3263);
   (3270, 3270); (3276, 3277); (3298, 3299); (3328, 3329); (3387, 3388);
   (3393, 3396); (3405, 3405); (3426, 3427); (3457, 3457); (3530, 3530);
   (3538, 3540); (3542, 3542); (3633, 3633); (3636, 3642); (3654, 3662);
   (3761, 3761); (3764, 3772); (3782, 3782); (3784, 3789); (3864, 3865);
   (3893, 3893); (3895, 3895); (3897, 3897); (3953, 3966); (3968, 3972);
   (3974, 3975); (3981, 3991); (3993, 4028); (4038, 4038); (4141, 4144);
   (4146, 4151); (4153, 4154); (4157, 4158); (4184, 4185); (4190, 4192);
   (4209, 4212); (4226, 4226); (4229, 4230); (4237, 4237); (4253, 4253);
   (4348, 4348); (4957, 4959); (5906, 5908); (5938, 5939); (5970, 5971);
   (6002, 6003); (6068, 6069); (6071, 6077); (6086, 6086); (6089, 6099);
   (6103, 6103); (6109, 6109); (6155, 6159); (6211, 6211); (6277, 6278);
   (6313, 6313); (6432, 6434); (6439, 6440); (6450, 6450); (6457, 6459);
   (6679, 6680); (6683, 6683); (6742, 6742); (6744, 6750); (6752, 6752);
   (6754, 6754); (6757, 6764); (6771, 6780); (6783, 6783); (6823, 6823);
   (6832, 6862); (6912, 6915); (6964, 6964); (6966, 6970); (6972, 6972);
   (6978, 6978); (7019, 7027); (7040, 7041); (7074, 7077); (7080, 7081);
   (7083, 7085); (7142, 7142); (7144, 7145); (7149, 7149); (7151, 7153);
   (7212, 7219); (7222, 7223); (7288, 7293); (7376, 7378); (7380, 7392);
   (7394, 7400); (7405, 7405); (7412, 7412); (7416, 7417); (7468, 7530);
   (7544, 7544); (7579, 7679); (8125, 8125); (8127, 8129); (8141, 8143);
   (8157, 8159); (8173, 8175); (8189, 8190); (8203, 8207); (8216, 8217);
   (8228, 8228); (8231, 8231); (8234, 8238); (8288, 8292); (8294, 8303);
   (8305, 8305); (8319, 8319); (8336, 8348); (8400, 8432); (11388, 11389);
   (11503, 11505); (11631, 11631); (11647, 11647); (11744, 11775); (11823, 11823);
   (12293, 12293); (12330, 12333); (12337, 12341); (12347, 12347); (12441, 12446);
   (12540, 12542); (40981, 40981); (42232, 42237); (42508, 42508); (42607, 42610);
   (42612, 42621); (42623, 42623); (42652, 42655); (42736, 42737); (42752, 42785);
   (42864, 42864); (42888, 42890); (42994, 42996); (43000, 43001); (43010, 43010);
   (43014, 43014); (43019, 43019); (43045, 43046); (43052, 43052); (43204, 43205);
   (43232, 43249); (43263, 43263); (43302, 43309); (43335, 43345); (43392, 43394);
   (43443, 43443); (43446, 43449); (43452, 43453); (43471, 43471); (43493, 43494);
   (43561, 43566); (43569, 43570); (43573, 43574); (43587, 43587); (43596, 43596);
   (43632, 43632); (43644, 43644); (43696, 43696); (43698, 43700); (43703, 43704);
   (43710, 43711); (43713, 43713); (43741, 43741); (43756, 43757); (43763, 43764);
   (43766, 43766); (43867, 43871); (43881, 43883); (44005, 44005); (44008, 44008);
   (44013, 44013); (64286, 64286); (64434, 64450); (65024, 65039); (65043, 65043);
   (65056, 65071); (65106, 65106); (65109, 65109); (65279, 65279); (65287, 65287);
   (65294, 65294); (65306, 65306); (65342, 65342); (65344, 65344); (65392, 65392);
   (65438, 65439); (65507, 65507); (65529, 65531); (66045, 66045); (66272, 66272);
   (66422, 66426); (67456, 67461); (67463, 67504); (67506, 67514); (68097, 68099);
   (68101, 68102); (68108, 68111); (68152, 68154); (68159, 68159); (68325, 68326);
   (68900, 68903); (69291, 69292); (69446, 69456); (69506, 69509); (69633, 69633);
   (69688, 69702); (69744, 69744); (69747, 69748); (69759, 69761); (69811, 69814);
   (69817, 69818); (69821, 69821); (69826, 69826); (69837, 69837); (69888, 69890);
   (69927, 69931); (69933, 69940); (70003, 70003); (70016, 70017); (70070, 70078);
   (70089, 70092); (70095, 70095); (70191, 70193); (70196, 70196); (70198, 70199);
   (70206, 70206); (70367, 70367); (70371, 70378); (70400, 70401); (70459, 70460);
   (70464, 70464); (70502, 70508); (70512, 70516); (70712, 70719); (70722, 70724);
   (70726, 70726); (70750, 70750); (70835, 70840); (70842, 70842); (70847, 70848);
   (70850, 70851); (71090, 71093); (71100, 71101); (71103, 71104); (71132, 71133);
   (71219, 71226); (71229, 71229); (71231, 71232); (71339, 71339); (71341, 71341);
   (71344, 71349); (71351, 71351); (71453, 71455); (71458, 71461); (71463, 71467);
   (71727, 71735); (71737, 71738); (71995, 71996); (71998, 71998); (72003, 72003);
   (72148, 72151); (72154, 72155); (72160, 72160); (72193, 72202); (72243, 72248);
   (72251, 72254); (72263, 72263); (72273, 72278); (72281, 72283); (72330, 72342);
   (72344, 72345); (72752, 72758); (72760, 72765); (72767, 72767); (72850, 72871);
   (72874, 72880); (72882, 72883); (72885, 72886); (73009, 73014); (73018, 73018);
   (73020, 73021); (73023, 73029); (73031, 73031); (73104, 73105); (73109, 73109);
   (73111, 73111); (73459, 73460); (78896, 78904); (92912, 92916); (92976, 92982);
   (92992, 92995); (94031, 94031); (94095, 94111); (94176, 94177); (94179, 94180);
   (110576, 110579); (110581, 110587); (110589, 110590); (113821, 113822); (113824, 113827);
   (118528, 118573); (118576, 118598); (119143, 119145); (119155, 119170); (119173, 119179);
   (119210, 119213); (119362, 119364); (121344, 121398); (121403, 121452); (121461, 121461);
   (121476, 121476); (121499, 121503); (121505, 121519); (122880, 122886); (122888, 122904);
   (122907, 122913); (122915, 122916); (122918, 122922); (123184, 123197); (123566, 123566);
   (123628, 123631); (125136, 125142); (125252, 125259); (127995, 127999); (917505, 917505);
   (917536, 917631); (917760, 917999)
  ].

(** The code points with the property [Cased] that are not
    [Case_Ignorable], as ranges. *)
Definition cased_ranges : list (Z * Z) :=
  [
   (65, 90); (97, 122); (170, 170); (181, 181); (186, 186);
   (192, 214); (216, 246); (248, 442); (444, 447); (452, 659);
   (661, 687); (880, 883); (886, 887); (891, 893); (895, 895);
   (902, 902); (904, 906); (908, 908); (910, 929); (931, 1013);
   (1015, 1153); (1162, 1327); (1329, 1366); (1376, 1416); (4256, 4293);
   (4295, 4295); (4301, 4301); (4304, 4346); (4349, 4351); (5024, 5109);
   (5112, 5117); (7296, 7304); (7312, 7354); (7357, 7359); (7424, 7467);
   (7531, 7543); (7545, 7578); (7680, 7957); (7960, 7965); (7968, 8005);
   (8008, 8013); (8016, 8023); (8025, 8025); (8027, 8027); (8029, 8029);
   (8031, 8061); (8064, 8116); (8118, 8124); (8126, 8126); (8130, 8132);
   (8134, 8140); (8144, 8147); (8150, 8155); (8160, 8172); (8178, 8180);
   (8182, 8188); (8450, 8450); (8455, 8455); (8458, 8467); (8469, 8469);
   (8473, 8477); (8484, 8484); (8486, 8486); (8488, 8488); (8490, 8493);
   (8495, 8500); (8505, 8505); (8508, 8511); (8517, 8521); (8526, 8526);
   (8544, 8575); (8579, 8580); (9398, 9449); (11264, 11387); (11390, 11492);
   (11499, 11502); (11506, 11507); (11520, 11557); (11559, 11559); (11565, 11565);
   (42560, 42605); (42624, 42651); (42786, 42863); (42865, 42887); (42891, 42894);
   (42896, 42954); (42960, 42961); (42963, 42963); (42965, 42969); (42997, 42998);
   (43002, 43002); (43824, 43866); (43872, 43880); (43888, 43967); (64256, 64262);
   (64275, 64279); (65313, 65338); (65345, 65370); (66560, 66639); (66736, 66771);
   (66776, 66811); (66928, 66938); (66940, 66954); (66956, 66962); (66964, 66965);
   (66967, 66977); (66979, 66993); (66995, 67001); (67003, 67004); (68736, 68786);
   (68800, 68850); (71840, 71903); (93760, 93823); (119808, 119892); (119894, 119964);
   (119966, 119967); (119970, 119970); (119973, 119974); (119977, 119980); (119982, 119993);
   (119995, 119995); (119997, 120003); (120005, 120069); (120071, 120074); (120077, 120084);
   (120086, 120092); (120094, 120121); (120123, 120126); (120128, 120132); (120134, 120134);
   (120138, 120144); (120146, 120485); (120488, 120512); (120514, 120538); (120540, 120570);
   (120572, 120596); (120598, 120628); (120630, 120654); (120656, 120686); (120688, 120712);
   (120714, 120744); (120746, 120770); (120772, 120779); (122624, 122633); (122635, 122654);
   (125184, 125251); (127280, 127305); (127312, 127337); (127344, 127369)
  ].

Definition in_ranges (ranges : list (Z * Z)) (cp : Z) : bool :=
  existsb (fun '(lo, hi) => (lo <=? cp) && (cp <=? hi)) ranges.

Definition case_ignorable (cp : Z) : bool := in_ranges case_ignorable_ranges cp.
Definition cased (cp : Z) : bool := in_ranges cased_ranges cp.

Definition lower_code_point (cp : Z) : Z :=
  match List.find (fun '(first, last, stride, _) =>
                     (first <=? cp) && (cp <=? last)
                     && ((cp - first) mod stride =? 0))
                  lower_runs with
  | Some (_, _, _, delta) => cp + delta
  | None => cp
  end.

(** The code points of a string: a surrogate pair is one code point, an
    unpaired surrogate stands for itself. *)
Fixpoint code_points (s : jsstring) : list Z :=
  match s with
  | [] => []
  | c :: r =>
    match r with
    | d :: r' =>
      if is_high_surrogate c && is_low_surrogate d
      then pair_code_point c d :: code_points r'
      else c :: code_points r
    | [] => [c]
    end
  end.

(** Skipping what is case-ignorable, is the next code point a cased
    letter? *)
Fixpoint cased_follows (cps : list Z) : bool :=
  match cps with
  | [] => false
  | c :: r => if case_ignorable c then cased_follows r else cased c
  end.

Definition capital_sigma : Z := 931.
Definition capital_i_with_dot : Z := 304.

(** The two mappings outside the table: a capital sigma is the final sigma
    after a cased letter and before none, and the capital I with a dot is
    an [i] and a combining dot.  [after_cased] says that a cased letter
    precedes, with nothing but case-ignorable code points in between. *)
Fixpoint lower_from (after_cased : bool) (cps : list Z) : list Z :=
  match cps with
  | [] => []
  | c :: r =>
    (if c =? capital_sigma
     then [if after_cased && negb (cased_follows r) then 962 else 963]
     else if c =? capital_i_with_dot then [105; 775]
     else [lower_code_point c])
    ++ lower_from (if case_ignorable c then after_cased else cased c) r
  end.

Definition toLowerCase (s : jsstring) : jsstring :=
  flat_map units_of_code_point (lower_from false (code_points s)).

End JS.

(** ** Parsed JSON, as its readers meet it *)

Module JSON.
Import JS.

(** A truthy value that is not a string: a number, [true], an array, an
    object, or a member inherited from a prototype.  The handlers do three
    things with such a value [v], and it is carried as what each of them
    gives: [v.includes(x)], [v.length > 0] and [s + v] as far as the text of
    [v]. *)
Record foreign := {
  foreign_includes : jsstring -> result bool;
  foreign_length_positive : result bool;
  foreign_text : result jsstring
}.

(** What a property read finds: a falsy value ([undefined], [null],
    [false], zero, the empty string), a string, or a foreign value. *)
Inductive found : Type :=
| Falsy
| Text (s : jsstring)
| Foreign (v : foreign).

(** What [JSON.parse] returns: [null], or a value whose properties can be
    read, carried as the function from property names to what is found. *)
Inductive value : Type :=
| Null
| Holds (get : jsstring -> found).

(** [object[key]]: reading a property of [null] throws. *)
Definition get (object : value) (key : jsstring) : result found :=
  match object with
  | Null => Throw TypeError
  | Holds get => Ok (get key)
  end.

(** [found || fallback] for a string [fallback]: a string or a foreign
    value. *)
Definition or_else (v : found) (fallback : jsstring) : jsstring + foreign :=
  match v with
  | Text (c :: s) => inl (c :: s)
  | Foreign v => inr v
  | Falsy | Text [] => inl fallback
  end.

(** [v.includes(x)] for a one-unit [x]. *)
Definition includes (v : jsstring + foreign) (x : Z) : result bool :=
  match v with
  | inl s => Ok (JS.includes s x)
  | inr v => foreign_includes v [x]
  end.

(** [v.length > 0] *)
Definition length_positive (v : jsstring + foreign) : result bool :=
  match v with
  | inl s => Ok (0 <? length s)%nat
  | inr v => foreign_length_positive v
  end.

(** The text of [v] in a concatenation of strings. *)
Definition text (v : jsstring + foreign) : result jsstring :=
  match v with
  | inl s => Ok s
  | inr v => foreign_text v
  end.

(** *** Objects *)

(** A built-in function: it has no [includes], its [length] is the number
    of its parameters, and its text names it. *)
Definition native_function (name : String.string) (parameters : nat) : foreign :=
  {| foreign_includes := fun _ => Throw TypeError;
     foreign_length_positive := Ok (0 <? parameters)%nat;
     foreign_text := Ok (lit "function " ++ lit name ++ lit "() { [native code] }") |}.

(** An object without [includes], [length] or a text of its own. *)
Definition plain_object : foreign :=
  {| foreign_includes := fun _ => Throw TypeError;
     foreign_length_positive := Ok false;
     foreign_text := Ok (lit "[object Object]") |}.

(** The members every object inherits from [Object.prototype]. *)
Definition object_prototype : list (jsstring * foreign) :=
  [(lit "constructor", native_function "Object" 1);
   (lit "__defineGetter__", native_function "__defineGetter__" 2);
   (lit "__defineSetter__", native_function "__defineSetter__" 2);
   (lit "hasOwnProperty", native_function "hasOwnProperty" 1);
   (lit "__lookupGetter__", native_function "__lookupGetter__" 1);
   (lit "__lookupSetter__", native_function "__lookupSetter__" 1);
   (lit "isPrototypeOf", native_function "isPrototypeOf" 1);
   (lit "propertyIsEnumerable", native_function "propertyIsEnumerable" 1);
   (lit "toString", native_function "toString" 0);
   (lit "valueOf", native_function "valueOf" 0);
   (lit "__proto__", plain_object);
   (lit "toLocaleString", native_function "toLocaleString" 0)].

Definition inherited (name : jsstring) : found :=
  match List.find (fun member => jseqb (fst member) name) object_prototype with
  | Some member => Foreign (snd member)
  | None => Falsy
  end.

(** [object[name]] for an object made by assigning strings to an object
    literal. *)
Definition member (object : gmap jsstring jsstring) (name : jsstring) : found :=
  match object !! name with
  | Some s => Text s
  | None => inherited name
  end.

(** [object[name] = s]: the setter behind [__proto__] ignores a string. *)
Definition assign (name s : jsstring) (object : gmap jsstring jsstring)
  : gmap jsstring jsstring :=
  if jseqb name (lit "__proto__") then object else <[name := s]> object.

(** A scalar of JSON; a number is carried as the text it has in a
    string. *)
Inductive scalar : Type :=
| SNull
| SBool (b : bool)
| SNumber (text : jsstring)
| SString (s : jsstring).

Definition of_scalar (v : scalar) : found :=
  match v with
  | SNull | SBool false => Falsy
  | SBool true =>
    Foreign {| foreign_includes := fun _ => Throw TypeError;
               foreign_length_positive := Ok false;
               foreign_text := Ok (lit "true") |}
  | SNumber t =>
    if jseqb t (lit "0") then Falsy
    else Foreign {| foreign_includes := fun _ => Throw TypeError;
                    foreign_length_positive := Ok false;
                    foreign_text := Ok t |}
  | SString s => Text s
  end.

(** What [JSON.parse] makes of an object whose values are scalars. *)
Definition object (properties : gmap jsstring scalar) : value :=
  Holds (fun name =>
           match properties !! name with
           | Some v => of_scalar v
           | None => inherited name
           end).

(** What [JSON.parse] makes of an object whose values are strings. *)
Definition strings (properties : gmap jsstring jsstring) : value :=
  object (SString <$> properties).

End JSON.

(** ** The credential vault: [CryptoUtils] of [utils.ts] *)

Module Vault.
Import JS.

(** The block permutation behind ['aes-256-cbc'] is the runtime's, not the
    plugin's.  It is an interface here: a keyed function on 16-byte blocks
    under a 32-byte key, with the inverse the decipher uses. *)
Class BlockCipher := {
  encrypt_block : list Z -> list Z -> list Z;
  decrypt_block : list Z -> list Z -> list Z;
  encrypt_block_length : forall k b,
    length k = 32%nat -> length b = 16%nat -> Forall byte k -> Forall byte b ->
    length (encrypt_block k b) = 16%nat;
  encrypt_block_bytes : forall k b,
    length k = 32%nat -> length b = 16%nat -> Forall byte k -> Forall byte b ->
    Forall byte (encrypt_block k b);
  decrypt_encrypt_block : forall k b,
    length k = 32%nat -> length b = 16%nat -> Forall byte k -> Forall byte b ->
    decrypt_block k (encrypt_block k b) = b
}.

Section WithCipher.
Context {C : BlockCipher}.

Definition xor_bytes (a b : list Z) : list Z := zip_with Z.lxor a b.

(** The 16-byte blocks of a buffer, the last one possibly short. *)
Fixpoint chunks (fuel : nat) (bs : list Z) : list (list Z) :=
  match fuel with
  | O => []
  | S f =>
    match bs with
    | [] => []
    | _ :: _ => take 16 bs :: chunks f (drop 16 bs)
    end
  end.

Definition blocks (bs : list Z) : list (list Z) := chunks (length bs) bs.

Fixpoint cbc_encrypt (k prev : list Z) (ps : list (list Z)) : list (list Z) :=
  match ps with
  | [] => []
  | p :: r =>
    let c := encrypt_block k (xor_bytes p prev) in
    c :: cbc_encrypt k c r
  end.

Fixpoint cbc_decrypt (k prev : list Z) (cs : list (list Z)) : list (list Z) :=
  match cs with
  | [] => []
  | c :: r => xor_bytes (decrypt_block k c) prev :: cbc_decrypt k c r
  end.

(** PKCS#7: between 1 and 16 bytes are always added. *)
Definition pkcs7_pad (bs : list Z) : list Z :=
  let n := (16 - length bs mod 16)%nat in
  bs ++ replicate n (Z.of_nat n).

Definition pkcs7_unpad (bs : list Z) : result (list Z) :=
  match last bs with
  | None => Throw WrongFinalBlockLength
  | Some n =>
    if (1 <=? n) && (n <=? 16)
       && forallb (Z.eqb n) (drop (length bs - Z.to_nat n) bs)
    then Ok (take (length bs - Z.to_nat n) bs)
    else Throw BadDecrypt
  end.

(** [Buffer.from(key.padEnd(32, '0').slice(0, 32))]: padding and cutting
    count code units, the buffer holds the UTF-8 bytes. *)
Definition key_buffer (encryptionKey : jsstring) : list Z :=
  utf8_encode (slice (padEnd encryptionKey 32 48) 0 32).

(** [createCipheriv('aes-256-cbc', key, iv)] and [createDecipheriv]: both
    refuse an IV that is not 16 bytes and a key that is not 32 bytes. *)
Definition createCipheriv (key iv : list Z) : result (list Z * list Z) :=
  if negb (length iv =? 16)%nat then Throw InvalidIV
  else if negb (length key =? 32)%nat then Throw InvalidKeyLength
  else Ok (key, iv).

Definition createDecipheriv := createCipheriv.

(** [cipher.update(data) + cipher.final()], as bytes. *)
Definition cipher_run (cipher : list Z * list Z) (data : list Z) : list Z :=
  let '(key, iv) := cipher in
  concat (cbc_encrypt key iv (blocks (pkcs7_pad data))).

(** [decipher.update(data) + decipher.final()], as bytes: [final] throws on
    an empty or partial last block and on bad padding. *)
Definition decipher_run (decipher : list Z * list Z) (data : list Z)
  : result (list Z) :=
  let '(key, iv) := decipher in
  if (length data =? 0)%nat || negb (length data mod 16 =? 0)%nat
  then Throw WrongFinalBlockLength
  else pkcs7_unpad (concat (cbc_decrypt key iv (blocks data))).

(** [encrypt(text)]; the 16 bytes of [randomBytes(16)] are an argument. *)
Definition encrypt (encryptionKey : jsstring) (iv : list Z) (text : jsstring)
  : result jsstring :=
  match createCipheriv (key_buffer encryptionKey) iv with
  | Throw e => Throw e
  | Ok cipher =>
    let encrypted := hex_encode (cipher_run cipher (utf8_encode text)) in
    Ok (hex_encode iv ++ lit ":" ++ encrypted)
  end.

(** The body of the [try] of [decrypt(text)].  [Buffer.from(parts[0], 'hex')]
    decodes what it can; [decipher.update(encrypted, 'hex', 'utf8')] refuses
    a missing text and a hex text with an odd number of units before it
    decodes. *)
Definition decrypt_try (encryptionKey text : jsstring) : result jsstring :=
  let parts := split 58 text in
  let iv := hex_decode (default [] (parts !! 0%nat)) in
  match createDecipheriv (key_buffer encryptionKey) iv with
  | Throw e => Throw e
  | Ok decipher =>
    match parts !! 1%nat with
    | None => Throw TypeError
    | Some encrypted =>
      if negb (length encrypted mod 2 =? 0)%nat then Throw InvalidArgValue
      else
        match decipher_run decipher (hex_decode encrypted) with
        | Throw e => Throw e
        | Ok plain => Ok (utf8_decode plain)
        end
    end
  end.

(** [decrypt(text)]: the empty text gives the empty string; whatever the
    [try] throws is thrown again as the plugin's own error. *)
Definition decrypt (encryptionKey text : jsstring) : result jsstring :=
  match text with
  | [] => Ok []
  | _ :: _ =>
    match decrypt_try encryptionKey text with
    | Ok s => Ok s
    | Throw e => Throw (DecryptFailed e)
    end
  end.

End WithCipher.
End Vault.

(** ** The block cipher of ['aes-256-cbc'] *)

Module AES.

(** The S-box of FIPS-197 and its inverse, as tables. *)
Definition sbox_table : list Z :=
  [
   99; 124; 119; 123; 242; 107; 111; 197; 48; 1; 103; 43; 254; 215; 171; 118;
   202; 130; 201; 125; 250; 89; 71; 240; 173; 212; 162; 175; 156; 164; 114; 192;
   183; 253; 147; 38; 54; 63; 247; 204; 52; 165; 229; 241; 113; 216; 49; 21;
   4; 199; 35; 195; 24; 150; 5; 154; 7; 18; 128; 226; 235; 39; 178; 117;
   9; 131; 44; 26; 27; 110; 90; 160; 82; 59; 214; 179; 41; 227; 47; 132;
   83; 209; 0; 237; 32; 252; 177; 91; 106; 203; 190; 57; 74; 76; 88; 207;
   208; 239; 170; 251; 67; 77; 51; 133; 69; 249; 2; 127; 80; 60; 159; 168;
   81; 163; 64; 143; 146; 157; 56; 245; 188; 182; 218; 33; 16; 255; 243; 210;
   205; 12; 19; 236; 95; 151; 68; 23; 196; 167; 126; 61; 100; 93; 25; 115;
   96; 129; 79; 220; 34; 42; 144; 136; 70; 238; 184; 20; 222; 94; 11; 219;
   224; 50; 58; 10; 73; 6; 36; 92; 194; 211; 172; 98; 145; 149; 228; 121;
   231; 200; 55; 109; 141; 213; 78; 169; 108; 86; 244; 234; 101; 122; 174; 8;
   186; 120; 37; 46; 28; 166; 180; 198; 232; 221; 116; 31; 75; 189; 139; 138;
   112; 62; 181; 102; 72; 3; 246; 14; 97; 53; 87; 185; 134; 193; 29; 158;
   225; 248; 152; 17; 105; 217; 142; 148; 155; 30; 135; 233; 206; 85; 40; 223;
   140; 161; 137; 13; 191; 230; 66; 104; 65; 153; 45; 15; 176; 84; 187; 22
  ].

Definition inv_sbox_table : list Z :=
  [
   82; 9; 106; 213; 48; 54; 165; 56; 191; 64; 163; 158; 129; 243; 215; 251;
   124; 227; 57; 130; 155; 47; 255; 135; 52; 142; 67; 68; 196; 222; 233; 203;
   84; 123; 148; 50; 166; 194; 35; 61; 238; 76; 149; 11; 66; 250; 195; 78;
   8; 46; 161; 102; 40; 217; 36; 178; 118; 91; 162; 73; 109; 139; 209; 37;
   114; 248; 246; 100; 134; 104; 152; 22; 212; 164; 92; 204; 93; 101; 182; 146;
   108; 112; 72; 80; 253; 237; 185; 218; 94; 21; 70; 87; 167; 141; 157; 132;
   144; 216; 171; 0; 140; 188; 211; 10; 247; 228; 88; 5; 184; 179; 69; 6;
   208; 44; 30; 143; 202; 63; 15; 2; 193; 175; 189; 3; 1; 19; 138; 107;
   58; 145; 17; 65; 79; 103; 220; 234; 151; 242; 207; 206; 240; 180; 230; 115;
   150; 172; 116; 34; 231; 173; 53; 133; 226; 249; 55; 232; 28; 117; 223; 110;
   71; 241; 26; 113; 29; 41; 197; 137; 111; 183; 98; 14; 170; 24; 190; 27;
   252; 86; 62; 75; 198; 210; 121; 32; 154; 219; 192; 254; 120; 205; 90; 244;
   31; 221; 168; 51; 136; 7; 199; 49; 177; 18; 16; 89; 39; 128; 236; 95;
   96; 81; 127; 169; 25; 181; 74; 13; 45; 229; 122; 159; 147; 201; 156; 239;
   160; 224; 59; 77; 174; 42; 245; 176; 200; 235; 187; 60; 131; 83; 153; 97;
   23; 43; 4; 126; 186; 119; 214; 38; 225; 105; 20; 99; 85; 33; 12; 125
  ].

Definition sbox (x : Z) : Z := nth (Z.to_nat x) sbox_table 0.
Definition inv_sbox (x : Z) : Z := nth (Z.to_nat x) inv_sbox_table 0.

(** Multiplication by [x] in GF(2^8), modulo [x^8 + x^4 + x^3 + x + 1]. *)
Definition xtime (x : Z) : Z :=
  if 2 * x <? 256 then 2 * x else Z.lxor (2 * x - 256) 27.

Definition mul2 (x : Z) : Z := xtime x.
Definition mul3 (x : Z) : Z := Z.lxor (xtime x) x.
Definition mul9 (x : Z) : Z := Z.lxor (xtime (xtime (xtime x))) x.
Definition mul11 (x : Z) : Z :=
  Z.lxor (Z.lxor (xtime (xtime (xtime x))) (xtime x)) x.
Definition mul13 (x : Z) : Z :=
  Z.lxor (Z.lxor (xtime (xtime (xtime x))) (xtime (xtime x))) x.
Definition mul14 (x : Z) : Z :=
  Z.lxor (Z.lxor (xtime (xtime (xtime x))) (xtime (xtime x))) (xtime x).

Definition sub_bytes (s : list Z) : list Z := List.map sbox s.
Definition inv_sub_bytes (s : list Z) : list Z := List.map inv_sbox s.

(** The state is held column by column; row [r] moves [r] columns left. *)
Definition shift_rows (s : list Z) : list Z :=
  match s with
  | [s0; s1; s2; s3; s4; s5; s6; s7; s8; s9; s10; s11; s12; s13; s14; s15] =>
    [s0; s5; s10; s15; s4; s9; s14; s3; s8; s13; s2; s7; s12; s1; s6; s11]
  | _ => s
  end.

Definition inv_shift_rows (s : list Z) : list Z :=
  match s with
  | [s0; s1; s2; s3; s4; s5; s6; s7; s8; s9; s10; s11; s12; s13; s14; s15] =>
    [s0; s13; s10; s7; s4; s1; s14; s11; s8; s5; s2; s15; s12; s9; s6; s3]
  | _ => s
  end.

Definition xor4 (w x y z : Z) : Z := Z.lxor (Z.lxor (Z.lxor w x) y) z.

Definition mix_column (a b c d : Z) : list Z :=
  [xor4 (mul2 a) (mul3 b) c d;
   xor4 a (mul2 b) (mul3 c) d;
   xor4 a b (mul2 c) (mul3 d);
   xor4 (mul3 a) b c (mul2 d)].

Definition inv_mix_column (a b c d : Z) : list Z :=
  [xor4 (mul14 a) (mul11 b) (mul13 c) (mul9 d);
   xor4 (mul9 a) (mul14 b) (mul11 c) (mul13 d);
   xor4 (mul13 a) (mul9 b) (mul14 c) (mul11 d);
   xor4 (mul11 a) (mul13 b) (mul9 c) (mul14 d)].

Fixpoint mix_columns (s : list Z) : list Z :=
  match s with
  | a :: b :: c :: d :: r => mix_column a b c d ++ mix_columns r
  | _ => []
  end.

Fixpoint inv_mix_columns (s : list Z) : list Z :=
  match s with
  | a :: b :: c :: d :: r => inv_mix_column a b c d ++ inv_mix_columns r
  | _ => []
  end.

Definition add_round_key (rk s : list Z) : list Z := zip_with Z.lxor s rk.

(** *** Key expansion, for a 256-bit key: 60 words *)

Fixpoint words (bs : list Z) : list (list Z) :=
  match bs with
  | a :: b :: c :: d :: r => [a; b; c; d] :: words r
  | _ => []
  end.

Definition rot_word (w : list Z) : list Z :=
  match w with
  | [a; b; c; d] => [b; c; d; a]
  | _ => w
  end.

Definition sub_word (w : list Z) : list Z := List.map sbox w.
Definition xor_word (u v : list Z) : list Z := zip_with Z.lxor u v.

Fixpoint rcon (n : nat) : Z :=
  match n with
  | O => 1
  | S k => xtime (rcon k)
  end.

(** Word [i] from the [i] words before it. *)
Definition next_word (ws : list (list Z)) : list Z :=
  let i := length ws in
  let temp := nth (i - 1) ws [] in
  let temp :=
    if (i mod 8 =? 0)%nat
    then xor_word (sub_word (rot_word temp)) [rcon (i / 8 - 1); 0; 0; 0]
    else if (i mod 8 =? 4)%nat then sub_word temp
    else temp in
  xor_word (nth (i - 8) ws []) temp.

Fixpoint expand (n : nat) (ws : list (list Z)) : list (list Z) :=
  match n with
  | O => ws
  | S k => expand k (ws ++ [next_word ws])
  end.

Definition key_expansion (key : list Z) : list (list Z) := expand 52 (words key).

Definition round_key (ws : list (list Z)) (r : nat) : list Z :=
  concat (take 4 (drop (4 * r) ws)).

(** *** Cipher and inverse cipher *)

Definition round (s rk : list Z) : list Z :=
  add_round_key rk (mix_columns (shift_rows (sub_bytes s))).

Definition final_round (s rk : list Z) : list Z :=
  add_round_key rk (shift_rows (sub_bytes s)).

Definition inv_round (rk s : list Z) : list Z :=
  inv_sub_bytes (inv_shift_rows (inv_mix_columns (add_round_key rk s))).

Definition inv_final_round (rk s : list Z) : list Z :=
  inv_sub_bytes (inv_shift_rows (add_round_key rk s)).

Definition cipher (first : list Z) (middle : list (list Z)) (last : list Z)
  (b : list Z) : list Z :=
  final_round (fold_left round middle (add_round_key first b)) last.

Definition inv_cipher (first : list Z) (middle : list (list Z)) (last : list Z)
  (c : list Z) : list Z :=
  add_round_key first (fold_right inv_round (inv_final_round last c) middle).

Definition middle_keys (ws : list (list Z)) : list (list Z) :=
  List.map (round_key ws) (seq 1 13).

Definition encrypt (key b : list Z) : list Z :=
  let ws := key_expansion key in
  cipher (round_key ws 0) (middle_keys ws) (round_key ws 14) b.

Definition decrypt (key c : list Z) : list Z :=
  let ws := key_expansion key in
  inv_cipher (round_key ws 0) (middle_keys ws) (round_key ws 14) c.

End AES.


(** ** The HTML extraction layer: the regular expressions of [utils.ts] *)

Module Html.
Import JS.

(** The patterns of the plugin are sequences of literals, single classes
    and starred classes; that fragment is matched here with the priorities
    of the backtracking matcher of the language: a greedy star tries the
    longest run first, a lazy one the shortest. *)
Inductive item : Type :=
| Lit (ignoreCase : bool) (cs : jsstring)
| Class (p : Z -> bool)
| Star (p : Z -> bool)
| LazyStar (p : Z -> bool)
| EndOfInput.

Definition regex := list item.

(** Comparison of a pattern unit with an input unit; with the [i] flag a
    Basic Latin letter matches both of its cases and nothing else. *)
Definition unit_matches (ignoreCase : bool) (pat c : Z) : bool :=
  if ignoreCase then lower_unit pat =? lower_unit c else pat =? c.

Fixpoint match_lit (ignoreCase : bool) (cs s : jsstring) : option jsstring :=
  match cs, s with
  | [], _ => Some s
  | x :: cs', c :: s' =>
    if unit_matches ignoreCase x c then match_lit ignoreCase cs' s' else None
  | _ :: _, [] => None
  end.

Definition with_own (o : option (jsstring * list jsstring * jsstring))
  : option (list jsstring * jsstring) :=
  match o with
  | Some (own, caps, out) => Some (own :: caps, out)
  | None => None
  end.

(** [match_here r s]: the first match of [r] anchored at the start of [s],
    as the text each item consumed and the input left after the match. *)
Fixpoint match_here (r : regex) (s : jsstring)
  : option (list jsstring * jsstring) :=
  match r with
  | [] => Some ([], s)
  | it :: r' =>
    let continue := match_here r' in
    match it with
    | Lit ic cs =>
      match match_lit ic cs s with
      | Some rest =>
        match continue rest with
        | Some (caps, out) => Some (take (length cs) s :: caps, out)
        | None => None
        end
      | None => None
      end
    | Class p =>
      match s with
      | c :: s' =>
        if p c then
          match continue s' with
          | Some (caps, out) => Some ([c] :: caps, out)
          | None => None
          end
        else None
      | [] => None
      end
    | Star p =>
      with_own ((fix greedy (s : jsstring) : option (jsstring * list jsstring * jsstring) :=
         let stop :=
           match continue s with
           | Some (caps, out) => Some ([], caps, out)
           | None => None
           end in
         match s with
         | c :: s' =>
           if p c then
             match greedy s' with
             | Some (own, caps, out) => Some (c :: own, caps, out)
             | None => stop
             end
           else stop
         | [] => stop
         end) s)
    | LazyStar p =>
      with_own ((fix lazy (s : jsstring) : option (jsstring * list jsstring * jsstring) :=
         match continue s with
         | Some (caps, out) => Some ([], caps, out)
         | None =>
           match s with
           | c :: s' =>
             if p c then
               match lazy s' with
               | Some (own, caps, out) => Some (c :: own, caps, out)
               | None => None
               end
             else None
           | [] => None
           end
         end) s)
    | EndOfInput =>
      match s with
      | [] =>
        match continue [] with
        | Some (caps, out) => Some ([] :: caps, out)
        | None => None
        end
      | _ :: _ => None
      end
    end
  end.

(** The leftmost match: the text before it, what the items consumed, and
    the text after it. *)
Fixpoint search (r : regex) (s : jsstring)
  : option (jsstring * list jsstring * jsstring) :=
  match match_here r s with
  | Some (caps, out) => Some ([], caps, out)
  | None =>
    match s with
    | c :: s' =>
      match search r s' with
      | Some (pre, caps, out) => Some (c :: pre, caps, out)
      | None => None
      end
    | [] => None
    end
  end.

(** [s.replace(r, '')] without the [g] flag. *)
Definition replace_first (r : regex) (s : jsstring) : jsstring :=
  match search r s with
  | Some (pre, _, out) => pre ++ out
  | None => s
  end.

(** [s.replace(r, '')] with the [g] flag: [skip] units of a match are still
    to be dropped; after an empty match the scan moves one unit on. *)
Fixpoint replace_all_from (r : regex) (skip : nat) (s : jsstring) : jsstring :=
  match s with
  | [] => []
  | c :: s' =>
    match skip with
    | S k => replace_all_from r k s'
    | O =>
      match match_here r s with
      | Some (_, out) =>
        match (length s - length out)%nat with
        | O => c :: replace_all_from r 0 s'
        | S k => replace_all_from r k s'
        end
      | None => c :: replace_all_from r 0 s'
      end
    end
  end.

Definition replace_all (r : regex) (s : jsstring) : jsstring :=
  replace_all_from r 0 s.

(** [s.match(r)] with the [g] flag: the matched substrings, left to right
    ([null] is the empty list here; the callers test it before use). *)
Fixpoint match_all_from (r : regex) (skip : nat) (s : jsstring)
  : list jsstring :=
  match s with
  | [] => []
  | _ :: s' =>
    match skip with
    | S k => match_all_from r k s'
    | O =>
      match match_here r s with
      | Some (_, out) =>
        let n := (length s - length out)%nat in
        take n s :: match_all_from r (n - 1) s'
      | None => match_all_from r 0 s'
      end
    end
  end.

Definition match_all (r : regex) (s : jsstring) : list jsstring :=
  match_all_from r 0 s.

Definition any_unit (c : Z) : bool := true.
Definition not_unit (x : Z) (c : Z) : bool := negb (c =? x).
Definition not_paren (c : Z) : bool := negb ((c =? 40) || (c =? 41)).

Definition gt : Z := 62.
Definition quote : Z := 34.

(** [/<[^>]*>/g] *)
Definition re_tag : regex := [Lit false (lit "<"); Star (not_unit gt); Lit false (lit ">")].

(** [/<[^>]*class="[^"]*NAME[^"]*"[^>]*>[\s\S]*?<\/[^>]+>/gi] *)
Definition re_class_region (name : jsstring) : regex :=
  [Lit true (lit "<"); Star (not_unit gt); Lit true (lit "class=" ++ [quote]);
   Star (not_unit quote); Lit true name; Star (not_unit quote);
   Lit true [quote]; Star (not_unit gt); Lit true (lit ">");
   LazyStar any_unit;
   Lit true (lit "</"); Class (not_unit gt); Star (not_unit gt);
   Lit true (lit ">")].

(** [/\([^()]*\)$/] *)
Definition re_suffix : regex :=
  [Lit false (lit "("); Star not_paren; Lit false (lit ")"); EndOfInput].

Definition removeSuffix (courseName : jsstring) : jsstring :=
  replace_first re_suffix courseName.

Definition parseTitle (titleHtml : jsstring) : jsstring :=
  match titleHtml with
  | [] => []
  | _ :: _ =>
    let html := titleHtml in
    let html := replace_all (re_class_region (lit "inlineContextMenu")) html in
    let html := replace_all (re_class_region (lit "announcementType")) html in
    let html := replace_all (re_class_region (lit "announcementPosted")) html in
    slice (trim (replace_all re_tag html)) 0 (-2)
  end.

Definition parseContent (contentHtml : jsstring) : jsstring :=
  match contentHtml with
  | [] => []
  | _ :: _ => trim (replace_all re_tag contentHtml)
  end.

(** [/<title[^>]*>(.*?)<\/title>/is]; group 1 is item 3. *)
Definition re_title : regex :=
  [Lit true (lit "<title"); Star (not_unit gt); Lit true (lit ">");
   LazyStar any_unit; Lit true (lit "</title>")].

(** [/<div[^>]*class="[^"]*vtbegenerated[^"]*"[^>]*>(.*?)<\/div>/is];
    group 1 is item 9. *)
Definition re_vtbegenerated : regex :=
  [Lit true (lit "<div"); Star (not_unit gt); Lit true (lit "class=" ++ [quote]);
   Star (not_unit quote); Lit true (lit "vtbegenerated"); Star (not_unit quote);
   Lit true [quote]; Star (not_unit gt); Lit true (lit ">");
   LazyStar any_unit; Lit true (lit "</div>")].

(** [/<TAG[^>]*id="ID"[^>]*>(.*?)<\/TAG>/is]; group 1 is item 5. *)
Definition re_by_id (tag id : jsstring) : regex :=
  [Lit true (lit "<" ++ tag); Star (not_unit gt);
   Lit true (lit "id=" ++ [quote] ++ id ++ [quote]);
   Star (not_unit gt); Lit true (lit ">");
   LazyStar any_unit; Lit true (lit "</" ++ tag ++ lit ">")].

(** [/<a[^>]*>(.*?)<\/a>/gis] *)
Definition re_link : regex :=
  [Lit true (lit "<a"); Star (not_unit gt); Lit true (lit ">");
   LazyStar any_unit; Lit true (lit "</a>")].

(** Group [i] of [s.match(r)] without the [g] flag. *)
Definition group (i : nat) (r : regex) (s : jsstring) : option jsstring :=
  match search r s with
  | Some (_, caps, _) => caps !! i
  | None => None
  end.

Definition marker : Z := 22797.

(** [hasAttempted]: the page title starts with the re-submission mark. *)
Definition hasAttempted (assignmentHtml : jsstring) : bool :=
  match group 3 re_title assignmentHtml with
  | None | Some [] => false
  | Some t =>
    match trim (replace_all re_tag t) with
    | c :: _ => c =? marker
    | [] => false
    end
  end.

Fixpoint decimal_fuel (fuel n : nat) : jsstring :=
  match fuel with
  | O => []
  | S f =>
    (if (n <? 10)%nat then [] else decimal_fuel f (n / 10))
    ++ [48 + Z.of_nat (n mod 10)]
  end.

(** A natural number as its decimal digits. *)
Definition decimal (n : nat) : jsstring := decimal_fuel (S n) n.

Definition attachment_label : jsstring := [10; 38468; 20214].
Definition fullwidth_colon : Z := 65306.

(** The [forEach] over the links of a block: one numbered line for each
    link with a non-empty label. *)
Definition attachment_lines (block : option jsstring) : jsstring :=
  match block with
  | None => []
  | Some inner =>
    concat (imap (fun index link =>
                    match trim (replace_all re_tag link) with
                    | [] => []
                    | linkText =>
                      attachment_label ++ decimal (index + 1)
                      ++ [fullwidth_colon] ++ linkText
                    end)
                 (match_all re_link inner))
  end.

Definition parseInstruction (assignmentHtml : jsstring) : jsstring :=
  match assignmentHtml with
  | [] => []
  | _ :: _ =>
    let text :=
      match group 9 re_vtbegenerated assignmentHtml with
      | Some inner => trim (replace_all re_tag inner)
      | None => []
      end in
    if hasAttempted assignmentHtml
    then text ++ attachment_lines
                   (group 5 (re_by_id (lit "div") (lit "assignmentInfo"))
                          assignmentHtml)
    else text ++ attachment_lines
                   (group 5 (re_by_id (lit "li") (lit "instructions"))
                          assignmentHtml)
  end.

End Html.

(** ** Data: feed entries, records, configuration, messages *)

Module Entry.
(** A raw entry of the notice stream ([sv_streamEntries]); a field that may
    be missing is an [option]. *)
Record t := {
  se_id : JS.jsstring;
  se_timestamp : Z;
  se_courseId : JS.jsstring;
  se_context : option JS.jsstring;
  se_details : option JS.jsstring;
  event_type : option JS.jsstring;
  se_itemUri : option JS.jsstring;
  dueDate : option JS.jsstring
}.
End Entry.

Module Course.
Record t := { id : JS.jsstring; name : JS.jsstring }.
End Course.

Module NoticeData.
Record t := {
  sx_courses : option (list Course.t);
  sv_streamEntries : option (list Entry.t)
}.
End NoticeData.

Module CalendarEntry.
Record t := {
  id : JS.jsstring;
  endDate : JS.jsstring;
  calendarName : JS.jsstring;
  title : JS.jsstring;
  description : option JS.jsstring
}.
End CalendarEntry.

Module NoticeRecord.
Record t := {
  noticeId : JS.jsstring;
  time : JS.jsstring;
  course : JS.jsstring;
  title : JS.jsstring;
  content : JS.jsstring;
  event : JS.jsstring;
  shouldNotify : bool
}.
End NoticeRecord.

Module AssignmentRecord.
Record t := {
  assignmentId : JS.jsstring;
  time : JS.jsstring;
  course : JS.jsstring;
  title : JS.jsstring;
  description : JS.jsstring;
  shouldNotify : bool
}.
End AssignmentRecord.

Module Row.
(** A stored row: the record and the columns [createNoticeRecords] and
    [createAssignmentRecords] add. *)
Record t (R : Type) := {
  userId : JS.jsstring;
  createdAt : Z;
  updatedAt : Z;
  record : R
}.
Arguments userId {R} _.
Arguments createdAt {R} _.
Arguments updatedAt {R} _.
Arguments record {R} _.
End Row.

Module Config.
(** [BlackboardWatcherConfig].  The two JSON columns are carried as what
    [JSON.parse(text || '{}')] makes of them: [None] when it throws,
    otherwise the value, which is whatever JSON the dialogue was given. *)
Record t := {
  courseAliases : option JSON.value;
  noticeTitlePrefix : JS.jsstring;
  generalAllowedEvents : JS.jsstring;
  specificCourseEvents : option JSON.value;
  calendarAdvanceHours : Z;
  assignmentTitlePrefix : JS.jsstring
}.
End Config.

(** What [session.send] is called with.  The constructor records the call
    site; the alerts carry their text. *)
Inductive Message : Type :=
| NoticeInitialized (synced : nat)
| NoticeAlert (text : JS.jsstring)
| NoticeFailed (e : JS.error)
| AdvanceHoursNotPositive
| CalendarInitialized
| AssignmentAlert (text : JS.jsstring)
| CalendarFailed (e : JS.error).

(** The requests the client issues. *)
Inductive Request : Type :=
| OauthLogin (userName password : JS.jsstring)
| CampusLogin (token : JS.jsstring)
| StreamViewerView (cookie : JS.jsstring)
| StreamViewerLoad (cookie : JS.jsstring)
| SelectedCalendarEvents (start stop : Z) (cookie : JS.jsstring)
| NoticeItemPage (uri cookie : JS.jsstring)
| CalendarAttemptPage (calendarId cookie : JS.jsstring).

(** Lines written to the logger or the console. *)
Inductive LogLine : Type :=
| LogLoginFailed (e : JS.error)
| LogNoticeDataFailed (e : JS.error)
| LogCalendarDataFailed (e : JS.error)
| LogHttpStatus (status : Z)
| LogHttpBody (data : JS.jsstring)
| LogAssignmentDetailFailed (e : JS.error)
| LogCreateNoticeFailed (e : JS.error)
| LogCreateAssignmentFailed (e : JS.error).

Module Http.
Record response (D : Type) := {
  data : D;
  set_cookie : option (list JS.jsstring)
}.
Arguments data {D} _.
Arguments set_cookie {D} _.

Record iaaa_data := { success : bool; token : JS.jsstring }.
End Http.

(** ** The world of a check and the monad of the [async] code *)

Module Run.
Import JS.

(** What lies outside the plugin: the remote platform, the message sink,
    the database driver, the clock and the locale conversions of [Date]. *)
Record Env := {
  oauthlogin : jsstring -> jsstring -> result (Http.response Http.iaaa_data);
  campusLogin : jsstring -> result (Http.response unit);
  streamViewerView : jsstring -> result (Http.response unit);
  streamViewerLoad : jsstring -> result (Http.response NoticeData.t);
  selectedCalendarEvents :
    Z -> Z -> jsstring -> result (Http.response (list CalendarEntry.t));
  noticeItemPage : jsstring -> jsstring -> result (Http.response jsstring);
  calendarAttemptPage : jsstring -> jsstring -> result (Http.response jsstring);
  deliver : Message -> bool;
  create_notice :
    list (Row.t NoticeRecord.t) -> Row.t NoticeRecord.t -> bool;
  create_assignment :
    list (Row.t AssignmentRecord.t) -> Row.t AssignmentRecord.t -> bool;
  clock : nat -> Z;
  convertToTime : Z -> jsstring;
  convertTimezone : jsstring -> jsstring;
  convertToTimestamp : jsstring -> option Z
}.

(** The state a check reads and writes: the cookie jar of the client, the
    number of clock readings so far, the requests issued, the messages
    handed to [session.send], the log, and the two record tables. *)
Record World := {
  cookies : list (jsstring * jsstring);
  ticks : nat;
  requests : list Request;
  sent : list Message;
  log : list LogLine;
  notice_record : list (Row.t NoticeRecord.t);
  assignment_record : list (Row.t AssignmentRecord.t)
}.

Definition set_cookies (f : list (jsstring * jsstring) -> list (jsstring * jsstring))
  (w : World) : World :=
  {| cookies := f (cookies w); ticks := ticks w; requests := requests w;
     sent := sent w; log := log w; notice_record := notice_record w;
     assignment_record := assignment_record w |}.

Definition set_ticks (f : nat -> nat) (w : World) : World :=
  {| cookies := cookies w; ticks := f (ticks w); requests := requests w;
     sent := sent w; log := log w; notice_record := notice_record w;
     assignment_record := assignment_record w |}.

Definition set_requests (f : list Request -> list Request) (w : World) : World :=
  {| cookies := cookies w; ticks := ticks w; requests := f (requests w);
     sent := sent w; log := log w; notice_record := notice_record w;
     assignment_record := assignment_record w |}.

Definition set_sent (f : list Message -> list Message) (w : World) : World :=
  {| cookies := cookies w; ticks := ticks w; requests := requests w;
     sent := f (sent w); log := log w; notice_record := notice_record w;
     assignment_record := assignment_record w |}.

Definition set_log (f : list LogLine -> list LogLine) (w : World) : World :=
  {| cookies := cookies w; ticks := ticks w; requests := requests w;
     sent := sent w; log := f (log w); notice_record := notice_record w;
     assignment_record := assignment_record w |}.

Definition set_notice_record
  (f : list (Row.t NoticeRecord.t) -> list (Row.t NoticeRecord.t))
  (w : World) : World :=
  {| cookies := cookies w; ticks := ticks w; requests := requests w;
     sent := sent w; log := log w; notice_record := f (notice_record w);
     assignment_record := assignment_record w |}.

Definition set_assignment_record
  (f : list (Row.t AssignmentRecord.t) -> list (Row.t AssignmentRecord.t))
  (w : World) : World :=
  {| cookies := cookies w; ticks := ticks w; requests := requests w;
     sent := sent w; log := log w; notice_record := notice_record w;
     assignment_record := f (assignment_record w) |}.

(** An [async] function: from a world to a value or a thrown error, and the
    world it leaves.  The effects made before a [throw] stay. *)
Definition M (A : Type) : Type := World -> result A * World.

Definition ret {A} (a : A) : M A := fun w => (Ok a, w).

Definition throw {A} (e : error) : M A := fun w => (Throw e, w).

Definition bind {A B} (m : M A) (k : A -> M B) : M B :=
  fun w =>
    match m w with
    | (Ok a, w') => k a w'
    | (Throw e, w') => (Throw e, w')
    end.

(** [try { m } catch (e) { h e }] *)
Definition try_catch {A} (m : M A) (h : error -> M A) : M A :=
  fun w =>
    match m w with
    | (Ok a, w') => (Ok a, w')
    | (Throw e, w') => h e w'
    end.

Declare Scope run_scope.
Delimit Scope run_scope with run.
Notation "'let*' x ':=' m 'in' k" := (bind m (fun x => k))
  (at level 10, x pattern, m at level 100, k at level 200) : run_scope.
Notation "m ';;' k" := (bind m (fun _ => k))
  (at level 100, k at level 200, right associativity) : run_scope.

Local Open Scope run_scope.

(** [for (const x of l) { await f x }] *)
Fixpoint for_of {A} (l : list A) (f : A -> M unit) : M unit :=
  match l with
  | [] => ret tt
  | x :: r => f x ;; for_of r f
  end.

Definition modify (f : World -> World) : M unit := fun w => (Ok tt, f w).

Definition lift {A} (r : result A) : M A := fun w => (r, w).

Definition write_log (l : LogLine) : M unit := modify (set_log (fun ls => ls ++ [l])).

(** [Date.now()]: each call is one more reading of the clock. *)
Definition Date_now (env : Env) : M Z :=
  fun w => (Ok (clock env (ticks w)), set_ticks S w).

(** [session.send]: the call is recorded, then resolves or rejects as the
    sink decides. *)
Definition send (env : Env) (m : Message) : M unit :=
  modify (set_sent (fun ms => ms ++ [m])) ;;
  if deliver env m then ret tt else throw SendError.

(** An HTTP call: the request is recorded, the answer is the platform's. *)
Definition http {D} (r : Request) (answer : result (Http.response D))
  : M (Http.response D) :=
  modify (set_requests (fun rs => rs ++ [r])) ;; lift answer.

End Run.

(** ** The authenticated session: [BlackboardClient] of [core/blackboard.ts] *)

Module Client.
Import JS Run.
Local Open Scope run_scope.

(** [Map.prototype.set] on the insertion-ordered cookie jar. *)
Fixpoint map_set (name value : jsstring) (jar : list (jsstring * jsstring))
  : list (jsstring * jsstring) :=
  match jar with
  | [] => [(name, value)]
  | (n, v) :: r =>
    if jseqb n name then (name, value) :: r else (n, v) :: map_set name value r
  end.

Definition truthy (s : option jsstring) : bool :=
  match s with
  | Some (_ :: _) => true
  | _ => false
  end.

(** One [Set-Cookie] header: the text before the first [;] is split at
    [=]; the cookie is kept when both sides are non-empty. *)
Definition extractCookie (cookie : jsstring) (jar : list (jsstring * jsstring))
  : list (jsstring * jsstring) :=
  let nameValue := default [] (split 59 cookie !! 0%nat) in
  let name := split 61 nameValue !! 0%nat in
  let value := split 61 nameValue !! 1%nat in
  if truthy name && truthy value
  then map_set (trim (default [] name)) (trim (default [] value)) jar
  else jar.

Definition extractCookies {D} (response : Http.response D) : M unit :=
  match Http.set_cookie response with
  | Some setCookieHeaders =>
    modify (set_cookies (fun jar => fold_left (fun j c => extractCookie c j)
                                              setCookieHeaders jar))
  | None => ret tt
  end.

Fixpoint join (sep : jsstring) (l : list jsstring) : jsstring :=
  match l with
  | [] => []
  | [x] => x
  | x :: r => x ++ sep ++ join sep r
  end.

Definition generateCookieString : M jsstring :=
  fun w =>
    (Ok (join (lit "; ")
              (List.map (fun '(name, value) => name ++ lit "=" ++ value)
                        (cookies w))), w).

(** The [catch] blocks of the client log the error and, when the error
    carries a response, its status and its body. *)
Definition log_failure (line : error -> LogLine) (e : error) : M unit :=
  write_log (line e) ;;
  match e with
  | AxiosError (Some (status, data)) =>
    write_log (LogHttpStatus status) ;; write_log (LogHttpBody data)
  | _ => ret tt
  end.

(** [login()]: the two-stage handshake.  Every error is caught; the result
    is a boolean. *)
Definition login (env : Env) (username password : jsstring) : M bool :=
  try_catch
    (let* response :=
       http (OauthLogin username password) (oauthlogin env username password) in
     let iaaa_data := Http.data response in
     (if negb (Http.success iaaa_data) then throw LoginRejected else ret tt) ;;
     let token := Http.token iaaa_data in
     let* response := http (CampusLogin token) (campusLogin env token) in
     extractCookies response ;;
     ret true)
    (fun e => log_failure LogLoginFailed e ;; ret false).

(** [delay(ms)]: nothing observable happens while waiting. *)
Definition delay (ms : Z) : M unit := ret tt.

Definition getNoticeData (env : Env) : M NoticeData.t :=
  try_catch
    (let* cookie := generateCookieString in
     let* response := http (StreamViewerView cookie) (streamViewerView env cookie) in
     extractCookies response ;;
     delay 3000 ;;
     let* cookie := generateCookieString in
     let* response := http (StreamViewerLoad cookie) (streamViewerLoad env cookie) in
     extractCookies response ;;
     ret (Http.data response))
    (fun e => log_failure LogNoticeDataFailed e ;; throw (NoticeFetchFailed e)).

(** [testWithinHours] of [utils.ts]; an unparsable date is [NaN], and every
    comparison with [NaN] is false. *)
Definition testWithinHours (env : Env) (timeStr : jsstring) (advanceHours : Z)
  : M bool :=
  let* currentTimestamp := Date_now env in
  let targetTimestamp := convertToTimestamp env timeStr in
  ret (match targetTimestamp with
       | Some target => target - currentTimestamp <=? advanceHours * 3600000
       | None => false
       end).

(** [Array.prototype.filter] with a callback that reads the clock. *)
Fixpoint filter_of {A} (l : list A) (p : A -> M bool) : M (list A) :=
  match l with
  | [] => ret []
  | x :: r =>
    let* keep := p x in
    let* rest := filter_of r p in
    ret (if keep then x :: rest else rest)
  end.

Definition getCalendarData (env : Env) (advanceHours : Z)
  : M (list CalendarEntry.t) :=
  try_catch
    (let* currentTimestamp := Date_now env in
     let start := currentTimestamp - 3 * 3600000 in
     let stop := currentTimestamp + advanceHours * 3600000 in
     let* cookie := generateCookieString in
     let* response :=
       http (SelectedCalendarEvents start stop cookie)
            (selectedCalendarEvents env start stop cookie) in
     extractCookies response ;;
     let* filteredData :=
       filter_of (Http.data response)
                 (fun entry =>
                    testWithinHours env (CalendarEntry.endDate entry) advanceHours) in
     ret filteredData)
    (fun e => log_failure LogCalendarDataFailed e ;; throw (CalendarFetchFailed e)).

Definition getAssignmentFromNotice (env : Env) (uri : jsstring) : M jsstring :=
  try_catch
    (let* cookie := generateCookieString in
     let* response := http (NoticeItemPage uri cookie) (noticeItemPage env uri cookie) in
     extractCookies response ;;
     ret (Http.data response))
    (fun e => throw (PageFetchFailed e)).

Definition getAssignmentFromCalendar (env : Env) (calendarId : jsstring)
  : M jsstring :=
  try_catch
    (let* cookie := generateCookieString in
     let* response :=
       http (CalendarAttemptPage calendarId cookie)
            (calendarAttemptPage env calendarId cookie) in
     extractCookies response ;;
     ret (Http.data response))
    (fun e => throw (PageFetchFailed e)).

End Client.

(** ** The record tables: [database.ts] *)

Module Database.
Import JS Run.
Local Open Scope run_scope.

(** [ctx.database.get(table, { userId })] *)
Definition get {R} (userId : jsstring) (table : list (Row.t R)) : list (Row.t R) :=
  List.filter (fun row => jseqb (Row.userId row) userId) table.

Definition getNoticeRecords (userId : jsstring) : M (list (Row.t NoticeRecord.t)) :=
  fun w => (Ok (get userId (notice_record w)), w).

Definition getAssignmentRecords (userId : jsstring)
  : M (list (Row.t AssignmentRecord.t)) :=
  fun w => (Ok (get userId (assignment_record w)), w).

(** [ctx.database.create('notice_record', row)]: the driver appends the row
    or rejects. *)
Definition create_notice_record (env : Env) (row : Row.t NoticeRecord.t) : M unit :=
  fun w =>
    if create_notice env (notice_record w) row
    then (Ok tt, set_notice_record (fun t => t ++ [row]) w)
    else (Throw DatabaseError, w).

Definition create_assignment_record (env : Env) (row : Row.t AssignmentRecord.t)
  : M unit :=
  fun w =>
    if create_assignment env (assignment_record w) row
    then (Ok tt, set_assignment_record (fun t => t ++ [row]) w)
    else (Throw DatabaseError, w).

Definition stamp {R} (userId : jsstring) (now : Z) (record : R) : Row.t R :=
  {| Row.userId := userId; Row.createdAt := now; Row.updatedAt := now;
     Row.record := record |}.

Definition createNoticeRecords (env : Env) (userId : jsstring)
  (records : list NoticeRecord.t) : M unit :=
  let* now := Date_now env in
  let noticeRecords := List.map (stamp userId now) records in
  try_catch
    (for_of noticeRecords (fun record => create_notice_record env record))
    (fun e => write_log (LogCreateNoticeFailed e)).

Definition createAssignmentRecords (env : Env) (userId : jsstring)
  (records : list AssignmentRecord.t) : M unit :=
  let* now := Date_now env in
  let assignmentRecords := List.map (stamp userId now) records in
  try_catch
    (for_of assignmentRecords (fun record => create_assignment_record env record))
    (fun e => write_log (LogCreateAssignmentFailed e)).

End Database.

(** ** The notice pass: [core/notice_handler.ts] *)

Module NoticeHandler.
Import JS Run.
Local Open Scope run_scope.

(** [parseJSON(text, {})] on a column carried as its parse. *)
Definition parseJSON (parsed : option JSON.value) : JSON.value :=
  default (JSON.object ∅) parsed.

Definition isEventAllowed (config : Config.t) (course event : jsstring)
  : result bool :=
  let specificEvents := parseJSON (Config.specificCourseEvents config) in
  match JSON.get specificEvents (toLowerCase course) with
  | Throw e => Throw e
  | Ok found =>
    let allowedEvents := JSON.or_else found (Config.generalAllowedEvents config) in
    if startsWith event (lit "AS") then JSON.includes allowedEvents 49
    else if startsWith event (lit "CO") then JSON.includes allowedEvents 50
    else JSON.includes allowedEvents 51
  end.

Definition or_empty (s : option jsstring) : jsstring := default [] s.

Definition deadline_label : jsstring := [10; 25130; 27490; 26102; 38388; 65306].
Definition posted_label : jsstring := [10; 21457; 24067; 26102; 38388; 65306].
Definition fullwidth_colon : jsstring := [65306].

(** [courseDict[entry.se_courseId] || ''] is a string, or a member of
    [Object.prototype]; [isEventAllowed] calls [toLowerCase] on it, which
    only a string has. *)
Definition filterNoticeInfo (env : Env) (config : Config.t) (entry : Entry.t)
  (courseDict : gmap jsstring jsstring) (isInit : bool) : M NoticeRecord.t :=
  let id := Entry.se_id entry in
  let time := convertToTime env (Entry.se_timestamp entry) in
  let course := JSON.or_else (JSON.member courseDict (Entry.se_courseId entry)) [] in
  let title := Html.parseTitle (or_empty (Entry.se_context entry)) in
  let content := Html.parseContent (or_empty (Entry.se_details entry)) in
  let event := or_empty (Entry.event_type entry) in
  match course with
  | inr _ => throw TypeError
  | inl course =>
    let* shouldNotify := lift (isEventAllowed config course event) in
    let* content :=
      if jseqb event (lit "AS:AS_AVAIL") && Client.truthy (Entry.se_itemUri entry)
         && shouldNotify && negb isInit
      then
        try_catch
          (let* assignmentHtml :=
             Client.getAssignmentFromNotice env (or_empty (Entry.se_itemUri entry)) in
           let instruction := Html.parseInstruction assignmentHtml in
           let content :=
             match instruction with
             | [] => content
             | _ :: _ => content ++ [10] ++ instruction
             end in
           let content :=
             match Entry.dueDate entry with
             | Some (c :: d) => content ++ deadline_label ++ convertTimezone env (c :: d)
             | Some [] | None => content
             end in
           ret content)
          (fun e => write_log (LogAssignmentDetailFailed e) ;; ret content)
      else ret content in
    ret {| NoticeRecord.noticeId := id;
           NoticeRecord.time := time;
           NoticeRecord.course := course;
           NoticeRecord.title := title;
           NoticeRecord.content := trim content;
           NoticeRecord.event := event;
           NoticeRecord.shouldNotify := shouldNotify |}
  end.

(** The subject of an alert: the prefix, the alias of the course or the
    course itself, a colon when that is not empty, and the title. *)
Definition subject (aliases : option JSON.value) (prefix course title : jsstring)
  : result jsstring :=
  let aliases := parseJSON aliases in
  match JSON.get aliases (toLowerCase course) with
  | Throw e => Throw e
  | Ok found =>
    let course := JSON.or_else found course in
    match JSON.length_positive course with
    | Throw e => Throw e
    | Ok positive =>
      let sep := if positive then fullwidth_colon else [] in
      match JSON.text course with
      | Throw e => Throw e
      | Ok course => Ok (prefix ++ lit " " ++ course ++ sep ++ title)
      end
    end
  end.

Definition notifyNotice (env : Env) (config : Config.t) (record : NoticeRecord.t)
  : M unit :=
  let* subject :=
    lift (subject (Config.courseAliases config) (Config.noticeTitlePrefix config)
                  (NoticeRecord.course record) (NoticeRecord.title record)) in
  let body := NoticeRecord.content record ++ posted_label ++ NoticeRecord.time record in
  send env (NoticeAlert (subject ++ [10] ++ trim body)).

Definition init_id : jsstring := lit "%init%".

Definition initRecord (time : jsstring) : NoticeRecord.t :=
  {| NoticeRecord.noticeId := init_id;
     NoticeRecord.time := time;
     NoticeRecord.course := [];
     NoticeRecord.title := [21021; 22987; 21270; 26631; 35760];
     NoticeRecord.content :=
       [36890; 30693; 25552; 37266; 27169; 22359; 21021; 22987; 21270; 23436; 25104];
     NoticeRecord.event := [];
     NoticeRecord.shouldNotify := false |}.

(** The loop of step 3: the entries whose id is not in the set loaded
    before the loop are normalised and pushed, in feed order. *)
Fixpoint collect (env : Env) (config : Config.t) (oldNoticeIds : gset jsstring)
  (courseDict : gmap jsstring jsstring) (isInit : bool)
  (streamEntries : list Entry.t) : M (list NoticeRecord.t) :=
  match streamEntries with
  | [] => ret []
  | entry :: rest =>
    if bool_decide (Entry.se_id entry ∈ oldNoticeIds)
    then collect env config oldNoticeIds courseDict isInit rest
    else
      let* record := filterNoticeInfo env config entry courseDict isInit in
      let* records := collect env config oldNoticeIds courseDict isInit rest in
      ret (record :: records)
  end.

Definition courseDict_of (courseList : list Course.t) : gmap jsstring jsstring :=
  fold_left (fun dict course =>
               JSON.assign (Course.id course) (Html.removeSuffix (Course.name course))
                           dict)
            courseList ∅.

Definition process (env : Env) (userId : jsstring) (config : Config.t) : M unit :=
  try_catch
    (let* noticeData := Client.getNoticeData env in
     let courseList := default [] (NoticeData.sx_courses noticeData) in
     let courseDict := courseDict_of courseList in
     let* oldNoticeRecords := Database.getNoticeRecords userId in
     let oldNoticeIds : gset jsstring :=
       list_to_set (List.map (fun row => NoticeRecord.noticeId (Row.record row))
                             oldNoticeRecords) in
     let isInit := negb (bool_decide (init_id ∈ oldNoticeIds)) in
     let streamEntries := default [] (NoticeData.sv_streamEntries noticeData) in
     let* updatedNoticeRecords :=
       collect env config oldNoticeIds courseDict isInit streamEntries in
     let* updatedNoticeRecords :=
       if isInit then
         send env (NoticeInitialized (length updatedNoticeRecords)) ;;
         let* now := Date_now env in
         ret (updatedNoticeRecords ++ [initRecord (convertToTime env now)])
       else
         for_of updatedNoticeRecords
                (fun record =>
                   if NoticeRecord.shouldNotify record
                   then notifyNotice env config record
                   else ret tt) ;;
         ret updatedNoticeRecords in
     match updatedNoticeRecords with
     | [] => ret tt
     | _ :: _ => Database.createNoticeRecords env userId updatedNoticeRecords
     end)
    (fun error => send env (NoticeFailed error)).

End NoticeHandler.

(** ** The calendar pass: [core/calendar_handler.ts] *)

Module CalendarHandler.
Import JS Run.
Local Open Scope run_scope.

Definition personal : jsstring := [20010; 20154].
Definition personal_event : jsstring := [20010; 20154; 20107; 20214].

Definition filterAssignmentInfo (env : Env) (entry : CalendarEntry.t)
  : M AssignmentRecord.t :=
  let id := CalendarEntry.id entry in
  let time := convertTimezone env (CalendarEntry.endDate entry) in
  let course := Html.replace_first Html.re_suffix (CalendarEntry.calendarName entry) in
  let title := CalendarEntry.title entry in
  let description := NoticeHandler.or_empty (CalendarEntry.description entry) in
  let* enriched :=
    if negb (jseqb course personal) then
      try_catch
        (let* assignmentHtml := Client.getAssignmentFromCalendar env id in
         let shouldNotify := negb (Html.hasAttempted assignmentHtml) in
         if shouldNotify then
           match Html.parseInstruction assignmentHtml with
           | [] => ret (description, shouldNotify)
           | instruction => ret (description ++ [10] ++ instruction, shouldNotify)
           end
         else ret (description, shouldNotify))
        (fun e => write_log (LogAssignmentDetailFailed e) ;; ret (description, true))
    else ret (description, true) in
  let description := fst enriched in
  let shouldNotify := snd enriched in
  ret {| AssignmentRecord.assignmentId := id;
         AssignmentRecord.time := time;
         AssignmentRecord.course := course;
         AssignmentRecord.title := title;
         AssignmentRecord.description := trim description;
         AssignmentRecord.shouldNotify := shouldNotify |}.

Definition notifyAssignment (env : Env) (config : Config.t)
  (record : AssignmentRecord.t) : M unit :=
  let* subject :=
    if jseqb (AssignmentRecord.course record) personal then
      ret (Config.assignmentTitlePrefix config ++ lit " "
           ++ AssignmentRecord.title record)
    else
      lift (NoticeHandler.subject (Config.courseAliases config)
              (Config.assignmentTitlePrefix config)
              (AssignmentRecord.course record) (AssignmentRecord.title record)) in
  let body :=
    AssignmentRecord.description record ++ NoticeHandler.deadline_label
    ++ AssignmentRecord.time record in
  send env (AssignmentAlert (subject ++ [10] ++ trim body)).

Definition initRecord (time : jsstring) : AssignmentRecord.t :=
  {| AssignmentRecord.assignmentId := NoticeHandler.init_id;
     AssignmentRecord.time := time;
     AssignmentRecord.course := [];
     AssignmentRecord.title := [21021; 22987; 21270; 26631; 35760];
     AssignmentRecord.description :=
       [26085; 31243; 27169; 22359; 21021; 22987; 21270; 23436; 25104];
     AssignmentRecord.shouldNotify := false |}.

(** The loop of step 4; [filterAssignmentInfo] is not told whether the pass
    is the first one. *)
Fixpoint collect (env : Env) (oldAssignmentIds : gset jsstring)
  (calendarData : list CalendarEntry.t) : M (list AssignmentRecord.t) :=
  match calendarData with
  | [] => ret []
  | entry :: rest =>
    if bool_decide (CalendarEntry.id entry ∈ oldAssignmentIds)
    then collect env oldAssignmentIds rest
    else
      let* record := filterAssignmentInfo env entry in
      let* records := collect env oldAssignmentIds rest in
      ret (record :: records)
  end.

Definition process (env : Env) (userId : jsstring) (config : Config.t) : M unit :=
  try_catch
    (if Config.calendarAdvanceHours config <=? 0 then
       send env AdvanceHoursNotPositive
     else
       let* calendarData :=
         Client.getCalendarData env (Config.calendarAdvanceHours config) in
       let* oldAssignmentRecords := Database.getAssignmentRecords userId in
       let oldAssignmentIds : gset jsstring :=
         list_to_set
           (List.map (fun row => AssignmentRecord.assignmentId (Row.record row))
                     oldAssignmentRecords) in
       let isInit := negb (bool_decide (NoticeHandler.init_id ∈ oldAssignmentIds)) in
       let* updatedAssignmentRecords := collect env oldAssignmentIds calendarData in
       let* updatedAssignmentRecords :=
         if isInit then
           send env CalendarInitialized ;;
           let* now := Date_now env in
           ret (updatedAssignmentRecords ++ [initRecord (convertToTime env now)])
         else
           for_of updatedAssignmentRecords
                  (fun record =>
                     if AssignmentRecord.shouldNotify record
                     then notifyAssignment env config record
                     else ret tt) ;;
           ret updatedAssignmentRecords in
       match updatedAssignmentRecords with
       | [] => ret tt
       | _ :: _ => Database.createAssignmentRecords env userId updatedAssignmentRecords
       end)
    (fun error => send env (CalendarFailed error)).

End CalendarHandler.

(** ** The settings dialogue: [blackboard.config.set] of [commands/config.ts] *)

Module ConfigCommand.
Import JS.

(** The columns the dialogue can set. *)
Inductive Key : Type :=
| courseAliases | notifyNotice | noticeTitlePrefix | generalAllowedEvents
| specificCourseEvents | notifyAssignment | calendarAdvanceHours
| assignmentTitlePrefix.

Inductive Kind : Type := json | boolean | string | events | number.

(** What [configOptions[name]] gives: one of the eight options, a member
    inherited from [Object.prototype], or [undefined]. *)
Inductive Lookup : Type :=
| Own (key : Key) (kind : Kind)
| Inherited
| Missing.

Definition inherited_names : list jsstring :=
  [lit "constructor"; lit "__defineGetter__"; lit "__defineSetter__";
   lit "hasOwnProperty"; lit "__lookupGetter__"; lit "__lookupSetter__";
   lit "isPrototypeOf"; lit "propertyIsEnumerable"; lit "toString";
   lit "valueOf"; lit "__proto__"; lit "toLocaleString"].

Definition configOptions (name : jsstring) : Lookup :=
  if jseqb name (lit "1") then Own courseAliases json
  else if jseqb name (lit "2") then Own notifyNotice boolean
  else if jseqb name (lit "3") then Own noticeTitlePrefix string
  else if jseqb name (lit "4") then Own generalAllowedEvents events
  else if jseqb name (lit "5") then Own specificCourseEvents json
  else if jseqb name (lit "6") then Own notifyAssignment boolean
  else if jseqb name (lit "7") then Own calendarAdvanceHours number
  else if jseqb name (lit "8") then Own assignmentTitlePrefix string
  else if existsb (jseqb name) inherited_names then Inherited
  else Missing.

(** The value of a digit or letter as a digit, for [parseInt]. *)
Definition digit_value (c : Z) : option Z :=
  if in_range 48 57 c then Some (c - 48)
  else if in_range 97 122 c then Some (c - 87)
  else if in_range 65 90 c then Some (c - 55)
  else None.

(** The longest prefix of digits of the radix, as a number; [None] when
    there is no digit. *)
Fixpoint digits (radix : Z) (acc : option Z) (s : jsstring) : option Z :=
  match s with
  | [] => acc
  | c :: r =>
    match digit_value c with
    | Some d =>
      if d <? radix then digits radix (Some (default 0 acc * radix + d)) r else acc
    | None => acc
    end
  end.

(** [parseInt(s)] without a radix: leading white space and a sign are
    skipped, [0x] selects radix 16, what follows the digits is ignored, and
    no digit at all gives [NaN], here [None].  The value is the exact
    integer; the number the runtime makes of it is the same up to 2^53 and
    lies on the same side of every smaller bound beyond. *)
Definition parseInt (s : jsstring) : option Z :=
  let s := trimStart s in
  let sign := match s with 45 :: _ => -1 | _ => 1 end in
  let s := match s with
           | 45 :: r => r
           | 43 :: r => r
           | _ => s
           end in
  let hex := match s with
             | 48 :: x :: _ => (x =? 120) || (x =? 88)
             | _ => false
             end in
  let n := if hex then digits 16 None (drop 2 s) else digits 10 None s in
  match n with
  | Some n => Some (sign * n)
  | None => None
  end.

(** [/^[123]+$/.test(s)] *)
Definition only_123 (s : jsstring) : bool :=
  match s with
  | [] => false
  | _ :: _ => forallb (fun c => (c =? 49) || (c =? 50) || (c =? 51)) s
  end.

(** A reply that ends the dialogue: none, empty, or [quit] in any case. *)
Definition gives_up (answer : option jsstring) : bool :=
  match answer with
  | None | Some [] => true
  | Some s => jseqb (toLowerCase s) (lit "quit")
  end.

Inductive Value : Type :=
| VBool (b : bool)
| VString (s : jsstring)
| VNumber (n : Z).

(** What the dialogue sends while it runs. *)
Inductive Prompt : Type :=
| OptionsList
| Ask (key : Key) (kind : Kind).

(** What the action returns. *)
Inductive Reply : Type :=
| Exited
| InvalidChoice
| Enabled (key : Key)
| Disabled (key : Key)
| InvalidInput
| StringSet (key : Key) (value : jsstring)
| NumberOutOfRange
| NumberSet (key : Key) (n : Z)
| EventsInvalid
| EventsSet (value : jsstring)
| Cleared (key : Key)
| JsonUpdated (key : Key)
| JsonInvalid
| Unsupported.

(** What lies outside the action: whether the session takes a prompt,
    whether [upsertBBConfig] stores an update, and what
    [JSON.stringify(JSON.parse(s))] is, [None] when parsing throws. *)
Record Host := {
  takes : Prompt -> bool;
  stores : Key -> Value -> bool;
  normalize : jsstring -> option jsstring
}.

(** A run of the action: the prompts sent, the update handed to
    [upsertBBConfig], if any, and the reply, [None] when the action threw. *)
Record Outcome := {
  asked : list Prompt;
  update : option (Key * Value);
  reply : option Reply
}.

Definition finish (asked : list Prompt) (reply : Reply) : Outcome :=
  {| asked := asked; update := None; reply := Some reply |}.

(** [await upsertBBConfig(...)] outside a [try], then [return reply]. *)
Definition store (host : Host) (asked : list Prompt) (key : Key) (value : Value)
  (reply : Reply) : Outcome :=
  {| asked := asked; update := Some (key, value);
     reply := if stores host key value then Some reply else None |}.

(** The part of the action after the prompt of the chosen option was
    sent. *)
Definition answer (host : Host) (asked : list Prompt) (key : Key) (kind : Kind)
  (value : option jsstring) : Outcome :=
  if gives_up value then finish asked Exited
  else
    let text := default [] value in
    match kind with
    | boolean =>
      let lower := toLowerCase text in
      if jseqb lower (lit "yes") || jseqb lower (lit "y")
      then store host asked key (VBool true) (Enabled key)
      else if jseqb lower (lit "no") || jseqb lower (lit "n")
      then store host asked key (VBool false) (Disabled key)
      else finish asked InvalidInput
    | string => store host asked key (VString text) (StringSet key text)
    | number =>
      match parseInt (trim text) with
      | Some num =>
        if (num <? 3) || (48 <? num) then finish asked NumberOutOfRange
        else store host asked key (VNumber num) (NumberSet key num)
      | None => finish asked NumberOutOfRange
      end
    | events =>
      let events := trim text in
      if negb (only_123 events) || (length events =? 0)%nat
      then finish asked EventsInvalid
      else store host asked key (VString events) (EventsSet events)
    | json =>
      if jseqb (toLowerCase text) (lit "clear")
      then store host asked key (VString (lit "{}")) (Cleared key)
      else
        match normalize host (trim text) with
        | Some parsed =>
          {| asked := asked; update := Some (key, VString parsed);
             reply := Some (if stores host key (VString parsed)
                            then JsonUpdated key else JsonInvalid) |}
        | None => finish asked JsonInvalid
        end
    end.

(** The action of [blackboard.config.set], for the two replies the user
    gives, each [None] when the prompt times out. *)
Definition set (host : Host) (choice value : option jsstring) : Outcome :=
  if negb (takes host OptionsList)
  then {| asked := [OptionsList]; update := None; reply := None |}
  else if gives_up choice then finish [OptionsList] Exited
  else
    match configOptions (trim (default [] choice)) with
    | Missing => finish [OptionsList] InvalidChoice
    | Inherited => finish [OptionsList] Unsupported
    | Own key kind =>
      let asked := [OptionsList; Ask key kind] in
      if negb (takes host (Ask key kind))
      then {| asked := asked; update := None; reply := None |}
      else answer host asked key kind value
    end.

End ConfigCommand.

(** ** The accounts: the [iaaa_user] table of [database.ts] *)

Module IAAAUser.
Record t := {
  userId : JS.jsstring;
  username : JS.jsstring;
  password : JS.jsstring;
  createdAt : Z;
  updatedAt : Z
}.
End IAAAUser.

Module Accounts.
Import JS.

Definition owned_by (userId : jsstring) (row : IAAAUser.t) : bool :=
  jseqb (IAAAUser.userId row) userId.

(** [ctx.database.get('iaaa_user', { userId })] *)
Definition get (userId : jsstring) (table : list IAAAUser.t) : list IAAAUser.t :=
  List.filter (owned_by userId) table.

(** [getIAAAUser]: the first row of the identity, or [null]. *)
Definition getIAAAUser (userId : jsstring) (table : list IAAAUser.t)
  : option IAAAUser.t :=
  head (get userId table).

(** [upsertIAAAUser], at the time [now].  [ctx.database.upsert] with the key
    [userId] writes the fields it is given into the rows of that identity,
    and makes a row of them when there is none: the first branch finds the
    rows [get] found and leaves their [createdAt], the second finds none. *)
Definition upsertIAAAUser (now : Z) (userId username password : jsstring)
  (table : list IAAAUser.t) : list IAAAUser.t :=
  let existingUsers := get userId table in
  let exists_ := (0 <? length existingUsers)%nat in
  if exists_ then
    List.map (fun row =>
                if owned_by userId row
                then {| IAAAUser.userId := userId;
                        IAAAUser.username := username;
                        IAAAUser.password := password;
                        IAAAUser.createdAt := IAAAUser.createdAt row;
                        IAAAUser.updatedAt := now |}
                else row)
             table
  else
    table ++ [{| IAAAUser.userId := userId;
                 IAAAUser.username := username;
                 IAAAUser.password := password;
                 IAAAUser.createdAt := now;
                 IAAAUser.updatedAt := now |}].

End Accounts.

(** ** The commands: [commands/iaaa.ts] and [commands/check.ts] *)

Module BBConfig.
(** The row of [bb_watcher_config]: the two switches and the settings the
    passes read. *)
Record t := {
  notifyNotice : bool;
  notifyAssignment : bool;
  settings : Config.t
}.
End BBConfig.

Module Commands.
Import JS Run.
Local Open Scope run_scope.

Inductive BindReply : Type :=
| Usage
| LoginError (e : error)
| LoginFailed
| Bound.

Inductive CheckReply : Type :=
| NotBound
| Completed
| QueryFailed (e : error).

(** [new BlackboardClient(...)]: a client starts with an empty jar. *)
Definition new_client : M unit := modify (set_cookies (fun _ => [])).

Section WithCipher.
Context {C : Vault.BlockCipher}.

(** The action of [iaaa.bind <username> <password>]: the table of accounts
    is an argument and is returned with the reply; [iv] stands for the
    bytes [encrypt] draws. *)
Definition bind_account (env : Env) (encryptionKey : jsstring) (iv : list Z)
  (iaaa_user : list IAAAUser.t) (userId : jsstring)
  (username password : option jsstring)
  : M (BindReply * list IAAAUser.t) :=
  if negb (Client.truthy username) || negb (Client.truthy password)
  then ret (Usage, iaaa_user)
  else
    let username := default [] username in
    let password := default [] password in
    let* outcome :=
      try_catch
        (new_client ;;
         let* success := Client.login env username password in
         ret (inl success))
        (fun e => ret (inr e)) in
    match outcome with
    | inr e => ret (LoginError e, iaaa_user)
    | inl false => ret (LoginFailed, iaaa_user)
    | inl true =>
      let* stored := lift (Vault.encrypt encryptionKey iv password) in
      let* now := Date_now env in
      ret (Bound, Accounts.upsertIAAAUser now userId username stored iaaa_user)
    end.

(** The action of [blackboard.check], for the row [getOrCreateBBConfig]
    returns. *)
Definition check (env : Env) (encryptionKey : jsstring)
  (iaaa_user : list IAAAUser.t) (bbConfig : BBConfig.t) (userId : jsstring)
  : M CheckReply :=
  match Accounts.getIAAAUser userId iaaa_user with
  | None => ret NotBound
  | Some iaaaUser =>
    try_catch
      (let username := IAAAUser.username iaaaUser in
       let* password :=
         lift (Vault.decrypt encryptionKey (IAAAUser.password iaaaUser)) in
       new_client ;;
       let* _ := Client.login env username password in
       (if BBConfig.notifyNotice bbConfig
        then NoticeHandler.process env userId (BBConfig.settings bbConfig)
        else ret tt) ;;
       (if BBConfig.notifyAssignment bbConfig
        then CalendarHandler.process env userId (BBConfig.settings bbConfig)
        else ret tt) ;;
       ret Completed)
      (fun e => ret (QueryFailed e))
  end.

End WithCipher.

End Commands.

(** * Properties *)

(** ** Strings *)

Module JSFacts.
Import JS.

Lemma slice_0_minus_2 (s : jsstring) :
  slice s 0 (-2) = take (length s - 2) s.
Proof.
  unfold slice, clamp_index. simpl.
  replace (0 <? 0) with false by reflexivity.
  replace (-2 <? 0) with true by reflexivity.
  rewrite Z.min_l by lia. simpl. f_equal. lia.
Qed.

(** [toLowerCase] on Basic Latin, Latin-1, Roman numerals and fullwidth
    letters, with the final sigma, with the dotted capital I, on a
    surrogate pair and beside characters without case. *)
Example toLowerCase_runs :
  toLowerCase (lit "Linear Algebra") = lit "linear algebra"
  /\ toLowerCase [201; 67; 79; 76; 69; 32; 8551; 32; 65313; 65314; 65315]
     = [233; 99; 111; 108; 101; 32; 8567; 32; 65345; 65346; 65347]
  /\ toLowerCase [927; 916; 927; 931; 32; 927; 916; 927; 931; 46; 32; 931]
     = [959; 948; 959; 962; 32; 959; 948; 959; 962; 46; 32; 963]
  /\ toLowerCase [304; 115; 116; 97; 110; 98; 117; 108]
     = [105; 775; 115; 116; 97; 110; 98; 117; 108]
  /\ toLowerCase [55297; 56320; 120] = [55297; 56360; 120]
  /\ toLowerCase [65; 769; 931; 39] = [97; 769; 962; 39]
  /\ toLowerCase [39640; 31561; 25968; 23398; 32; 73; 67; 83]
     = [39640; 31561; 25968; 23398; 32; 105; 99; 115].
Proof. repeat split; vm_compute; reflexivity. Qed.

Lemma trimStart_no_space (s : jsstring) :
  Forall (fun c => is_space c = false) s -> trimStart s = s.
Proof. destruct 1 as [|c r Hc _]; simpl; [reflexivity|]. now rewrite Hc. Qed.

End JSFacts.

(** ** HTML extraction *)

Module HtmlFacts.
Import JS Html.

Definition lt : Z := 60.

Lemma unit_matches_lt ic c : c <> lt -> unit_matches ic lt c = false.
Proof.
  unfold unit_matches, lower_unit, lt. intros Hc.
  destruct ic; cbv beta iota; [|apply Z.eqb_neq; lia].
  replace ((65 <=? 60) && (60 <=? 90)) with false by reflexivity.
  destruct ((65 <=? c) && (c <=? 90)) eqn:E; apply Z.eqb_neq; [|lia].
  apply andb_true_iff in E as [E _]. apply Z.leb_le in E. lia.
Qed.

(** A pattern that opens with a literal [<] matches nowhere in a text
    without [<]. *)
Lemma match_here_no_lt ic cs r (s : jsstring) :
  Forall (fun c => c <> lt) s ->
  match_here (Lit ic (lt :: cs) :: r) s = None.
Proof.
  intros Hs. simpl. destruct Hs as [|c s' Hc _]; simpl; [reflexivity|].
  now rewrite unit_matches_lt.
Qed.

Lemma replace_all_no_lt ic cs r (s : jsstring) :
  Forall (fun c => c <> lt) s ->
  replace_all (Lit ic (lt :: cs) :: r) s = s.
Proof.
  unfold replace_all. induction 1 as [|c s' Hc Hs IH]; [reflexivity|].
  cbn [replace_all_from].
  rewrite match_here_no_lt by (constructor; assumption).
  now rewrite IH.
Qed.

(** The text [parseTitle] cuts: the input without the three decorative
    regions, without tags, trimmed. *)
Definition stripped_text (titleHtml : jsstring) : jsstring :=
  trim (replace_all re_tag
         (replace_all (re_class_region (lit "announcementPosted"))
           (replace_all (re_class_region (lit "announcementType"))
             (replace_all (re_class_region (lit "inlineContextMenu")) titleHtml)))).

Lemma stripped_text_no_lt (s : jsstring) :
  Forall (fun c => c <> lt) s -> stripped_text s = trim s.
Proof.
  intros Hs. unfold stripped_text, re_class_region, re_tag.
  change (lit "<") with [lt].
  repeat rewrite (replace_all_no_lt _ _ _ s) by exact Hs. reflexivity.
Qed.

(** C10. For every non-empty input, [parseTitle] returns the tag-stripped,
    trimmed text without its last two code units, whatever the input holds:
    the result is empty when that text has at most two units, and an input
    without any markup is only trimmed and cut. *)
Theorem parseTitle_cuts_two_units (titleHtml : jsstring) :
  titleHtml <> [] ->
  parseTitle titleHtml
  = take (length (stripped_text titleHtml) - 2) (stripped_text titleHtml)
  /\ length (parseTitle titleHtml) = (length (stripped_text titleHtml) - 2)%nat
  /\ ((length (stripped_text titleHtml) <= 2)%nat -> parseTitle titleHtml = [])
  /\ (Forall (fun c => c <> lt) titleHtml ->
      parseTitle titleHtml = take (length (trim titleHtml) - 2) (trim titleHtml)).
Proof.
  intros Hne.
  assert (Hcut : parseTitle titleHtml
                 = take (length (stripped_text titleHtml) - 2)
                        (stripped_text titleHtml)).
  { destruct titleHtml as [|c r]; [congruence|].
    unfold parseTitle. now rewrite JSFacts.slice_0_minus_2. }
  split; [exact Hcut|]. split; [|split].
  - rewrite Hcut, length_take. lia.
  - intros Hlen. rewrite Hcut.
    replace (length (stripped_text titleHtml) - 2)%nat with 0%nat by lia.
    reflexivity.
  - intros Hs. rewrite Hcut. now rewrite stripped_text_no_lt.
Qed.

Lemma parseTitle_cuts_two_units_witness :
  lit "ab" <> []
  /\ parseTitle (lit "ab") = []
  /\ parseTitle (lit " Quiz 1 ") = lit "Quiz".
Proof.
  split; [discriminate|].
  split.
  - destruct (parseTitle_cuts_two_units (lit "ab")) as (_ & _ & H & _);
      [discriminate|].
    apply H. vm_compute. lia.
  - destruct (parseTitle_cuts_two_units (lit " Quiz 1 ")) as (_ & _ & _ & H);
      [discriminate|].
    rewrite H; [reflexivity|].
    vm_compute. repeat constructor; discriminate.
Defined.

End HtmlFacts.

(** ** Notification eligibility *)

Module PolicyFacts.
Import JS NoticeHandler.

(** The digit of the coarse category of an event code. *)
Definition category_digit (event : jsstring) : Z :=
  if startsWith event (lit "AS") then 49
  else if startsWith event (lit "CO") then 50
  else 51.

(** What [isEventAllowed] resolves: what is found under the lower-cased
    course name in the override column when that is truthy, otherwise the
    global set; then [includes] of the category digit.  The read throws when
    the column holds [null]. *)
Lemma isEventAllowed_resolution (config : Config.t) (course event : jsstring) :
  isEventAllowed config course event
  = match JSON.get (parseJSON (Config.specificCourseEvents config))
                   (toLowerCase course) with
    | Throw e => Throw e
    | Ok found =>
      JSON.includes (JSON.or_else found (Config.generalAllowedEvents config))
                    (category_digit event)
    end.
Proof.
  unfold isEventAllowed, category_digit.
  destruct (JSON.get _ _); [|reflexivity].
  repeat case_match; reflexivity.
Qed.

(** With an override column that holds an object of strings, and a course
    whose lower-cased name is no member of [Object.prototype], the override
    is the string stored under that name when it is not empty, otherwise
    the global set, and the answer is a boolean. *)
Lemma isEventAllowed_strings (config : Config.t)
  (overrides : gmap jsstring jsstring) (course event : jsstring) :
  Config.specificCourseEvents config = Some (JSON.strings overrides) ->
  JSON.inherited (toLowerCase course) = JSON.Falsy ->
  isEventAllowed config course event
  = Ok (includes
          (match overrides !! toLowerCase course with
           | Some (c :: v) => c :: v
           | _ => Config.generalAllowedEvents config
           end)
          (category_digit event)).
Proof.
  intros Hcolumn Hplain. rewrite isEventAllowed_resolution, Hcolumn.
  unfold parseJSON, JSON.strings, JSON.object, JSON.get. simpl.
  rewrite lookup_fmap.
  destruct (overrides !! toLowerCase course) as [[|c v]|]; simpl;
    [reflexivity|reflexivity|].
  now rewrite Hplain.
Qed.

(** The same when the column could not be parsed: [parseJSON] falls back
    to the empty object and the global set decides. *)
Lemma isEventAllowed_unparsed (config : Config.t) (course event : jsstring) :
  Config.specificCourseEvents config = None ->
  JSON.inherited (toLowerCase course) = JSON.Falsy ->
  isEventAllowed config course event
  = Ok (includes (Config.generalAllowedEvents config) (category_digit event)).
Proof.
  intros Hcolumn Hplain. rewrite isEventAllowed_resolution, Hcolumn.
  unfold parseJSON, JSON.object, JSON.get. simpl.
  rewrite lookup_empty. now rewrite Hplain.
Qed.

(** An override for Linear Algebra that allows assignments only, under a
    global setting that allows assignments and announcements. *)
Definition linear_algebra_policy : Config.t :=
  {| Config.courseAliases := Some (JSON.strings ∅);
     Config.noticeTitlePrefix := lit "[bb]";
     Config.generalAllowedEvents := lit "13";
     Config.specificCourseEvents :=
       Some (JSON.strings {[ lit "Linear Algebra" := lit "1" ]});
     Config.calendarAdvanceHours := 24;
     Config.assignmentTitlePrefix := lit "[DDL!]" |}.

(** C7. The course name is lower-cased before the lookup but the keys of
    the override map are used as stored: an announcement of Linear Algebra
    is judged by the global set and found eligible, although the override of
    that course allows assignments only.  With the key stored in lower case
    the override is found. *)
Theorem isEventAllowed_misses_stored_key :
  Config.specificCourseEvents linear_algebra_policy
    = Some (JSON.strings {[ lit "Linear Algebra" := lit "1" ]})
  /\ isEventAllowed linear_algebra_policy (lit "Linear Algebra") (lit "AN:AN_AVAIL")
     = Ok true
  /\ includes (lit "1") (category_digit (lit "AN:AN_AVAIL")) = false
  /\ isEventAllowed
       {| Config.courseAliases := Some (JSON.strings ∅);
          Config.noticeTitlePrefix := lit "[bb]";
          Config.generalAllowedEvents := lit "13";
          Config.specificCourseEvents :=
            Some (JSON.strings {[ lit "linear algebra" := lit "1" ]});
          Config.calendarAdvanceHours := 24;
          Config.assignmentTitlePrefix := lit "[DDL!]" |}
       (lit "Linear Algebra") (lit "AN:AN_AVAIL") = Ok false.
Proof. repeat split; vm_compute; reflexivity. Qed.

(** An override that is present but empty is not used either: [||] falls
    back to the global set. *)
Lemma isEventAllowed_empty_override :
  isEventAllowed
    {| Config.courseAliases := Some (JSON.strings ∅);
       Config.noticeTitlePrefix := lit "[bb]";
       Config.generalAllowedEvents := lit "123";
       Config.specificCourseEvents := Some (JSON.strings {[ lit "ics" := [] ]});
       Config.calendarAdvanceHours := 24;
       Config.assignmentTitlePrefix := lit "[DDL!]" |}
    (lit "ICS") (lit "AS:AS_AVAIL") = Ok true.
Proof. vm_compute. reflexivity. Qed.

(** A configuration with the given override column. *)
Definition with_overrides (column : option JSON.value) : Config.t :=
  {| Config.courseAliases := Some (JSON.strings ∅);
     Config.noticeTitlePrefix := lit "[bb]";
     Config.generalAllowedEvents := lit "123";
     Config.specificCourseEvents := column;
     Config.calendarAdvanceHours := 24;
     Config.assignmentTitlePrefix := lit "[DDL!]" |}.

(** Where [isEventAllowed] throws: the dialogue stores any text that
    parses, so the column can hold [null], and an override can be a number;
    and a course called constructor finds the function every object
    inherits, which has no [includes]. *)
Example isEventAllowed_throws :
  isEventAllowed (with_overrides (Some JSON.Null)) (lit "ICS") (lit "AS:AS_AVAIL")
  = Throw TypeError
  /\ isEventAllowed
       (with_overrides (Some (JSON.object {[ lit "ics" := JSON.SNumber (lit "1") ]})))
       (lit "ICS") (lit "AS:AS_AVAIL")
     = Throw TypeError
  /\ isEventAllowed (with_overrides (Some (JSON.strings ∅)))
                    (lit "Constructor") (lit "AS:AS_AVAIL")
     = Throw TypeError
  /\ isEventAllowed (with_overrides None) (lit "ICS") (lit "AS:AS_AVAIL") = Ok true.
Proof. repeat split; vm_compute; reflexivity. Qed.

End PolicyFacts.

(** ** Reasoning about the monad *)

Module RunFacts.
Import JS Run.

Lemma bind_run {A B} (m : M A) (k : A -> M B) w :
  bind m k w
  = match m w with
    | (Ok a, w') => k a w'
    | (Throw e, w') => (Throw e, w')
    end.
Proof. reflexivity. Qed.

Lemma try_catch_run {A} (m : M A) (h : error -> M A) w :
  try_catch m h w
  = match m w with
    | (Ok a, w') => (Ok a, w')
    | (Throw e, w') => h e w'
    end.
Proof. reflexivity. Qed.

(** [m] leaves the component [proj] of the world as it was. *)
Definition preserves {A B} (proj : World -> B) (m : M A) : Prop :=
  forall w, proj (snd (m w)) = proj w.

(** [m] only appends to the list [proj], and only items satisfying [P]. *)
Definition appends {A B} (proj : World -> list B) (P : B -> Prop) (m : M A)
  : Prop :=
  forall w, exists l, proj (snd (m w)) = proj w ++ l /\ Forall P l.

(** [m] returns; it throws in no world. *)
Definition total {A} (m : M A) : Prop :=
  forall w, exists a, fst (m w) = Ok a.

Section Combinators.
Context {B : Type} (proj : World -> B).

Lemma preserves_ret {A} (a : A) : preserves proj (ret a).
Proof. intros w. reflexivity. Qed.

Lemma preserves_throw {A} e : preserves proj (@throw A e).
Proof. intros w. reflexivity. Qed.

Lemma preserves_lift {A} (r : result A) : preserves proj (lift r).
Proof. intros w. reflexivity. Qed.

Lemma preserves_bind {A C} (m : M A) (k : A -> M C) :
  preserves proj m -> (forall a, preserves proj (k a)) ->
  preserves proj (bind m k).
Proof.
  intros Hm Hk w. rewrite bind_run. specialize (Hm w).
  destruct (m w) as [[a|e] w1]; simpl in *; [|exact Hm].
  now rewrite Hk.
Qed.

Lemma preserves_try_catch {A} (m : M A) (h : error -> M A) :
  preserves proj m -> (forall e, preserves proj (h e)) ->
  preserves proj (try_catch m h).
Proof.
  intros Hm Hh w. rewrite try_catch_run. specialize (Hm w).
  destruct (m w) as [[a|e] w1]; simpl in *; [exact Hm|].
  now rewrite Hh.
Qed.

Lemma preserves_for_of {A} (l : list A) (f : A -> M unit) :
  (forall x, preserves proj (f x)) -> preserves proj (for_of l f).
Proof.
  intros Hf. induction l as [|x r IH]; simpl.
  - apply preserves_ret.
  - apply preserves_bind; [apply Hf|intros _; exact IH].
Qed.

Lemma preserves_modify (f : World -> World) :
  (forall w, proj (f w) = proj w) -> preserves proj (modify f).
Proof. intros Hf w. apply Hf. Qed.

Lemma preserves_if {A} (b : bool) (m1 m2 : M A) :
  preserves proj m1 -> preserves proj m2 ->
  preserves proj (if b then m1 else m2).
Proof. now destruct b. Qed.

End Combinators.

Section Appending.
Context {B : Type} (proj : World -> list B) (P : B -> Prop).

Lemma preserves_appends {A} (m : M A) : preserves proj m -> appends proj P m.
Proof.
  intros Hm w. exists []. rewrite Hm, app_nil_r. split; [reflexivity|constructor].
Qed.

Lemma appends_bind {A C} (m : M A) (k : A -> M C) :
  appends proj P m -> (forall a, appends proj P (k a)) ->
  appends proj P (bind m k).
Proof.
  intros Hm Hk w. rewrite bind_run. destruct (Hm w) as (l1 & E1 & F1).
  destruct (m w) as [[a|e] w1]; simpl in *; [|now exists l1].
  destruct (Hk a w1) as (l2 & E2 & F2).
  exists (l1 ++ l2). rewrite E2, E1, app_assoc. split; [reflexivity|].
  now apply Forall_app.
Qed.

Lemma appends_try_catch {A} (m : M A) (h : error -> M A) :
  appends proj P m -> (forall e, appends proj P (h e)) ->
  appends proj P (try_catch m h).
Proof.
  intros Hm Hh w. rewrite try_catch_run. destruct (Hm w) as (l1 & E1 & F1).
  destruct (m w) as [[a|e] w1]; simpl in *; [now exists l1|].
  destruct (Hh e w1) as (l2 & E2 & F2).
  exists (l1 ++ l2). rewrite E2, E1, app_assoc. split; [reflexivity|].
  now apply Forall_app.
Qed.

Lemma appends_for_of {A} (l : list A) (f : A -> M unit) :
  (forall x, appends proj P (f x)) -> appends proj P (for_of l f).
Proof.
  intros Hf. induction l as [|x r IH]; simpl.
  - apply preserves_appends, preserves_ret.
  - apply appends_bind; [apply Hf|intros _; exact IH].
Qed.

Lemma appends_if {A} (b : bool) (m1 m2 : M A) :
  appends proj P m1 -> appends proj P m2 ->
  appends proj P (if b then m1 else m2).
Proof. now destruct b. Qed.

End Appending.

Lemma total_ret {A} (a : A) : total (ret a).
Proof. intros w. now exists a. Qed.

Lemma total_bind {A C} (m : M A) (k : A -> M C) :
  total m -> (forall a, total (k a)) -> total (bind m k).
Proof.
  intros Hm Hk w. rewrite bind_run. destruct (Hm w) as (a & Ha).
  destruct (m w) as [[a'|e] w1]; simpl in Ha; [|discriminate].
  apply Hk.
Qed.

Lemma total_try_catch {A} (m : M A) (h : error -> M A) :
  (forall e, total (h e)) -> total (try_catch m h).
Proof.
  intros Hh w. rewrite try_catch_run.
  destruct (m w) as [[a|e] w1]; [now exists a|apply Hh].
Qed.

Lemma total_modify f : total (modify f).
Proof. intros w. now exists tt. Qed.

Lemma total_if {A} (b : bool) (m1 m2 : M A) :
  total m1 -> total m2 -> total (if b then m1 else m2).
Proof. now destruct b. Qed.

(** Case analysis on an error, down to the response it may carry. *)
Ltac by_error e :=
  destruct e;
  try match goal with
      | response : option (Z * list Z) |- _ => destruct response as [[? ?]|]
      end.

Create HintDb run discriminated.
#[export] Hint Resolve preserves_ret preserves_throw preserves_lift
  preserves_bind preserves_try_catch preserves_for_of preserves_if
  appends_bind appends_try_catch appends_for_of appends_if
  total_ret total_bind total_try_catch total_modify total_if : run.

End RunFacts.

(** ** The client: calendar window and login *)

Module ClientFacts.
Import JS Run Client RunFacts.

Definition hour : Z := 3600000.

(** A platform that never answers, a sink that accepts, a driver that
    stores, a clock stopped at [now]: the base of the concrete worlds
    below. *)
Definition silent_env (now : Z) : Env :=
  {| oauthlogin := fun _ _ => Throw (AxiosError None);
     campusLogin := fun _ => Throw (AxiosError None);
     streamViewerView := fun _ => Throw (AxiosError None);
     streamViewerLoad := fun _ => Throw (AxiosError None);
     selectedCalendarEvents := fun _ _ _ => Throw (AxiosError None);
     noticeItemPage := fun _ _ => Throw (AxiosError None);
     calendarAttemptPage := fun _ _ => Throw (AxiosError None);
     deliver := fun _ => true;
     create_notice := fun _ _ => true;
     create_assignment := fun _ _ => true;
     clock := fun _ => now;
     convertToTime := fun _ => lit "time";
     convertTimezone := fun s => s;
     convertToTimestamp := fun _ => None |}.

Definition empty_world : World :=
  {| cookies := []; ticks := 0; requests := []; sent := []; log := [];
     notice_record := []; assignment_record := [] |}.

(** The check of one entry, at the clock reading [now]. *)
Lemma testWithinHours_at env timeStr advanceHours w :
  testWithinHours env timeStr advanceHours w
  = (Ok match convertToTimestamp env timeStr with
        | Some target => target - clock env (ticks w) <=? advanceHours * hour
        | None => false
        end,
     set_ticks S w).
Proof. reflexivity. Qed.

(** The filter keeps an entry only when its end time parses and lies at
    most [advanceHours] after one of the clock readings of the filter. *)
Lemma filter_of_within env advanceHours (l : list CalendarEntry.t) :
  forall w, exists out w',
    filter_of l (fun entry =>
                   testWithinHours env (CalendarEntry.endDate entry) advanceHours) w
    = (Ok out, w')
    /\ ticks w' = (ticks w + length l)%nat
    /\ forall entry, In entry out ->
         In entry l
         /\ exists target k,
              (ticks w <= k < ticks w')%nat
              /\ convertToTimestamp env (CalendarEntry.endDate entry) = Some target
              /\ target - clock env k <= advanceHours * hour.
Proof.
  induction l as [|x r IH]; intros w.
  - exists [], w. simpl. repeat split; try lia; contradiction.
  - cbn [filter_of]. unfold bind at 1. rewrite testWithinHours_at.
    destruct (IH (set_ticks S w)) as (out & w' & Hrun & Hticks & Hout).
    unfold bind at 1. rewrite Hrun. cbn [ret].
    eexists _, w'. split; [reflexivity|]. simpl in Hticks.
    split; [simpl; lia|].
    intros entry Hin.
    assert (Hrest : In entry out ->
              In entry (x :: r)
              /\ exists target k,
                   (ticks w <= k < ticks w')%nat
                   /\ convertToTimestamp env (CalendarEntry.endDate entry) = Some target
                   /\ target - clock env k <= advanceHours * hour).
    { intros Hi. destruct (Hout _ Hi) as (Hr & target & k & Hk & Hp & Hle).
      split; [now right|]. exists target, k. simpl in Hk. repeat split; try lia; assumption. }
    destruct (convertToTimestamp env (CalendarEntry.endDate x)) as [target|] eqn:Hp;
      [|now apply Hrest].
    destruct (target - clock env (ticks w) <=? advanceHours * hour) eqn:Hle;
      [|now apply Hrest].
    destruct Hin as [<-|Hin]; [|now apply Hrest].
    split; [now left|]. exists target, (ticks w).
    apply Z.leb_le in Hle. repeat split; try lia; assumption.
Qed.

(** The side of the window that is checked: every entry [getCalendarData]
    returns has an end time that parses and lies at most [advanceHours]
    after a clock reading made while filtering; an end 49 hours ahead fails
    the test at 48, one 47 h 59 min ahead passes it. *)
Lemma getCalendarData_upper_bound (env : Env) (w : World) :
  (forall advanceHours out w',
     getCalendarData env advanceHours w = (Ok out, w') ->
     forall entry, In entry out ->
       exists target k,
         (ticks w < k < ticks w')%nat
         /\ convertToTimestamp env (CalendarEntry.endDate entry) = Some target
         /\ target - clock env k <= advanceHours * hour)
  /\ (forall timeStr,
        convertToTimestamp env timeStr = Some (clock env (ticks w) + 49 * hour) ->
        fst (testWithinHours env timeStr 48 w) = Ok false)
  /\ (forall timeStr,
        convertToTimestamp env timeStr
          = Some (clock env (ticks w) + 47 * hour + 59 * 60000) ->
        fst (testWithinHours env timeStr 48 w) = Ok true).
Proof.
  split; [|split].
  - intros advanceHours out w' Hrun entry Hin.
    cbv [getCalendarData try_catch bind Date_now generateCookieString
         http modify lift] in Hrun.
    match type of Hrun with
    | context [selectedCalendarEvents env ?a ?b ?c] =>
      destruct (selectedCalendarEvents env a b c) as [response|e]
    end.
    + match type of Hrun with
      | context [extractCookies response ?w0] =>
        destruct (extractCookies response w0) as [[[]|e] w1] eqn:Hcookies
      end.
      * assert (Hticks : ticks w1 = S (ticks w)).
        { unfold extractCookies, modify, ret in Hcookies.
          destruct (Http.set_cookie response); inversion Hcookies; reflexivity. }
        destruct (filter_of_within env advanceHours (Http.data response) w1)
          as (out' & w2 & Hfilter & Hticks2 & Hout).
        rewrite Hfilter in Hrun. unfold ret in Hrun. inversion Hrun; subst out' w2.
        destruct (Hout _ Hin) as (_ & target & k & Hk & Hparse & Hle).
        exists target, k. repeat split; try lia; assumption.
      * cbv [log_failure write_log modify bind throw ret] in Hrun.
        by_error e; discriminate.
    + cbv [log_failure write_log modify bind throw ret] in Hrun.
      by_error e; discriminate.
  - intros timeStr Hparse. rewrite testWithinHours_at, Hparse. simpl.
    f_equal. apply Z.leb_gt. unfold hour. lia.
  - intros timeStr Hparse. rewrite testWithinHours_at, Hparse. simpl.
    f_equal. apply Z.leb_le. unfold hour. lia.
Qed.

Definition now0 : Z := 1700000000000.

Definition calendar_entry (name : String.string) : CalendarEntry.t :=
  {| CalendarEntry.id := lit name;
     CalendarEntry.endDate := lit name;
     CalendarEntry.calendarName := CalendarHandler.personal;
     CalendarEntry.title := lit name;
     CalendarEntry.description := None |}.

(** A platform that answers the calendar query with three entries: one
    ending 49 h ahead, one 47 h 59 min ahead and one that ended 10 h ago. *)
Definition broad_server : Env :=
  {| oauthlogin := oauthlogin (silent_env now0);
     campusLogin := campusLogin (silent_env now0);
     streamViewerView := streamViewerView (silent_env now0);
     streamViewerLoad := streamViewerLoad (silent_env now0);
     selectedCalendarEvents := fun _ _ _ =>
       Ok {| Http.data := [calendar_entry "far"; calendar_entry "near";
                           calendar_entry "past"];
             Http.set_cookie := None |};
     noticeItemPage := noticeItemPage (silent_env now0);
     calendarAttemptPage := calendarAttemptPage (silent_env now0);
     deliver := fun _ => true;
     create_notice := fun _ _ => true;
     create_assignment := fun _ _ => true;
     clock := fun _ => now0;
     convertToTime := fun _ => lit "time";
     convertTimezone := fun s => s;
     convertToTimestamp := fun s =>
       if jseqb s (lit "far") then Some (now0 + 49 * hour)
       else if jseqb s (lit "near") then Some (now0 + 47 * hour + 59 * 60000)
       else if jseqb s (lit "past") then Some (now0 - 10 * hour)
       else None |}.

(** The entries the filter of [getCalendarData] keeps, the first of them
    tested at the clock reading [k]: those whose end time parses and lies
    at most [advanceHours] after the reading. *)
Fixpoint kept (env : Env) (advanceHours : Z) (k : nat) (l : list CalendarEntry.t)
  : list CalendarEntry.t :=
  match l with
  | [] => []
  | entry :: rest =>
    let keep :=
      match convertToTimestamp env (CalendarEntry.endDate entry) with
      | Some target => target - clock env k <=? advanceHours * hour
      | None => false
      end in
    (if keep then [entry] else []) ++ kept env advanceHours (S k) rest
  end.

Lemma filter_of_kept env advanceHours (l : list CalendarEntry.t) :
  forall w,
    fst (filter_of l (fun entry =>
                        testWithinHours env (CalendarEntry.endDate entry) advanceHours) w)
    = Ok (kept env advanceHours (ticks w) l).
Proof.
  induction l as [|x r IH]; intros w; [reflexivity|].
  cbn [filter_of kept]. unfold bind at 1. rewrite testWithinHours_at.
  unfold bind at 1. specialize (IH (set_ticks S w)).
  destruct (filter_of r _ (set_ticks S w)) as [[out|e] w'];
    cbn [fst] in IH; [|discriminate].
  injection IH as ->. cbn [ret fst ticks set_ticks].
  now destruct (match convertToTimestamp env (CalendarEntry.endDate x) with
                | Some target => _ | None => _ end).
Qed.

(** What [getCalendarData] returns when the platform answers: the query
    asks for the window from 3 hours before the clock reading to
    [advanceHours] after it, and the entries of the answer are kept by
    their upper side alone. *)
Lemma getCalendarData_kept env advanceHours w cookie response :
  fst (generateCookieString w) = Ok cookie ->
  selectedCalendarEvents env (clock env (ticks w) - 3 * hour)
    (clock env (ticks w) + advanceHours * hour) cookie
  = Ok response ->
  fst (getCalendarData env advanceHours w)
  = Ok (kept env advanceHours (S (ticks w)) (Http.data response)).
Proof.
  intros Hcookie Hanswer.
  unfold getCalendarData. rewrite try_catch_run, bind_run. cbn [Date_now].
  rewrite bind_run.
  assert (Hheader : generateCookieString (set_ticks S w)
                    = (Ok cookie, set_ticks S w)).
  { unfold generateCookieString in *. cbn [fst] in Hcookie.
    injection Hcookie as <-. reflexivity. }
  rewrite Hheader, bind_run. unfold http. rewrite bind_run. cbn [modify lift].
  unfold hour in Hanswer. rewrite Hanswer, bind_run.
  match goal with
  | |- context [extractCookies response ?w0] =>
    assert (Hjar : exists w1, extractCookies response w0 = (Ok tt, w1)
                              /\ ticks w1 = ticks w0)
      by (unfold extractCookies; destruct (Http.set_cookie response);
          eexists; split; reflexivity);
    destruct Hjar as (w1 & -> & Hticks)
  end.
  cbn [ticks set_ticks set_requests] in Hticks. rewrite bind_run.
  pose proof (filter_of_kept env advanceHours (Http.data response) w1) as Hkept.
  destruct (filter_of (Http.data response) _ w1) as [[out|e] w2];
    cbn [fst] in Hkept; [|discriminate].
  injection Hkept as ->. cbn [ret fst]. now rewrite Hticks.
Qed.

(** C6: the window is not checked on its lower side.  At the clock reading
    [now0] and with 48 hours the client asks for the window from 3 hours
    ago to 48 hours ahead; the platform answers with three entries, ending
    49 hours ahead, 47 h 59 min ahead and 10 hours ago.  [getCalendarData]
    drops the first, keeps the second, and returns the third as well,
    although it ended 7 hours before the window starts. *)
Theorem getCalendarData_returns_ended_entry :
  requests (snd (getCalendarData broad_server 48 empty_world))
  = [SelectedCalendarEvents (now0 - 3 * hour) (now0 + 48 * hour) []]
  /\ selectedCalendarEvents broad_server (now0 - 3 * hour) (now0 + 48 * hour) []
     = Ok {| Http.data := [calendar_entry "far"; calendar_entry "near";
                           calendar_entry "past"];
             Http.set_cookie := None |}
  /\ convertToTimestamp broad_server (CalendarEntry.endDate (calendar_entry "far"))
     = Some (now0 + 49 * hour)
  /\ convertToTimestamp broad_server (CalendarEntry.endDate (calendar_entry "near"))
     = Some (now0 + 47 * hour + 59 * 60000)
  /\ convertToTimestamp broad_server (CalendarEntry.endDate (calendar_entry "past"))
     = Some (now0 - 10 * hour)
  /\ now0 - 10 * hour < now0 - 3 * hour
  /\ fst (getCalendarData broad_server 48 empty_world)
     = Ok [calendar_entry "near"; calendar_entry "past"].
Proof. repeat split; vm_compute; reflexivity. Qed.

(** So the window does not bound what is returned: the entry that ended 10
    hours ago lies before the start of the window, 3 hours ago. *)
Lemma getCalendarData_no_lower_bound :
  ~ (forall env advanceHours w out w',
       getCalendarData env advanceHours w = (Ok out, w') ->
       forall entry, In entry out ->
         exists target,
           convertToTimestamp env (CalendarEntry.endDate entry) = Some target
           /\ clock env (ticks w) - 3 * hour <= target
              <= clock env (ticks w) + advanceHours * hour).
Proof.
  intros H.
  destruct (H broad_server 48 empty_world
              [calendar_entry "near"; calendar_entry "past"]
              (snd (getCalendarData broad_server 48 empty_world))
              ltac:(vm_compute; reflexivity)
              (calendar_entry "past") ltac:(right; left; reflexivity))
    as (target & Hparse & Hlo & _).
  vm_compute in Hparse. injection Hparse as <-.
  vm_compute in Hlo. apply Hlo. reflexivity.
Qed.

(** *** Login *)

Lemma extractCookies_ok {D} (response : Http.response D) w :
  fst (extractCookies response w) = Ok tt.
Proof. unfold extractCookies. now destruct (Http.set_cookie response). Qed.

(** C9, as the code has it.  [login] throws in no world: it returns a
    boolean.  When the identity provider rejects, and when either request
    fails in transport, the result is [false] and the cookie jar, the
    messages and the tables are as before; only the log and the list of
    requests grow. *)
Theorem login_returns_false_on_failure (env : Env) (username password : jsstring)
  (w : World) :
  (exists b, fst (login env username password w) = Ok b)
  /\ (((exists e, oauthlogin env username password = Throw e)
       \/ (exists response,
             oauthlogin env username password = Ok response
             /\ (Http.success (Http.data response) = false
                 \/ exists e, campusLogin env (Http.token (Http.data response))
                              = Throw e))) ->
      fst (login env username password w) = Ok false
      /\ cookies (snd (login env username password w)) = cookies w
      /\ sent (snd (login env username password w)) = sent w
      /\ notice_record (snd (login env username password w)) = notice_record w
      /\ assignment_record (snd (login env username password w))
         = assignment_record w).
Proof.
  cbv [login try_catch bind http modify lift].
  destruct (oauthlogin env username password) as [response|e] eqn:Hfirst.
  - destruct (Http.success (Http.data response)) eqn:Hsuccess; cbn.
    + destruct (campusLogin env (Http.token (Http.data response)))
        as [response2|e2] eqn:Hsecond.
      * pose proof (extractCookies_ok response2
                      (set_requests
                         (fun rs => rs ++ [CampusLogin (Http.token (Http.data response))])
                         (set_requests
                            (fun rs => rs ++ [OauthLogin username password]) w)))
          as Hok.
        destruct (extractCookies response2 _) as [[[]|e] w2]; [|discriminate].
        split; [now exists true|].
        intros [[e H]|(response' & H & [Hrej|[e He]])]; try discriminate.
        -- injection H as <-. congruence.
        -- injection H as <-. congruence.
      * split.
        -- exists false. by_error e2; reflexivity.
        -- intros _. by_error e2; repeat split.
    + split; [now exists false|]. intros _. repeat split.
  - split.
    + exists false. by_error e; reflexivity.
    + intros _. by_error e; repeat split.
Qed.

(** An identity provider that answers and rejects the credentials. *)
Definition rejecting_provider : Env :=
  {| oauthlogin := fun _ _ =>
       Ok {| Http.data := {| Http.success := false; Http.token := [] |};
             Http.set_cookie := None |};
     campusLogin := campusLogin (silent_env now0);
     streamViewerView := streamViewerView (silent_env now0);
     streamViewerLoad := streamViewerLoad (silent_env now0);
     selectedCalendarEvents := selectedCalendarEvents (silent_env now0);
     noticeItemPage := noticeItemPage (silent_env now0);
     calendarAttemptPage := calendarAttemptPage (silent_env now0);
     deliver := fun _ => true;
     create_notice := fun _ _ => true;
     create_assignment := fun _ _ => true;
     clock := fun _ => now0;
     convertToTime := fun _ => lit "time";
     convertTimezone := fun s => s;
     convertToTimestamp := fun _ => None |}.

Lemma login_returns_false_on_failure_witness :
  fst (login rejecting_provider (lit "2800011451") (lit "pswd1234") empty_world)
  = Ok false.
Proof.
  apply (login_returns_false_on_failure rejecting_provider
           (lit "2800011451") (lit "pswd1234") empty_world).
  right. eexists. split; [reflexivity|]. left. reflexivity.
Defined.

(** C9 as stated fails: a rejection is not raised as an error of its own;
    the caller gets the same [false] as for a transport fault. *)
Lemma login_rejection_is_not_raised :
  ~ (forall env username password w response,
       oauthlogin env username password = Ok response ->
       Http.success (Http.data response) = false ->
       exists e, fst (login env username password w) = Throw e
                 /\ fst (login (silent_env now0) username password w) <> Throw e).
Proof.
  intros H.
  destruct (H rejecting_provider (lit "2800011451") (lit "pswd1234") empty_world
              _ eq_refl eq_refl) as (e & Hthrow & _).
  vm_compute in Hthrow. discriminate.
Qed.

Lemma login_same_result_for_both_failures :
  fst (login rejecting_provider (lit "2800011451") (lit "pswd1234") empty_world)
  = fst (login (silent_env now0) (lit "2800011451") (lit "pswd1234") empty_world).
Proof. vm_compute. reflexivity. Qed.

End ClientFacts.

(** ** Record creation *)

Module DatabaseFacts.
Import JS Run Database RunFacts.

(** The rows a driver stores when it is handed [rows] one after the other
    and the caller stops at the first rejection. *)
Fixpoint stored_prefix {R} (accept : list (Row.t R) -> Row.t R -> bool)
  (table rows : list (Row.t R)) : list (Row.t R) :=
  match rows with
  | [] => []
  | row :: rest =>
    if accept table row then row :: stored_prefix accept (table ++ [row]) rest
    else []
  end.

Lemma stored_prefix_is_prefix {R} accept (rows table : list (Row.t R)) :
  exists rest, rows = stored_prefix accept table rows ++ rest.
Proof.
  revert table. induction rows as [|row rows IH]; intros table; simpl.
  - now exists [].
  - destruct (accept table row).
    + destruct (IH (table ++ [row])) as [rest Hrest]. exists rest.
      simpl. now rewrite <- Hrest.
    + now exists (row :: rows).
Qed.

Lemma stored_prefix_all {R} accept (rows table : list (Row.t R)) :
  (forall t row, accept t row = true) -> stored_prefix accept table rows = rows.
Proof.
  intros Hall. revert table. induction rows as [|row rows IH]; intros table; simpl.
  - reflexivity.
  - now rewrite Hall, IH.
Qed.

(** A batch whose first rows are all accepted and whose next row is
    rejected: exactly the first rows are stored. *)
Lemma stored_prefix_stops {R} accept (before after : list (Row.t R)) bad table :
  stored_prefix accept table before = before ->
  accept (table ++ before) bad = false ->
  stored_prefix accept table (before ++ bad :: after) = before.
Proof.
  revert table. induction before as [|row before IH]; intros table Hall Hbad; simpl.
  - rewrite app_nil_r in Hbad. now rewrite Hbad.
  - simpl in Hall. destruct (accept table row); [|discriminate].
    injection Hall as Hall. f_equal. apply IH; [exact Hall|].
    now rewrite <- app_assoc.
Qed.

(** The loop over the rows, for either table. *)
Lemma for_of_create {R} (proj : World -> list (Row.t R))
  (set : (list (Row.t R) -> list (Row.t R)) -> World -> World)
  (create : Row.t R -> M unit) (accept : list (Row.t R) -> Row.t R -> bool) :
  (forall row w,
     create row w = if accept (proj w) row
                    then (Ok tt, set (fun t => t ++ [row]) w)
                    else (Throw DatabaseError, w)) ->
  (forall f w, proj (set f w) = f (proj w)) ->
  forall rows w,
    proj (snd (for_of rows create w))
    = proj w ++ stored_prefix accept (proj w) rows.
Proof.
  intros Hcreate Hset. induction rows as [|row rows IH]; intros w; simpl.
  - now rewrite app_nil_r.
  - rewrite bind_run, Hcreate.
    destruct (accept (proj w) row); simpl.
    + rewrite IH, Hset, <- app_assoc. reflexivity.
    + now rewrite app_nil_r.
Qed.

(** The loop at a rejected row: it throws the error of the driver, and
    the log is as it was. *)
Lemma for_of_create_rejected {R} (proj : World -> list (Row.t R))
  (set : (list (Row.t R) -> list (Row.t R)) -> World -> World)
  (create : Row.t R -> M unit) (accept : list (Row.t R) -> Row.t R -> bool) :
  (forall row w,
     create row w = if accept (proj w) row
                    then (Ok tt, set (fun t => t ++ [row]) w)
                    else (Throw DatabaseError, w)) ->
  (forall f w, proj (set f w) = f (proj w)) ->
  (forall f w, log (set f w) = log w) ->
  forall before bad after w,
    stored_prefix accept (proj w) before = before ->
    accept (proj w ++ before) bad = false ->
    fst (for_of (before ++ bad :: after) create w) = Throw DatabaseError
    /\ log (snd (for_of (before ++ bad :: after) create w)) = log w.
Proof.
  intros Hcreate Hset Hlog.
  induction before as [|row before IH]; intros bad after w Hbefore Hbad.
  - rewrite app_nil_r in Hbad. cbn [app for_of]. rewrite bind_run, Hcreate, Hbad.
    split; reflexivity.
  - cbn [stored_prefix] in Hbefore. cbn [app for_of].
    rewrite bind_run, Hcreate.
    destruct (accept (proj w) row); [|discriminate].
    injection Hbefore as Hbefore.
    destruct (IH bad after (set (fun t => t ++ [row]) w)) as [Hthrow Hsame].
    + now rewrite Hset.
    + rewrite Hset, <- app_assoc. exact Hbad.
    + split; [exact Hthrow|]. now rewrite Hsame, Hlog.
Qed.

Lemma createNoticeRecords_stores env userId records w :
  fst (createNoticeRecords env userId records w) = Ok tt
  /\ notice_record (snd (createNoticeRecords env userId records w))
     = notice_record w
       ++ stored_prefix (create_notice env) (notice_record w)
            (List.map (stamp userId (clock env (ticks w))) records).
Proof.
  unfold createNoticeRecords. rewrite bind_run. cbn [Date_now].
  rewrite try_catch_run.
  pose proof (for_of_create notice_record set_notice_record
                (create_notice_record env) (create_notice env)
                (fun row w0 => eq_refl) (fun f w0 => eq_refl)
                (List.map (stamp userId (clock env (ticks w))) records)
                (set_ticks S w)) as Hloop.
  destruct (for_of _ _ (set_ticks S w)) as [[[]|e] w1]; simpl in *.
  - split; [reflexivity|exact Hloop].
  - split; [reflexivity|exact Hloop].
Qed.

Lemma createAssignmentRecords_stores env userId records w :
  fst (createAssignmentRecords env userId records w) = Ok tt
  /\ assignment_record (snd (createAssignmentRecords env userId records w))
     = assignment_record w
       ++ stored_prefix (create_assignment env) (assignment_record w)
            (List.map (stamp userId (clock env (ticks w))) records).
Proof.
  unfold createAssignmentRecords. rewrite bind_run. cbn [Date_now].
  rewrite try_catch_run.
  pose proof (for_of_create assignment_record set_assignment_record
                (create_assignment_record env) (create_assignment env)
                (fun row w0 => eq_refl) (fun f w0 => eq_refl)
                (List.map (stamp userId (clock env (ticks w))) records)
                (set_ticks S w)) as Hloop.
  destruct (for_of _ _ (set_ticks S w)) as [[[]|e] w1]; simpl in *.
  - split; [reflexivity|exact Hloop].
  - split; [reflexivity|exact Hloop].
Qed.

(** C1, as the code has it.  The records of a batch are created in order
    inside one [try]: when the driver rejects a record, the records before
    it stay stored, and neither that record nor any later record of the
    batch is stored; the error is logged, in one line, not thrown. *)
Theorem createRecords_stop_at_first_rejection (env : Env) (userId : jsstring)
  (w : World) :
  (forall (before : list NoticeRecord.t) bad after,
     let row := stamp userId (clock env (ticks w)) in
     stored_prefix (create_notice env) (notice_record w) (List.map row before)
       = List.map row before ->
     create_notice env (notice_record w ++ List.map row before) (row bad) = false ->
     fst (createNoticeRecords env userId (before ++ bad :: after) w) = Ok tt
     /\ notice_record (snd (createNoticeRecords env userId (before ++ bad :: after) w))
        = notice_record w ++ List.map row before
     /\ log (snd (createNoticeRecords env userId (before ++ bad :: after) w))
        = log w ++ [LogCreateNoticeFailed DatabaseError])
  /\ (forall (before : list AssignmentRecord.t) bad after,
     let row := stamp userId (clock env (ticks w)) in
     stored_prefix (create_assignment env) (assignment_record w) (List.map row before)
       = List.map row before ->
     create_assignment env (assignment_record w ++ List.map row before) (row bad)
       = false ->
     fst (createAssignmentRecords env userId (before ++ bad :: after) w) = Ok tt
     /\ assignment_record
          (snd (createAssignmentRecords env userId (before ++ bad :: after) w))
        = assignment_record w ++ List.map row before
     /\ log (snd (createAssignmentRecords env userId (before ++ bad :: after) w))
        = log w ++ [LogCreateAssignmentFailed DatabaseError]).
Proof.
  split.
  - intros before bad after row Hbefore Hbad.
    destruct (createNoticeRecords_stores env userId (before ++ bad :: after) w)
      as [Hok Hrows].
    split; [exact Hok|]. split.
    + rewrite Hrows. f_equal.
      rewrite List.map_app. simpl. now apply stored_prefix_stops.
    + unfold createNoticeRecords. rewrite bind_run. cbn [Date_now].
      rewrite try_catch_run, List.map_app. cbn [List.map]. fold row.
      destruct (for_of_create_rejected notice_record set_notice_record
                  (create_notice_record env) (create_notice env)
                  (fun r w0 => eq_refl) (fun f w0 => eq_refl) (fun f w0 => eq_refl)
                  (List.map row before) (row bad) (List.map row after)
                  (set_ticks S w) Hbefore Hbad) as [Hthrow Hlog].
      destruct (for_of _ _ (set_ticks S w)) as [[[]|e] w1];
        cbn [fst snd] in *; [discriminate|].
      injection Hthrow as ->. cbn [write_log modify snd log set_log].
      now rewrite Hlog.
  - intros before bad after row Hbefore Hbad.
    destruct (createAssignmentRecords_stores env userId (before ++ bad :: after) w)
      as [Hok Hrows].
    split; [exact Hok|]. split.
    + rewrite Hrows. f_equal.
      rewrite List.map_app. simpl. now apply stored_prefix_stops.
    + unfold createAssignmentRecords. rewrite bind_run. cbn [Date_now].
      rewrite try_catch_run, List.map_app. cbn [List.map]. fold row.
      destruct (for_of_create_rejected assignment_record set_assignment_record
                  (create_assignment_record env) (create_assignment env)
                  (fun r w0 => eq_refl) (fun f w0 => eq_refl) (fun f w0 => eq_refl)
                  (List.map row before) (row bad) (List.map row after)
                  (set_ticks S w) Hbefore Hbad) as [Hthrow Hlog].
      destruct (for_of _ _ (set_ticks S w)) as [[[]|e] w1];
        cbn [fst snd] in *; [discriminate|].
      injection Hthrow as ->. cbn [write_log modify snd log set_log].
      now rewrite Hlog.
Qed.

Definition notice (id : String.string) : NoticeRecord.t :=
  {| NoticeRecord.noticeId := lit id;
     NoticeRecord.time := lit "time";
     NoticeRecord.course := lit "course";
     NoticeRecord.title := lit id;
     NoticeRecord.content := [];
     NoticeRecord.event := lit "AN:AN_AVAIL";
     NoticeRecord.shouldNotify := true |}.

Definition assignment (id : String.string) : AssignmentRecord.t :=
  {| AssignmentRecord.assignmentId := lit id;
     AssignmentRecord.time := lit "time";
     AssignmentRecord.course := lit "course";
     AssignmentRecord.title := lit id;
     AssignmentRecord.description := [];
     AssignmentRecord.shouldNotify := true |}.

(** A driver that rejects the record whose id is [bad] and stores every
    other one. *)
Definition picky_driver : Env :=
  {| oauthlogin := oauthlogin (ClientFacts.silent_env 0);
     campusLogin := campusLogin (ClientFacts.silent_env 0);
     streamViewerView := streamViewerView (ClientFacts.silent_env 0);
     streamViewerLoad := streamViewerLoad (ClientFacts.silent_env 0);
     selectedCalendarEvents := selectedCalendarEvents (ClientFacts.silent_env 0);
     noticeItemPage := noticeItemPage (ClientFacts.silent_env 0);
     calendarAttemptPage := calendarAttemptPage (ClientFacts.silent_env 0);
     deliver := fun _ => true;
     create_notice := fun _ row =>
       negb (jseqb (NoticeRecord.noticeId (Row.record row)) (lit "bad"));
     create_assignment := fun _ row =>
       negb (jseqb (AssignmentRecord.assignmentId (Row.record row)) (lit "bad"));
     clock := fun _ => 0;
     convertToTime := fun _ => lit "time";
     convertTimezone := fun s => s;
     convertToTimestamp := fun _ => None |}.

Lemma createRecords_stop_at_first_rejection_witness :
  (notice_record
     (snd (createNoticeRecords picky_driver (lit "u")
             ([notice "a"] ++ notice "bad" :: [notice "c"])
             ClientFacts.empty_world))
   = [stamp (lit "u") 0 (notice "a")]
   /\ log (snd (createNoticeRecords picky_driver (lit "u")
                  ([notice "a"] ++ notice "bad" :: [notice "c"])
                  ClientFacts.empty_world))
      = [LogCreateNoticeFailed DatabaseError])
  /\ (assignment_record
        (snd (createAssignmentRecords picky_driver (lit "u")
                ([assignment "a"] ++ assignment "bad" :: [assignment "c"])
                ClientFacts.empty_world))
      = [stamp (lit "u") 0 (assignment "a")]
      /\ log (snd (createAssignmentRecords picky_driver (lit "u")
                     ([assignment "a"] ++ assignment "bad" :: [assignment "c"])
                     ClientFacts.empty_world))
         = [LogCreateAssignmentFailed DatabaseError]).
Proof.
  destruct (createRecords_stop_at_first_rejection picky_driver (lit "u")
              ClientFacts.empty_world) as [Hnotice Hassignment].
  split.
  - apply (Hnotice [notice "a"] (notice "bad") [notice "c"]);
      vm_compute; reflexivity.
  - apply (Hassignment [assignment "a"] (assignment "bad") [assignment "c"]);
      vm_compute; reflexivity.
Defined.

(** C1 as stated fails: a record the driver would store is not stored when
    an earlier record of its batch was rejected. *)
Lemma createNoticeRecords_rejection_blocks_siblings :
  ~ (forall env userId (records : list NoticeRecord.t) w record,
       In record records ->
       (forall table,
          create_notice env table (stamp userId (clock env (ticks w)) record) = true) ->
       In (stamp userId (clock env (ticks w)) record)
          (notice_record (snd (createNoticeRecords env userId records w)))).
Proof.
  intros H.
  specialize (H picky_driver (lit "u") [notice "bad"; notice "c"]
                ClientFacts.empty_world (notice "c")
                ltac:(right; left; reflexivity)
                ltac:(intros table; vm_compute; reflexivity)).
  vm_compute in H. exact H.
Qed.

End DatabaseFacts.

(** ** The two passes *)

Module SyncFacts.
Import JS Run RunFacts Client Database DatabaseFacts.

(** A component of the world that the network side of a check (cookies,
    requests, log, clock readings) does not touch. *)
Class NetworkBlind {B} (proj : World -> B) : Prop := {
  blind_cookies : forall f w, proj (set_cookies f w) = proj w;
  blind_requests : forall f w, proj (set_requests f w) = proj w;
  blind_log : forall f w, proj (set_log f w) = proj w;
  blind_ticks : forall f w, proj (set_ticks f w) = proj w
}.

#[export] Instance sent_blind : NetworkBlind sent.
Proof. split; reflexivity. Qed.
#[export] Instance notice_record_blind : NetworkBlind notice_record.
Proof. split; reflexivity. Qed.
#[export] Instance assignment_record_blind : NetworkBlind assignment_record.
Proof. split; reflexivity. Qed.

Section Blind.
Context {B} (proj : World -> B) `{!NetworkBlind proj}.

Lemma blind_extractCookies {D} (response : Http.response D) :
  preserves proj (extractCookies response).
Proof.
  unfold extractCookies. destruct (Http.set_cookie response); auto with run.
  apply preserves_modify, blind_cookies.
Qed.

Lemma blind_generateCookieString : preserves proj generateCookieString.
Proof. intros w. reflexivity. Qed.

Lemma blind_http {D} r (answer : result (Http.response D)) :
  preserves proj (http r answer).
Proof.
  unfold http. apply preserves_bind; [|auto with run].
  apply preserves_modify, blind_requests.
Qed.

Lemma blind_write_log l : preserves proj (write_log l).
Proof. apply preserves_modify, blind_log. Qed.

Lemma blind_log_failure line e : preserves proj (log_failure line e).
Proof.
  unfold log_failure. apply preserves_bind; [apply blind_write_log|].
  intros _. by_error e; auto with run.
  apply preserves_bind; [apply blind_write_log|intros _; apply blind_write_log].
Qed.

Lemma blind_Date_now env : preserves proj (Date_now env).
Proof. intros w. apply blind_ticks. Qed.

Hint Resolve blind_extractCookies blind_generateCookieString blind_http
  blind_write_log blind_log_failure blind_Date_now : run.

Lemma blind_getNoticeData env : preserves proj (getNoticeData env).
Proof. unfold getNoticeData, delay. auto 20 with run. Qed.

Lemma blind_testWithinHours env s h : preserves proj (testWithinHours env s h).
Proof. unfold testWithinHours. auto with run. Qed.

Lemma blind_filter_of {A} (l : list A) p :
  (forall x, preserves proj (p x)) -> preserves proj (filter_of l p).
Proof. intros Hp. induction l; simpl; auto 10 with run. Qed.

Hint Resolve blind_testWithinHours blind_filter_of : run.

Lemma blind_getCalendarData env h : preserves proj (getCalendarData env h).
Proof. unfold getCalendarData. auto 20 with run. Qed.

Lemma blind_getAssignmentFromNotice env uri :
  preserves proj (getAssignmentFromNotice env uri).
Proof. unfold getAssignmentFromNotice. auto 20 with run. Qed.

Lemma blind_getAssignmentFromCalendar env id :
  preserves proj (getAssignmentFromCalendar env id).
Proof. unfold getAssignmentFromCalendar. auto 20 with run. Qed.

End Blind.

#[export] Hint Resolve blind_extractCookies blind_generateCookieString blind_http
  blind_write_log blind_log_failure blind_Date_now blind_getNoticeData
  blind_getCalendarData blind_getAssignmentFromNotice
  blind_getAssignmentFromCalendar : run.

(** *** Requests *)

(** The requests for a feed, as opposed to those for a detail page. *)
Definition is_feed_request (r : Request) : bool :=
  match r with
  | StreamViewerView _ | StreamViewerLoad _ | SelectedCalendarEvents _ _ _ => true
  | _ => false
  end.

(** The calendar ids whose attempt page was requested, in order. *)
Fixpoint attempt_ids (rs : list Request) : list jsstring :=
  match rs with
  | [] => []
  | CalendarAttemptPage calendarId _ :: rest => calendarId :: attempt_ids rest
  | _ :: rest => attempt_ids rest
  end.

Lemma attempt_ids_app rs1 rs2 :
  attempt_ids (rs1 ++ rs2) = attempt_ids rs1 ++ attempt_ids rs2.
Proof.
  induction rs1 as [|r rs1 IH]; [reflexivity|].
  destruct r; simpl; now rewrite IH.
Qed.

Lemma attempt_ids_feed rs :
  Forall (fun r => is_feed_request r = true) rs -> attempt_ids rs = [].
Proof.
  induction 1 as [|r rs Hr _ IH]; [reflexivity|].
  destruct r; try discriminate; exact IH.
Qed.

Section Requests.
Context (P : Request -> Prop).

Lemma appends_http {D} r (answer : result (Http.response D)) :
  P r -> appends requests P (http r answer).
Proof.
  intros Hr w. exists [r]. split; [|now repeat constructor].
  unfold http. rewrite bind_run. reflexivity.
Qed.

Lemma requests_extractCookies {D} (response : Http.response D) :
  appends requests P (extractCookies response).
Proof.
  apply preserves_appends. unfold extractCookies.
  destruct (Http.set_cookie response); intros w; reflexivity.
Qed.

Lemma requests_generateCookieString : appends requests P generateCookieString.
Proof. apply preserves_appends. intros w. reflexivity. Qed.

Lemma requests_log_failure line e : appends requests P (log_failure line e).
Proof.
  apply preserves_appends. unfold log_failure.
  by_error e; intros w; reflexivity.
Qed.

Lemma requests_write_log l : appends requests P (write_log l).
Proof. apply preserves_appends. intros w. reflexivity. Qed.

Lemma requests_Date_now env : appends requests P (Date_now env).
Proof. apply preserves_appends. intros w. reflexivity. Qed.

Lemma requests_ret {A} (a : A) : appends requests P (ret a).
Proof. apply preserves_appends, preserves_ret. Qed.

Lemma requests_throw {A} e : appends requests P (@throw A e).
Proof. apply preserves_appends, preserves_throw. Qed.

Lemma requests_send env m : appends requests P (send env m).
Proof.
  apply preserves_appends. unfold send. intros w. rewrite bind_run. cbn [modify].
  destruct (deliver env m); reflexivity.
Qed.

Lemma requests_createNoticeRecords env userId records :
  appends requests P (createNoticeRecords env userId records).
Proof.
  apply preserves_appends. unfold createNoticeRecords.
  apply preserves_bind; [intros w; reflexivity|]. intros now.
  apply preserves_try_catch; [|intros e w; reflexivity].
  apply preserves_for_of. intros row w. unfold create_notice_record.
  now destruct (create_notice env (notice_record w) row).
Qed.

Lemma requests_createAssignmentRecords env userId records :
  appends requests P (createAssignmentRecords env userId records).
Proof.
  apply preserves_appends. unfold createAssignmentRecords.
  apply preserves_bind; [intros w; reflexivity|]. intros now.
  apply preserves_try_catch; [|intros e w; reflexivity].
  apply preserves_for_of. intros row w. unfold create_assignment_record.
  now destruct (create_assignment env (assignment_record w) row).
Qed.

End Requests.

#[export] Hint Resolve appends_http requests_extractCookies
  requests_generateCookieString requests_log_failure requests_write_log
  requests_Date_now requests_ret requests_throw requests_send
  requests_createNoticeRecords requests_createAssignmentRecords : run.

Lemma requests_getNoticeData env :
  appends requests (fun r => is_feed_request r = true) (getNoticeData env).
Proof. unfold getNoticeData, delay. auto 20 with run. Qed.

Lemma requests_getCalendarData env advanceHours :
  appends requests (fun r => is_feed_request r = true)
          (getCalendarData env advanceHours).
Proof.
  unfold getCalendarData.
  assert (Hfilter : forall (l : list CalendarEntry.t),
            appends requests (fun r => is_feed_request r = true)
              (filter_of l (fun entry =>
                 testWithinHours env (CalendarEntry.endDate entry) advanceHours))).
  { induction l; simpl; auto 10 with run.
    apply appends_bind; [unfold testWithinHours; auto with run|].
    intros keep. auto with run. }
  auto 20 with run.
Qed.

Lemma extractCookies_frame {D} (response : Http.response D) w :
  fst (extractCookies response w) = Ok tt
  /\ sent (snd (extractCookies response w)) = sent w
  /\ notice_record (snd (extractCookies response w)) = notice_record w
  /\ assignment_record (snd (extractCookies response w)) = assignment_record w
  /\ requests (snd (extractCookies response w)) = requests w.
Proof.
  unfold extractCookies. destruct (Http.set_cookie response); repeat split.
Qed.

(** *** Messages and rows *)

Lemma send_run env m w :
  send env m w
  = (if deliver env m then Ok tt else Throw SendError,
     set_sent (fun ms => ms ++ [m]) w).
Proof. unfold send. rewrite bind_run. cbn [modify]. now destruct (deliver env m). Qed.

Lemma sent_createNoticeRecords env userId records :
  preserves sent (createNoticeRecords env userId records).
Proof.
  unfold createNoticeRecords.
  apply preserves_bind; [intros w; reflexivity|]. intros now.
  apply preserves_try_catch; [|intros e w; reflexivity].
  apply preserves_for_of. intros row w. unfold create_notice_record.
  now destruct (create_notice env (notice_record w) row).
Qed.

Lemma sent_createAssignmentRecords env userId records :
  preserves sent (createAssignmentRecords env userId records).
Proof.
  unfold createAssignmentRecords.
  apply preserves_bind; [intros w; reflexivity|]. intros now.
  apply preserves_try_catch; [|intros e w; reflexivity].
  apply preserves_for_of. intros row w. unfold create_assignment_record.
  now destruct (create_assignment env (assignment_record w) row).
Qed.

Lemma jseqb_refl (s : jsstring) : jseqb s s = true.
Proof. unfold jseqb. now apply bool_decide_eq_true_2. Qed.

Lemma jseqb_eq (s t : jsstring) : jseqb s t = true <-> s = t.
Proof. unfold jseqb. apply bool_decide_eq_true. Qed.

Lemma get_stamped {R} userId now (records : list R) :
  get userId (List.map (stamp userId now) records)
  = List.map (stamp userId now) records.
Proof.
  unfold get. induction records as [|r rs IH]; [reflexivity|].
  cbn [List.map List.filter stamp Row.userId]. now rewrite jseqb_refl, IH.
Qed.

Lemma get_stamped_other {R} userId other now (records : list R) :
  other <> userId ->
  get other (List.map (stamp userId now) records) = [].
Proof.
  intros Hne. unfold get. induction records as [|r rs IH]; [reflexivity|].
  cbn [List.map List.filter stamp Row.userId].
  destruct (jseqb userId other) eqn:E; [|exact IH].
  apply jseqb_eq in E. congruence.
Qed.

Lemma caught_nothing {A} (m : M A) (h : error -> M A) w a :
  fst (m w) = Ok a ->
  (let (r, w') := m w in
   match r with
   | Ok a => (Ok a, w')
   | Throw e => h e w'
   end) = m w.
Proof. destruct (m w) as [[a'|e] w']; [reflexivity|discriminate]. Qed.



(** *** The notice pass *)

Section Notice.
Import NoticeHandler.
Context (env : Env) (userId : jsstring) (config : Config.t).

(** The ids stored for the identity. *)
Definition noticeIds (table : list (Row.t NoticeRecord.t)) : list jsstring :=
  List.map (fun row => NoticeRecord.noticeId (Row.record row)) (get userId table).

Definition oldNoticeIds (w : World) : gset jsstring :=
  list_to_set (noticeIds (notice_record w)).

(** The entries of a feed whose id is not stored yet. *)
Definition fresh (old : gset jsstring) (streamEntries : list Entry.t)
  : list Entry.t :=
  List.filter (fun entry => negb (bool_decide (Entry.se_id entry ∈ old)))
              streamEntries.

(** The course of an entry and whether its event is to be announced, as
    [filterNoticeInfo] finds them before it fetches anything: a
    [TypeError] when the course found is no string or when
    [isEventAllowed] throws. *)
Definition judged (courseDict : gmap jsstring jsstring) (entry : Entry.t)
  : result (jsstring * bool) :=
  match JSON.or_else (JSON.member courseDict (Entry.se_courseId entry)) [] with
  | inr _ => Throw TypeError
  | inl course =>
    match isEventAllowed config course (or_empty (Entry.event_type entry)) with
    | Ok shouldNotify => Ok (course, shouldNotify)
    | Throw e => Throw e
    end
  end.

(** The record of an entry when nothing is fetched for it. *)
Definition plain_record (entry : Entry.t) (verdict : jsstring * bool)
  : NoticeRecord.t :=
  {| NoticeRecord.noticeId := Entry.se_id entry;
     NoticeRecord.time := convertToTime env (Entry.se_timestamp entry);
     NoticeRecord.course := fst verdict;
     NoticeRecord.title := Html.parseTitle (or_empty (Entry.se_context entry));
     NoticeRecord.content :=
       trim (Html.parseContent (or_empty (Entry.se_details entry)));
     NoticeRecord.event := or_empty (Entry.event_type entry);
     NoticeRecord.shouldNotify := snd verdict |}.

Lemma filterNoticeInfo_first_run entry courseDict w :
  filterNoticeInfo env config entry courseDict true w
  = (match judged courseDict entry with
     | Ok verdict => Ok (plain_record entry verdict)
     | Throw e => Throw e
     end, w).
Proof.
  unfold filterNoticeInfo, judged.
  destruct (JSON.or_else _ _) as [course|v]; [|reflexivity].
  rewrite bind_run. unfold lift.
  destruct (isEventAllowed config course _) as [shouldNotify|e]; [|reflexivity].
  cbn [negb]. rewrite andb_false_r. reflexivity.
Qed.

(** The records of the entries of a first pass, or the first error met. *)
Fixpoint first_records (courseDict : gmap jsstring jsstring)
  (entries : list Entry.t) : result (list NoticeRecord.t) :=
  match entries with
  | [] => Ok []
  | entry :: rest =>
    match judged courseDict entry with
    | Throw e => Throw e
    | Ok verdict =>
      match first_records courseDict rest with
      | Throw e => Throw e
      | Ok records => Ok (plain_record entry verdict :: records)
      end
    end
  end.

Lemma collect_first_run old courseDict streamEntries w :
  collect env config old courseDict true streamEntries w
  = (first_records courseDict (fresh old streamEntries), w).
Proof.
  induction streamEntries as [|entry rest IH]; [reflexivity|].
  cbn [collect fresh List.filter].
  destruct (bool_decide (Entry.se_id entry ∈ old)); cbn [negb]; [exact IH|].
  rewrite bind_run, filterNoticeInfo_first_run. cbn [first_records].
  destruct (judged courseDict entry) as [verdict|e]; [|reflexivity].
  rewrite bind_run. fold (fresh old rest). rewrite IH.
  now destruct (first_records courseDict (fresh old rest)).
Qed.



(** The batch of a first pass over [noticeData], read in the world [w]. *)
Definition first_batch (noticeData : NoticeData.t) (w : World)
  : result (list NoticeRecord.t) :=
  first_records
    (courseDict_of (default [] (NoticeData.sx_courses noticeData)))
    (fresh (oldNoticeIds w) (default [] (NoticeData.sv_streamEntries noticeData))).

(** The first pass, step by step: after the feed is fetched the records
    are made without a request; when that throws, the failure is reported
    and the pass is over; otherwise the pass sends the one message, reads
    the clock for the mark, and hands the batch and the mark to
    [createNoticeRecords]. *)
Lemma process_first_run noticeData w w1 :
  getNoticeData env w = (Ok noticeData, w1) ->
  NoticeHandler.init_id ∉ noticeIds (notice_record w) ->
  process env userId config w
  = match first_batch noticeData w with
    | Throw e => send env (NoticeFailed e) w1
    | Ok batch =>
      let message := NoticeInitialized (length batch) in
      let w2 := set_sent (fun ms => ms ++ [message]) w1 in
      if deliver env message
      then createNoticeRecords env userId
             (batch ++ [initRecord (convertToTime env (clock env (ticks w2)))])
             (set_ticks S w2)
      else send env (NoticeFailed SendError) w2
    end.
Proof.
  intros Hfetch Hinit.
  assert (Hsame : notice_record w1 = notice_record w).
  { pose proof (blind_getNoticeData notice_record env w) as H.
    now rewrite Hfetch in H. }
  unfold process. rewrite try_catch_run, bind_run, Hfetch.
  rewrite bind_run. cbn [getNoticeRecords].
  fold (noticeIds (notice_record w1)). rewrite Hsame.
  fold (oldNoticeIds w).
  rewrite (bool_decide_eq_false_2 (init_id ∈ oldNoticeIds w))
    by (unfold oldNoticeIds; rewrite elem_of_list_to_set; exact Hinit).
  cbn [negb]. rewrite bind_run, collect_first_run.
  fold (first_batch noticeData w).
  destruct (first_batch noticeData w) as [batch|e]; [|reflexivity].
  cbv zeta.
  rewrite bind_run, bind_run. unfold send at 1. rewrite bind_run.
  cbn [modify].
  set (message := NoticeInitialized (length batch)).
  set (w2 := set_sent (fun ms => ms ++ [message]) w1).
  destruct (deliver env message) eqn:Hdeliver.
  - cbn [ret]. rewrite bind_run. cbn [Date_now ret].
    destruct (batch ++ [initRecord (convertToTime env (clock env (ticks w2)))])
      as [|r rs] eqn:Hbatch.
    { now destruct batch. }
    rewrite <- Hbatch.
    pose proof (createNoticeRecords_stores env userId
                  (batch ++ [initRecord (convertToTime env (clock env (ticks w2)))])
                  (set_ticks S w2)) as [Hok _].
    destruct (createNoticeRecords env userId _ (set_ticks S w2)) as [[[]|e] w3];
      [reflexivity|discriminate].
  - reflexivity.
Qed.

(** What normalising one notice does in any pass: when the entry cannot
    be judged it throws at once; otherwise it returns a record with the id
    of the entry, the course and the verdict, and leaves messages and tables
    alone; a failed fetch of the item page is logged, not thrown. *)
Lemma filterNoticeInfo_run entry courseDict isInit w :
  match judged courseDict entry with
  | Throw e => filterNoticeInfo env config entry courseDict isInit w = (Throw e, w)
  | Ok verdict =>
    exists record w',
      filterNoticeInfo env config entry courseDict isInit w = (Ok record, w')
      /\ NoticeRecord.noticeId record = Entry.se_id entry
      /\ NoticeRecord.course record = fst verdict
      /\ NoticeRecord.shouldNotify record = snd verdict
      /\ sent w' = sent w
      /\ notice_record w' = notice_record w
      /\ assignment_record w' = assignment_record w
  end.
Proof.
  unfold judged, filterNoticeInfo.
  destruct (JSON.or_else _ _) as [course|v]; [|reflexivity].
  rewrite bind_run. unfold lift.
  destruct (isEventAllowed config course _) as [shouldNotify|e]; [|reflexivity].
  cbv [bind try_catch getAssignmentFromNotice
       generateCookieString http modify lift throw write_log ret].
  destruct (_ && negb isInit).
  - destruct (noticeItemPage env _ _) as [response|e].
    + match goal with
      | |- context [extractCookies response ?w0] =>
        destruct (extractCookies_frame response w0) as (Hok & Hs & Hn & Ha & Hr);
        destruct (extractCookies response w0) as [[[]|e] w1]
      end; try discriminate.
      simpl in Hs, Hn, Ha.
      eexists _, w1. split; [reflexivity|].
      cbn [NoticeRecord.noticeId NoticeRecord.course NoticeRecord.shouldNotify
           fst snd].
      rewrite Hs, Hn, Ha. repeat split.
    + eexists _, _. split; [reflexivity|]. repeat split.
  - eexists _, w. split; [reflexivity|]. repeat split.
Qed.

Lemma notice_collect_run old courseDict isInit streamEntries :
  forall w, exists r w',
    collect env config old courseDict isInit streamEntries w = (r, w')
    /\ (forall records, r = Ok records ->
        List.map NoticeRecord.noticeId records
        = List.map Entry.se_id (fresh old streamEntries))
    /\ sent w' = sent w
    /\ notice_record w' = notice_record w
    /\ assignment_record w' = assignment_record w.
Proof.
  induction streamEntries as [|entry rest IH]; intros w.
  - exists (Ok []), w. split; [reflexivity|].
    split; [now intros records [= <-]|]. repeat split.
  - cbn [collect fresh List.filter].
    destruct (bool_decide (Entry.se_id entry ∈ old)); cbn [negb]; [apply IH|].
    pose proof (filterNoticeInfo_run entry courseDict isInit w) as Hone.
    destruct (judged courseDict entry) as [verdict|e].
    + destruct Hone as (record & w1 & Hrun & Hid & _ & _ & Hs & Hn & Ha).
      destruct (IH w1) as (r & w2 & Hrun2 & Hids & Hs2 & Hn2 & Ha2).
      rewrite bind_run, Hrun, bind_run, Hrun2.
      destruct r as [records|e].
      * exists (Ok (record :: records)), w2. split; [reflexivity|].
        split; [|rewrite Hs2, Hn2, Ha2; repeat split; assumption].
        intros ? [= <-]. cbn [List.map]. fold (fresh old rest).
        now rewrite Hid, (Hids records eq_refl).
      * exists (Throw e), w2. split; [reflexivity|].
        split; [discriminate|]. rewrite Hs2, Hn2, Ha2. repeat split; assumption.
    + exists (Throw e), w. rewrite bind_run, Hone.
      split; [reflexivity|]. split; [discriminate|]. repeat split.
Qed.

(** The loop returns when every new entry is judged. *)
Lemma notice_collect_returns old courseDict isInit streamEntries :
  (forall entry, In entry (fresh old streamEntries) ->
                 exists verdict, judged courseDict entry = Ok verdict) ->
  forall w, exists records w',
    collect env config old courseDict isInit streamEntries w = (Ok records, w').
Proof.
  induction streamEntries as [|entry rest IH]; intros Hjudged w.
  - now exists [], w.
  - cbn [collect]. cbn [fresh List.filter] in Hjudged.
    destruct (bool_decide (Entry.se_id entry ∈ old)); cbn [negb] in *;
      [now apply IH|].
    pose proof (filterNoticeInfo_run entry courseDict isInit w) as Hone.
    destruct (Hjudged entry (or_introl eq_refl)) as [verdict Hverdict].
    rewrite Hverdict in Hone. destruct Hone as (record & w1 & Hrun & _).
    destruct (IH (fun e He => Hjudged e (or_intror He)) w1)
      as (records & w2 & Hrest).
    exists (record :: records), w2.
    now rewrite bind_run, Hrun, bind_run, Hrest.
Qed.

(** The feed [getNoticeData] returns is the answer to its second request. *)
Lemma getNoticeData_data w noticeData w1 :
  getNoticeData env w = (Ok noticeData, w1) ->
  exists cookie response,
    streamViewerLoad env cookie = Ok response /\ noticeData = Http.data response.
Proof.
  cbv [getNoticeData try_catch bind generateCookieString http modify lift delay
       log_failure write_log throw ret].
  destruct (streamViewerView env _) as [r1|e1].
  - match goal with
    | |- context [extractCookies r1 ?w0] =>
      destruct (extractCookies r1 w0) as [[[]|e] w2]
    end.
    + destruct (streamViewerLoad env _) as [r2|e2] eqn:Hload.
      * match goal with
        | |- context [extractCookies r2 ?w0] =>
          destruct (extractCookies r2 w0) as [[[]|e] w3]
        end.
        -- intros H. injection H as <- _. eauto.
        -- by_error e; discriminate.
      * by_error e2; discriminate.
    + by_error e; discriminate.
  - by_error e1; discriminate.
Qed.

(** The text of an alert for a notice, as [notifyNotice] builds it, or the
    error of reading the alias. *)
Definition notice_text (record : NoticeRecord.t) : result jsstring :=
  match subject (Config.courseAliases config) (Config.noticeTitlePrefix config)
                (NoticeRecord.course record) (NoticeRecord.title record) with
  | Throw e => Throw e
  | Ok subject =>
    Ok (subject ++ [10]
        ++ trim (NoticeRecord.content record ++ posted_label
                 ++ NoticeRecord.time record))
  end.

Lemma notifyNotice_run record w :
  notifyNotice env config record w
  = match notice_text record with
    | Throw e => (Throw e, w)
    | Ok text => send env (NoticeAlert text) w
    end.
Proof.
  unfold notifyNotice, notice_text. rewrite bind_run. unfold lift.
  now destruct (subject _ _ _ _).
Qed.

Lemma notifyNotice_notice_record record :
  preserves notice_record (notifyNotice env config record).
Proof.
  intros w. rewrite notifyNotice_run. destruct (notice_text record); [|reflexivity].
  rewrite send_run. reflexivity.
Qed.

Lemma notifyNotice_assignment_record record :
  preserves assignment_record (notifyNotice env config record).
Proof.
  intros w. rewrite notifyNotice_run. destruct (notice_text record); [|reflexivity].
  rewrite send_run. reflexivity.
Qed.

(** What a notice pass, first or later, does to the tables: it appends to
    the notice table the rows the driver stored of one batch, and the ids of
    that batch are the new ids of one feed, followed by the mark when the
    mark was missing. *)
Definition notice_pass_effect (w w' : World) : Prop :=
  assignment_record w' = assignment_record w
  /\ exists batch now,
       notice_record w'
       = notice_record w
         ++ stored_prefix (create_notice env) (notice_record w)
              (List.map (stamp userId now) batch)
       /\ (batch = []
           \/ exists cookie response,
                streamViewerLoad env cookie = Ok response
                /\ List.map NoticeRecord.noticeId batch
                   = List.map Entry.se_id
                       (fresh (oldNoticeIds w)
                          (default [] (NoticeData.sv_streamEntries
                                         (Http.data response))))
                     ++ (if bool_decide (init_id ∈ oldNoticeIds w)
                         then [] else [init_id])).

Lemma notice_pass_nothing w w0 :
  notice_record w0 = notice_record w ->
  assignment_record w0 = assignment_record w ->
  notice_pass_effect w w0.
Proof.
  intros Hn Ha. split; [exact Ha|]. exists [], 0.
  cbn. rewrite app_nil_r. split; [exact Hn|now left].
Qed.

Lemma notice_pass_stored w w0 batch cookie response :
  notice_record w0 = notice_record w ->
  assignment_record w0 = assignment_record w ->
  streamViewerLoad env cookie = Ok response ->
  List.map NoticeRecord.noticeId batch
  = List.map Entry.se_id
      (fresh (oldNoticeIds w)
         (default [] (NoticeData.sv_streamEntries (Http.data response))))
    ++ (if bool_decide (init_id ∈ oldNoticeIds w) then [] else [init_id]) ->
  notice_pass_effect w (snd (createNoticeRecords env userId batch w0)).
Proof.
  intros Hn Ha Hload Hbatch.
  destruct (createNoticeRecords_stores env userId batch w0) as [_ Hrows].
  split.
  - rewrite <- Ha. unfold createNoticeRecords.
    apply (preserves_bind assignment_record); [intros w4; reflexivity|].
    intros now. apply preserves_try_catch; [|intros e w4; reflexivity].
    apply preserves_for_of. intros row w4. unfold create_notice_record.
    now destruct (create_notice env (notice_record w4) row).
  - exists batch, (clock env (ticks w0)). rewrite Hrows, Hn.
    split; [reflexivity|]. right. exists cookie, response. now split.
Qed.

Lemma notice_process_rows w :
  notice_pass_effect w (snd (process env userId config w)).
Proof.
  unfold process. rewrite try_catch_run, bind_run.
  pose proof (blind_getNoticeData notice_record env w) as Hn1.
  pose proof (blind_getNoticeData assignment_record env w) as Ha1.
  destruct (getNoticeData env w) as [[noticeData|e] w1] eqn:Hfetch;
    cbn [snd] in Hn1, Ha1.
  2:{ rewrite send_run. apply notice_pass_nothing; assumption. }
  destruct (getNoticeData_data w noticeData w1 Hfetch)
    as (cookie & response & Hload & ->).
  rewrite bind_run. cbn [getNoticeRecords].
  fold (noticeIds (notice_record w1)). rewrite Hn1. fold (oldNoticeIds w).
  set (isInit := negb (bool_decide (init_id ∈ oldNoticeIds w))).
  rewrite bind_run.
  destruct (notice_collect_run (oldNoticeIds w)
              (courseDict_of (default [] (NoticeData.sx_courses (Http.data response))))
              isInit
              (default [] (NoticeData.sv_streamEntries (Http.data response))) w1)
    as (r & w2 & -> & Hids & Hs2 & Hn2 & Ha2).
  destruct r as [records|e].
  2:{ rewrite send_run. apply notice_pass_nothing; cbn; congruence. }
  specialize (Hids records eq_refl).
  rewrite bind_run. subst isInit.
  destruct (bool_decide (init_id ∈ oldNoticeIds w)) eqn:Hmark; cbn [negb].
  - (* a later pass *)
    rewrite bind_run.
    pose proof (preserves_for_of notice_record records
                  (fun record => if NoticeRecord.shouldNotify record
                                 then notifyNotice env config record else ret tt)
                  ltac:(intros r; cbv beta; destruct (NoticeRecord.shouldNotify r);
                        [apply notifyNotice_notice_record|apply preserves_ret])
                  w2) as Hn3.
    pose proof (preserves_for_of assignment_record records
                  (fun record => if NoticeRecord.shouldNotify record
                                 then notifyNotice env config record else ret tt)
                  ltac:(intros r; cbv beta; destruct (NoticeRecord.shouldNotify r);
                        [apply notifyNotice_assignment_record|apply preserves_ret])
                  w2) as Ha3.
    destruct (for_of records _ w2) as [[[]|e] w3]; cbn [snd] in Hn3, Ha3.
    + cbn [ret]. destruct records as [|r rs] eqn:Hrecords.
      * cbn [ret snd]. apply notice_pass_nothing; congruence.
      * rewrite (caught_nothing _ _ _ tt)
          by apply createNoticeRecords_stores.
        apply (notice_pass_stored w w3 (r :: rs) cookie response);
          try congruence.
        rewrite Hmark, app_nil_r. exact Hids.
    + rewrite send_run. apply notice_pass_nothing; cbn; congruence.
  - (* a first pass *)
    rewrite bind_run, send_run.
    destruct (deliver env _).
    + rewrite bind_run. cbn [Date_now ret].
      destruct (records ++ [initRecord _]) as [|r rs] eqn:Hbatch.
      { now destruct records. }
      rewrite <- Hbatch.
      rewrite (caught_nothing _ _ _ tt) by apply createNoticeRecords_stores.
      apply (notice_pass_stored w _ _ cookie response);
        [cbn; congruence|cbn; congruence|exact Hload|].
      rewrite Hmark, List.map_app, Hids. reflexivity.
    + rewrite send_run. apply notice_pass_nothing; cbn; congruence.
Qed.

End Notice.

(** *** The calendar pass *)

Section Calendar.
Import CalendarHandler.
Context (env : Env) (userId : jsstring) (config : Config.t).

Definition assignmentIds (table : list (Row.t AssignmentRecord.t)) : list jsstring :=
  List.map (fun row => AssignmentRecord.assignmentId (Row.record row))
           (get userId table).

Definition oldAssignmentIds (w : World) : gset jsstring :=
  list_to_set (assignmentIds (assignment_record w)).

Definition fresh_calendar (old : gset jsstring) (calendarData : list CalendarEntry.t)
  : list CalendarEntry.t :=
  List.filter (fun entry => negb (bool_decide (CalendarEntry.id entry ∈ old)))
              calendarData.

(** The entries that are deadlines of a course, not personal events. *)
Definition is_course_deadline (entry : CalendarEntry.t) : bool :=
  negb (jseqb (Html.replace_first Html.re_suffix (CalendarEntry.calendarName entry))
              personal).

(** What normalising one calendar entry does: it returns a record with the
    id of the entry, leaves messages and tables alone, and requests the
    attempt page exactly when the entry is a course deadline. *)
Lemma filterAssignmentInfo_run entry w :
  exists record w',
    filterAssignmentInfo env entry w = (Ok record, w')
    /\ AssignmentRecord.assignmentId record = CalendarEntry.id entry
    /\ sent w' = sent w
    /\ notice_record w' = notice_record w
    /\ assignment_record w' = assignment_record w
    /\ exists l, requests w' = requests w ++ l
                 /\ attempt_ids l
                    = if is_course_deadline entry then [CalendarEntry.id entry] else [].
Proof.
  unfold is_course_deadline.
  cbv [filterAssignmentInfo bind try_catch getAssignmentFromCalendar
       generateCookieString http modify lift throw write_log ret].
  destruct (negb (jseqb _ personal)).
  - destruct (calendarAttemptPage env (CalendarEntry.id entry) _) as [response|e].
    + match goal with
      | |- context [extractCookies response ?w0] =>
        destruct (extractCookies_frame response w0) as (Hok & Hs & Hn & Ha & Hr);
        destruct (extractCookies response w0) as [[[]|e] w1]
      end; try discriminate.
      simpl in Hs, Hn, Ha, Hr.
      destruct (negb (Html.hasAttempted (Http.data response)));
        [destruct (Html.parseInstruction (Http.data response))|];
        eexists _, w1; (split; [reflexivity|]);
        cbn [AssignmentRecord.assignmentId fst snd];
        rewrite Hs, Hn, Ha, Hr; repeat split;
        eexists; split; reflexivity.
    + eexists _, _. split; [reflexivity|]. repeat split.
      eexists. split; reflexivity.
  - eexists _, w. split; [reflexivity|].
    repeat split. exists []. now rewrite app_nil_r.
Qed.

Lemma calendar_collect_run old calendarData :
  forall w, exists records w',
    collect env old calendarData w = (Ok records, w')
    /\ List.map AssignmentRecord.assignmentId records
       = List.map CalendarEntry.id (fresh_calendar old calendarData)
    /\ sent w' = sent w
    /\ notice_record w' = notice_record w
    /\ assignment_record w' = assignment_record w
    /\ exists l, requests w' = requests w ++ l
                 /\ attempt_ids l
                    = List.map CalendarEntry.id
                        (List.filter is_course_deadline
                                     (fresh_calendar old calendarData)).
Proof.
  induction calendarData as [|entry rest IH]; intros w.
  - exists [], w. split; [reflexivity|]. repeat split.
    exists []. now rewrite app_nil_r.
  - cbn [collect fresh_calendar List.filter].
    destruct (bool_decide (CalendarEntry.id entry ∈ old)); cbn [negb]; [apply IH|].
    destruct (filterAssignmentInfo_run entry w)
      as (record & w1 & Hrun & Hid & Hs & Hn & Ha & l1 & Hr & Hl1).
    destruct (IH w1) as (records & w2 & Hrun2 & Hids & Hs2 & Hn2 & Ha2 & l2 & Hr2 & Hl2).
    exists (record :: records), w2.
    rewrite bind_run, Hrun, bind_run, Hrun2.
    split; [reflexivity|].
    split; [cbn [List.map]; fold (fresh_calendar old rest); now rewrite Hid, Hids|].
    rewrite Hs2, Hn2, Ha2. repeat split; try assumption.
    exists (l1 ++ l2). rewrite Hr2, Hr, app_assoc. split; [reflexivity|].
    rewrite attempt_ids_app, Hl1, Hl2. fold (fresh_calendar old rest).
    cbn [List.filter]. now destruct (is_course_deadline entry).
Qed.

(** The first calendar pass, step by step. *)
Lemma calendar_first_run calendarData w w1 :
  0 < Config.calendarAdvanceHours config ->
  getCalendarData env (Config.calendarAdvanceHours config) w = (Ok calendarData, w1) ->
  NoticeHandler.init_id ∉ assignmentIds (assignment_record w) ->
  exists records w2,
    collect env (oldAssignmentIds w) calendarData w1 = (Ok records, w2)
    /\ let w3 := set_sent (fun ms => ms ++ [CalendarInitialized]) w2 in
       process env userId config w
       = if deliver env CalendarInitialized
         then createAssignmentRecords env userId
                (records ++ [initRecord (convertToTime env (clock env (ticks w3)))])
                (set_ticks S w3)
         else send env (CalendarFailed SendError) w3.
Proof.
  intros Hhours Hfetch Hinit.
  assert (Hsame : assignment_record w1 = assignment_record w).
  { pose proof (blind_getCalendarData assignment_record env
                  (Config.calendarAdvanceHours config) w) as H.
    now rewrite Hfetch in H. }
  destruct (calendar_collect_run (oldAssignmentIds w) calendarData w1)
    as (records & w2 & Hcollect & _).
  exists records, w2. split; [exact Hcollect|]. intros w3.
  unfold process. rewrite try_catch_run.
  replace (Config.calendarAdvanceHours config <=? 0) with false
    by (symmetry; apply Z.leb_gt; lia).
  rewrite bind_run, Hfetch.
  rewrite bind_run. cbn [getAssignmentRecords].
  fold (assignmentIds (assignment_record w1)). rewrite Hsame.
  fold (oldAssignmentIds w).
  rewrite (bool_decide_eq_false_2 (NoticeHandler.init_id ∈ oldAssignmentIds w))
    by (unfold oldAssignmentIds; rewrite elem_of_list_to_set; exact Hinit).
  cbn [negb]. rewrite bind_run, Hcollect.
  rewrite bind_run, bind_run. unfold send at 1. rewrite bind_run.
  cbn [modify]. fold w3.
  destruct (deliver env CalendarInitialized) eqn:Hdeliver.
  - cbn [ret]. rewrite bind_run. cbn [Date_now ret].
    destruct (records ++ [initRecord (convertToTime env (clock env (ticks w3)))])
      as [|r rs] eqn:Hbatch.
    { now destruct records. }
    rewrite <- Hbatch.
    pose proof (createAssignmentRecords_stores env userId
                  (records ++ [initRecord (convertToTime env (clock env (ticks w3)))])
                  (set_ticks S w3)) as [Hok _].
    destruct (createAssignmentRecords env userId _ (set_ticks S w3)) as [[[]|e] w4];
      [reflexivity|discriminate].
  - reflexivity.
Qed.

Lemma filter_of_sublist advanceHours (l : list CalendarEntry.t) :
  forall w out w',
    filter_of l (fun entry =>
                   testWithinHours env (CalendarEntry.endDate entry) advanceHours) w
    = (Ok out, w') ->
    sublist out l.
Proof.
  induction l as [|x r IH]; intros w out w'.
  - cbn. intros H. injection H as <- _. constructor.
  - cbn [filter_of]. rewrite bind_run, ClientFacts.testWithinHours_at, bind_run.
    destruct (filter_of r _ (set_ticks S w)) as [[rest|e] w2] eqn:Hrest;
      [|discriminate].
    cbn [ret]. intros H. injection H as <- _.
    specialize (IH _ _ _ Hrest).
    destruct (match convertToTimestamp env (CalendarEntry.endDate x) with
              | Some target => _
              | None => false
              end); now constructor.
Qed.

(** The entries [getCalendarData] returns are, in order, some of the
    entries of the answer to its request. *)
Lemma getCalendarData_data advanceHours w calendarData w1 :
  getCalendarData env advanceHours w = (Ok calendarData, w1) ->
  exists start stop cookie response,
    selectedCalendarEvents env start stop cookie = Ok response
    /\ sublist calendarData (Http.data response).
Proof.
  cbv [getCalendarData try_catch bind Date_now generateCookieString http modify
       lift log_failure write_log throw].
  destruct (selectedCalendarEvents env _ _ _) as [response|e] eqn:Hanswer.
  - match goal with
    | |- context [extractCookies response ?w0] =>
      destruct (extractCookies response w0) as [[[]|e] w2]
    end.
    + destruct (filter_of (Http.data response) _ w2) as [[out|e] w3] eqn:Hfilter.
      * cbn [ret]. intros H. injection H as <- _.
        eexists _, _, _, response. split; [exact Hanswer|].
        eapply filter_of_sublist. exact Hfilter.
      * cbv [ret]. by_error e; discriminate.
    + cbv [ret]. by_error e; discriminate.
  - cbv [ret]. by_error e; discriminate.
Qed.

(** The text of the alert for a deadline, as [notifyAssignment] builds it,
    or the error of reading the alias; a personal event has no course to
    look up. *)
Definition assignment_text (record : AssignmentRecord.t) : result jsstring :=
  let body :=
    trim (AssignmentRecord.description record ++ NoticeHandler.deadline_label
          ++ AssignmentRecord.time record) in
  if jseqb (AssignmentRecord.course record) personal then
    Ok (Config.assignmentTitlePrefix config ++ lit " "
        ++ AssignmentRecord.title record ++ [10] ++ body)
  else
    match NoticeHandler.subject (Config.courseAliases config)
            (Config.assignmentTitlePrefix config)
            (AssignmentRecord.course record) (AssignmentRecord.title record) with
    | Throw e => Throw e
    | Ok subject => Ok (subject ++ [10] ++ body)
    end.

Lemma notifyAssignment_run record w :
  notifyAssignment env config record w
  = match assignment_text record with
    | Throw e => (Throw e, w)
    | Ok text => send env (AssignmentAlert text) w
    end.
Proof.
  unfold notifyAssignment, assignment_text. rewrite bind_run.
  destruct (jseqb _ personal).
  - cbn [ret]. now rewrite <- !app_assoc.
  - unfold lift. now destruct (NoticeHandler.subject _ _ _ _).
Qed.

Lemma notifyAssignment_notice_record record :
  preserves notice_record (notifyAssignment env config record).
Proof.
  intros w. rewrite notifyAssignment_run.
  destruct (assignment_text record); [|reflexivity].
  rewrite send_run. reflexivity.
Qed.

Lemma notifyAssignment_assignment_record record :
  preserves assignment_record (notifyAssignment env config record).
Proof.
  intros w. rewrite notifyAssignment_run.
  destruct (assignment_text record); [|reflexivity].
  rewrite send_run. reflexivity.
Qed.

(** What a calendar pass, first or later, does to the tables. *)
Definition calendar_pass_effect (w w' : World) : Prop :=
  notice_record w' = notice_record w
  /\ exists batch now,
       assignment_record w'
       = assignment_record w
         ++ stored_prefix (create_assignment env) (assignment_record w)
              (List.map (stamp userId now) batch)
       /\ (batch = []
           \/ exists start stop cookie response calendarData,
                selectedCalendarEvents env start stop cookie = Ok response
                /\ sublist calendarData (Http.data response)
                /\ List.map AssignmentRecord.assignmentId batch
                   = List.map CalendarEntry.id
                       (fresh_calendar (oldAssignmentIds w) calendarData)
                     ++ (if bool_decide (NoticeHandler.init_id ∈ oldAssignmentIds w)
                         then [] else [NoticeHandler.init_id])).

Lemma calendar_pass_nothing w w0 :
  notice_record w0 = notice_record w ->
  assignment_record w0 = assignment_record w ->
  calendar_pass_effect w w0.
Proof.
  intros Hn Ha. split; [exact Hn|]. exists [], 0.
  cbn. rewrite app_nil_r. split; [exact Ha|now left].
Qed.

Lemma calendar_pass_stored w w0 batch start stop cookie response calendarData :
  notice_record w0 = notice_record w ->
  assignment_record w0 = assignment_record w ->
  selectedCalendarEvents env start stop cookie = Ok response ->
  sublist calendarData (Http.data response) ->
  List.map AssignmentRecord.assignmentId batch
  = List.map CalendarEntry.id (fresh_calendar (oldAssignmentIds w) calendarData)
    ++ (if bool_decide (NoticeHandler.init_id ∈ oldAssignmentIds w)
        then [] else [NoticeHandler.init_id]) ->
  calendar_pass_effect w (snd (createAssignmentRecords env userId batch w0)).
Proof.
  intros Hn Ha Hanswer Hsub Hbatch.
  destruct (createAssignmentRecords_stores env userId batch w0) as [_ Hrows].
  split.
  - rewrite <- Hn. unfold createAssignmentRecords.
    apply (preserves_bind notice_record); [intros w4; reflexivity|].
    intros now. apply preserves_try_catch; [|intros e w4; reflexivity].
    apply preserves_for_of. intros row w4. unfold create_assignment_record.
    now destruct (create_assignment env (assignment_record w4) row).
  - exists batch, (clock env (ticks w0)). rewrite Hrows, Ha.
    split; [reflexivity|]. right.
    exists start, stop, cookie, response, calendarData. now repeat split.
Qed.

Lemma calendar_process_rows w :
  calendar_pass_effect w (snd (process env userId config w)).
Proof.
  unfold process. rewrite try_catch_run.
  destruct (Config.calendarAdvanceHours config <=? 0).
  { rewrite send_run. destruct (deliver env AdvanceHoursNotPositive);
      [|rewrite send_run]; now apply calendar_pass_nothing. }
  rewrite bind_run.
  pose proof (blind_getCalendarData notice_record env
                (Config.calendarAdvanceHours config) w) as Hn1.
  pose proof (blind_getCalendarData assignment_record env
                (Config.calendarAdvanceHours config) w) as Ha1.
  destruct (getCalendarData env _ w) as [[calendarData|e] w1] eqn:Hfetch;
    cbn [snd] in Hn1, Ha1.
  2:{ rewrite send_run. apply calendar_pass_nothing; assumption. }
  destruct (getCalendarData_data _ w calendarData w1 Hfetch)
    as (start & stop & cookie & response & Hanswer & Hsub).
  rewrite bind_run. cbn [getAssignmentRecords].
  fold (assignmentIds (assignment_record w1)). rewrite Ha1.
  fold (oldAssignmentIds w).
  rewrite bind_run.
  destruct (calendar_collect_run (oldAssignmentIds w) calendarData w1)
    as (records & w2 & -> & Hids & Hs2 & Hn2 & Ha2 & _).
  rewrite bind_run.
  destruct (bool_decide (NoticeHandler.init_id ∈ oldAssignmentIds w)) eqn:Hmark;
    cbn [negb].
  - (* a later pass *)
    rewrite bind_run.
    pose proof (preserves_for_of notice_record records
                  (fun record => if AssignmentRecord.shouldNotify record
                                 then notifyAssignment env config record else ret tt)
                  ltac:(intros r; cbv beta; destruct (AssignmentRecord.shouldNotify r);
                        [apply notifyAssignment_notice_record|apply preserves_ret])
                  w2) as Hn3.
    pose proof (preserves_for_of assignment_record records
                  (fun record => if AssignmentRecord.shouldNotify record
                                 then notifyAssignment env config record else ret tt)
                  ltac:(intros r; cbv beta; destruct (AssignmentRecord.shouldNotify r);
                        [apply notifyAssignment_assignment_record|apply preserves_ret])
                  w2) as Ha3.
    destruct (for_of records _ w2) as [[[]|e] w3]; cbn [snd] in Hn3, Ha3.
    + cbn [ret]. destruct records as [|r rs] eqn:Hrecords.
      * cbn [ret snd]. apply calendar_pass_nothing; congruence.
      * rewrite (caught_nothing _ _ _ tt)
          by apply createAssignmentRecords_stores.
        apply (calendar_pass_stored w w3 (r :: rs) start stop cookie response
                 calendarData); try congruence.
        rewrite Hmark, app_nil_r. exact Hids.
    + rewrite send_run. apply calendar_pass_nothing; cbn; congruence.
  - (* a first pass *)
    rewrite bind_run, send_run.
    destruct (deliver env _).
    + rewrite bind_run. cbn [Date_now ret].
      destruct (records ++ [initRecord _]) as [|r rs] eqn:Hbatch.
      { now destruct records. }
      rewrite <- Hbatch.
      rewrite (caught_nothing _ _ _ tt) by apply createAssignmentRecords_stores.
      apply (calendar_pass_stored w _ _ start stop cookie response calendarData);
        [cbn; congruence|cbn; congruence|exact Hanswer|exact Hsub|].
      rewrite Hmark, List.map_app, Hids. reflexivity.
    + rewrite send_run. apply calendar_pass_nothing; cbn; congruence.
Qed.

End Calendar.

Lemma noticeIds_app userId (t1 t2 : list (Row.t NoticeRecord.t)) :
  noticeIds userId (t1 ++ t2) = noticeIds userId t1 ++ noticeIds userId t2.
Proof. unfold noticeIds, get. now rewrite List.filter_app, List.map_app. Qed.

Lemma noticeIds_stamped userId now (records : list NoticeRecord.t) :
  noticeIds userId (List.map (stamp userId now) records)
  = List.map NoticeRecord.noticeId records.
Proof.
  unfold noticeIds. rewrite get_stamped, List.map_map. reflexivity.
Qed.

Lemma noticeIds_stamped_other userId other now (records : list NoticeRecord.t) :
  other <> userId ->
  noticeIds other (List.map (stamp userId now) records) = [].
Proof. intros Hne. unfold noticeIds. now rewrite get_stamped_other. Qed.

Lemma assignmentIds_app userId (t1 t2 : list (Row.t AssignmentRecord.t)) :
  assignmentIds userId (t1 ++ t2)
  = assignmentIds userId t1 ++ assignmentIds userId t2.
Proof. unfold assignmentIds, get. now rewrite List.filter_app, List.map_app. Qed.

Lemma assignmentIds_stamped userId now (records : list AssignmentRecord.t) :
  assignmentIds userId (List.map (stamp userId now) records)
  = List.map AssignmentRecord.assignmentId records.
Proof.
  unfold assignmentIds. rewrite get_stamped, List.map_map. reflexivity.
Qed.

Lemma assignmentIds_stamped_other userId other now
  (records : list AssignmentRecord.t) :
  other <> userId ->
  assignmentIds other (List.map (stamp userId now) records) = [].
Proof. intros Hne. unfold assignmentIds. now rewrite get_stamped_other. Qed.

(** *** The ledger across passes *)

Section Ids.
Context {A : Type} (f : A -> jsstring).

Lemma elem_of_map (l : list A) (x : jsstring) :
  x ∈ List.map f l <-> exists a, a ∈ l /\ f a = x.
Proof.
  rewrite list_elem_of_In, List.in_map_iff. split.
  - intros (a & Ha & Hin). exists a. now rewrite list_elem_of_In.
  - intros (a & Hin & Ha). exists a. now rewrite <- list_elem_of_In.
Qed.

Lemma elem_of_filter_ids (old : gset jsstring) (l : list A) (x : jsstring) :
  x ∈ List.map f (List.filter (fun a => negb (bool_decide (f a ∈ old))) l) ->
  (x ∉ old) /\ (x ∈ List.map f l).
Proof.
  rewrite !elem_of_map. intros (a & Hin & <-).
  apply list_elem_of_In, List.filter_In in Hin as [Hin Hfresh].
  split.
  - apply negb_true_iff, bool_decide_eq_false in Hfresh. exact Hfresh.
  - exists a. now rewrite list_elem_of_In.
Qed.

Lemma NoDup_filter_ids (p : A -> bool) (l : list A) :
  NoDup (List.map f l) -> NoDup (List.map f (List.filter p l)).
Proof.
  induction l as [|a l IH]; cbn [List.map List.filter]; [trivial|].
  rewrite NoDup_cons. intros [Hnew Hrest].
  destruct (p a); [|now apply IH].
  cbn [List.map]. apply NoDup_cons. split; [|now apply IH].
  intros Hin. apply Hnew. apply elem_of_map in Hin as (b & Hb & Hfb).
  apply list_elem_of_In, List.filter_In in Hb as [Hb _].
  apply elem_of_map. exists b. now rewrite list_elem_of_In.
Qed.

Lemma sublist_map_elem_of (c d : list A) (x : jsstring) :
  sublist c d -> x ∈ List.map f c -> x ∈ List.map f d.
Proof.
  intros Hsub. rewrite !elem_of_map. intros (a & Hin & Ha).
  exists a. split; [|exact Ha]. eapply elem_of_sublist; eassumption.
Qed.

Lemma sublist_map_NoDup (c d : list A) :
  sublist c d -> NoDup (List.map f d) -> NoDup (List.map f c).
Proof.
  induction 1 as [|a c d Hsub IH|a c d Hsub IH]; cbn [List.map].
  - trivial.
  - rewrite !NoDup_cons. intros [Hnew Hrest]. split; [|now apply IH].
    intros Hin. apply Hnew. eapply sublist_map_elem_of; eassumption.
  - rewrite NoDup_cons. intros [_ Hrest]. now apply IH.
Qed.

End Ids.

(** Appending the stored part of a batch of new, distinct ids keeps the
    ids of the table distinct. *)
Lemma NoDup_extend (old_ids batch_ids stored_ids rest : list jsstring) :
  NoDup old_ids -> NoDup batch_ids ->
  (forall x, x ∈ batch_ids -> x ∉ old_ids) ->
  batch_ids = stored_ids ++ rest ->
  NoDup (old_ids ++ stored_ids).
Proof.
  intros Hold Hbatch Hnew ->. apply NoDup_app in Hbatch as (Hstored & _ & _).
  apply NoDup_app. split; [exact Hold|]. split; [|exact Hstored].
  intros x Hx Hin. apply (Hnew x); [|exact Hx].
  apply elem_of_app. now left.
Qed.

(** The ids of a batch: the new ids of a feed of distinct ids without the
    mark, then the mark when it was missing. *)
Lemma batch_ids_new (old_ids feed_ids : list jsstring) (fresh_ids : list jsstring) :
  NoDup feed_ids -> NoticeHandler.init_id ∉ feed_ids ->
  NoDup fresh_ids ->
  (forall x, x ∈ fresh_ids -> (x ∉ old_ids) /\ (x ∈ feed_ids)) ->
  let batch_ids :=
    fresh_ids ++ (if bool_decide (NoticeHandler.init_id ∈ (list_to_set old_ids : gset jsstring))
                  then [] else [NoticeHandler.init_id]) in
  NoDup batch_ids /\ forall x, x ∈ batch_ids -> x ∉ old_ids.
Proof.
  intros Hfeed Hmark Hfresh Hin batch_ids. subst batch_ids.
  destruct (bool_decide _) eqn:Hstored.
  - rewrite app_nil_r. split; [exact Hfresh|]. intros x Hx. now apply Hin.
  - apply bool_decide_eq_false in Hstored. rewrite elem_of_list_to_set in Hstored.
    split.
    + apply NoDup_app. split; [exact Hfresh|]. split; [|apply NoDup_singleton].
      intros x Hx Hx'. apply list_elem_of_singleton in Hx' as ->.
      apply Hmark. now apply Hin.
    + intros x Hx. apply elem_of_app in Hx as [Hx|Hx]; [now apply Hin|].
      now apply list_elem_of_singleton in Hx as ->.
Qed.

(** One pass of either kind, for some identity, against some state of the
    outside. *)
Inductive Pass : Type :=
| NoticePass (env : Env) (userId : jsstring) (config : Config.t)
| CalendarPass (env : Env) (userId : jsstring) (config : Config.t).

Definition run_pass (p : Pass) (w : World) : World :=
  match p with
  | NoticePass env userId config => snd (NoticeHandler.process env userId config w)
  | CalendarPass env userId config => snd (CalendarHandler.process env userId config w)
  end.

Definition run_passes (ps : list Pass) (w : World) : World :=
  fold_left (fun w p => run_pass p w) ps w.

(** The platform never answers a pass with a feed that repeats an id or
    uses the id of the mark. *)
Definition distinct_notice_feed (env : Env) : Prop :=
  forall cookie response,
    streamViewerLoad env cookie = Ok response ->
    let ids := List.map Entry.se_id
                 (default [] (NoticeData.sv_streamEntries (Http.data response))) in
    NoDup ids /\ NoticeHandler.init_id ∉ ids.

Definition distinct_calendar_feed (env : Env) : Prop :=
  forall start stop cookie response,
    selectedCalendarEvents env start stop cookie = Ok response ->
    let ids := List.map CalendarEntry.id (Http.data response) in
    NoDup ids /\ NoticeHandler.init_id ∉ ids.

Definition distinct_feed (p : Pass) : Prop :=
  match p with
  | NoticePass env _ _ => distinct_notice_feed env
  | CalendarPass env _ _ => distinct_calendar_feed env
  end.

(** No identity has two stored records with the same id, in either table. *)
Definition ledger_distinct (w : World) : Prop :=
  forall userId,
    NoDup (noticeIds userId (notice_record w))
    /\ NoDup (assignmentIds userId (assignment_record w)).

Lemma notice_pass_ledger env userId w w' :
  notice_pass_effect env userId w w' ->
  distinct_notice_feed env ->
  ledger_distinct w -> ledger_distinct w'.
Proof.
  intros (Hassignments & batch & now & Hrows & Hbatch) Hfeed Hledger user.
  rewrite Hassignments. split; [|apply Hledger].
  rewrite Hrows, noticeIds_app.
  destruct (stored_prefix_is_prefix (create_notice env)
              (List.map (stamp userId now) batch) (notice_record w))
    as [rest Hprefix].
  set (stored := stored_prefix _ _ _) in *.
  destruct (decide (user = userId)) as [->|Hother].
  - assert (Hids : List.map NoticeRecord.noticeId batch
                   = noticeIds userId stored ++ noticeIds userId rest).
    { rewrite <- noticeIds_app, <- Hprefix. symmetry. apply noticeIds_stamped. }
    destruct Hbatch as [->|(cookie & response & Hload & Hfresh)].
    + symmetry in Hids. apply app_eq_nil in Hids as [-> _].
      rewrite app_nil_r. apply Hledger.
    + destruct (Hfeed cookie response Hload) as [Hdistinct Hmark].
      rewrite Hfresh in Hids.
      destruct (batch_ids_new (noticeIds userId (notice_record w)) _
                  (List.map Entry.se_id
                     (fresh (oldNoticeIds userId w)
                        (default [] (NoticeData.sv_streamEntries
                                       (Http.data response)))))
                  Hdistinct Hmark)
        as [Hnodup Hnew].
      * now apply NoDup_filter_ids.
      * intros x Hx. apply elem_of_filter_ids in Hx as [Hx Hin].
        split; [|exact Hin]. intros Hold. apply Hx.
        unfold oldNoticeIds. now rewrite elem_of_list_to_set.
      * eapply NoDup_extend; [apply Hledger|exact Hnodup|exact Hnew|exact Hids].
  - assert (Hnone : noticeIds user stored ++ noticeIds user rest = []).
    { rewrite <- noticeIds_app, <- Hprefix. now apply noticeIds_stamped_other. }
    apply app_eq_nil in Hnone as [-> _]. rewrite app_nil_r. apply Hledger.
Qed.

Lemma calendar_pass_ledger env userId w w' :
  calendar_pass_effect env userId w w' ->
  distinct_calendar_feed env ->
  ledger_distinct w -> ledger_distinct w'.
Proof.
  intros (Hnotices & batch & now & Hrows & Hbatch) Hfeed Hledger user.
  rewrite Hnotices. split; [apply Hledger|].
  rewrite Hrows, assignmentIds_app.
  destruct (stored_prefix_is_prefix (create_assignment env)
              (List.map (stamp userId now) batch) (assignment_record w))
    as [rest Hprefix].
  set (stored := stored_prefix _ _ _) in *.
  destruct (decide (user = userId)) as [->|Hother].
  - assert (Hids : List.map AssignmentRecord.assignmentId batch
                   = assignmentIds userId stored ++ assignmentIds userId rest).
    { rewrite <- assignmentIds_app, <- Hprefix. symmetry.
      apply assignmentIds_stamped. }
    destruct Hbatch
      as [->|(start & stop & cookie & response & calendarData & Hanswer & Hsub & Hfresh)].
    + symmetry in Hids. apply app_eq_nil in Hids as [-> _].
      rewrite app_nil_r. apply Hledger.
    + destruct (Hfeed start stop cookie response Hanswer) as [Hdistinct Hmark].
      rewrite Hfresh in Hids.
      destruct (batch_ids_new (assignmentIds userId (assignment_record w))
                  (List.map CalendarEntry.id (Http.data response))
                  (List.map CalendarEntry.id
                     (fresh_calendar (oldAssignmentIds userId w) calendarData))
                  Hdistinct Hmark)
        as [Hnodup Hnew].
      * apply NoDup_filter_ids. eapply sublist_map_NoDup; eassumption.
      * intros x Hx. apply elem_of_filter_ids in Hx as [Hx Hin].
        split; [|eapply sublist_map_elem_of; eassumption].
        intros Hold. apply Hx.
        unfold oldAssignmentIds. now rewrite elem_of_list_to_set.
      * eapply NoDup_extend; [apply Hledger|exact Hnodup|exact Hnew|exact Hids].
  - assert (Hnone : assignmentIds user stored ++ assignmentIds user rest = []).
    { rewrite <- assignmentIds_app, <- Hprefix.
      now apply assignmentIds_stamped_other. }
    apply app_eq_nil in Hnone as [-> _]. rewrite app_nil_r. apply Hledger.
Qed.

Lemma run_pass_ledger p w :
  distinct_feed p -> ledger_distinct w -> ledger_distinct (run_pass p w).
Proof.
  destruct p as [env userId config|env userId config]; cbn [distinct_feed run_pass].
  - apply (notice_pass_ledger env userId), notice_process_rows.
  - apply (calendar_pass_ledger env userId), calendar_process_rows.
Qed.

(** The tables only grow. *)
Lemma run_pass_grows p w :
  exists notices assignments,
    notice_record (run_pass p w) = notice_record w ++ notices
    /\ assignment_record (run_pass p w) = assignment_record w ++ assignments.
Proof.
  destruct p as [env userId config|env userId config]; cbn [run_pass].
  - destruct (notice_process_rows env userId config w)
      as (Ha & batch & now & Hn & _).
    eexists _, []. split; [exact Hn|rewrite app_nil_r; exact Ha].
  - destruct (calendar_process_rows env userId config w)
      as (Hn & batch & now & Ha & _).
    eexists [], _. split; [rewrite app_nil_r; exact Hn|exact Ha].
Qed.

Lemma run_passes_grows ps : forall w,
  exists notices assignments,
    notice_record (run_passes ps w) = notice_record w ++ notices
    /\ assignment_record (run_passes ps w) = assignment_record w ++ assignments.
Proof.
  induction ps as [|p ps IH]; intros w; cbn [run_passes fold_left].
  - exists [], []. now rewrite !app_nil_r.
  - destruct (IH (run_pass p w)) as (n2 & a2 & Hn2 & Ha2).
    destruct (run_pass_grows p w) as (n1 & a1 & Hn1 & Ha1).
    exists (n1 ++ n2), (a1 ++ a2). unfold run_passes in *.
    now rewrite Hn2, Ha2, Hn1, Ha1, <- !app_assoc.
Qed.

Lemma run_passes_ledger ps : forall w,
  Forall distinct_feed ps -> ledger_distinct w -> ledger_distinct (run_passes ps w).
Proof.
  induction ps as [|p ps IH]; intros w Hfeeds Hledger; [exact Hledger|].
  apply Forall_cons in Hfeeds as [Hp Hps].
  cbn [run_passes fold_left]. apply IH; [exact Hps|].
  now apply run_pass_ledger.
Qed.

Lemma run_passes_app ps1 ps2 w :
  run_passes (ps1 ++ ps2) w = run_passes ps2 (run_passes ps1 w).
Proof. unfold run_passes. apply fold_left_app. Qed.

(** C5, as the code has it.  From empty tables, after any sequence of
    passes for any identities in which no feed repeats an id or uses the id
    of the mark, no identity has two stored records with the same id, in
    either table; so the mark is stored at most once.  And the tables only
    grow: a mark that is stored after some passes is still stored after any
    further passes. *)
Theorem ledger_stays_distinct (ps : list Pass) (w0 : World) :
  notice_record w0 = [] -> assignment_record w0 = [] ->
  Forall distinct_feed ps ->
  ledger_distinct (run_passes ps w0)
  /\ forall ps1 ps2 userId,
       ps = ps1 ++ ps2 ->
       (NoticeHandler.init_id ∈ noticeIds userId (notice_record (run_passes ps1 w0)) ->
        NoticeHandler.init_id ∈ noticeIds userId (notice_record (run_passes ps w0)))
       /\ (NoticeHandler.init_id
             ∈ assignmentIds userId (assignment_record (run_passes ps1 w0)) ->
           NoticeHandler.init_id
             ∈ assignmentIds userId (assignment_record (run_passes ps w0))).
Proof.
  intros Hnotices Hassignments Hfeeds. split.
  - apply run_passes_ledger; [exact Hfeeds|].
    intros userId. rewrite Hnotices, Hassignments. split; constructor.
  - intros ps1 ps2 userId ->. rewrite run_passes_app.
    destruct (run_passes_grows ps2 (run_passes ps1 w0)) as (n & a & -> & ->).
    rewrite noticeIds_app, assignmentIds_app.
    split; intros Hin; apply elem_of_app; now left.
Qed.

(** *** First pass *)


(** An entry is judged when the override column holds an object of strings
    and neither the course id nor the lower-cased course name is the name of
    a member of [Object.prototype]. *)
Lemma judged_strings config overrides courseDict entry :
  Config.specificCourseEvents config = Some (JSON.strings overrides) ->
  (courseDict !! Entry.se_courseId entry = None ->
   JSON.inherited (Entry.se_courseId entry) = JSON.Falsy) ->
  (forall course, courseDict !! Entry.se_courseId entry = Some course ->
                  JSON.inherited (toLowerCase course) = JSON.Falsy) ->
  exists verdict, judged config courseDict entry = Ok verdict.
Proof.
  intros Hcolumn Hid Hcourse. unfold judged, JSON.member.
  destruct (courseDict !! Entry.se_courseId entry) as [[|c course]|] eqn:Hfound;
    cbn [JSON.or_else].
  - rewrite (PolicyFacts.isEventAllowed_strings config overrides [] _ Hcolumn
               eq_refl). eauto.
  - rewrite (PolicyFacts.isEventAllowed_strings config overrides (c :: course) _
               Hcolumn (Hcourse _ eq_refl)). eauto.
  - rewrite (Hid eq_refl). cbn [JSON.or_else].
    rewrite (PolicyFacts.isEventAllowed_strings config overrides [] _ Hcolumn
               eq_refl). eauto.
Qed.


(** A first pass in which an entry cannot be judged reports the failure
    and does nothing else. *)
Lemma notice_first_pass_unjudged env userId config w noticeData w1 e :
  getNoticeData env w = (Ok noticeData, w1) ->
  NoticeHandler.init_id ∉ noticeIds userId (notice_record w) ->
  first_batch env userId config noticeData w = Throw e ->
  let w' := snd (NoticeHandler.process env userId config w) in
  sent w' = sent w ++ [NoticeFailed e]
  /\ notice_record w' = notice_record w.
Proof.
  intros Hfetch Hinit Hbatch w'. subst w'.
  rewrite (process_first_run env userId config noticeData w w1 Hfetch Hinit), Hbatch.
  rewrite send_run. cbn [snd sent set_sent notice_record].
  pose proof (blind_getNoticeData sent env w) as Hs.
  pose proof (blind_getNoticeData notice_record env w) as Hn.
  rewrite Hfetch in Hs, Hn. cbn [snd] in Hs, Hn. now rewrite Hs, Hn.
Qed.




Lemma preserves_requests_send env m : preserves requests (send env m).
Proof. intros w. rewrite send_run. reflexivity. Qed.

Lemma preserves_requests_createNoticeRecords env userId records :
  preserves requests (createNoticeRecords env userId records).
Proof.
  unfold createNoticeRecords.
  apply preserves_bind; [intros w; reflexivity|]. intros now.
  apply preserves_try_catch; [|intros e w; reflexivity].
  apply preserves_for_of. intros row w. unfold create_notice_record.
  now destruct (create_notice env (notice_record w) row).
Qed.

Lemma preserves_requests_createAssignmentRecords env userId records :
  preserves requests (createAssignmentRecords env userId records).
Proof.
  unfold createAssignmentRecords.
  apply preserves_bind; [intros w; reflexivity|]. intros now.
  apply preserves_try_catch; [|intros e w; reflexivity].
  apply preserves_for_of. intros row w. unfold create_assignment_record.
  now destruct (create_assignment env (assignment_record w) row).
Qed.

(** C8, as the code has it.  A first notice pass requests nothing but the
    feed: no item page is fetched, whatever the entries and their
    eligibility.  A first calendar pass still requests the attempt page of
    every new entry that is a course deadline, once each and in feed order:
    [filterAssignmentInfo] needs the page to tell whether the work was
    handed in. *)
Theorem first_pass_detail_requests (env : Env) (userId : jsstring)
  (config : Config.t) (w : World) :
  (NoticeHandler.init_id ∉ noticeIds userId (notice_record w) ->
   exists l,
     requests (snd (NoticeHandler.process env userId config w)) = requests w ++ l
     /\ Forall (fun r => is_feed_request r = true) l)
  /\ (forall calendarData w1,
     0 < Config.calendarAdvanceHours config ->
     getCalendarData env (Config.calendarAdvanceHours config) w
       = (Ok calendarData, w1) ->
     NoticeHandler.init_id ∉ assignmentIds userId (assignment_record w) ->
     exists l,
       requests (snd (CalendarHandler.process env userId config w)) = requests w ++ l
       /\ attempt_ids l
          = List.map CalendarEntry.id
              (List.filter is_course_deadline
                 (fresh_calendar (oldAssignmentIds userId w) calendarData))).
Proof.
  split.
  - intros Hinit.
    destruct (requests_getNoticeData env w) as (l & Hl & Hfeed).
    exists l. split; [|exact Hfeed].
    destruct (getNoticeData env w) as [[noticeData|e] w1] eqn:Hfetch.
    + rewrite (process_first_run env userId config noticeData w w1 Hfetch Hinit).
      destruct (first_batch env userId config noticeData w) as [batch|e].
      * cbv zeta. destruct (deliver env _).
        -- rewrite preserves_requests_createNoticeRecords. exact Hl.
        -- rewrite preserves_requests_send. exact Hl.
      * rewrite preserves_requests_send. exact Hl.
    + unfold NoticeHandler.process. rewrite try_catch_run, bind_run, Hfetch.
      rewrite preserves_requests_send. exact Hl.
  - intros calendarData w1 Hhours Hfetch Hinit.
    destruct (requests_getCalendarData env (Config.calendarAdvanceHours config) w)
      as (l1 & Hl1 & Hfeed).
    rewrite Hfetch in Hl1. cbn [snd] in Hl1.
    destruct (calendar_first_run env userId config calendarData w w1 Hhours Hfetch Hinit)
      as (records & w2 & Hcollect & ->).
    destruct (calendar_collect_run env (oldAssignmentIds userId w) calendarData w1)
      as (records' & w2' & Hcollect' & _ & _ & _ & _ & l2 & Hl2 & Hattempts).
    rewrite Hcollect in Hcollect'. injection Hcollect' as <- <-.
    exists (l1 ++ l2). split.
    + destruct (deliver env CalendarInitialized).
      * rewrite preserves_requests_createAssignmentRecords.
        cbn [requests set_ticks set_sent]. now rewrite Hl2, Hl1, app_assoc.
      * rewrite preserves_requests_send.
        cbn [requests set_sent]. now rewrite Hl2, Hl1, app_assoc.
    + rewrite attempt_ids_app, (attempt_ids_feed l1 Hfeed). exact Hattempts.
Qed.

(** A platform with a feed of two notices (a new assignment and an
    announcement of the same course) and a calendar of two entries (a course
    deadline and a personal event); sink and driver accept everything. *)
Definition campus : Env :=
  {| oauthlogin := fun _ _ =>
       Ok {| Http.data := {| Http.success := true; Http.token := lit "token" |};
             Http.set_cookie := None |};
     campusLogin := fun _ =>
       Ok {| Http.data := tt;
             Http.set_cookie := Some [lit "s_session_id=ABC; Path=/; HttpOnly"] |};
     streamViewerView := fun _ =>
       Ok {| Http.data := tt;
             Http.set_cookie := Some [lit "JSESSIONID=XYZ; Path=/webapps/streamViewer"] |};
     streamViewerLoad := fun _ =>
       Ok {| Http.data :=
               {| NoticeData.sx_courses :=
                    Some [{| Course.id := lit "_1_1"; Course.name := lit "Math(24-25)" |}];
                  NoticeData.sv_streamEntries :=
                    Some [{| Entry.se_id := lit "n1"; Entry.se_timestamp := 1;
                             Entry.se_courseId := lit "_1_1";
                             Entry.se_context := Some (lit "<b>Homework 1</b>xx");
                             Entry.se_details := Some (lit "<p>Exercises</p>");
                             Entry.event_type := Some (lit "AS:AS_AVAIL");
                             Entry.se_itemUri := Some (lit "/webapps/assignment?id=1");
                             Entry.dueDate := Some (lit "2025-01-01T00:00:00Z") |};
                          {| Entry.se_id := lit "n2"; Entry.se_timestamp := 2;
                             Entry.se_courseId := lit "_1_1";
                             Entry.se_context := Some (lit "Room change..");
                             Entry.se_details := None;
                             Entry.event_type := Some (lit "AN:AN_AVAIL");
                             Entry.se_itemUri := None;
                             Entry.dueDate := None |}] |};
             Http.set_cookie := None |};
     selectedCalendarEvents := fun _ _ _ =>
       Ok {| Http.data :=
               [{| CalendarEntry.id := lit "d1"; CalendarEntry.endDate := lit "soon";
                   CalendarEntry.calendarName := lit "Math(24-25)";
                   CalendarEntry.title := lit "Homework 1";
                   CalendarEntry.description := None |};
                {| CalendarEntry.id := lit "d2"; CalendarEntry.endDate := lit "soon";
                   CalendarEntry.calendarName := CalendarHandler.personal;
                   CalendarEntry.title := lit "Dentist";
                   CalendarEntry.description := Some (lit "at noon") |}];
             Http.set_cookie := None |};
     noticeItemPage := fun _ _ =>
       Ok {| Http.data := lit "<title>Upload</title>"; Http.set_cookie := None |};
     calendarAttemptPage := fun _ _ =>
       Ok {| Http.data := lit "<title>Upload</title>"; Http.set_cookie := None |};
     deliver := fun _ => true;
     create_notice := fun _ _ => true;
     create_assignment := fun _ _ => true;
     clock := fun n => 1000 + Z.of_nat n;
     convertToTime := fun _ => lit "time";
     convertTimezone := fun s => s;
     convertToTimestamp := fun s =>
       if jseqb s (lit "soon") then Some (1000 + ClientFacts.hour) else None |}.

Definition defaults : Config.t :=
  {| Config.courseAliases := Some (JSON.strings ∅);
     Config.noticeTitlePrefix := lit "[bb]";
     Config.generalAllowedEvents := lit "123";
     Config.specificCourseEvents := Some (JSON.strings ∅);
     Config.calendarAdvanceHours := 24;
     Config.assignmentTitlePrefix := lit "[DDL!]" |}.







Lemma campus_first_notice_pass :
  sent (snd (NoticeHandler.process campus (lit "u") defaults ClientFacts.empty_world))
  = [NoticeInitialized 2]
  /\ noticeIds (lit "u")
       (notice_record
          (snd (NoticeHandler.process campus (lit "u") defaults
                  ClientFacts.empty_world)))
     = [lit "n1"; lit "n2"; lit "%init%"].
Proof. vm_compute. split; reflexivity. Qed.

Definition three_passes : list Pass :=
  [NoticePass campus (lit "u") defaults;
   CalendarPass campus (lit "u") defaults;
   NoticePass campus (lit "v") defaults;
   NoticePass campus (lit "u") defaults].

Lemma campus_distinct_feeds : Forall distinct_feed three_passes.
Proof.
  assert (Hnotice : distinct_notice_feed campus).
  { intros cookie response Hload. injection Hload as <-.
    cbv zeta. split; refine (bool_decide_unpack _ _); vm_compute; exact I. }
  assert (Hcalendar : distinct_calendar_feed campus).
  { intros start stop cookie response Hanswer. injection Hanswer as <-.
    cbv zeta. split; refine (bool_decide_unpack _ _); vm_compute; exact I. }
  repeat (apply List.Forall_cons; [assumption|]). apply List.Forall_nil.
Defined.

Lemma ledger_stays_distinct_witness :
  ledger_distinct (run_passes three_passes ClientFacts.empty_world)
  /\ noticeIds (lit "u")
       (notice_record (run_passes three_passes ClientFacts.empty_world))
     = [lit "n1"; lit "n2"; lit "%init%"].
Proof.
  split.
  - apply (ledger_stays_distinct three_passes ClientFacts.empty_world);
      [reflexivity|reflexivity|exact campus_distinct_feeds].
  - vm_compute. reflexivity.
Defined.

(** The platform of [campus], answering with a feed in which the same
    notice appears twice. *)
Definition repeating : Env :=
  {| oauthlogin := oauthlogin campus;
     campusLogin := campusLogin campus;
     streamViewerView := streamViewerView campus;
     streamViewerLoad := fun _ =>
       Ok {| Http.data :=
               {| NoticeData.sx_courses := None;
                  NoticeData.sv_streamEntries :=
                    Some [{| Entry.se_id := lit "n1"; Entry.se_timestamp := 1;
                             Entry.se_courseId := lit "_1_1";
                             Entry.se_context := Some (lit "Room change..");
                             Entry.se_details := None;
                             Entry.event_type := Some (lit "AN:AN_AVAIL");
                             Entry.se_itemUri := None;
                             Entry.dueDate := None |};
                          {| Entry.se_id := lit "n1"; Entry.se_timestamp := 1;
                             Entry.se_courseId := lit "_1_1";
                             Entry.se_context := Some (lit "Room change..");
                             Entry.se_details := None;
                             Entry.event_type := Some (lit "AN:AN_AVAIL");
                             Entry.se_itemUri := None;
                             Entry.dueDate := None |}] |};
             Http.set_cookie := None |};
     selectedCalendarEvents := selectedCalendarEvents campus;
     noticeItemPage := noticeItemPage campus;
     calendarAttemptPage := calendarAttemptPage campus;
     deliver := fun _ => true;
     create_notice := fun _ _ => true;
     create_assignment := fun _ _ => true;
     clock := clock campus;
     convertToTime := convertToTime campus;
     convertTimezone := convertTimezone campus;
     convertToTimestamp := convertToTimestamp campus |}.

(** C5 as stated fails: when one feed answer holds the same id twice, both
    entries are stored, since the ids are compared with those loaded before
    the loop only. *)
Lemma repeated_entry_is_stored_twice :
  ~ (forall ps w0,
       notice_record w0 = [] -> assignment_record w0 = [] ->
       ledger_distinct (run_passes ps w0)).
Proof.
  intros H.
  destruct (H [NoticePass repeating (lit "u") defaults] ClientFacts.empty_world
              eq_refl eq_refl (lit "u")) as [Hnotices _].
  vm_compute in Hnotices.
  apply NoDup_cons in Hnotices as [Hfirst _]. apply Hfirst. left.
Qed.

Lemma first_pass_detail_requests_witness :
  (exists l,
     requests (snd (NoticeHandler.process campus (lit "u") defaults
                      ClientFacts.empty_world)) = l
     /\ Forall (fun r => is_feed_request r = true) l)
  /\ (exists l,
     requests (snd (CalendarHandler.process campus (lit "u") defaults
                      ClientFacts.empty_world)) = l
     /\ attempt_ids l = [lit "d1"]).
Proof.
  destruct (first_pass_detail_requests campus (lit "u") defaults
              ClientFacts.empty_world) as [Hnotice Hcalendar].
  split.
  - destruct (Hnotice ltac:(apply not_elem_of_nil)) as (l & Hl & Hfeed).
    exists l. split; assumption.
  - destruct (Hcalendar _ _ ltac:(reflexivity) ltac:(vm_compute; reflexivity)
                ltac:(apply not_elem_of_nil)) as (l & Hl & Hattempts).
    exists l. split; [exact Hl|]. rewrite Hattempts. vm_compute. reflexivity.
Defined.

(** C8 as stated fails for the calendar feed: on a first pass the attempt
    page of the course deadline [d1] is requested. *)
Lemma calendar_first_pass_fetches_detail :
  ~ (forall env userId config w,
       NoticeHandler.init_id ∉ assignmentIds userId (assignment_record w) ->
       attempt_ids (requests (snd (CalendarHandler.process env userId config w)))
       = attempt_ids (requests w)).
Proof.
  intros H.
  specialize (H campus (lit "u") defaults ClientFacts.empty_world
                ltac:(apply not_elem_of_nil)).
  vm_compute in H. discriminate.
Qed.

End SyncFacts.

(** ** The credential vault *)

Module VaultFacts.
Import JS Vault.

(** *** Hex *)

Definition is_hex_unit (c : Z) : Prop := 48 <= c <= 57 \/ 97 <= c <= 102.

Lemma hex_value_digit n : 0 <= n < 16 -> hex_value (hex_digit n) = Some n.
Proof.
  intros Hn. unfold hex_value, hex_digit, in_range.
  destruct (n <? 10) eqn:E.
  - apply Z.ltb_lt in E.
    replace ((48 <=? 48 + n) && (48 + n <=? 57)) with true
      by (symmetry; apply andb_true_iff; split; apply Z.leb_le; lia).
    f_equal. lia.
  - apply Z.ltb_ge in E.
    replace ((48 <=? 87 + n) && (87 + n <=? 57)) with false
      by (symmetry; apply andb_false_iff; right; apply Z.leb_gt; lia).
    replace ((97 <=? 87 + n) && (87 + n <=? 102)) with true
      by (symmetry; apply andb_true_iff; split; apply Z.leb_le; lia).
    f_equal. lia.
Qed.

Lemma hex_digit_unit n : 0 <= n < 16 -> is_hex_unit (hex_digit n).
Proof. unfold hex_digit, is_hex_unit. intros Hn. destruct (n <? 10) eqn:E; lia. Qed.

Lemma hex_decode_encode (bs : list Z) :
  Forall byte bs -> hex_decode (hex_encode bs) = bs.
Proof.
  induction 1 as [|b bs Hb _ IH]; [reflexivity|].
  unfold byte in Hb. cbn [hex_encode flat_map app hex_decode].
  rewrite !hex_value_digit by (try apply Z.mod_pos_bound; try split;
                               try apply Z.div_pos; try apply Z.div_lt_upper_bound;
                               lia).
  fold (hex_encode bs). rewrite IH. f_equal.
  pose proof (Z.div_mod b 16). lia.
Qed.

Lemma hex_encode_even (bs : list Z) :
  (length (hex_encode bs) mod 2 =? 0)%nat = true.
Proof.
  apply Nat.eqb_eq.
  assert (H : length (hex_encode bs) = (length bs * 2)%nat).
  { induction bs as [|b bs IH]; [reflexivity|].
    cbn [hex_encode flat_map app length]. fold (hex_encode bs). rewrite IH. lia. }
  rewrite H. apply Nat.Div0.mod_mul.
Qed.

Lemma hex_encode_units (bs : list Z) :
  Forall byte bs -> Forall is_hex_unit (hex_encode bs).
Proof.
  induction 1 as [|b bs Hb _ IH]; [constructor|].
  unfold byte in Hb. cbn [hex_encode flat_map app]. fold (hex_encode bs).
  constructor; [|constructor; [|exact IH]]; apply hex_digit_unit.
  - split; [apply Z.div_pos; lia|apply Z.div_lt_upper_bound; lia].
  - apply Z.mod_pos_bound. lia.
Qed.

(** *** [split] *)

Lemma split_without (sep : Z) (s : jsstring) :
  Forall (fun c => c <> sep) s -> split sep s = [s].
Proof.
  induction 1 as [|c s Hc _ IH]; [reflexivity|].
  cbn [split]. apply Z.eqb_neq in Hc. now rewrite Hc, IH.
Qed.

Lemma split_at_first (sep : Z) (a b : jsstring) :
  Forall (fun c => c <> sep) a ->
  split sep (a ++ sep :: b) = a :: split sep b.
Proof.
  induction 1 as [|c a Hc _ IH]; cbn [app split].
  - now rewrite Z.eqb_refl.
  - apply Z.eqb_neq in Hc. now rewrite Hc, IH.
Qed.

Lemma hex_units_no_colon (s : jsstring) :
  Forall is_hex_unit s -> Forall (fun c => c <> 58) s.
Proof.
  intros H. eapply Forall_impl; [exact H|].
  unfold is_hex_unit. intros c Hc. lia.
Qed.

(** *** UTF-8 *)

Lemma in_range_true lo hi x : lo <= x <= hi -> in_range lo hi x = true.
Proof. intros H. unfold in_range. apply andb_true_iff. split; apply Z.leb_le; lia. Qed.

Lemma in_range_false lo hi x : x < lo \/ hi < x -> in_range lo hi x = false.
Proof.
  intros H. unfold in_range. apply andb_false_iff.
  destruct H; [left|right]; apply Z.leb_gt; lia.
Qed.

Lemma utf8_decode_1 b r :
  0 <= b <= 127 -> utf8_decode (b :: r) = b :: utf8_decode r.
Proof. intros H. cbn [utf8_decode]. now rewrite in_range_true. Qed.

Lemma utf8_decode_2 b b1 r :
  194 <= b <= 223 -> 128 <= b1 <= 191 ->
  utf8_decode (b :: b1 :: r) = ((b - 192) * 64 + (b1 - 128)) :: utf8_decode r.
Proof.
  intros H H1. cbn [utf8_decode].
  rewrite (in_range_false 0 127) by lia.
  now rewrite !in_range_true.
Qed.

Lemma utf8_decode_3 b b1 b2 r :
  224 <= b <= 239 -> second_lo b <= b1 <= second_hi b -> 128 <= b2 <= 191 ->
  utf8_decode (b :: b1 :: b2 :: r)
  = ((b - 224) * 4096 + (b1 - 128) * 64 + (b2 - 128)) :: utf8_decode r.
Proof.
  intros H H1 H2. cbn [utf8_decode].
  rewrite (in_range_false 0 127), (in_range_false 194 223) by lia.
  now rewrite !in_range_true.
Qed.

Lemma utf8_decode_4 b b1 b2 b3 r :
  240 <= b <= 244 -> second_lo b <= b1 <= second_hi b ->
  128 <= b2 <= 191 -> 128 <= b3 <= 191 ->
  utf8_decode (b :: b1 :: b2 :: b3 :: r)
  = units_of_code_point
      ((b - 240) * 262144 + (b1 - 128) * 4096 + (b2 - 128) * 64 + (b3 - 128))
    ++ utf8_decode r.
Proof.
  intros H H1 H2 H3. cbn [utf8_decode].
  rewrite (in_range_false 0 127), (in_range_false 194 223),
    (in_range_false 224 239) by lia.
  now rewrite !in_range_true.
Qed.

Ltac div_mod_lia := Z.div_mod_to_equations; lia.

Lemma second_bounds_3 c :
  2048 <= c < 65536 -> ~ (55296 <= c <= 57343) ->
  second_lo (224 + c / 4096) <= 128 + (c / 64) mod 64 <= second_hi (224 + c / 4096).
Proof.
  intros Hc Hs. unfold second_lo, second_hi.
  destruct (224 + c / 4096 =? 224) eqn:E1;
    destruct (224 + c / 4096 =? 240) eqn:E2;
    destruct (224 + c / 4096 =? 237) eqn:E3;
    destruct (224 + c / 4096 =? 244) eqn:E4;
    rewrite ?Z.eqb_eq, ?Z.eqb_neq in *; div_mod_lia.
Qed.

Lemma second_bounds_4 cp :
  65536 <= cp < 1114112 ->
  second_lo (240 + cp / 262144) <= 128 + (cp / 4096) mod 64
    <= second_hi (240 + cp / 262144).
Proof.
  intros Hc. unfold second_lo, second_hi.
  destruct (240 + cp / 262144 =? 224) eqn:E1;
    destruct (240 + cp / 262144 =? 240) eqn:E2;
    destruct (240 + cp / 262144 =? 237) eqn:E3;
    destruct (240 + cp / 262144 =? 244) eqn:E4;
    rewrite ?Z.eqb_eq, ?Z.eqb_neq in *; div_mod_lia.
Qed.

Lemma utf8_decode_utf8_2 c r :
  128 <= c < 2048 -> utf8_decode (utf8_2 c ++ r) = c :: utf8_decode r.
Proof.
  intros Hc. unfold utf8_2. cbn [app].
  rewrite utf8_decode_2 by div_mod_lia. f_equal. div_mod_lia.
Qed.

Lemma utf8_decode_utf8_3 c r :
  2048 <= c < 65536 -> ~ (55296 <= c <= 57343) ->
  utf8_decode (utf8_3 c ++ r) = c :: utf8_decode r.
Proof.
  intros Hc Hs. unfold utf8_3. cbn [app].
  rewrite utf8_decode_3;
    [|div_mod_lia|now apply second_bounds_3|div_mod_lia].
  f_equal. div_mod_lia.
Qed.

Lemma pair_code_point_range hi lo :
  55296 <= hi <= 56319 -> 56320 <= lo <= 57343 ->
  65536 <= pair_code_point hi lo < 1114112.
Proof. unfold pair_code_point. lia. Qed.

Lemma utf8_decode_utf8_4 hi lo r :
  55296 <= hi <= 56319 -> 56320 <= lo <= 57343 ->
  utf8_decode (utf8_4 (pair_code_point hi lo) ++ r) = hi :: lo :: utf8_decode r.
Proof.
  intros Hhi Hlo. pose proof (pair_code_point_range hi lo Hhi Hlo) as Hcp.
  unfold utf8_4. cbn [app].
  rewrite utf8_decode_4;
    [|div_mod_lia|now apply second_bounds_4|div_mod_lia|div_mod_lia].
  replace ((240 + pair_code_point hi lo / 262144 - 240) * 262144
           + (128 + (pair_code_point hi lo / 4096) mod 64 - 128) * 4096
           + (128 + (pair_code_point hi lo / 64) mod 64 - 128) * 64
           + (128 + pair_code_point hi lo mod 64 - 128))
    with (pair_code_point hi lo) by div_mod_lia.
  unfold units_of_code_point.
  replace (pair_code_point hi lo <? 65536) with false
    by (symmetry; apply Z.ltb_ge; lia).
  cbn [app]. unfold pair_code_point. f_equal; [|f_equal]; div_mod_lia.
Qed.

Lemma utf8_2_bytes c : 128 <= c < 2048 -> Forall byte (utf8_2 c).
Proof. intros Hc. unfold utf8_2, byte. repeat apply List.Forall_cons; [..|constructor]; div_mod_lia. Qed.

Lemma utf8_3_bytes c : 2048 <= c < 65536 -> Forall byte (utf8_3 c).
Proof. intros Hc. unfold utf8_3, byte. repeat apply List.Forall_cons; [..|constructor]; div_mod_lia. Qed.

Lemma utf8_4_bytes cp : 65536 <= cp < 1114112 -> Forall byte (utf8_4 cp).
Proof. intros Hc. unfold utf8_4, byte. repeat apply List.Forall_cons; [..|constructor]; div_mod_lia. Qed.

(** Encoding a well-formed string and decoding the bytes gives the string
    back; the encoding consists of bytes. *)
Lemma utf8_roundtrip_upto (n : nat) :
  forall s : jsstring,
    (length s <= n)%nat -> well_formed s ->
    utf8_decode (utf8_encode s) = s /\ Forall byte (utf8_encode s).
Proof.
  induction n as [|n IH]; intros s Hlen Hwf.
  { destruct s; [split; [reflexivity|constructor]|simpl in Hlen; lia]. }
  destruct s as [|c r]; [split; [reflexivity|constructor]|].
  cbn [well_formed] in Hwf. destruct Hwf as [Hc Hwf]. unfold code_unit in Hc.
  cbn [length] in Hlen. cbn [utf8_encode].
  change (is_high_surrogate c) with (in_range 55296 56319 c) in *.
  change (is_low_surrogate c) with (in_range 56320 57343 c) in *.
  destruct (c <? 128) eqn:E1; [apply Z.ltb_lt in E1|apply Z.ltb_ge in E1].
  { rewrite (in_range_false 55296 56319 c) in Hwf by lia.
    destruct Hwf as [_ Hr]. destruct (IH r ltac:(lia) Hr) as [Hdec Hbytes].
    unfold utf8_1. cbn [app]. rewrite utf8_decode_1, Hdec by lia.
    split; [reflexivity|]. constructor; [unfold byte; lia|exact Hbytes]. }
  destruct (c <? 2048) eqn:E2; [apply Z.ltb_lt in E2|apply Z.ltb_ge in E2].
  { rewrite (in_range_false 55296 56319 c) in Hwf by lia.
    destruct Hwf as [_ Hr]. destruct (IH r ltac:(lia) Hr) as [Hdec Hbytes].
    rewrite utf8_decode_utf8_2, Hdec by lia.
    split; [reflexivity|]. apply Forall_app. split; [apply utf8_2_bytes; lia|exact Hbytes]. }
  destruct (in_range 55296 56319 c) eqn:Eh.
  - apply andb_true_iff in Eh as [Eh1 Eh2]. apply Z.leb_le in Eh1, Eh2.
    destruct r as [|d r']; [contradiction|]. destruct Hwf as [Hd Hr].
    rewrite Hd. apply andb_true_iff in Hd as [Hd1 Hd2]. apply Z.leb_le in Hd1, Hd2.
    cbn [length] in Hlen. destruct (IH r' ltac:(lia) Hr) as [Hdec Hbytes].
    rewrite utf8_decode_utf8_4, Hdec by lia.
    split; [reflexivity|]. apply Forall_app. split; [|exact Hbytes].
    apply utf8_4_bytes, pair_code_point_range; lia.
  - destruct Hwf as [El Hr]. rewrite El.
    destruct (IH r ltac:(lia) Hr) as [Hdec Hbytes].
    apply andb_false_iff in Eh, El.
    rewrite utf8_decode_utf8_3, Hdec;
      [|rewrite !Z.leb_gt in *; lia|rewrite !Z.leb_gt in *; lia].
    split; [reflexivity|]. apply Forall_app. split; [apply utf8_3_bytes; lia|exact Hbytes].
Qed.

Lemma utf8_decode_encode (s : jsstring) :
  well_formed s -> utf8_decode (utf8_encode s) = s.
Proof. intros Hwf. now apply (utf8_roundtrip_upto (length s)). Qed.

Lemma utf8_encode_bytes (s : jsstring) :
  well_formed s -> Forall byte (utf8_encode s).
Proof. intros Hwf. now apply (utf8_roundtrip_upto (length s)). Qed.

(** A string of Basic Latin units is its own encoding. *)
Lemma utf8_encode_ascii (s : jsstring) :
  Forall (fun c => is_ascii c = true) s -> utf8_encode s = s.
Proof.
  induction 1 as [|c r Hc _ IH]; [reflexivity|].
  cbn [utf8_encode]. unfold is_ascii in Hc.
  apply andb_true_iff in Hc as [_ Hc]. rewrite Hc. unfold utf8_1. cbn [app].
  now rewrite IH.
Qed.

(** *** The key *)

Lemma slice_from_0 (s : jsstring) (n : nat) :
  slice s 0 (Z.of_nat n) = take n s.
Proof.
  unfold slice, clamp_index.
  replace (0 <? 0) with false by reflexivity.
  replace (Z.of_nat n <? 0) with false by (symmetry; apply Z.ltb_ge; lia).
  rewrite (Z.min_l 0) by lia. change (Z.to_nat 0) with 0%nat.
  rewrite drop_0, Z.sub_0_r.
  destruct (Z.min_spec (Z.of_nat n) (Z.of_nat (length s))) as [[Hlt ->]|[Hge ->]].
  - now rewrite Nat2Z.id.
  - rewrite Nat2Z.id, (take_ge s n), (take_ge s (length s)) by lia. reflexivity.
Qed.

(** The normalised key before encoding: 32 code units. *)
Definition key_units (encryptionKey : jsstring) : jsstring :=
  take 32 (padEnd encryptionKey 32 48).

Lemma key_buffer_units encryptionKey :
  key_buffer encryptionKey = utf8_encode (key_units encryptionKey).
Proof. unfold key_buffer, key_units. now rewrite (slice_from_0 _ 32). Qed.

Lemma key_units_length encryptionKey : length (key_units encryptionKey) = 32%nat.
Proof.
  unfold key_units, padEnd. rewrite length_take, length_app, length_replicate. lia.
Qed.

Lemma key_units_ascii encryptionKey :
  Forall (fun c => is_ascii c = true) encryptionKey ->
  Forall (fun c => is_ascii c = true) (key_units encryptionKey).
Proof.
  intros Hkey. unfold key_units, padEnd. apply Forall_take, Forall_app.
  split; [exact Hkey|]. apply Forall_replicate. reflexivity.
Qed.

Lemma ascii_bytes (s : jsstring) :
  Forall (fun c => is_ascii c = true) s -> Forall byte s.
Proof.
  intros H. eapply Forall_impl; [exact H|]. intros c Hc. unfold is_ascii in Hc.
  apply andb_true_iff in Hc as [H1 H2].
  apply Z.leb_le in H1. apply Z.ltb_lt in H2. unfold byte. lia.
Qed.

(** A key of Basic Latin characters gives a 32-byte buffer, whatever its
    length. *)
Lemma key_buffer_ascii encryptionKey :
  Forall (fun c => is_ascii c = true) encryptionKey ->
  key_buffer encryptionKey = key_units encryptionKey
  /\ length (key_buffer encryptionKey) = 32%nat
  /\ Forall byte (key_buffer encryptionKey).
Proof.
  intros Hkey. pose proof (key_units_ascii _ Hkey) as Hunits.
  rewrite key_buffer_units, utf8_encode_ascii by exact Hunits.
  split; [reflexivity|]. split; [apply key_units_length|now apply ascii_bytes].
Qed.

(** *** Blocks *)

Definition is_block (b : list Z) : Prop := length b = 16%nat /\ Forall byte b.

Lemma chunks_concat (cs : list (list Z)) :
  forall fuel, (length cs <= fuel)%nat ->
  Forall (fun c => length c = 16%nat) cs ->
  chunks fuel (concat cs) = cs.
Proof.
  induction cs as [|c cs IH]; intros fuel Hfuel Hcs.
  - destruct fuel; reflexivity.
  - apply Forall_cons in Hcs as [Hc Hcs]. cbn [length] in Hfuel.
    destruct fuel as [|fuel]; [lia|]. cbn [concat chunks].
    destruct (c ++ concat cs) as [|x l] eqn:E.
    { destruct c; [discriminate|discriminate]. }
    rewrite <- E. rewrite take_app_length' by (symmetry; exact Hc).
    rewrite drop_app_length' by (symmetry; exact Hc).
    now rewrite IH by (try lia; assumption).
Qed.

Lemma length_concat_blocks (cs : list (list Z)) :
  Forall (fun c => length c = 16%nat) cs ->
  length (concat cs) = (16 * length cs)%nat.
Proof.
  induction 1 as [|c cs Hc _ IH]; [reflexivity|].
  cbn [concat length]. rewrite length_app, Hc, IH. lia.
Qed.

Lemma blocks_concat (cs : list (list Z)) :
  Forall (fun c => length c = 16%nat) cs -> blocks (concat cs) = cs.
Proof.
  intros Hcs. unfold blocks. apply chunks_concat; [|exact Hcs].
  rewrite length_concat_blocks by exact Hcs. lia.
Qed.

Lemma concat_chunks (fuel : nat) :
  forall bs, (length bs <= fuel)%nat -> concat (chunks fuel bs) = bs.
Proof.
  induction fuel as [|fuel IH]; intros bs Hlen.
  - destruct bs; [reflexivity|simpl in Hlen; lia].
  - destruct bs as [|x l]; [reflexivity|].
    cbn [chunks concat]. rewrite IH; [apply take_drop|].
    rewrite length_drop. cbn [length] in *. lia.
Qed.

Lemma concat_blocks (bs : list Z) : concat (blocks bs) = bs.
Proof. unfold blocks. now apply concat_chunks. Qed.

Lemma chunks_blocks (fuel : nat) :
  forall bs m, (length bs <= fuel)%nat -> length bs = (16 * m)%nat ->
  Forall byte bs -> Forall is_block (chunks fuel bs).
Proof.
  induction fuel as [|fuel IH]; intros bs m Hlen Hm Hbytes; [constructor|].
  destruct bs as [|x l]; [constructor|].
  cbn [chunks]. destruct m as [|m]; [simpl in Hm; lia|].
  constructor.
  - split; [rewrite length_take; lia|now apply Forall_take].
  - apply (IH _ m); [rewrite length_drop; cbn [length] in *; lia
                    |rewrite length_drop; lia|now apply Forall_drop].
Qed.

Lemma blocks_are_blocks (bs : list Z) m :
  length bs = (16 * m)%nat -> Forall byte bs -> Forall is_block (blocks bs).
Proof. intros Hm Hbytes. unfold blocks. now apply (chunks_blocks _ _ m). Qed.

(** *** CBC *)

Lemma log2_byte a : byte a -> Z.log2 a < 8.
Proof.
  unfold byte. intros Ha. destruct (Z.eq_dec a 0) as [->|Hne]; [reflexivity|].
  apply Z.log2_lt_pow2; lia.
Qed.

Lemma lxor_byte a b : byte a -> byte b -> byte (Z.lxor a b).
Proof.
  intros Ha Hb. pose proof (log2_byte a Ha). pose proof (log2_byte b Hb).
  unfold byte in *.
  assert (Hnonneg : 0 <= Z.lxor a b) by (apply Z.lxor_nonneg; lia).
  split; [exact Hnonneg|].
  destruct (Z.eq_dec (Z.lxor a b) 0) as [->|Hne]; [lia|].
  apply (Z.log2_lt_pow2 _ 8); [lia|].
  pose proof (Z.log2_lxor a b ltac:(lia) ltac:(lia)). lia.
Qed.

Lemma lxor_cancel a b : Z.lxor (Z.lxor a b) b = a.
Proof. now rewrite Z.lxor_assoc, Z.lxor_nilpotent, Z.lxor_0_r. Qed.

Lemma xor_bytes_cancel (p : list Z) :
  forall prev, length p = length prev -> xor_bytes (xor_bytes p prev) prev = p.
Proof.
  unfold xor_bytes. induction p as [|a p IH]; intros [|b prev] Hlen;
    try discriminate; [reflexivity|].
  cbn [zip_with]. rewrite lxor_cancel, IH; [reflexivity|].
  cbn [length] in Hlen. lia.
Qed.

Lemma xor_bytes_block (p prev : list Z) :
  is_block p -> is_block prev -> is_block (xor_bytes p prev).
Proof.
  intros [Hlp Hbp] [Hlq Hbq]. unfold xor_bytes. split.
  - rewrite length_zip_with. lia.
  - clear Hlp Hlq. revert prev Hbq.
    induction Hbp as [|a p Ha _ IH]; intros prev Hbq; [constructor|].
    destruct Hbq as [|b prev Hb Hbq]; [constructor|].
    cbn [zip_with]. constructor; [now apply lxor_byte|now apply IH].
Qed.

Section WithCipher.
Context {C : BlockCipher}.

Lemma cbc_roundtrip (k : list Z) (ps : list (list Z)) :
  length k = 32%nat -> Forall byte k ->
  forall prev, is_block prev -> Forall is_block ps ->
  cbc_decrypt k prev (cbc_encrypt k prev ps) = ps
  /\ Forall is_block (cbc_encrypt k prev ps).
Proof.
  intros Hk Hkb. induction ps as [|p ps IH]; intros prev Hprev Hps.
  - split; [reflexivity|constructor].
  - apply Forall_cons in Hps as [Hp Hps].
    pose proof (xor_bytes_block p prev Hp Hprev) as [Hxl Hxb].
    assert (Hc : is_block (encrypt_block k (xor_bytes p prev))).
    { split; [now apply encrypt_block_length|now apply encrypt_block_bytes]. }
    cbn [cbc_encrypt cbc_decrypt].
    destruct (IH _ Hc Hps) as [Hrest Hblocks].
    rewrite decrypt_encrypt_block by assumption.
    rewrite xor_bytes_cancel by (destruct Hp, Hprev; congruence).
    rewrite Hrest. split; [reflexivity|]. now constructor.
Qed.

End WithCipher.

(** *** Padding *)

Lemma pad_count (bs : list Z) :
  (1 <= 16 - length bs mod 16 <= 16)%nat.
Proof. pose proof (Nat.mod_upper_bound (length bs) 16). lia. Qed.

Lemma pkcs7_pad_length (bs : list Z) :
  exists m, length (pkcs7_pad bs) = (16 * S m)%nat.
Proof.
  unfold pkcs7_pad. rewrite length_app, length_replicate.
  exists (length bs / 16)%nat.
  pose proof (Nat.div_mod_eq (length bs) 16).
  pose proof (Nat.mod_upper_bound (length bs) 16). lia.
Qed.

Lemma pkcs7_pad_bytes (bs : list Z) : Forall byte bs -> Forall byte (pkcs7_pad bs).
Proof.
  intros Hbs. unfold pkcs7_pad. apply Forall_app. split; [exact Hbs|].
  apply Forall_replicate. pose proof (pad_count bs). unfold byte. lia.
Qed.

Lemma forallb_replicate (f : Z -> bool) n x :
  f x = true -> forallb f (replicate n x) = true.
Proof. intros Hx. induction n; cbn; [reflexivity|now rewrite Hx]. Qed.

Lemma pkcs7_unpad_pad (bs : list Z) : pkcs7_unpad (pkcs7_pad bs) = Ok bs.
Proof.
  pose proof (pad_count bs) as Hn. unfold pkcs7_unpad, pkcs7_pad.
  set (n := (16 - length bs mod 16)%nat) in *.
  destruct n as [|n'] eqn:En; [lia|]. rewrite <- En in *.
  assert (Hlast : last (bs ++ replicate n (Z.of_nat n)) = Some (Z.of_nat n)).
  { rewrite En at 1. rewrite replicate_S_end, app_assoc. apply last_snoc. }
  rewrite Hlast, Nat2Z.id, length_app, length_replicate.
  replace (length bs + n - n)%nat with (length bs) by lia.
  rewrite drop_app_length, take_app_length.
  rewrite forallb_replicate by apply Z.eqb_refl.
  replace (1 <=? Z.of_nat n) with true by (symmetry; apply Z.leb_le; lia).
  replace (Z.of_nat n <=? 16) with true by (symmetry; apply Z.leb_le; lia).
  reflexivity.
Qed.

(** *** [encrypt] and [decrypt] *)

Section RoundTrip.
Context {C : BlockCipher}.

(** What [encrypt] returns under a key whose buffer has 32 bytes. *)
Definition ciphertext (key iv : list Z) (text : jsstring) : list Z :=
  concat (cbc_encrypt key iv (blocks (pkcs7_pad (utf8_encode text)))).

Lemma encrypt_run encryptionKey iv text :
  length (key_buffer encryptionKey) = 32%nat -> length iv = 16%nat ->
  encrypt encryptionKey iv text
  = Ok (hex_encode iv ++ [58]
        ++ hex_encode (ciphertext (key_buffer encryptionKey) iv text)).
Proof.
  intros Hkey Hiv. unfold encrypt, createCipheriv.
  rewrite Hiv, Hkey. reflexivity.
Qed.

Lemma ciphertext_blocks key iv text :
  length key = 32%nat -> Forall byte key -> is_block iv -> well_formed text ->
  Forall is_block (cbc_encrypt key iv (blocks (pkcs7_pad (utf8_encode text))))
  /\ cbc_decrypt key iv (cbc_encrypt key iv (blocks (pkcs7_pad (utf8_encode text))))
     = blocks (pkcs7_pad (utf8_encode text)).
Proof.
  intros Hk Hkb Hiv Hwf.
  destruct (pkcs7_pad_length (utf8_encode text)) as [m Hm].
  assert (Hblocks : Forall is_block (blocks (pkcs7_pad (utf8_encode text)))).
  { apply (blocks_are_blocks _ (S m)); [exact Hm|].
    now apply pkcs7_pad_bytes, utf8_encode_bytes. }
  destruct (cbc_roundtrip key _ Hk Hkb iv Hiv Hblocks) as [Hdec Henc].
  split; assumption.
Qed.

Lemma blocks_lengths (cs : list (list Z)) :
  Forall is_block cs -> Forall (fun c => length c = 16%nat) cs.
Proof. intros H. eapply Forall_impl; [exact H|]. now intros c [Hc _]. Qed.

Lemma blocks_bytes (cs : list (list Z)) :
  Forall is_block cs -> Forall byte (concat cs).
Proof.
  induction 1 as [|c cs [_ Hc] _ IH]; [constructor|].
  cbn [concat]. apply Forall_app. now split.
Qed.

Lemma decipher_run_ciphertext key iv text :
  length key = 32%nat -> Forall byte key -> is_block iv -> well_formed text ->
  decipher_run (key, iv) (ciphertext key iv text) = Ok (utf8_encode text).
Proof.
  intros Hk Hkb Hiv Hwf.
  destruct (ciphertext_blocks key iv text Hk Hkb Hiv Hwf) as [Hblocks Hdec].
  unfold decipher_run, ciphertext.
  set (cs := cbc_encrypt key iv (blocks (pkcs7_pad (utf8_encode text)))) in *.
  pose proof (blocks_lengths cs Hblocks) as Hlens.
  rewrite length_concat_blocks by exact Hlens.
  assert (Hcount : length cs <> 0%nat).
  { subst cs. destruct (pkcs7_pad_length (utf8_encode text)) as [m Hm].
    unfold blocks. rewrite Hm.
    destruct (pkcs7_pad (utf8_encode text)) as [|x l]; [simpl in Hm; lia|].
    cbn. discriminate. }
  replace (16 * length cs =? 0)%nat with false
    by (symmetry; apply Nat.eqb_neq; lia).
  replace ((16 * length cs) mod 16 =? 0)%nat with true
    by (symmetry; apply Nat.eqb_eq; rewrite Nat.mul_comm; apply Nat.Div0.mod_mul).
  cbn [orb negb]. rewrite blocks_concat by exact Hlens.
  rewrite Hdec, concat_blocks. apply pkcs7_unpad_pad.
Qed.

(** A value encrypted under one key decrypts under every key with the same
    32-byte buffer. *)
Lemma decrypt_encrypt_same_buffer key1 key2 iv secret :
  key_buffer key1 = key_buffer key2 ->
  length (key_buffer key1) = 32%nat -> Forall byte (key_buffer key1) ->
  is_block iv -> well_formed secret ->
  exists stored,
    encrypt key1 iv secret = Ok stored /\ decrypt key2 stored = Ok secret.
Proof.
  intros Hsame Hk Hkb Hiv Hwf. destruct Hiv as [Hivl Hivb].
  rewrite encrypt_run by assumption. eexists. split; [reflexivity|].
  set (ct := ciphertext (key_buffer key1) iv secret).
  assert (Hctb : Forall byte ct).
  { apply blocks_bytes. now apply ciphertext_blocks. }
  unfold decrypt.
  destruct (hex_encode iv ++ [58] ++ hex_encode ct) as [|x l] eqn:Hstored.
  { destruct (hex_encode iv); discriminate. }
  rewrite <- Hstored. unfold decrypt_try.
  cbn [app]. rewrite split_at_first
    by (apply hex_units_no_colon, hex_encode_units; exact Hivb).
  rewrite split_without
    by (apply hex_units_no_colon, hex_encode_units; exact Hctb).
  cbn [lookup list_lookup default from_option id].
  rewrite !hex_decode_encode by assumption.
  unfold createDecipheriv, createCipheriv. rewrite <- Hsame, Hivl, Hk.
  cbn [Nat.eqb negb]. rewrite hex_encode_even. cbn [negb]. subst ct.
  rewrite decipher_run_ciphertext by (try split; assumption).
  now rewrite utf8_decode_encode.
Qed.

(** C3, as the code has it.  For every secret that is a well-formed string
    and every key of Basic Latin characters, of any length, [encrypt]
    returns a value, whatever the 16 random bytes, and [decrypt] of that
    value under the same key returns the secret. *)
Theorem decrypt_after_encrypt (encryptionKey : jsstring) (iv : list Z)
  (secret : jsstring) :
  Forall (fun c => is_ascii c = true) encryptionKey ->
  is_block iv -> well_formed secret ->
  exists stored,
    encrypt encryptionKey iv secret = Ok stored
    /\ decrypt encryptionKey stored = Ok secret.
Proof.
  intros Hkey Hiv Hwf.
  destruct (key_buffer_ascii encryptionKey Hkey) as (_ & Hlen & Hbytes).
  now apply decrypt_encrypt_same_buffer.
Qed.

Lemma decrypt_without_colon encryptionKey text :
  text <> [] -> Forall (fun c => c <> 58) text ->
  exists e, decrypt encryptionKey text = Throw (DecryptFailed e).
Proof.
  intros Hne Hcolon. destruct text as [|x l]; [congruence|].
  unfold decrypt, decrypt_try. rewrite split_without by exact Hcolon.
  cbn [lookup list_lookup default from_option id].
  destruct (createDecipheriv _ _) as [decipher|e]; eauto.
Qed.

Lemma decrypt_bad_iv encryptionKey ivhex rest :
  Forall (fun c => c <> 58) ivhex ->
  length (hex_decode ivhex) <> 16%nat ->
  decrypt encryptionKey (ivhex ++ 58 :: rest) = Throw (DecryptFailed InvalidIV).
Proof.
  intros Hcolon Hlen. unfold decrypt.
  destruct (ivhex ++ 58 :: rest) as [|x l] eqn:Htext.
  { destruct ivhex; discriminate. }
  rewrite <- Htext. unfold decrypt_try. rewrite split_at_first by exact Hcolon.
  cbn [lookup list_lookup default from_option id].
  unfold createDecipheriv, createCipheriv.
  apply Nat.eqb_neq in Hlen. now rewrite Hlen.
Qed.

Lemma decrypt_bad_length encryptionKey ivhex cthex :
  Forall (fun c => c <> 58) ivhex -> Forall (fun c => c <> 58) cthex ->
  (length cthex mod 2 <> 0)%nat
  \/ (length (hex_decode cthex) mod 16 <> 0)%nat \/ hex_decode cthex = [] ->
  exists e, decrypt encryptionKey (ivhex ++ 58 :: cthex) = Throw (DecryptFailed e).
Proof.
  intros Hcolon Hcolon' Hlen. unfold decrypt.
  destruct (ivhex ++ 58 :: cthex) as [|x l] eqn:Htext.
  { destruct ivhex; discriminate. }
  rewrite <- Htext. unfold decrypt_try. rewrite split_at_first by exact Hcolon.
  rewrite split_without by exact Hcolon'.
  cbn [lookup list_lookup default from_option id].
  destruct (createDecipheriv _ _) as [[key iv]|e]; [|eauto].
  destruct (length cthex mod 2 =? 0)%nat eqn:Heven; cbn [negb]; [|eauto].
  apply Nat.eqb_eq in Heven.
  destruct Hlen as [Hodd|Hlen]; [contradiction|].
  unfold decipher_run.
  destruct Hlen as [Hlen| ->]; [|eauto].
  apply Nat.eqb_neq in Hlen. rewrite Hlen. cbn [negb]. rewrite orb_true_r. eauto.
Qed.

(** The causes, under a key whose buffer has 32 bytes and after a first
    part of 16 bytes. *)
Lemma decrypt_bad_length_cause encryptionKey ivhex cthex :
  Forall (fun c => c <> 58) ivhex -> Forall (fun c => c <> 58) cthex ->
  length (hex_decode ivhex) = 16%nat ->
  length (key_buffer encryptionKey) = 32%nat ->
  decrypt encryptionKey (ivhex ++ 58 :: cthex)
  = if negb (length cthex mod 2 =? 0)%nat then Throw (DecryptFailed InvalidArgValue)
    else if (length (hex_decode cthex) =? 0)%nat
            || negb (length (hex_decode cthex) mod 16 =? 0)%nat
         then Throw (DecryptFailed WrongFinalBlockLength)
         else decrypt encryptionKey (ivhex ++ 58 :: cthex).
Proof.
  intros Hcolon Hcolon' Hiv Hkey.
  destruct (negb (length cthex mod 2 =? 0)%nat) eqn:Hodd;
    [|destruct (_ || _) eqn:Hlen; [|reflexivity]]; unfold decrypt;
    (destruct (ivhex ++ 58 :: cthex) as [|x l] eqn:Htext;
     [destruct ivhex; discriminate|]);
    rewrite <- Htext; unfold decrypt_try; rewrite split_at_first by exact Hcolon;
    rewrite split_without by exact Hcolon';
    cbn [lookup list_lookup default from_option id];
    unfold createDecipheriv, createCipheriv; rewrite Hiv, Hkey; cbn [Nat.eqb negb];
    rewrite Hodd; [reflexivity|].
  unfold decipher_run. now rewrite Hlen.
Qed.

(** Under any key with a 32-byte buffer, a value made by [encrypt] passes
    every check of [decrypt] but the last one: the result is decided by the
    padding check of [final] on what CBC decryption gives. *)
Lemma decrypt_under_other_key key1 key2 iv secret :
  length (key_buffer key1) = 32%nat -> Forall byte (key_buffer key1) ->
  length (key_buffer key2) = 32%nat ->
  is_block iv -> well_formed secret ->
  exists stored,
    encrypt key1 iv secret = Ok stored
    /\ decrypt key2 stored
       = match pkcs7_unpad
                 (concat (cbc_decrypt (key_buffer key2) iv
                            (blocks (ciphertext (key_buffer key1) iv secret)))) with
         | Ok plain => Ok (utf8_decode plain)
         | Throw e => Throw (DecryptFailed e)
         end.
Proof.
  intros Hk Hkb Hk2 Hiv Hwf. pose proof Hiv as [Hivl Hivb].
  rewrite encrypt_run by assumption. eexists. split; [reflexivity|].
  set (ct := ciphertext (key_buffer key1) iv secret).
  destruct (ciphertext_blocks (key_buffer key1) iv secret Hk Hkb Hiv Hwf)
    as [Hblocks _].
  assert (Hctb : Forall byte ct) by now apply blocks_bytes.
  unfold decrypt.
  destruct (hex_encode iv ++ [58] ++ hex_encode ct) as [|x l] eqn:Hstored.
  { destruct (hex_encode iv); discriminate. }
  rewrite <- Hstored. unfold decrypt_try.
  cbn [app]. rewrite split_at_first
    by (apply hex_units_no_colon, hex_encode_units; exact Hivb).
  rewrite split_without
    by (apply hex_units_no_colon, hex_encode_units; exact Hctb).
  cbn [lookup list_lookup default from_option id].
  rewrite !hex_decode_encode by assumption.
  unfold createDecipheriv, createCipheriv. rewrite Hivl, Hk2.
  cbn [Nat.eqb negb]. rewrite hex_encode_even. cbn [negb].
  unfold decipher_run. subst ct. unfold ciphertext at 1 2.
  set (cs := cbc_encrypt (key_buffer key1) iv
               (blocks (pkcs7_pad (utf8_encode secret)))) in *.
  pose proof (blocks_lengths cs Hblocks) as Hlens.
  rewrite length_concat_blocks by exact Hlens.
  assert (Hcount : length cs <> 0%nat).
  { subst cs. destruct (pkcs7_pad_length (utf8_encode secret)) as [m Hm].
    unfold blocks. rewrite Hm.
    destruct (pkcs7_pad (utf8_encode secret)) as [|y l']; [simpl in Hm; lia|].
    cbn. discriminate. }
  replace (16 * length cs =? 0)%nat with false
    by (symmetry; apply Nat.eqb_neq; lia).
  replace ((16 * length cs) mod 16 =? 0)%nat with true
    by (symmetry; apply Nat.eqb_eq; rewrite Nat.mul_comm; apply Nat.Div0.mod_mul).
  cbn [orb negb]. unfold ciphertext. fold cs.
  now destruct (pkcs7_unpad _).
Qed.

(** C4, as the code has it.  [decrypt] returns the empty string for the
    empty stored value.  It raises its error for a non-empty value without a
    [:], for a first part that does not decode to 16 bytes, and for a second
    part that has an odd number of units or does not decode to a positive
    multiple of 16 bytes.  Keys act through their 32-byte buffer only: what
    was encrypted under one key is decrypted, without error, under every key
    with the same buffer; under a key with another buffer of 32 bytes the
    value passes every check but the padding check of the last block, which
    alone decides whether [decrypt] raises. *)
Theorem decrypt_raises_on_malformed (encryptionKey : jsstring) :
  decrypt encryptionKey [] = Ok []
  /\ (forall text,
        text <> [] -> Forall (fun c => c <> 58) text ->
        exists e, decrypt encryptionKey text = Throw (DecryptFailed e))
  /\ (forall ivhex rest,
        Forall (fun c => c <> 58) ivhex ->
        length (hex_decode ivhex) <> 16%nat ->
        decrypt encryptionKey (ivhex ++ 58 :: rest)
        = Throw (DecryptFailed InvalidIV))
  /\ (forall ivhex cthex,
        Forall (fun c => c <> 58) ivhex -> Forall (fun c => c <> 58) cthex ->
        (length cthex mod 2 <> 0)%nat
        \/ (length (hex_decode cthex) mod 16 <> 0)%nat \/ hex_decode cthex = [] ->
        exists e,
          decrypt encryptionKey (ivhex ++ 58 :: cthex) = Throw (DecryptFailed e))
  /\ (forall otherKey iv secret,
        key_buffer otherKey = key_buffer encryptionKey ->
        length (key_buffer otherKey) = 32%nat -> Forall byte (key_buffer otherKey) ->
        is_block iv -> well_formed secret ->
        exists stored,
          encrypt otherKey iv secret = Ok stored
          /\ decrypt encryptionKey stored = Ok secret)
  /\ (forall otherKey iv secret,
        length (key_buffer otherKey) = 32%nat -> Forall byte (key_buffer otherKey) ->
        length (key_buffer encryptionKey) = 32%nat ->
        is_block iv -> well_formed secret ->
        exists stored,
          encrypt otherKey iv secret = Ok stored
          /\ decrypt encryptionKey stored
             = match pkcs7_unpad
                       (concat (cbc_decrypt (key_buffer encryptionKey) iv
                                  (blocks (ciphertext (key_buffer otherKey) iv
                                             secret)))) with
               | Ok plain => Ok (utf8_decode plain)
               | Throw e => Throw (DecryptFailed e)
               end).
Proof.
  split; [reflexivity|].
  split; [apply decrypt_without_colon|].
  split; [apply decrypt_bad_iv|].
  split; [apply decrypt_bad_length|].
  split; [intros otherKey iv secret; apply decrypt_encrypt_same_buffer|].
  intros otherKey iv secret. apply decrypt_under_other_key.
Qed.

End RoundTrip.

End VaultFacts.

(** ** AES-256 is a block cipher *)

Module AESFacts.
Import JS AES VaultFacts.

(** The test vector of FIPS-197, appendix C.3. *)
Example fips197_c3 :
  AES.encrypt (List.map Z.of_nat (seq 0 32))
    [0; 17; 34; 51; 68; 85; 102; 119; 136; 153; 170; 187; 204; 221; 238; 255]
  = [142; 162; 183; 202; 81; 103; 69; 191; 234; 252; 73; 144; 75; 73; 96; 137].
Proof. vm_compute. reflexivity. Qed.

(** *** Checking a property on all 256 bytes *)

Definition all_bytes : list Z := List.map Z.of_nat (seq 0 256).

Lemma all_bytes_complete x : byte x -> In x all_bytes.
Proof.
  unfold byte, all_bytes. intros Hx. apply List.in_map_iff.
  exists (Z.to_nat x). split; [lia|]. apply List.in_seq. lia.
Qed.

Lemma forallb_bytes (p : Z -> bool) :
  forallb p all_bytes = true -> forall x, byte x -> p x = true.
Proof.
  intros Hall x Hx. rewrite List.forallb_forall in Hall.
  now apply Hall, all_bytes_complete.
Qed.

Lemma forallb_bytes2 (p : Z -> Z -> bool) :
  forallb (fun x => forallb (p x) all_bytes) all_bytes = true ->
  forall x y, byte x -> byte y -> p x y = true.
Proof.
  intros Hall x y Hx Hy.
  apply (forallb_bytes (p x)); [|exact Hy].
  now apply (forallb_bytes (fun x => forallb (p x) all_bytes)).
Qed.

Definition is_byte (x : Z) : bool := (0 <=? x) && (x <? 256).

Lemma is_byte_spec x : is_byte x = true <-> byte x.
Proof. unfold is_byte, byte. rewrite andb_true_iff, Z.leb_le, Z.ltb_lt. tauto. Qed.

(** [f] maps bytes to bytes, by enumeration. *)
Ltac bytes_to_bytes f :=
  let x := fresh "x" in
  let Hx := fresh "Hx" in
  intros x Hx; apply is_byte_spec;
  apply (forallb_bytes (fun x => is_byte (f x))); [vm_compute; reflexivity|exact Hx].

Lemma sbox_byte : forall x, byte x -> byte (sbox x).
Proof. bytes_to_bytes sbox. Qed.

Lemma inv_sbox_byte : forall x, byte x -> byte (inv_sbox x).
Proof. bytes_to_bytes inv_sbox. Qed.

Lemma xtime_byte : forall x, byte x -> byte (xtime x).
Proof. bytes_to_bytes xtime. Qed.

Lemma mul2_byte : forall x, byte x -> byte (mul2 x).
Proof. bytes_to_bytes mul2. Qed.

Lemma mul3_byte : forall x, byte x -> byte (mul3 x).
Proof. bytes_to_bytes mul3. Qed.

Lemma mul9_byte : forall x, byte x -> byte (mul9 x).
Proof. bytes_to_bytes mul9. Qed.

Lemma mul11_byte : forall x, byte x -> byte (mul11 x).
Proof. bytes_to_bytes mul11. Qed.

Lemma mul13_byte : forall x, byte x -> byte (mul13 x).
Proof. bytes_to_bytes mul13. Qed.

Lemma mul14_byte : forall x, byte x -> byte (mul14 x).
Proof. bytes_to_bytes mul14. Qed.

Lemma inv_sbox_sbox x : byte x -> inv_sbox (sbox x) = x.
Proof.
  intros Hx. apply Z.eqb_eq.
  apply (forallb_bytes (fun x => inv_sbox (sbox x) =? x));
    [vm_compute; reflexivity|exact Hx].
Qed.

(** Multiplication by a constant distributes over [xor], by enumeration. *)
Ltac linear f :=
  let x := fresh "x" in
  let y := fresh "y" in
  let Hx := fresh "Hx" in
  let Hy := fresh "Hy" in
  intros x y Hx Hy; apply Z.eqb_eq;
  apply (forallb_bytes2 (fun x y => f (Z.lxor x y) =? Z.lxor (f x) (f y)));
  [vm_compute; reflexivity|exact Hx|exact Hy].

Lemma mul9_linear :
  forall x y, byte x -> byte y -> mul9 (Z.lxor x y) = Z.lxor (mul9 x) (mul9 y).
Proof. linear mul9. Qed.

Lemma mul11_linear :
  forall x y, byte x -> byte y -> mul11 (Z.lxor x y) = Z.lxor (mul11 x) (mul11 y).
Proof. linear mul11. Qed.

Lemma mul13_linear :
  forall x y, byte x -> byte y -> mul13 (Z.lxor x y) = Z.lxor (mul13 x) (mul13 y).
Proof. linear mul13. Qed.

Lemma mul14_linear :
  forall x y, byte x -> byte y -> mul14 (Z.lxor x y) = Z.lxor (mul14 x) (mul14 y).
Proof. linear mul14. Qed.


(** *** MixColumns *)

Lemma xor4_byte w x y z : byte w -> byte x -> byte y -> byte z -> byte (xor4 w x y z).
Proof. intros. unfold xor4. now repeat apply lxor_byte. Qed.

Lemma linear4 (f : Z -> Z) :
  (forall x y, byte x -> byte y -> f (Z.lxor x y) = Z.lxor (f x) (f y)) ->
  forall w x y z, byte w -> byte x -> byte y -> byte z ->
  f (xor4 w x y z) = xor4 (f w) (f x) (f y) (f z).
Proof.
  intros Hf w x y z Hw Hx Hy Hz. unfold xor4.
  rewrite !Hf by (repeat apply lxor_byte; assumption). reflexivity.
Qed.

(** Sixteen terms summed by rows are the same terms summed by columns. *)
Lemma xor4_transpose a1 b1 c1 d1 a2 b2 c2 d2 a3 b3 c3 d3 a4 b4 c4 d4 :
  xor4 (xor4 a1 b1 c1 d1) (xor4 a2 b2 c2 d2) (xor4 a3 b3 c3 d3) (xor4 a4 b4 c4 d4)
  = xor4 (xor4 a1 a2 a3 a4) (xor4 b1 b2 b3 b4) (xor4 c1 c2 c3 c4) (xor4 d1 d2 d3 d4).
Proof.
  unfold xor4. apply Z.bits_inj'. intros n _. rewrite !Z.lxor_spec.
  repeat match goal with
         | |- context [Z.testbit ?t n] =>
           let b := fresh "b" in generalize (Z.testbit t n); intros b
         end.
  btauto.
Qed.

(** The product of the two matrices is the identity, entry by entry and by
    enumeration of the byte. *)
Ltac entry f v :=
  let x := fresh "x" in
  let Hx := fresh "Hx" in
  intros x Hx; apply Z.eqb_eq;
  apply (forallb_bytes (fun x => f x =? v x)); [vm_compute; reflexivity|exact Hx].

Lemma mix_entry_0_0 : forall x, byte x -> xor4 (mul14 (mul2 x)) (mul11 x) (mul13 x) (mul9 (mul3 x)) = x.
Proof. entry (fun x : Z => xor4 (mul14 (mul2 x)) (mul11 x) (mul13 x) (mul9 (mul3 x))) (fun x : Z => x). Qed.

Lemma mix_entry_0_1 : forall x, byte x -> xor4 (mul14 (mul3 x)) (mul11 (mul2 x)) (mul13 x) (mul9 x) = 0.
Proof. entry (fun x : Z => xor4 (mul14 (mul3 x)) (mul11 (mul2 x)) (mul13 x) (mul9 x)) (fun _ : Z => 0). Qed.

Lemma mix_entry_0_2 : forall x, byte x -> xor4 (mul14 x) (mul11 (mul3 x)) (mul13 (mul2 x)) (mul9 x) = 0.
Proof. entry (fun x : Z => xor4 (mul14 x) (mul11 (mul3 x)) (mul13 (mul2 x)) (mul9 x)) (fun _ : Z => 0). Qed.

Lemma mix_entry_0_3 : forall x, byte x -> xor4 (mul14 x) (mul11 x) (mul13 (mul3 x)) (mul9 (mul2 x)) = 0.
Proof. entry (fun x : Z => xor4 (mul14 x) (mul11 x) (mul13 (mul3 x)) (mul9 (mul2 x))) (fun _ : Z => 0). Qed.

Lemma mix_entry_1_0 : forall x, byte x -> xor4 (mul9 (mul2 x)) (mul14 x) (mul11 x) (mul13 (mul3 x)) = 0.
Proof. entry (fun x : Z => xor4 (mul9 (mul2 x)) (mul14 x) (mul11 x) (mul13 (mul3 x))) (fun _ : Z => 0). Qed.

Lemma mix_entry_1_1 : forall x, byte x -> xor4 (mul9 (mul3 x)) (mul14 (mul2 x)) (mul11 x) (mul13 x) = x.
Proof. entry (fun x : Z => xor4 (mul9 (mul3 x)) (mul14 (mul2 x)) (mul11 x) (mul13 x)) (fun x : Z => x). Qed.

Lemma mix_entry_1_2 : forall x, byte x -> xor4 (mul9 x) (mul14 (mul3 x)) (mul11 (mul2 x)) (mul13 x) = 0.
Proof. entry (fun x : Z => xor4 (mul9 x) (mul14 (mul3 x)) (mul11 (mul2 x)) (mul13 x)) (fun _ : Z => 0). Qed.

Lemma mix_entry_1_3 : forall x, byte x -> xor4 (mul9 x) (mul14 x) (mul11 (mul3 x)) (mul13 (mul2 x)) = 0.
Proof. entry (fun x : Z => xor4 (mul9 x) (mul14 x) (mul11 (mul3 x)) (mul13 (mul2 x))) (fun _ : Z => 0). Qed.

Lemma mix_entry_2_0 : forall x, byte x -> xor4 (mul13 (mul2 x)) (mul9 x) (mul14 x) (mul11 (mul3 x)) = 0.
Proof. entry (fun x : Z => xor4 (mul13 (mul2 x)) (mul9 x) (mul14 x) (mul11 (mul3 x))) (fun _ : Z => 0). Qed.

Lemma mix_entry_2_1 : forall x, byte x -> xor4 (mul13 (mul3 x)) (mul9 (mul2 x)) (mul14 x) (mul11 x) = 0.
Proof. entry (fun x : Z => xor4 (mul13 (mul3 x)) (mul9 (mul2 x)) (mul14 x) (mul11 x)) (fun _ : Z => 0). Qed.

Lemma mix_entry_2_2 : forall x, byte x -> xor4 (mul13 x) (mul9 (mul3 x)) (mul14 (mul2 x)) (mul11 x) = x.
Proof. entry (fun x : Z => xor4 (mul13 x) (mul9 (mul3 x)) (mul14 (mul2 x)) (mul11 x)) (fun x : Z => x). Qed.

Lemma mix_entry_2_3 : forall x, byte x -> xor4 (mul13 x) (mul9 x) (mul14 (mul3 x)) (mul11 (mul2 x)) = 0.
Proof. entry (fun x : Z => xor4 (mul13 x) (mul9 x) (mul14 (mul3 x)) (mul11 (mul2 x))) (fun _ : Z => 0). Qed.

Lemma mix_entry_3_0 : forall x, byte x -> xor4 (mul11 (mul2 x)) (mul13 x) (mul9 x) (mul14 (mul3 x)) = 0.
Proof. entry (fun x : Z => xor4 (mul11 (mul2 x)) (mul13 x) (mul9 x) (mul14 (mul3 x))) (fun _ : Z => 0). Qed.

Lemma mix_entry_3_1 : forall x, byte x -> xor4 (mul11 (mul3 x)) (mul13 (mul2 x)) (mul9 x) (mul14 x) = 0.
Proof. entry (fun x : Z => xor4 (mul11 (mul3 x)) (mul13 (mul2 x)) (mul9 x) (mul14 x)) (fun _ : Z => 0). Qed.

Lemma mix_entry_3_2 : forall x, byte x -> xor4 (mul11 x) (mul13 (mul3 x)) (mul9 (mul2 x)) (mul14 x) = 0.
Proof. entry (fun x : Z => xor4 (mul11 x) (mul13 (mul3 x)) (mul9 (mul2 x)) (mul14 x)) (fun _ : Z => 0). Qed.

Lemma mix_entry_3_3 : forall x, byte x -> xor4 (mul11 x) (mul13 x) (mul9 (mul3 x)) (mul14 (mul2 x)) = x.
Proof. entry (fun x : Z => xor4 (mul11 x) (mul13 x) (mul9 (mul3 x)) (mul14 (mul2 x))) (fun x : Z => x). Qed.

Lemma xor4_first x : xor4 x 0 0 0 = x.
Proof. unfold xor4. now rewrite !Z.lxor_0_r. Qed.

Lemma xor4_second x : xor4 0 x 0 0 = x.
Proof. unfold xor4. now rewrite Z.lxor_0_l, !Z.lxor_0_r. Qed.

Lemma xor4_third x : xor4 0 0 x 0 = x.
Proof. unfold xor4. now rewrite !Z.lxor_0_l, Z.lxor_0_r. Qed.

Lemma xor4_fourth x : xor4 0 0 0 x = x.
Proof. unfold xor4. now rewrite !Z.lxor_0_l. Qed.

Local Opaque mul2 mul3 mul9 mul11 mul13 mul14 xor4.

Lemma inv_mix_mix_column a b c d :
  byte a -> byte b -> byte c -> byte d ->
  match mix_column a b c d with
  | [m0; m1; m2; m3] => inv_mix_column m0 m1 m2 m3
  | _ => []
  end = [a; b; c; d].
Proof.
  intros Ha Hb Hc Hd. unfold mix_column, inv_mix_column.
  pose proof (mul2_byte a Ha). pose proof (mul2_byte b Hb).
  pose proof (mul2_byte c Hc). pose proof (mul2_byte d Hd).
  pose proof (mul3_byte a Ha). pose proof (mul3_byte b Hb).
  pose proof (mul3_byte c Hc). pose proof (mul3_byte d Hd).
  rewrite !(linear4 mul14 mul14_linear), !(linear4 mul11 mul11_linear),
    !(linear4 mul13 mul13_linear), !(linear4 mul9 mul9_linear) by assumption.
  f_equal; [|f_equal; [|f_equal; [|f_equal]]]; rewrite xor4_transpose.
  - rewrite (mix_entry_0_0 a), (mix_entry_0_1 b), (mix_entry_0_2 c),
      (mix_entry_0_3 d) by assumption.
    apply xor4_first.
  - rewrite (mix_entry_1_0 a), (mix_entry_1_1 b), (mix_entry_1_2 c),
      (mix_entry_1_3 d) by assumption.
    apply xor4_second.
  - rewrite (mix_entry_2_0 a), (mix_entry_2_1 b), (mix_entry_2_2 c),
      (mix_entry_2_3 d) by assumption.
    apply xor4_third.
  - rewrite (mix_entry_3_0 a), (mix_entry_3_1 b), (mix_entry_3_2 c),
      (mix_entry_3_3 d) by assumption.
    apply xor4_fourth.
Qed.

Lemma mix_column_bytes a b c d :
  byte a -> byte b -> byte c -> byte d -> Forall byte (mix_column a b c d).
Proof.
  intros Ha Hb Hc Hd. unfold mix_column.
  pose proof (mul2_byte a Ha). pose proof (mul2_byte b Hb).
  pose proof (mul2_byte c Hc). pose proof (mul2_byte d Hd).
  pose proof (mul3_byte a Ha). pose proof (mul3_byte b Hb).
  pose proof (mul3_byte c Hc). pose proof (mul3_byte d Hd).
  repeat (apply List.Forall_cons; [now apply xor4_byte|]). constructor.
Qed.

(** MixColumns on a state of [n] columns, and back. *)
Lemma inv_mix_mix_columns (n : nat) :
  forall s, length s = (4 * n)%nat -> Forall byte s ->
  inv_mix_columns (mix_columns s) = s
  /\ length (mix_columns s) = (4 * n)%nat
  /\ Forall byte (mix_columns s).
Proof.
  induction n as [|n IH]; intros s Hlen Hbytes.
  - destruct s; [repeat split; constructor|discriminate].
  - destruct s as [|a [|b [|c [|d r]]]]; try (cbn in Hlen; lia).
    apply Forall_cons in Hbytes as [Ha Hbytes].
    apply Forall_cons in Hbytes as [Hb Hbytes].
    apply Forall_cons in Hbytes as [Hc Hbytes].
    apply Forall_cons in Hbytes as [Hd Hbytes].
    destruct (IH r ltac:(cbn [length] in Hlen; lia) Hbytes) as (Hinv & Hl & Hby).
    pose proof (inv_mix_mix_column a b c d Ha Hb Hc Hd) as Hcolumn.
    pose proof (mix_column_bytes a b c d Ha Hb Hc Hd) as Hcb.
    cbn [mix_columns]. unfold mix_column in *. cbn [app inv_mix_columns].
    cbv beta iota in Hcolumn. rewrite Hcolumn, Hinv. cbn [app length].
    split; [reflexivity|]. split; [lia|].
    apply Forall_cons in Hcb as [H0 Hcb]. apply Forall_cons in Hcb as [H1 Hcb].
    apply Forall_cons in Hcb as [H2 Hcb]. apply Forall_cons in Hcb as [H3 _].
    repeat (apply List.Forall_cons; [assumption|]). exact Hby.
Qed.

Local Transparent mul2 mul3 mul9 mul11 mul13 mul14 xor4.

(** *** The other steps *)

Lemma sub_bytes_block s : is_block s -> is_block (sub_bytes s).
Proof.
  intros [Hl Hb]. unfold sub_bytes. split; [now rewrite List.length_map|].
  clear Hl. induction Hb as [|x s Hx _ IH]; cbn [List.map];
    [apply List.Forall_nil|apply List.Forall_cons; [now apply sbox_byte|exact IH]].
Qed.

Lemma inv_sub_bytes_block s : is_block s -> is_block (inv_sub_bytes s).
Proof.
  intros [Hl Hb]. unfold inv_sub_bytes. split; [now rewrite List.length_map|].
  clear Hl. induction Hb as [|x s Hx _ IH]; cbn [List.map];
    [apply List.Forall_nil|apply List.Forall_cons; [now apply inv_sbox_byte|exact IH]].
Qed.

Lemma inv_sub_sub_bytes s : Forall byte s -> inv_sub_bytes (sub_bytes s) = s.
Proof.
  unfold inv_sub_bytes, sub_bytes. induction 1 as [|x s Hx _ IH]; [reflexivity|].
  cbn [List.map]. now rewrite inv_sbox_sbox, IH.
Qed.

Ltac sixteen s Hl :=
  do 16 (destruct s as [|? s]; [discriminate Hl|]);
  destruct s; [|discriminate Hl].

Lemma shift_rows_block s : is_block s -> is_block (shift_rows s).
Proof.
  intros [Hl Hb]. sixteen s Hl. cbn [shift_rows]. split; [reflexivity|].
  repeat match goal with
         | H : Forall byte (_ :: _) |- _ => apply Forall_cons in H as [? H]
         end.
  repeat (apply List.Forall_cons; [assumption|]). constructor.
Qed.

Lemma inv_shift_rows_block s : is_block s -> is_block (inv_shift_rows s).
Proof.
  intros [Hl Hb]. sixteen s Hl. cbn [inv_shift_rows]. split; [reflexivity|].
  repeat match goal with
         | H : Forall byte (_ :: _) |- _ => apply Forall_cons in H as [? H]
         end.
  repeat (apply List.Forall_cons; [assumption|]). constructor.
Qed.

Lemma inv_shift_shift_rows s : length s = 16%nat -> inv_shift_rows (shift_rows s) = s.
Proof. intros Hl. sixteen s Hl. reflexivity. Qed.

Lemma mix_columns_block s :
  is_block s -> is_block (mix_columns s) /\ inv_mix_columns (mix_columns s) = s.
Proof.
  intros [Hl Hb]. destruct (inv_mix_mix_columns 4 s Hl Hb) as (Hinv & Hlen & Hbytes).
  repeat split; assumption.
Qed.

Lemma add_round_key_block rk s :
  is_block rk -> is_block s -> is_block (add_round_key rk s).
Proof. intros Hrk Hs. now apply (xor_bytes_block s rk). Qed.

Lemma add_round_key_twice rk s :
  is_block rk -> is_block s -> add_round_key rk (add_round_key rk s) = s.
Proof.
  intros [Hrk _] [Hs _]. apply (xor_bytes_cancel s rk). congruence.
Qed.

(** *** Rounds *)

Lemma round_block s rk : is_block s -> is_block rk -> is_block (round s rk).
Proof.
  intros Hs Hrk. unfold round. apply add_round_key_block; [exact Hrk|].
  apply mix_columns_block, shift_rows_block, sub_bytes_block, Hs.
Qed.

Lemma inv_round_round s rk :
  is_block s -> is_block rk -> inv_round rk (round s rk) = s.
Proof.
  intros Hs Hrk. unfold inv_round, round.
  pose proof (sub_bytes_block s Hs) as H1.
  pose proof (shift_rows_block _ H1) as H2.
  destruct (mix_columns_block _ H2) as [H3 Hmix].
  rewrite add_round_key_twice, Hmix by assumption.
  rewrite inv_shift_shift_rows by apply H1.
  apply inv_sub_sub_bytes, Hs.
Qed.

Lemma rounds_block middle :
  Forall is_block middle ->
  forall s, is_block s -> is_block (fold_left round middle s).
Proof.
  induction 1 as [|rk middle Hrk _ IH]; intros s Hs; [exact Hs|].
  cbn [fold_left]. apply IH. now apply round_block.
Qed.

Lemma inv_rounds_rounds middle :
  Forall is_block middle ->
  forall s, is_block s ->
  fold_right inv_round (fold_left round middle s) middle = s.
Proof.
  induction 1 as [|rk middle Hrk _ IH]; intros s Hs; [reflexivity|].
  cbn [fold_left fold_right]. rewrite IH by now apply round_block.
  now apply inv_round_round.
Qed.

Lemma cipher_block first middle last b :
  is_block first -> Forall is_block middle -> is_block last -> is_block b ->
  is_block (cipher first middle last b)
  /\ inv_cipher first middle last (cipher first middle last b) = b.
Proof.
  intros Hfirst Hmiddle Hlast Hb. unfold cipher, inv_cipher, final_round,
    inv_final_round.
  pose proof (add_round_key_block first b Hfirst Hb) as H0.
  pose proof (rounds_block middle Hmiddle _ H0) as H1.
  pose proof (sub_bytes_block _ H1) as H2.
  pose proof (shift_rows_block _ H2) as H3.
  split; [now apply add_round_key_block|].
  rewrite add_round_key_twice by assumption.
  rewrite inv_shift_shift_rows by apply H2.
  rewrite inv_sub_sub_bytes by apply H1.
  rewrite inv_rounds_rounds by assumption.
  now apply add_round_key_twice.
Qed.

(** *** The key schedule *)

Definition is_word (w : list Z) : Prop := length w = 4%nat /\ Forall byte w.

Lemma words_are_words (n : nat) :
  forall bs, length bs = (4 * n)%nat -> Forall byte bs ->
  Forall is_word (words bs) /\ length (words bs) = n.
Proof.
  induction n as [|n IH]; intros bs Hlen Hbytes.
  - destruct bs; [split; [apply List.Forall_nil|reflexivity]|discriminate].
  - destruct bs as [|a [|b [|c [|d r]]]]; try (cbn in Hlen; lia).
    apply Forall_cons in Hbytes as [Ha Hbytes].
    apply Forall_cons in Hbytes as [Hb Hbytes].
    apply Forall_cons in Hbytes as [Hc Hbytes].
    apply Forall_cons in Hbytes as [Hd Hbytes].
    destruct (IH r ltac:(cbn [length] in Hlen; lia) Hbytes) as [Hw Hl].
    cbn [words length]. split; [|now rewrite Hl].
    apply List.Forall_cons; [|exact Hw]. split; [reflexivity|].
    repeat (apply List.Forall_cons; [assumption|]). apply List.Forall_nil.
Qed.

Ltac four w Hl :=
  do 4 (destruct w as [|? w]; [discriminate Hl|]);
  destruct w; [|discriminate Hl].

Lemma rot_word_word w : is_word w -> is_word (rot_word w).
Proof.
  intros [Hl Hb]. four w Hl. cbn [rot_word]. split; [reflexivity|].
  repeat match goal with
         | H : Forall byte (_ :: _) |- _ => apply Forall_cons in H as [? H]
         end.
  repeat (apply List.Forall_cons; [assumption|]). apply List.Forall_nil.
Qed.

Lemma sub_word_word w : is_word w -> is_word (sub_word w).
Proof.
  intros [Hl Hb]. unfold sub_word. split; [now rewrite List.length_map|].
  clear Hl. induction Hb as [|x w Hx _ IH]; cbn [List.map];
    [apply List.Forall_nil|apply List.Forall_cons; [now apply sbox_byte|exact IH]].
Qed.

Lemma xor_word_word u v : is_word u -> is_word v -> is_word (xor_word u v).
Proof.
  intros [Hu Hub] [Hv Hvb]. four u Hu. four v Hv. cbn [xor_word zip_with].
  split; [reflexivity|].
  repeat match goal with
         | H : Forall byte (_ :: _) |- _ => apply Forall_cons in H as [? H]
         end.
  repeat (apply List.Forall_cons; [now apply lxor_byte|]). apply List.Forall_nil.
Qed.

Lemma rcon_byte n : byte (rcon n).
Proof.
  induction n as [|n IH]; [unfold byte; cbn; lia|].
  cbn [rcon]. now apply xtime_byte.
Qed.

Lemma nth_word (ws : list (list Z)) (i : nat) :
  Forall is_word ws -> (i < length ws)%nat -> is_word (nth i ws []).
Proof.
  intros Hws Hi. rewrite List.Forall_forall in Hws. apply Hws, nth_In, Hi.
Qed.

Lemma next_word_word ws :
  Forall is_word ws -> (8 <= length ws)%nat -> is_word (next_word ws).
Proof.
  intros Hws Hlen. unfold next_word.
  assert (Hlast : is_word (nth (length ws - 1) ws [])) by (apply nth_word; [exact Hws|lia]).
  assert (Hback : is_word (nth (length ws - 8) ws [])) by (apply nth_word; [exact Hws|lia]).
  apply xor_word_word; [exact Hback|].
  destruct (length ws mod 8 =? 0)%nat.
  - apply xor_word_word; [apply sub_word_word, rot_word_word, Hlast|].
    split; [reflexivity|].
    apply List.Forall_cons; [apply rcon_byte|].
    repeat (apply List.Forall_cons; [unfold byte; lia|]). apply List.Forall_nil.
  - destruct (length ws mod 8 =? 4)%nat; [apply sub_word_word|]; exact Hlast.
Qed.

Lemma expand_words (n : nat) :
  forall ws, Forall is_word ws -> (8 <= length ws)%nat ->
  Forall is_word (expand n ws) /\ length (expand n ws) = (n + length ws)%nat.
Proof.
  induction n as [|n IH]; intros ws Hws Hlen; [split; [exact Hws|reflexivity]|].
  cbn [expand].
  destruct (IH (ws ++ [next_word ws])) as [Hw Hl].
  - apply Forall_app. split; [exact Hws|].
    apply List.Forall_cons; [now apply next_word_word|apply List.Forall_nil].
  - rewrite length_app. lia.
  - split; [exact Hw|]. rewrite Hl, length_app. cbn [length]. lia.
Qed.

Lemma key_expansion_words key :
  length key = 32%nat -> Forall byte key ->
  Forall is_word (key_expansion key) /\ length (key_expansion key) = 60%nat.
Proof.
  intros Hlen Hbytes. unfold key_expansion.
  destruct (words_are_words 8 key Hlen Hbytes) as [Hw Hl].
  destruct (expand_words 52 (words key) Hw ltac:(lia)) as [He Hel].
  split; [exact He|]. rewrite Hel, Hl. reflexivity.
Qed.

Lemma concat_words ws :
  Forall is_word ws ->
  length (concat ws) = (4 * length ws)%nat /\ Forall byte (concat ws).
Proof.
  induction 1 as [|w ws [Hl Hb] _ [IHl IHb]]; [split; [reflexivity|apply List.Forall_nil]|].
  cbn [concat length]. rewrite length_app, Hl, IHl. split; [lia|].
  apply Forall_app. split; assumption.
Qed.

Lemma round_key_block ws r :
  Forall is_word ws -> (4 * r + 4 <= length ws)%nat -> is_block (round_key ws r).
Proof.
  intros Hws Hlen. unfold round_key.
  assert (Hpart : Forall is_word (take 4 (drop (4 * r) ws)))
    by apply Forall_take, Forall_drop, Hws.
  destruct (concat_words _ Hpart) as [Hl Hb].
  split; [|exact Hb]. rewrite Hl, length_take, length_drop. lia.
Qed.

Lemma middle_keys_blocks ws :
  Forall is_word ws -> length ws = 60%nat -> Forall is_block (middle_keys ws).
Proof.
  intros Hws Hlen. unfold middle_keys. cbn [seq List.map].
  repeat (apply List.Forall_cons; [apply round_key_block; [exact Hws|rewrite Hlen; lia]|]).
  apply List.Forall_nil.
Qed.

(** *** AES-256 as the block cipher of the vault *)

Lemma aes_encrypt_length key b :
  length key = 32%nat -> length b = 16%nat -> Forall byte key -> Forall byte b ->
  length (AES.encrypt key b) = 16%nat.
Proof.
  intros Hk Hb Hkb Hbb. destruct (key_expansion_words key Hk Hkb) as [Hw Hl].
  unfold AES.encrypt.
  apply (cipher_block (round_key (key_expansion key) 0)
           (middle_keys (key_expansion key)) (round_key (key_expansion key) 14) b).
  - apply round_key_block; [exact Hw|rewrite Hl; lia].
  - now apply middle_keys_blocks.
  - apply round_key_block; [exact Hw|rewrite Hl; lia].
  - split; assumption.
Qed.

Lemma aes_encrypt_bytes key b :
  length key = 32%nat -> length b = 16%nat -> Forall byte key -> Forall byte b ->
  Forall byte (AES.encrypt key b).
Proof.
  intros Hk Hb Hkb Hbb. destruct (key_expansion_words key Hk Hkb) as [Hw Hl].
  unfold AES.encrypt.
  apply (cipher_block (round_key (key_expansion key) 0)
           (middle_keys (key_expansion key)) (round_key (key_expansion key) 14) b).
  - apply round_key_block; [exact Hw|rewrite Hl; lia].
  - now apply middle_keys_blocks.
  - apply round_key_block; [exact Hw|rewrite Hl; lia].
  - split; assumption.
Qed.

Lemma aes_decrypt_encrypt key b :
  length key = 32%nat -> length b = 16%nat -> Forall byte key -> Forall byte b ->
  AES.decrypt key (AES.encrypt key b) = b.
Proof.
  intros Hk Hb Hkb Hbb. destruct (key_expansion_words key Hk Hkb) as [Hw Hl].
  unfold AES.encrypt, AES.decrypt.
  apply (cipher_block (round_key (key_expansion key) 0)
           (middle_keys (key_expansion key)) (round_key (key_expansion key) 14) b).
  - apply round_key_block; [exact Hw|rewrite Hl; lia].
  - now apply middle_keys_blocks.
  - apply round_key_block; [exact Hw|rewrite Hl; lia].
  - split; assumption.
Qed.

End AESFacts.

(** ** The vault under AES-256 *)

Module VaultRuns.
Import JS Vault VaultFacts.

#[export] Instance aes256 : BlockCipher :=
  {| encrypt_block := AES.encrypt;
     decrypt_block := AES.decrypt;
     encrypt_block_length := AESFacts.aes_encrypt_length;
     encrypt_block_bytes := AESFacts.aes_encrypt_bytes;
     decrypt_encrypt_block := AESFacts.aes_decrypt_encrypt |}.

(** The sixteen bytes [00 01 .. 0f], standing for one draw of
    [randomBytes(16)]. *)
Definition counting_iv : list Z := List.map Z.of_nat (seq 0 16).

Definition short_key : jsstring := lit "key".
Definition exact_key : jsstring := lit "0123456789abcdef0123456789abcdef".
Definition long_key : jsstring := lit "0123456789abcdef0123456789abcdef-and-more".

(** [个] followed by the surrogate pair of U+1F600, then [pw]. *)
Definition paired_secret : jsstring := [20010; 55357; 56832; 112; 119].

Ltac ascii_key :=
  repeat (apply List.Forall_cons; [reflexivity|]); apply List.Forall_nil.

Ltac block :=
  split; [reflexivity|];
  repeat (apply List.Forall_cons; [unfold byte; lia|]); apply List.Forall_nil.

Ltac paired := cbn; unfold code_unit; repeat split; lia.

Ltac no_colon :=
  repeat (apply List.Forall_cons; [discriminate|]); apply List.Forall_nil.

Lemma counting_iv_block : is_block counting_iv.
Proof. block. Qed.

(** The model agrees with OpenSSL's [aes-256-cbc] on this run. *)
Example encrypt_pw_under_a :
  encrypt (lit "a") counting_iv (lit "pw")
  = Ok (lit "000102030405060708090a0b0c0d0e0f:2e3d44183236f0256270e143a2f167a7").
Proof. vm_compute. reflexivity. Qed.

Lemma decrypt_after_encrypt_witness :
  (exists stored,
     encrypt short_key counting_iv paired_secret = Ok stored
     /\ decrypt short_key stored = Ok paired_secret)
  /\ (exists stored,
     encrypt exact_key counting_iv paired_secret = Ok stored
     /\ decrypt exact_key stored = Ok paired_secret)
  /\ (exists stored,
     encrypt long_key counting_iv [] = Ok stored
     /\ decrypt long_key stored = Ok []).
Proof.
  split; [|split].
  - apply (decrypt_after_encrypt short_key counting_iv paired_secret);
      [ascii_key|block|paired].
  - apply (decrypt_after_encrypt exact_key counting_iv paired_secret);
      [ascii_key|block|paired].
  - apply (decrypt_after_encrypt long_key counting_iv []); [ascii_key|block|exact I].
Defined.

(** C3 as stated fails for a secret with an unpaired surrogate: UTF-8
    cannot carry it, and what comes back is U+FFFD. *)
Lemma lone_surrogate_does_not_round_trip :
  ~ (forall encryptionKey iv secret,
       is_block iv ->
       exists stored,
         encrypt encryptionKey iv secret = Ok stored
         /\ decrypt encryptionKey stored = Ok secret).
Proof.
  intros H.
  destruct (H short_key counting_iv [55296] counting_iv_block)
    as (stored & Hstored & Hback).
  vm_compute in Hstored. injection Hstored as <-.
  vm_compute in Hback. discriminate.
Qed.

(** A key outside Basic Latin: its 32 units are more than 32 bytes, and
    [createCipheriv] refuses the buffer. *)
Example wide_key_is_rejected :
  encrypt [233] counting_iv (lit "pw") = Throw InvalidKeyLength.
Proof. vm_compute. reflexivity. Qed.

Lemma decrypt_raises_on_malformed_witness :
  decrypt (lit "a") [] = Ok []
  /\ (exists e, decrypt (lit "a") (lit "no separator") = Throw (DecryptFailed e))
  /\ decrypt (lit "a") (lit "0001:2e3d") = Throw (DecryptFailed InvalidIV)
  /\ (exists e,
        decrypt (lit "a") (lit "000102030405060708090a0b0c0d0e0f:2e3d")
        = Throw (DecryptFailed e))
  /\ (exists e,
        decrypt (lit "a") (lit "000102030405060708090a0b0c0d0e0f:2e3")
        = Throw (DecryptFailed e))
  /\ (exists stored,
        encrypt (lit "a0") counting_iv (lit "pw") = Ok stored
        /\ decrypt (lit "a") stored = Ok (lit "pw"))
  /\ (exists stored,
        encrypt (lit "b") counting_iv (lit "pw") = Ok stored
        /\ decrypt (lit "a") stored
           = match pkcs7_unpad
                     (concat (cbc_decrypt (key_buffer (lit "a")) counting_iv
                                (blocks (ciphertext (key_buffer (lit "b")) counting_iv
                                           (lit "pw"))))) with
             | Ok plain => Ok (utf8_decode plain)
             | Throw e => Throw (DecryptFailed e)
             end).
Proof.
  destruct (decrypt_raises_on_malformed (lit "a"))
    as (Hempty & Hplain & Hiv & Hlength & Hsame & Hother).
  assert (Hbytes : forall key : jsstring,
             Forall (fun c => is_ascii c = true) key -> Forall byte (key_buffer key)).
  { intros key Hkey. now destruct (key_buffer_ascii key Hkey) as (_ & _ & H). }
  split; [exact Hempty|].
  split; [apply Hplain; [discriminate|no_colon]|].
  split; [apply (Hiv (lit "0001") (lit "2e3d")); [no_colon|vm_compute; lia]|].
  split; [|split; [|split]].
  - apply (Hlength (lit "000102030405060708090a0b0c0d0e0f") (lit "2e3d"));
      [no_colon|no_colon|right; left; vm_compute; lia].
  - apply (Hlength (lit "000102030405060708090a0b0c0d0e0f") (lit "2e3"));
      [no_colon|no_colon|left; vm_compute; lia].
  - apply (Hsame (lit "a0") counting_iv (lit "pw"));
      [vm_compute; reflexivity|vm_compute; reflexivity| |block|paired].
    apply Hbytes. ascii_key.
  - apply (Hother (lit "b") counting_iv (lit "pw"));
      [vm_compute; reflexivity| |vm_compute; reflexivity|block|paired].
    apply Hbytes. ascii_key.
Defined.

(** A second part with an odd number of hex digits is refused before it is
    decoded; an even one that is not whole blocks is refused by [final]. *)
Example odd_hex_is_refused :
  decrypt (lit "a")
    (lit "000102030405060708090a0b0c0d0e0f:2e3d44183236f0256270e143a2f167a70")
  = Throw (DecryptFailed InvalidArgValue)
  /\ decrypt (lit "a") (lit "000102030405060708090a0b0c0d0e0f:2e3d")
     = Throw (DecryptFailed WrongFinalBlockLength).
Proof. split; vm_compute; reflexivity. Qed.

(** C4 as stated fails for two keys that differ only in the filler: [a]
    and [a0] give the same buffer, and the second decrypts what the first
    encrypted. *)
Lemma padded_key_decrypts :
  ~ (forall k1 k2 iv secret stored,
       k1 <> k2 -> is_block iv ->
       encrypt k1 iv secret = Ok stored ->
       exists e, decrypt k2 stored = Throw e).
Proof.
  intros H.
  destruct (H (lit "a") (lit "a0") counting_iv (lit "pw") _
              ltac:(discriminate) counting_iv_block encrypt_pw_under_a)
    as [e He].
  vm_compute in He. discriminate.
Qed.

(** Nor is a key with another buffer always refused: CBC carries no
    authentication, only the padding is checked.  Under [b102] the last
    block of the value made under [a] ends in a valid padding byte, and
    [decrypt] returns fourteen units of noise. *)
Example wrong_key_can_pass_padding :
  key_buffer (lit "b102") <> key_buffer (lit "a")
  /\ decrypt (lit "b102")
       (lit "000102030405060708090a0b0c0d0e0f:2e3d44183236f0256270e143a2f167a7")
     = Ok [332; 65533; 125; 65533; 103; 23; 102; 65533; 65533; 65533; 65533;
           80; 65533; 65533].
Proof. split; [vm_compute; discriminate|vm_compute; reflexivity]. Qed.

(** The usual fate of a wrong key. *)
Example wrong_key_is_refused :
  decrypt (lit "b")
    (lit "000102030405060708090a0b0c0d0e0f:2e3d44183236f0256270e143a2f167a7")
  = Throw (DecryptFailed BadDecrypt).
Proof. vm_compute. reflexivity. Qed.

End VaultRuns.

(** ** More on the HTML extraction *)

Module HtmlMore.
Import JS Html.

Section Stars.
Context (p : Z -> bool) (continue : jsstring -> option (list jsstring * jsstring)).

(** The loop of a greedy star, by name: it takes units while it can and
    gives them back one at a time until what follows matches. *)
Fixpoint greedy_star (s : jsstring) : option (jsstring * list jsstring * jsstring) :=
  let stop :=
    match continue s with
    | Some (caps, out) => Some ([], caps, out)
    | None => None
    end in
  match s with
  | c :: s' =>
    if p c then
      match greedy_star s' with
      | Some (own, caps, out) => Some (c :: own, caps, out)
      | None => stop
      end
    else stop
  | [] => stop
  end.

(** The loop of a lazy star: it takes a unit only when what follows does
    not match yet. *)
Fixpoint lazy_star (s : jsstring) : option (jsstring * list jsstring * jsstring) :=
  match continue s with
  | Some (caps, out) => Some ([], caps, out)
  | None =>
    match s with
    | c :: s' =>
      if p c then
        match lazy_star s' with
        | Some (own, caps, out) => Some (c :: own, caps, out)
        | None => None
        end
      else None
    | [] => None
    end
  end.

End Stars.

Lemma match_here_star p r s :
  match_here (Star p :: r) s = with_own (greedy_star p (match_here r) s).
Proof. reflexivity. Qed.

Lemma match_here_lazy p r s :
  match_here (LazyStar p :: r) s = with_own (lazy_star p (match_here r) s).
Proof. reflexivity. Qed.

Lemma match_here_lit ic cs r s :
  match_here (Lit ic cs :: r) s
  = match match_lit ic cs s with
    | Some rest =>
      match match_here r rest with
      | Some (caps, out) => Some (take (length cs) s :: caps, out)
      | None => None
      end
    | None => None
    end.
Proof. reflexivity. Qed.

Lemma search_some r : forall s pre caps out,
  search r s = Some (pre, caps, out) ->
  exists t, s = pre ++ t /\ match_here r t = Some (caps, out).
Proof.
  induction s as [|c s IH]; intros pre caps out H.
  - cbn [search] in H. destruct (match_here r []) as [[caps' out']|] eqn:E; [|discriminate].
    injection H as <- <- <-. exists []. split; [reflexivity|exact E].
  - cbn [search] in H. destruct (match_here r (c :: s)) as [[caps' out']|] eqn:E.
    + injection H as <- <- <-. exists (c :: s). split; [reflexivity|exact E].
    + destruct (search r s) as [[[pre' caps'] out']|] eqn:Es; [|discriminate].
      injection H as <- <- <-.
      destruct (IH _ _ _ eq_refl) as (t & Ht & Hm). exists t. split; [|exact Hm].
      cbn. now rewrite Ht.
Qed.

Lemma search_skip r : forall pre t,
  (forall a b, pre = a ++ b -> b <> [] -> match_here r (b ++ t) = None) ->
  search r (pre ++ t)
  = match search r t with
    | Some (p, caps, out) => Some (pre ++ p, caps, out)
    | None => None
    end.
Proof.
  induction pre as [|c pre IH]; intros t H.
  - cbn [app]. destruct (search r t) as [[[p caps] out]|]; reflexivity.
  - pose proof (H [] (c :: pre) eq_refl ltac:(discriminate)) as Hhere.
    cbn [app] in Hhere. cbn [app search]. rewrite Hhere, IH.
    + destruct (search r t) as [[[p caps] out]|]; reflexivity.
    + intros a b Hab Hb. apply (H (c :: a) b); [cbn; now rewrite Hab|exact Hb].
Qed.

Lemma search_here r s caps out :
  match_here r s = Some (caps, out) -> search r s = Some ([], caps, out).
Proof. intros H. destruct s; cbn [search]; now rewrite H. Qed.

(** *** [removeSuffix] *)

Definition close_re : regex := [Lit false (lit ")"); EndOfInput].

Lemma close_here_inv t caps out :
  match_here close_re t = Some (caps, out) -> t = [41] /\ out = [].
Proof.
  unfold close_re. change (lit ")") with [41]. rewrite match_here_lit.
  destruct t as [|c t]; [discriminate|]. cbn [match_lit unit_matches].
  destruct (41 =? c) eqn:E; [|discriminate]. apply Z.eqb_eq in E. subst c.
  destruct t as [|d t]; cbn; [|discriminate].
  intros H. injection H as <- <-. split; reflexivity.
Qed.

Definition plain (c : Z) : Prop := not_paren c = true.

Lemma paren_star_inv : forall t own caps out,
  greedy_star not_paren (match_here close_re) t = Some (own, caps, out) ->
  t = own ++ [41] /\ Forall plain own /\ out = [].
Proof.
  assert (Hstop : forall t (own : jsstring) caps out,
             match match_here close_re t with
             | Some (caps, out) => Some ([], caps, out)
             | None => None
             end = Some (own, caps, out) ->
             own = [] /\ t = [41] /\ out = []).
  { intros t own caps out H.
    destruct (match_here close_re t) as [[caps' out']|] eqn:E; [|discriminate].
    injection H as <- <- <-. apply close_here_inv in E as [-> ->].
    repeat split. }
  induction t as [|c t IH]; intros own caps out H.
  - destruct (Hstop [] _ _ _ H) as (_ & Ht & _). discriminate Ht.
  - cbn [greedy_star] in H. destruct (not_paren c) eqn:Hc.
    + destruct (greedy_star not_paren (match_here close_re) t)
        as [[[own' caps'] out']|] eqn:E.
      * injection H as <- <- <-.
        destruct (IH _ _ _ eq_refl) as (-> & Hown & ->).
        repeat split. apply List.Forall_cons; assumption.
      * destruct (Hstop (c :: t) _ _ _ H) as (_ & Ht & _).
        injection Ht as -> _. discriminate Hc.
    + destruct (Hstop (c :: t) _ _ _ H) as (-> & -> & ->).
      repeat split. apply List.Forall_nil.
Qed.

Lemma paren_star_ok (own : jsstring) :
  Forall plain own ->
  greedy_star not_paren (match_here close_re) (own ++ [41])
  = Some (own, [[41]; []], []).
Proof.
  induction 1 as [|c own Hc _ IH]; [reflexivity|].
  cbn [app greedy_star]. unfold plain in Hc. now rewrite Hc, IH.
Qed.

Lemma suffix_here_inv t caps out :
  match_here re_suffix t = Some (caps, out) ->
  exists inner, t = 40 :: inner ++ [41] /\ Forall plain inner /\ out = [].
Proof.
  unfold re_suffix. change (lit "(") with [40]. rewrite match_here_lit.
  destruct t as [|c t]; [discriminate|]. cbn [match_lit unit_matches].
  destruct (40 =? c) eqn:E; [|discriminate]. apply Z.eqb_eq in E. subst c.
  rewrite match_here_star. fold close_re.
  destruct (greedy_star not_paren (match_here close_re) t)
    as [[[own caps'] out']|] eqn:Es; [|discriminate].
  cbn [with_own]. intros H. injection H as <- <-.
  apply paren_star_inv in Es as (-> & Hown & ->).
  exists own. repeat split. exact Hown.
Qed.

Lemma suffix_here_ok (inner : jsstring) :
  Forall plain inner ->
  match_here re_suffix (40 :: inner ++ [41]) = Some ([[40]; inner; [41]; []], []).
Proof.
  intros Hinner. unfold re_suffix. change (lit "(") with [40].
  rewrite match_here_lit. cbn [match_lit unit_matches]. rewrite Z.eqb_refl.
  rewrite match_here_star. fold close_re. rewrite paren_star_ok by exact Hinner.
  reflexivity.
Qed.

(** [removeSuffix] takes away one group [(...)] that ends the name and holds
    no parenthesis, and only that: a name of any other shape comes back as
    it is. *)
Theorem removeSuffix_strips_last_group :
  (forall name inner,
     Forall plain inner -> removeSuffix (name ++ [40] ++ inner ++ [41]) = name)
  /\ (forall s,
       (forall name inner, s = name ++ [40] ++ inner ++ [41] -> ~ Forall plain inner) ->
       removeSuffix s = s).
Proof.
  split.
  - intros name inner Hinner. unfold removeSuffix, replace_first. cbn [app].
    rewrite search_skip.
    + rewrite (search_here _ _ _ _ (suffix_here_ok inner Hinner)).
      now rewrite !app_nil_r.
    + intros a b _ Hb.
      destruct (match_here re_suffix (b ++ 40 :: inner ++ [41]))
        as [[caps out]|] eqn:E; [|reflexivity].
      apply suffix_here_inv in E as (inner' & Heq & Hplain & _).
      destruct b as [|c b]; [congruence|]. cbn [app] in Heq.
      injection Heq as -> Heq.
      change (b ++ 40 :: inner ++ [41]) with (b ++ [40] ++ inner ++ [41]) in Heq.
      rewrite !app_assoc in Heq. apply app_inj_tail in Heq as [<- _].
      rewrite <- app_assoc in Hplain.
      apply Forall_app in Hplain as [_ Hplain].
      apply Forall_app in Hplain as [Hplain _].
      apply Forall_cons in Hplain as [Hopen _]. discriminate.
  - intros s Hshape. unfold removeSuffix, replace_first.
    destruct (search re_suffix s) as [[[pre caps] out]|] eqn:E; [|reflexivity].
    apply search_some in E as (t & -> & Hhere).
    apply suffix_here_inv in Hhere as (inner & -> & Hplain & _).
    exfalso. exact (Hshape pre inner eq_refl Hplain).
Qed.

Lemma removeSuffix_strips_last_group_witness :
  removeSuffix (lit "Math(24-25)") = lit "Math"
  /\ removeSuffix (lit "Math (A)(24-25)") = lit "Math (A)"
  /\ removeSuffix (lit "Math (24-25") = lit "Math (24-25".
Proof.
  destruct removeSuffix_strips_last_group as [Hstrip Hkeep].
  split; [|split].
  - apply (Hstrip (lit "Math") (lit "24-25")).
    repeat (apply List.Forall_cons; [reflexivity|]). apply List.Forall_nil.
  - apply (Hstrip (lit "Math (A)") (lit "24-25")).
    repeat (apply List.Forall_cons; [reflexivity|]). apply List.Forall_nil.
  - apply Hkeep. intros name inner Heq _.
    apply (f_equal (@rev Z)) in Heq. rewrite !rev_app_distr in Heq.
    vm_compute in Heq. discriminate.
Defined.

(** *** Tag stripping *)

Definition no_gt (c : Z) : Prop := c <> 62.

Lemma gt_here (t : jsstring) :
  match_here [Lit false [62]] t
  = match t with
    | c :: out => if 62 =? c then Some ([[c]], out) else None
    | [] => None
    end.
Proof.
  rewrite match_here_lit. destruct t as [|c t]; [reflexivity|].
  cbn [match_lit unit_matches]. now destruct (62 =? c).
Qed.

Lemma gt_star_ok (u out : jsstring) :
  Forall no_gt u ->
  greedy_star (not_unit 62) (match_here [Lit false [62]]) (u ++ 62 :: out)
  = Some (u, [[62]], out).
Proof.
  induction 1 as [|c u Hc _ IH].
  - cbn [app greedy_star]. rewrite gt_here. reflexivity.
  - cbn [app greedy_star]. rewrite IH. unfold not_unit.
    apply Z.eqb_neq in Hc. now rewrite Hc.
Qed.

Lemma gt_star_none (t : jsstring) :
  Forall no_gt t ->
  greedy_star (not_unit 62) (match_here [Lit false [62]]) t = None.
Proof.
  induction 1 as [|c t Hc _ IH]; [reflexivity|].
  cbn [greedy_star]. rewrite IH, gt_here. unfold not_unit.
  apply Z.eqb_neq in Hc. rewrite Hc. cbn [negb].
  rewrite Z.eqb_sym. now rewrite Hc.
Qed.

Lemma first_gt (t : jsstring) :
  Forall no_gt t \/ exists u out, t = u ++ 62 :: out /\ Forall no_gt u.
Proof.
  induction t as [|c t [IH|(u & out & -> & Hu)]].
  - left. apply List.Forall_nil.
  - destruct (Z.eq_dec c 62) as [->|Hc].
    + right. exists [], t. split; [reflexivity|apply List.Forall_nil].
    + left. apply List.Forall_cons; assumption.
  - right. destruct (Z.eq_dec c 62) as [->|Hc].
    + exists [], (u ++ 62 :: out). split; [reflexivity|apply List.Forall_nil].
    + exists (c :: u), out. split; [reflexivity|apply List.Forall_cons; assumption].
Qed.

Lemma tag_here_ok (u out : jsstring) :
  Forall no_gt u ->
  match_here re_tag (60 :: u ++ 62 :: out) = Some ([[60]; u; [62]], out).
Proof.
  intros Hu. unfold re_tag. change (lit "<") with [60]. change (lit ">") with [62].
  rewrite match_here_lit. cbn [match_lit unit_matches]. rewrite Z.eqb_refl.
  rewrite match_here_star, gt_star_ok by exact Hu. reflexivity.
Qed.

Lemma tag_here_open (t : jsstring) :
  Forall no_gt t -> match_here re_tag (60 :: t) = None.
Proof.
  intros Ht. unfold re_tag. change (lit "<") with [60]. change (lit ">") with [62].
  rewrite match_here_lit. cbn [match_lit unit_matches]. rewrite Z.eqb_refl.
  rewrite match_here_star, gt_star_none by exact Ht. reflexivity.
Qed.

Lemma tag_here_other (c : Z) (t : jsstring) :
  c <> 60 -> match_here re_tag (c :: t) = None.
Proof.
  intros Hc. unfold re_tag. change (lit "<") with [60].
  rewrite match_here_lit. cbn [match_lit unit_matches].
  apply Z.eqb_neq in Hc. rewrite Z.eqb_sym. now rewrite Hc.
Qed.

Lemma replace_all_from_drop r : forall (s : jsstring) k,
  replace_all_from r k s = replace_all_from r 0 (drop k s).
Proof.
  induction s as [|c s IH]; intros [|k]; try reflexivity.
  cbn [replace_all_from drop]. apply IH.
Qed.

Lemma replace_all_from_In r : forall (s : jsstring) k x,
  In x (replace_all_from r k s) -> In x s.
Proof.
  induction s as [|c s IH]; intros k x H; [exact H|].
  cbn [replace_all_from] in H. destruct k as [|k].
  - destruct (match_here r (c :: s)) as [[caps out]|].
    + destruct (length (c :: s) - length out)%nat.
      * destruct H as [<-|H]; [now left|right; eauto].
      * right; eauto.
    + destruct H as [<-|H]; [now left|right; eauto].
  - right; eauto.
Qed.

Lemma replace_all_Forall r (P : Z -> Prop) (s : jsstring) :
  Forall P s -> Forall P (replace_all r s).
Proof.
  rewrite !List.Forall_forall. intros H x Hx. apply H.
  now apply (replace_all_from_In r s 0).
Qed.

(** No [<] of the text has a [>] after it: the text holds no tag. *)
Fixpoint tag_free (s : jsstring) : Prop :=
  match s with
  | [] => True
  | c :: r => (c = 60 -> Forall no_gt r) /\ tag_free r
  end.

Lemma tag_free_app (a b : jsstring) :
  tag_free (a ++ b) -> tag_free a /\ tag_free b.
Proof.
  induction a as [|c a IH]; cbn [app tag_free]; [now split|].
  intros [Hc Hrest]. destruct (IH Hrest) as [Ha Hb].
  repeat split; [|exact Ha|exact Hb].
  intros Hopen. specialize (Hc Hopen). now apply Forall_app in Hc as [Hc _].
Qed.

Lemma replace_all_tag_free (n : nat) : forall s : jsstring,
  (length s <= n)%nat -> tag_free (replace_all re_tag s).
Proof.
  induction n as [|n IH]; intros s Hlen.
  - destruct s; [exact I|cbn in Hlen; lia].
  - destruct s as [|c s]; [exact I|]. cbn [length] in Hlen.
    unfold replace_all. cbn [replace_all_from].
    destruct (Z.eq_dec c 60) as [->|Hc].
    + destruct (first_gt s) as [Hs|(u & out & -> & Hu)].
      * rewrite tag_here_open by exact Hs. split.
        -- intros _. now apply (replace_all_Forall re_tag no_gt s).
        -- apply IH. lia.
      * rewrite tag_here_ok by exact Hu.
        replace (length (60%Z :: u ++ 62%Z :: out) - length out)%nat
          with (S (S (length u)))
          by (cbn [length]; rewrite length_app; cbn [length]; lia).
        rewrite replace_all_from_drop.
        replace (drop (S (length u)) (u ++ 62 :: out)) with out.
        -- apply IH. rewrite length_app in Hlen. cbn [length] in Hlen. lia.
        -- change (S (length u)) with (1 + length u)%nat.
           rewrite Nat.add_comm, <- drop_drop, drop_app_length. reflexivity.
    + rewrite tag_here_other by exact Hc. split; [congruence|].
      apply IH. lia.
Qed.

Lemma trimStart_suffix (s : jsstring) : exists a, s = a ++ trimStart s.
Proof.
  induction s as [|c s [a IH]]; [now exists []|].
  cbn [trimStart]. destruct (is_space c).
  - exists (c :: a). cbn. now rewrite <- IH.
  - now exists [].
Qed.

Lemma trimEnd_prefix (s : jsstring) : exists b, s = trimEnd s ++ b.
Proof.
  unfold trimEnd. destruct (trimStart_suffix (rev s)) as [a Ha].
  exists (rev a). rewrite <- rev_app_distr, <- Ha. now rewrite rev_involutive.
Qed.

Lemma trim_tag_free (s : jsstring) : tag_free s -> tag_free (trim s).
Proof.
  intros Hs. unfold trim.
  destruct (trimStart_suffix s) as [a Ha]. rewrite Ha in Hs.
  apply tag_free_app in Hs as [_ Hs].
  destruct (trimEnd_prefix (trimStart s)) as [b Hb]. rewrite Hb in Hs.
  now apply tag_free_app in Hs as [Hs _].
Qed.

Lemma tag_free_search (s : jsstring) : tag_free s -> search re_tag s = None.
Proof.
  induction s as [|c s IH]; [reflexivity|]. intros [Hc Hs].
  cbn [search]. rewrite (IH Hs).
  destruct (Z.eq_dec c 60) as [->|Hne].
  - now rewrite tag_here_open by auto.
  - now rewrite tag_here_other by exact Hne.
Qed.

(** What [parseContent] and [parseTitle] return holds no tag any more: the
    pattern the code strips with finds nothing in it. *)
Theorem stripped_text_has_no_tag (html : jsstring) :
  search re_tag (parseContent html) = None
  /\ search re_tag (parseTitle html) = None.
Proof.
  split; apply tag_free_search.
  - destruct html as [|c html]; [exact I|]. unfold parseContent.
    apply trim_tag_free. now apply (replace_all_tag_free (length (c :: html))).
  - destruct html as [|c html]; [exact I|]. unfold parseTitle.
    rewrite JSFacts.slice_0_minus_2.
    match goal with |- tag_free (take ?n ?x) =>
      assert (Hx : tag_free x); [|rewrite <- (take_drop n x) in Hx;
                                  now apply tag_free_app in Hx as [Hx _]]
    end.
    apply trim_tag_free.
    match goal with |- tag_free (replace_all re_tag ?x) =>
      now apply (replace_all_tag_free (length x))
    end.
Qed.

(** *** [hasAttempted] *)

Definition no_lt (c : Z) : Prop := c <> 60.

Lemma unit_matches_refl ic c : unit_matches ic c c = true.
Proof. unfold unit_matches. destruct ic; apply Z.eqb_refl. Qed.

Lemma match_lit_self ic (cs rest : jsstring) :
  match_lit ic cs (cs ++ rest) = Some rest.
Proof.
  induction cs as [|c cs IH]; [now destruct rest|].
  cbn [app match_lit]. now rewrite unit_matches_refl.
Qed.

Lemma lit_here_other ic cs r (c : Z) (s : jsstring) :
  c <> 60 -> match_here (Lit ic (60 :: cs) :: r) (c :: s) = None.
Proof.
  intros Hc. rewrite match_here_lit. cbn [match_lit].
  pose proof (HtmlFacts.unit_matches_lt ic c Hc) as Hunit.
  unfold HtmlFacts.lt in Hunit. now rewrite Hunit.
Qed.

(** A lazy [.*?] before a closing literal that opens with [<] takes the
    text up to that literal when the text holds no [<]. *)
Lemma lazy_until (cs t post : jsstring) :
  Forall no_lt t ->
  lazy_star any_unit (match_here [Lit true (60 :: cs)]) (t ++ (60 :: cs) ++ post)
  = Some (t, [60 :: cs], post).
Proof.
  induction 1 as [|c t Hc _ IH].
  - change ([] ++ (60 :: cs) ++ post) with (60 :: (cs ++ post)).
    cbn [lazy_star]. rewrite match_here_lit.
    change (60 :: (cs ++ post)) with ((60 :: cs) ++ post).
    rewrite match_lit_self, take_app_length. reflexivity.
  - cbn [app lazy_star]. cbn [app] in IH. rewrite lit_here_other by exact Hc.
    cbn [any_unit]. now rewrite IH.
Qed.

(** A greedy star stops at the first unit it cannot take when what follows
    matches there. *)
Lemma greedy_until p k (u : jsstring) c rest caps out :
  Forall (fun x => p x = true) u -> p c = false ->
  k (c :: rest) = Some (caps, out) ->
  greedy_star p k (u ++ c :: rest) = Some (u, caps, out).
Proof.
  intros Hu Hc Hk. induction Hu as [|x u Hx _ IH].
  - cbn [app greedy_star]. now rewrite Hc, Hk.
  - cbn [app greedy_star]. now rewrite Hx, IH.
Qed.

(** Before the title no tag opens with [t]: every [<] is followed by
    another unit than [t] or [T]. *)
Fixpoint no_t_tag (s : jsstring) : bool :=
  match s with
  | [] => true
  | c :: r =>
    (negb (c =? 60)
     || match r with
        | d :: _ => negb (lower_unit d =? 116)
        | [] => false
        end)
    && no_t_tag r
  end.

Lemma title_here (attrs t post : jsstring) :
  Forall no_gt attrs -> Forall no_lt t ->
  match_here re_title
    (lit "<title" ++ attrs ++ lit ">" ++ t ++ lit "</title>" ++ post)
  = Some ([lit "<title"; attrs; lit ">"; t; lit "</title>"], post).
Proof.
  intros Hattrs Ht. unfold re_title.
  rewrite match_here_lit, match_lit_self, take_app_length.
  rewrite match_here_star.
  change (lit ">") with [62]. cbn [app].
  rewrite (greedy_until _ _ attrs 62 (t ++ lit "</title>" ++ post)
             [[62]; t; lit "</title>"] post).
  - reflexivity.
  - eapply Forall_impl; [exact Hattrs|]. intros x Hx. unfold not_unit, gt.
    apply Z.eqb_neq in Hx. now rewrite Hx.
  - reflexivity.
  - rewrite match_here_lit. cbn [match_lit]. rewrite unit_matches_refl.
    rewrite match_here_lazy.
    change (lit "</title>") with (60 :: lit "/title>").
    rewrite (lazy_until (lit "/title>") t post Ht). reflexivity.
Qed.

Lemma title_not_here (b rest : jsstring) :
  b <> [] -> no_t_tag b = true ->
  match_here re_title (b ++ lit "<title" ++ rest) = None.
Proof.
  intros Hb Hclean. destruct b as [|c b]; [congruence|].
  cbn [no_t_tag] in Hclean. apply andb_true_iff in Hclean as [Hc _].
  destruct (Z.eq_dec c 60) as [->|Hne].
  - cbn [Z.eqb negb orb] in Hc. change (60 =? 60) with true in Hc. cbn in Hc.
    unfold re_title. rewrite match_here_lit.
    destruct b as [|d b].
    + cbn [app]. reflexivity.
    + cbn [app]. change (lit "<title") with (60 :: 116 :: lit "itle").
      cbn [match_lit]. rewrite unit_matches_refl.
      unfold unit_matches at 1. change (lower_unit 116) with 116.
      apply negb_true_iff, Z.eqb_neq in Hc.
      replace (116 =? lower_unit d) with false; [reflexivity|].
      symmetry. apply Z.eqb_neq. congruence.
  - unfold re_title. change (lit "<title") with (60 :: lit "title").
    cbn [app]. now apply lit_here_other.
Qed.

Lemma no_t_tag_suffix (a b : jsstring) : no_t_tag (a ++ b) = true -> no_t_tag b = true.
Proof.
  induction a as [|c a IH]; [trivial|]. cbn [app no_t_tag].
  intros H. apply andb_true_iff in H as [_ H]. auto.
Qed.

(** [hasAttempted] looks at the first [<title>] of the page only, and there
    at the first unit of the trimmed title: whether it is the mark of a
    page that reviews a submission. *)
Theorem hasAttempted_reads_title (pre attrs t post : jsstring) :
  no_t_tag pre = true -> Forall no_gt attrs -> Forall no_lt t ->
  hasAttempted (pre ++ lit "<title" ++ attrs ++ lit ">" ++ t ++ lit "</title>" ++ post)
  = match trim t with
    | c :: _ => c =? marker
    | [] => false
    end.
Proof.
  intros Hpre Hattrs Ht. unfold hasAttempted, group.
  rewrite search_skip.
  - rewrite (search_here _ _ _ _ (title_here attrs t post Hattrs Ht)).
    cbn [lookup list_lookup]. destruct t as [|c t]; [reflexivity|].
    unfold re_tag. change (lit "<") with [HtmlFacts.lt].
    now rewrite HtmlFacts.replace_all_no_lt.
  - intros a b Hab Hb. apply title_not_here; [exact Hb|].
    subst pre. now apply no_t_tag_suffix in Hpre.
Qed.

Lemma hasAttempted_reads_title_witness :
  hasAttempted
    (lit "<!DOCTYPE html><html><head><meta charset='utf-8'>"
     ++ lit "<title" ++ [] ++ lit ">" ++ ([22797; 26597] ++ lit ": hw1")
     ++ lit "</title>" ++ lit "</head><body><table></table></body></html>")
  = true
  /\ hasAttempted
       (lit "<html><head>"
        ++ lit "<title" ++ lit " id='t'" ++ lit ">" ++ lit " Upload: hw1"
        ++ lit "</title>" ++ lit "</head></html>")
     = false.
Proof.
  split.
  - rewrite hasAttempted_reads_title; [reflexivity|reflexivity|apply List.Forall_nil|].
    repeat (apply List.Forall_cons; [discriminate|]). apply List.Forall_nil.
  - rewrite hasAttempted_reads_title; [reflexivity|reflexivity| |].
    + repeat (apply List.Forall_cons; [discriminate|]). apply List.Forall_nil.
    + repeat (apply List.Forall_cons; [discriminate|]). apply List.Forall_nil.
Defined.

End HtmlMore.

(** ** More on the vault *)

Module VaultMore.
Import JS Vault VaultFacts.

Lemma hex_encode_length (bs : list Z) : length (hex_encode bs) = (2 * length bs)%nat.
Proof.
  unfold hex_encode. induction bs as [|b bs IH]; [reflexivity|].
  cbn [flat_map app length]. rewrite IH. lia.
Qed.

Lemma key_buffer_cut (k extra : jsstring) :
  (32 <= length k)%nat -> key_buffer (k ++ extra) = key_buffer k.
Proof.
  intros Hk. rewrite !key_buffer_units. unfold key_units, padEnd.
  rewrite length_app.
  replace (32 - (length k + length extra))%nat with 0%nat by lia.
  replace (32 - length k)%nat with 0%nat by lia.
  cbn [replicate]. rewrite !app_nil_r. now rewrite take_app_le by exact Hk.
Qed.

Lemma key_buffer_filled (k : jsstring) (n : nat) :
  (length k + n <= 32)%nat -> key_buffer (k ++ replicate n 48) = key_buffer k.
Proof.
  intros Hk. rewrite !key_buffer_units. unfold key_units, padEnd.
  rewrite length_app, length_replicate, <- app_assoc, <- replicate_add.
  now replace (n + (32 - (length k + n)))%nat with (32 - length k)%nat by lia.
Qed.

Section WithCipher.
Context {C : BlockCipher}.

Lemma same_buffer_same_vault (k1 k2 : jsstring) :
  key_buffer k1 = key_buffer k2 ->
  (forall iv text, encrypt k1 iv text = encrypt k2 iv text)
  /\ (forall stored, decrypt k1 stored = decrypt k2 stored).
Proof.
  intros Hbuf. split.
  - intros iv text. unfold encrypt. now rewrite Hbuf.
  - intros stored. unfold decrypt, decrypt_try. now rewrite Hbuf.
Qed.

(** Of the key only the first 32 code units count, and a shorter key is
    the same key as the one filled up with [0]: what one encrypts the other
    decrypts, and both give the same value for the same 16 random bytes. *)
Theorem key_is_cut_and_filled (k : jsstring) :
  (forall extra iv text stored,
     (32 <= length k)%nat ->
     encrypt (k ++ extra) iv text = encrypt k iv text
     /\ decrypt (k ++ extra) stored = decrypt k stored)
  /\ (forall n iv text stored,
     (length k + n <= 32)%nat ->
     encrypt (k ++ replicate n 48) iv text = encrypt k iv text
     /\ decrypt (k ++ replicate n 48) stored = decrypt k stored).
Proof.
  split.
  - intros extra iv text stored Hk.
    destruct (same_buffer_same_vault _ _ (key_buffer_cut k extra Hk)) as [He Hd].
    split; [apply He|apply Hd].
  - intros n iv text stored Hk.
    destruct (same_buffer_same_vault _ _ (key_buffer_filled k n Hk)) as [He Hd].
    split; [apply He|apply Hd].
Qed.

Lemma cbc_encrypt_length k : forall ps prev,
  length (cbc_encrypt k prev ps) = length ps.
Proof. induction ps as [|p ps IH]; intros prev; cbn; [reflexivity|now rewrite IH]. Qed.

Lemma pkcs7_pad_exact (bs : list Z) :
  length (pkcs7_pad bs) = (16 * (length bs / 16 + 1))%nat.
Proof.
  unfold pkcs7_pad. rewrite length_app, length_replicate.
  pose proof (Nat.div_mod_eq (length bs) 16).
  pose proof (Nat.mod_upper_bound (length bs) 16). lia.
Qed.

Lemma blocks_count (bs : list Z) (m : nat) :
  length bs = (16 * m)%nat -> Forall byte bs -> length (blocks bs) = m.
Proof.
  intros Hm Hbytes.
  pose proof (blocks_lengths _ (blocks_are_blocks bs m Hm Hbytes)) as H16.
  apply length_concat_blocks in H16. rewrite concat_blocks in H16. lia.
Qed.

(** The stored value: the 32 hex digits of the 16 random bytes, a colon,
    and two hex digits for each byte of whole 16-byte blocks, one block
    more than the UTF-8 bytes of the secret fill. *)
Theorem encrypt_value_shape (encryptionKey : jsstring) (iv : list Z)
  (text : jsstring) :
  Forall (fun c => is_ascii c = true) encryptionKey ->
  is_block iv -> well_formed text ->
  exists ct,
    encrypt encryptionKey iv text = Ok (hex_encode iv ++ [58] ++ hex_encode ct)
    /\ length ct = (16 * (length (utf8_encode text) / 16 + 1))%nat
    /\ length (hex_encode iv ++ [58] ++ hex_encode ct)
       = (65 + 32 * (length (utf8_encode text) / 16))%nat
    /\ hex_decode (take 32 (hex_encode iv ++ [58] ++ hex_encode ct)) = iv.
Proof.
  intros Hkey [Hivl Hivb] Hwf.
  destruct (key_buffer_ascii encryptionKey Hkey) as (_ & Hlen & Hbytes).
  exists (ciphertext (key_buffer encryptionKey) iv text).
  assert (Hct : length (ciphertext (key_buffer encryptionKey) iv text)
                = (16 * (length (utf8_encode text) / 16 + 1))%nat).
  { unfold ciphertext.
    destruct (ciphertext_blocks (key_buffer encryptionKey) iv text Hlen Hbytes
                (conj Hivl Hivb) Hwf) as [Hblocks _].
    rewrite (length_concat_blocks _ (blocks_lengths _ Hblocks)).
    rewrite cbc_encrypt_length.
    rewrite (blocks_count _ (length (utf8_encode text) / 16 + 1));
      [reflexivity|apply pkcs7_pad_exact|].
    apply pkcs7_pad_bytes, utf8_encode_bytes, Hwf. }
  split; [now apply encrypt_run|]. split; [exact Hct|]. split.
  - rewrite !length_app, !hex_encode_length, Hct, Hivl. cbn [length]. lia.
  - rewrite take_app_length' by (rewrite hex_encode_length; lia).
    now apply hex_decode_encode.
Qed.

(** Two values made with different random bytes differ, whatever the
    secrets and the keys. *)
Theorem fresh_iv_fresh_value (k1 k2 : jsstring) (iv1 iv2 : list Z)
  (text1 text2 : jsstring) :
  Forall (fun c => is_ascii c = true) k1 ->
  Forall (fun c => is_ascii c = true) k2 ->
  is_block iv1 -> is_block iv2 -> iv1 <> iv2 ->
  encrypt k1 iv1 text1 <> encrypt k2 iv2 text2.
Proof.
  intros Hk1 Hk2 [Hl1 Hb1] [Hl2 Hb2] Hne Heq.
  destruct (key_buffer_ascii k1 Hk1) as (_ & Hlen1 & _).
  destruct (key_buffer_ascii k2 Hk2) as (_ & Hlen2 & _).
  rewrite (encrypt_run k1 iv1 text1 Hlen1 Hl1) in Heq.
  rewrite (encrypt_run k2 iv2 text2 Hlen2 Hl2) in Heq.
  injection Heq as Heq. apply Hne.
  apply (f_equal (take 32)) in Heq.
  rewrite !take_app_length' in Heq by (rewrite hex_encode_length; lia).
  apply (f_equal hex_decode) in Heq.
  now rewrite !hex_decode_encode in Heq by assumption.
Qed.

(** [decrypt] reads the first two parts of the stored value only: what
    follows a second colon is never looked at. *)
Theorem decrypt_reads_two_parts (encryptionKey ivhex cthex junk : jsstring) :
  Forall (fun c => c <> 58) ivhex -> Forall (fun c => c <> 58) cthex ->
  decrypt encryptionKey (ivhex ++ 58 :: cthex ++ 58 :: junk)
  = decrypt encryptionKey (ivhex ++ 58 :: cthex).
Proof.
  intros Hiv Hct. unfold decrypt.
  destruct (ivhex ++ 58 :: cthex ++ 58 :: junk) as [|x l] eqn:E1;
    [destruct ivhex; discriminate|].
  destruct (ivhex ++ 58 :: cthex) as [|y m] eqn:E2;
    [destruct ivhex; discriminate|].
  rewrite <- E1, <- E2. unfold decrypt_try.
  rewrite !split_at_first by assumption. rewrite (split_without 58 cthex Hct).
  reflexivity.
Qed.

End WithCipher.

(** *** Runs under AES-256 *)

Import VaultRuns.

Lemma key_is_cut_and_filled_witness :
  encrypt (lit "0123456789abcdef0123456789abcdef" ++ lit "-and-more") counting_iv (lit "pw")
  = encrypt (lit "0123456789abcdef0123456789abcdef") counting_iv (lit "pw")
  /\ decrypt (lit "a" ++ replicate 31 48)
       (lit "000102030405060708090a0b0c0d0e0f:2e3d44183236f0256270e143a2f167a7")
     = decrypt (lit "a")
         (lit "000102030405060708090a0b0c0d0e0f:2e3d44183236f0256270e143a2f167a7").
Proof.
  split.
  - destruct (key_is_cut_and_filled (lit "0123456789abcdef0123456789abcdef"))
      as [Hcut _].
    apply (Hcut (lit "-and-more") counting_iv (lit "pw") []). vm_compute. lia.
  - destruct (key_is_cut_and_filled (lit "a")) as [_ Hfill].
    apply (Hfill 31%nat counting_iv []). vm_compute. lia.
Defined.

Lemma encrypt_value_shape_witness :
  exists ct,
    encrypt short_key counting_iv paired_secret
    = Ok (hex_encode counting_iv ++ [58] ++ hex_encode ct)
    /\ length ct = 16%nat
    /\ length (hex_encode counting_iv ++ [58] ++ hex_encode ct) = 65%nat.
Proof.
  destruct (encrypt_value_shape short_key counting_iv paired_secret)
    as (ct & Hrun & Hct & Hlen & _); [ascii_key|block|paired|].
  exists ct. split; [exact Hrun|]. split; [exact Hct|exact Hlen].
Defined.

Lemma fresh_iv_fresh_value_witness :
  encrypt (lit "a") counting_iv (lit "pw")
  <> encrypt (lit "a") (replicate 16 0) (lit "pw").
Proof.
  apply fresh_iv_fresh_value; [ascii_key|ascii_key|block|block|discriminate].
Defined.

Lemma decrypt_reads_two_parts_witness :
  decrypt (lit "a")
    (lit "000102030405060708090a0b0c0d0e0f" ++ 58
     :: lit "2e3d44183236f0256270e143a2f167a7" ++ 58 :: lit "anything")
  = decrypt (lit "a")
      (lit "000102030405060708090a0b0c0d0e0f" ++ 58
       :: lit "2e3d44183236f0256270e143a2f167a7").
Proof. apply decrypt_reads_two_parts; no_colon. Defined.

End VaultMore.

(** ** More on the client *)

Module ClientMore.
Import JS Run Client RunFacts ClientFacts.
Local Open Scope run_scope.

(** *** One [Set-Cookie] header *)

(** A unit that is neither [;] nor [=]. *)
Definition cookie_unit (c : Z) : Prop := c <> 59 /\ c <> 61.

Lemma plain_no_semicolon (s : jsstring) : Forall cookie_unit s -> Forall (fun c => c <> 59) s.
Proof. intros H. eapply Forall_impl; [exact H|]. now intros c [Hc _]. Qed.

Lemma plain_no_equals (s : jsstring) : Forall cookie_unit s -> Forall (fun c => c <> 61) s.
Proof. intros H. eapply Forall_impl; [exact H|]. now intros c [_ Hc]. Qed.

Lemma first_part (sep : Z) (a : jsstring) :
  Forall (fun c => c <> sep) a ->
  (forall rest, split sep (a ++ sep :: rest) !! 0%nat = Some a)
  /\ split sep a !! 0%nat = Some a.
Proof.
  intros Ha. split.
  - intros rest. now rewrite VaultFacts.split_at_first.
  - now rewrite VaultFacts.split_without.
Qed.

(** What [extractCookie] does once the text before the first [;] is known. *)
Lemma extractCookie_nameValue cookie nameValue jar :
  split 59 cookie !! 0%nat = Some nameValue ->
  extractCookie cookie jar
  = if truthy (split 61 nameValue !! 0%nat) && truthy (split 61 nameValue !! 1%nat)
    then map_set (trim (default [] (split 61 nameValue !! 0%nat)))
                 (trim (default [] (split 61 nameValue !! 1%nat))) jar
    else jar.
Proof. intros H. unfold extractCookie. unfold jsstring in *. now rewrite H. Qed.

Lemma truthy_some (s : jsstring) : s <> [] -> truthy (Some s) = true.
Proof. now destruct s. Qed.

(** [extractCookie] keeps the pair before the first [;] when it has a
    non-empty name, an [=] and a non-empty value, trimmed; of a value that
    holds an [=] it keeps the part before that [=]; every other header
    leaves the jar as it is. *)
Theorem extractCookie_reads_first_pair (name value : jsstring)
  (jar : list (jsstring * jsstring)) :
  name <> [] -> value <> [] -> Forall cookie_unit name -> Forall cookie_unit value ->
  extractCookie (name ++ [61] ++ value) jar = map_set (trim name) (trim value) jar
  /\ (forall attrs,
        extractCookie (name ++ [61] ++ value ++ 59 :: attrs) jar
        = map_set (trim name) (trim value) jar)
  /\ (forall more attrs,
        Forall (fun c => c <> 59) more ->
        extractCookie (name ++ [61] ++ value ++ 61 :: more ++ 59 :: attrs) jar
        = map_set (trim name) (trim value) jar)
  /\ (forall attrs, extractCookie (name ++ 59 :: attrs) jar = jar)
  /\ (forall attrs, extractCookie (name ++ [61] ++ 59 :: attrs) jar = jar)
  /\ (forall attrs, extractCookie ([61] ++ value ++ 59 :: attrs) jar = jar).
Proof.
  intros Hname Hvalue Hn Hv.
  pose proof (plain_no_semicolon _ Hn) as Hn59.
  pose proof (plain_no_semicolon _ Hv) as Hv59.
  pose proof (plain_no_equals _ Hn) as Hn61.
  pose proof (plain_no_equals _ Hv) as Hv61.
  assert (Hpair : Forall (fun c => c <> 59) (name ++ [61] ++ value)).
  { apply Forall_app. split; [exact Hn59|].
    apply List.Forall_cons; [discriminate|exact Hv59]. }
  assert (Hsplit : split 61 (name ++ [61] ++ value) = [name; value]).
  { cbn [app]. rewrite VaultFacts.split_at_first by exact Hn61.
    now rewrite VaultFacts.split_without by exact Hv61. }
  assert (Hkept : forall cookie,
             split 59 cookie !! 0%nat = Some (name ++ [61] ++ value) ->
             extractCookie cookie jar = map_set (trim name) (trim value) jar).
  { intros cookie H. rewrite (extractCookie_nameValue _ _ _ H), Hsplit.
    cbn [lookup list_lookup default from_option id].
    now rewrite !truthy_some by assumption. }
  split; [apply Hkept, first_part, Hpair|].
  split.
  { intros attrs. apply Hkept.
    replace (name ++ [61] ++ value ++ 59 :: attrs)
      with ((name ++ [61] ++ value) ++ 59 :: attrs)
      by (now rewrite <- !app_assoc).
    now apply first_part. }
  split.
  { intros more attrs Hmore.
    assert (Hlong : Forall (fun c => c <> 59) (name ++ [61] ++ value ++ 61 :: more)).
    { rewrite !app_assoc. apply Forall_app. split; [|apply List.Forall_cons; [discriminate|exact Hmore]].
      rewrite <- app_assoc. exact Hpair. }
    replace (name ++ [61] ++ value ++ 61 :: more ++ 59 :: attrs)
      with ((name ++ [61] ++ value ++ 61 :: more) ++ 59 :: attrs)
      by (rewrite <- !app_assoc; reflexivity).
    rewrite (extractCookie_nameValue _ (name ++ [61] ++ value ++ 61 :: more))
      by now apply first_part.
    cbn [app]. rewrite VaultFacts.split_at_first by exact Hn61.
    rewrite VaultFacts.split_at_first by exact Hv61.
    cbn [lookup list_lookup default from_option id].
    now rewrite !truthy_some by assumption. }
  split.
  { intros attrs. rewrite (extractCookie_nameValue _ name) by now apply first_part.
    rewrite VaultFacts.split_without by exact Hn61.
    cbn [lookup list_lookup truthy]. now rewrite andb_false_r. }
  split.
  { intros attrs.
    replace (name ++ [61] ++ 59 :: attrs) with ((name ++ [61]) ++ 59 :: attrs)
      by (now rewrite <- app_assoc).
    rewrite (extractCookie_nameValue _ (name ++ [61])).
    - rewrite VaultFacts.split_at_first by exact Hn61.
      cbn [split lookup list_lookup truthy]. now rewrite andb_false_r.
    - apply first_part. apply Forall_app. split; [exact Hn59|].
      apply List.Forall_cons; [discriminate|apply List.Forall_nil]. }
  intros attrs.
  replace ([61] ++ value ++ 59 :: attrs) with (([61] ++ value) ++ 59 :: attrs)
    by (now rewrite <- app_assoc).
  rewrite (extractCookie_nameValue _ ([61] ++ value)).
  - cbn [app split]. change (61 =? 61) with true. cbv iota.
    cbn [lookup list_lookup truthy]. reflexivity.
  - apply first_part. apply List.Forall_cons; [discriminate|exact Hv59].
Qed.

Lemma extractCookie_reads_first_pair_witness :
  extractCookie (lit "s_session_id=ABC; Path=/; HttpOnly") []
  = [(lit "s_session_id", lit "ABC")]
  /\ extractCookie (lit "token=YWJj=; Path=/") [(lit "token", lit "old")]
     = [(lit "token", lit "YWJj")]
  /\ extractCookie (lit "HttpOnly; Secure") [(lit "token", lit "old")]
     = [(lit "token", lit "old")].
Proof.
  assert (Hplain : forall s : jsstring,
             forallb (fun c => negb (c =? 59) && negb (c =? 61)) s = true ->
             Forall cookie_unit s).
  { intros s H. apply List.Forall_forall. intros c Hc.
    rewrite forallb_forall in H. specialize (H c Hc).
    apply andb_true_iff in H as [H1 H2].
    apply negb_true_iff, Z.eqb_neq in H1. apply negb_true_iff, Z.eqb_neq in H2.
    split; assumption. }
  split; [|split].
  - destruct (extractCookie_reads_first_pair (lit "s_session_id") (lit "ABC") [])
      as (_ & H & _); try discriminate; try (apply Hplain; reflexivity).
    exact (H (lit " Path=/; HttpOnly")).
  - destruct (extractCookie_reads_first_pair (lit "token") (lit "YWJj")
                [(lit "token", lit "old")])
      as (_ & _ & H & _); try discriminate; try (apply Hplain; reflexivity).
    apply (H [] (lit " Path=/")). apply List.Forall_nil.
  - destruct (extractCookie_reads_first_pair (lit "HttpOnly") (lit "x")
                [(lit "token", lit "old")])
      as (_ & _ & _ & H & _); try discriminate; try (apply Hplain; reflexivity).
    exact (H (lit " Secure")).
Defined.

(** *** The runs of the client *)

(** The [Cookie] header made of a jar. *)
Definition cookie_header (jar : list (jsstring * jsstring)) : jsstring :=
  join (lit "; ") (List.map (fun '(name, value) => name ++ lit "=" ++ value) jar).

(** The jar after the [Set-Cookie] headers of a response. *)
Definition jar_after {D} (response : Http.response D)
  (jar : list (jsstring * jsstring)) : list (jsstring * jsstring) :=
  fold_left (fun j c => extractCookie c j) (default [] (Http.set_cookie response)) jar.

Lemma extractCookies_run {D} (response : Http.response D) w :
  extractCookies response w = (Ok tt, set_cookies (jar_after response) w)
  \/ (Http.set_cookie response = None /\ extractCookies response w = (Ok tt, w)).
Proof.
  unfold extractCookies, jar_after.
  destruct (Http.set_cookie response); [now left|now right].
Qed.

Lemma extractCookies_world {D} (response : Http.response D) w :
  fst (extractCookies response w) = Ok tt
  /\ cookies (snd (extractCookies response w)) = jar_after response (cookies w)
  /\ requests (snd (extractCookies response w)) = requests w
  /\ log (snd (extractCookies response w)) = log w
  /\ ticks (snd (extractCookies response w)) = ticks w
  /\ sent (snd (extractCookies response w)) = sent w.
Proof.
  unfold extractCookies, jar_after.
  destruct (Http.set_cookie response); repeat split.
Qed.

(** [login] returns [true] exactly when the provider accepts and the
    platform answers; then it has made the two requests, the second with
    the token of the first answer, and has taken the cookies of the second
    answer only. *)
Theorem login_succeeds_exactly (env : Env) (username password : jsstring)
  (w : World) :
  (fst (login env username password w) = Ok true <->
   exists r1 r2,
     oauthlogin env username password = Ok r1
     /\ Http.success (Http.data r1) = true
     /\ campusLogin env (Http.token (Http.data r1)) = Ok r2)
  /\ (forall r1 r2,
       oauthlogin env username password = Ok r1 ->
       Http.success (Http.data r1) = true ->
       campusLogin env (Http.token (Http.data r1)) = Ok r2 ->
       let w' := snd (login env username password w) in
       requests w'
       = requests w ++ [OauthLogin username password;
                        CampusLogin (Http.token (Http.data r1))]
       /\ cookies w' = jar_after r2 (cookies w)
       /\ log w' = log w).
Proof.
  unfold login, http. rewrite try_catch_run, !bind_run. cbn [modify lift].
  destruct (oauthlogin env username password) as [r1|e1] eqn:E1.
  2:{ split; [split|]; [|intros (r1 & r2 & H & _); discriminate|intros; discriminate].
      rewrite bind_run.
      destruct (log_failure LogLoginFailed e1 _) as [[[]|e] w1]; discriminate. }
  cbn [fst snd]. rewrite !bind_run.
  destruct (Http.success (Http.data r1)) eqn:Es; cbn [negb ret throw].
  2:{ split; [split|]; [|intros (r & r2 & H & Hs & _); congruence|intros; congruence].
      rewrite bind_run.
      destruct (log_failure LogLoginFailed LoginRejected _) as [[[]|e] w1]; discriminate. }
  rewrite !bind_run. cbn [modify lift].
  destruct (campusLogin env (Http.token (Http.data r1))) as [r2|e2] eqn:E2.
  2:{ split; [split|]; [|intros (r & r2 & H & _ & H2); congruence|intros; congruence].
      rewrite bind_run.
      destruct (log_failure LogLoginFailed e2 _) as [[[]|e] w1]; discriminate. }
  rewrite !bind_run.
  destruct (extractCookies_world r2
              (set_requests
                 (fun rs => rs ++ [CampusLogin (Http.token (Http.data r1))])
                 (set_requests (fun rs => rs ++ [OauthLogin username password]) w)))
    as (Hok & Hjar & Hreq & Hlog & _).
  destruct (extractCookies r2 _) as [[[]|e] w1]; [|discriminate].
  cbn [ret fst snd] in *. split.
  - split; [intros _; now exists r1, r2|reflexivity].
  - intros r1' r2' H1 _ H2. injection H1 as <-. assert (r2' = r2) by congruence.
    subst r2'. cbv zeta. rewrite Hreq, Hjar, Hlog. cbn [requests set_requests].
    rewrite <- app_assoc. repeat split.
Qed.

Lemma generateCookieString_run w :
  generateCookieString w = (Ok (cookie_header (cookies w)), w).
Proof. reflexivity. Qed.

Lemma log_failure_world line e w :
  fst (log_failure line e w) = Ok tt
  /\ cookies (snd (log_failure line e w)) = cookies w
  /\ requests (snd (log_failure line e w)) = requests w
  /\ ticks (snd (log_failure line e w)) = ticks w
  /\ sent (snd (log_failure line e w)) = sent w.
Proof.
  unfold log_failure. rewrite bind_run. cbn [write_log modify].
  by_error e; repeat split.
Qed.

(** The rethrowing [catch] of the client: the error is logged and thrown
    again in the wrapper the method gives it. *)
Lemma rethrown line (wrap : error -> error) {A} e w :
  fst (bind (log_failure line e) (fun _ => @throw A (wrap e)) w) = Throw (wrap e)
  /\ cookies (snd (bind (log_failure line e) (fun _ => @throw A (wrap e)) w)) = cookies w
  /\ requests (snd (bind (log_failure line e) (fun _ => @throw A (wrap e)) w))
     = requests w
  /\ ticks (snd (bind (log_failure line e) (fun _ => @throw A (wrap e)) w)) = ticks w.
Proof.
  rewrite bind_run. destruct (log_failure_world line e w) as (Hok & Hc & Hr & Ht & _).
  destruct (log_failure line e w) as [[[]|e'] w1]; [|discriminate].
  cbn [throw fst snd] in *. repeat split; assumption.
Qed.

(** [getNoticeData] asks for the stream page first and for the stream
    second, and the second request carries the cookies the first answer
    set.  When the first request fails the second is not made. *)
Theorem getNoticeData_carries_cookies (env : Env) (w : World) :
  let cookie0 := cookie_header (cookies w) in
  (forall e,
     streamViewerView env cookie0 = Throw e ->
     fst (getNoticeData env w) = Throw (NoticeFetchFailed e)
     /\ requests (snd (getNoticeData env w)) = requests w ++ [StreamViewerView cookie0]
     /\ cookies (snd (getNoticeData env w)) = cookies w)
  /\ (forall r1,
       streamViewerView env cookie0 = Ok r1 ->
       let jar1 := jar_after r1 (cookies w) in
       let cookie1 := cookie_header jar1 in
       requests (snd (getNoticeData env w))
       = requests w ++ [StreamViewerView cookie0; StreamViewerLoad cookie1]
       /\ (forall e,
            streamViewerLoad env cookie1 = Throw e ->
            fst (getNoticeData env w) = Throw (NoticeFetchFailed e)
            /\ cookies (snd (getNoticeData env w)) = jar1)
       /\ (forall r2,
            streamViewerLoad env cookie1 = Ok r2 ->
            fst (getNoticeData env w) = Ok (Http.data r2)
            /\ cookies (snd (getNoticeData env w)) = jar_after r2 jar1)).
Proof.
  cbv zeta. unfold getNoticeData, delay, http.
  rewrite try_catch_run, bind_run, generateCookieString_run, !bind_run.
  cbn [modify lift].
  destruct (streamViewerView env (cookie_header (cookies w))) as [r1|e1].
  2:{ split; [|intros; discriminate]. intros e He. injection He as <-.
      destruct (rethrown LogNoticeDataFailed NoticeFetchFailed (A := NoticeData.t) e1
                  (set_requests
                     (fun rs => rs ++ [StreamViewerView (cookie_header (cookies w))]) w))
        as (Hf & Hc & Hr & _).
      repeat split; assumption. }
  split; [intros; discriminate|]. intros r Hr. injection Hr as <-.
  rewrite !bind_run.
  destruct (extractCookies_world r1
              (set_requests
                 (fun rs => rs ++ [StreamViewerView (cookie_header (cookies w))]) w))
    as (Hok & Hjar & Hreq & _).
  destruct (extractCookies r1 _) as [[[]|e] w1]; [|discriminate].
  cbn [fst snd ret] in *. rewrite bind_run. cbn [ret].
  rewrite bind_run, generateCookieString_run, !bind_run.
  cbn [modify lift]. rewrite Hjar. cbn [cookies set_requests] .
  destruct (streamViewerLoad env (cookie_header (jar_after r1 (cookies w))))
    as [r2|e2].
  2:{ destruct (rethrown LogNoticeDataFailed NoticeFetchFailed (A := NoticeData.t) e2
                  (set_requests
                     (fun rs => rs ++ [StreamViewerLoad
                                         (cookie_header (jar_after r1 (cookies w)))]) w1))
        as (Hf & Hc & Hr & _).
      split; [|split; [|intros; discriminate]].
      - rewrite Hr. cbn [requests set_requests]. rewrite Hreq.
        cbn [requests set_requests]. now rewrite <- app_assoc.
      - intros e He. injection He as <-. split; [exact Hf|].
        rewrite Hc. exact Hjar. }
  rewrite !bind_run.
  destruct (extractCookies_world r2
              (set_requests
                 (fun rs => rs ++ [StreamViewerLoad
                                     (cookie_header (jar_after r1 (cookies w)))]) w1))
    as (Hok2 & Hjar2 & Hreq2 & _).
  destruct (extractCookies r2 _) as [[[]|e] w2]; [|discriminate].
  cbn [fst snd ret] in *.
  split; [|split; [intros; discriminate|]].
  - rewrite Hreq2. cbn [requests set_requests]. rewrite Hreq.
    cbn [requests set_requests]. now rewrite <- app_assoc.
  - intros r Hr. injection Hr as <-. split; [reflexivity|].
    rewrite Hjar2. cbn [cookies set_requests]. now rewrite Hjar.
Qed.

Lemma filter_of_world (env : Env) advanceHours (l : list CalendarEntry.t) :
  forall w, exists out w',
    filter_of l (fun entry =>
                   testWithinHours env (CalendarEntry.endDate entry) advanceHours) w
    = (Ok out, w')
    /\ sublist out l
    /\ ticks w' = (ticks w + length l)%nat
    /\ requests w' = requests w
    /\ cookies w' = cookies w.
Proof.
  induction l as [|x l IH]; intros w.
  - exists [], w. cbn [filter_of ret length]. repeat split; [constructor|lia].
  - cbn [filter_of]. rewrite bind_run, testWithinHours_at.
    destruct (IH (set_ticks S w)) as (out & w' & Hrun & Hsub & Ht & Hr & Hc).
    rewrite bind_run, Hrun. cbn [ret].
    eexists _, w'. split; [reflexivity|].
    split; [|cbn [length ticks set_ticks] in *; repeat split; [lia|exact Hr|exact Hc]].
    destruct (match convertToTimestamp env (CalendarEntry.endDate x) with
              | Some target => _
              | None => false
              end); [now apply sublist_skip|now apply sublist_cons].
Qed.

(** [getCalendarData] asks once, for the window from three hours before
    the first clock reading to [advanceHours] after it; what it returns is
    part of what the platform sent, in the same order, after one more clock
    reading for each entry sent. *)
Theorem getCalendarData_asks_once (env : Env) (advanceHours : Z) (w : World) :
  let now := clock env (ticks w) in
  let start := now - 3 * hour in
  let stop := now + advanceHours * hour in
  let cookie := cookie_header (cookies w) in
  requests (snd (getCalendarData env advanceHours w))
  = requests w ++ [SelectedCalendarEvents start stop cookie]
  /\ stop - start = (advanceHours + 3) * hour
  /\ (forall e,
       selectedCalendarEvents env start stop cookie = Throw e ->
       fst (getCalendarData env advanceHours w) = Throw (CalendarFetchFailed e))
  /\ (forall response,
       selectedCalendarEvents env start stop cookie = Ok response ->
       exists out,
         fst (getCalendarData env advanceHours w) = Ok out
         /\ sublist out (Http.data response)
         /\ ticks (snd (getCalendarData env advanceHours w))
            = (ticks w + 1 + length (Http.data response))%nat).
Proof.
  cbv zeta. unfold getCalendarData, http, Date_now, hour.
  rewrite try_catch_run, !bind_run. cbn [fst snd].
  rewrite generateCookieString_run. cbn [cookies set_ticks].
  rewrite !bind_run. cbn [modify lift].
  split; [|split; [lia|]].
  - destruct (selectedCalendarEvents env _ _ _) as [response|e].
    + rewrite !bind_run.
      match goal with |- context [extractCookies response ?W] =>
        destruct (extractCookies_world response W) as (Hok & _ & Hreq & _ & Hticks & _);
        destruct (extractCookies response W) as [[[]|e] w1]; [|discriminate]
      end.
      cbn [fst snd] in *. rewrite !bind_run.
      destruct (filter_of_world env advanceHours (Http.data response) w1)
        as (out & w' & Hrun & _ & _ & Hr & _).
      rewrite Hrun. cbn [ret snd]. now rewrite Hr, Hreq.
    + match goal with |- context [bind (log_failure ?l e) ?k ?W] =>
        destruct (rethrown l CalendarFetchFailed (A := list CalendarEntry.t) e W)
          as (_ & _ & Hr & _)
      end.
      rewrite Hr. reflexivity.
  - split.
    + intros e He. rewrite He.
      match goal with |- context [bind (log_failure ?l e) ?k ?W] =>
        destruct (rethrown l CalendarFetchFailed (A := list CalendarEntry.t) e W)
          as (Hf & _)
      end.
      exact Hf.
    + intros response Hresponse. rewrite Hresponse, !bind_run.
      match goal with |- context [extractCookies response ?W] =>
        destruct (extractCookies_world response W) as (Hok & _ & Hreq & _ & Hticks & _);
        destruct (extractCookies response W) as [[[]|e] w1]; [|discriminate]
      end.
      cbn [fst snd] in *. rewrite !bind_run.
      destruct (filter_of_world env advanceHours (Http.data response) w1)
        as (out & w' & Hrun & Hsub & Ht & _).
      rewrite Hrun. cbn [ret fst snd]. exists out.
      split; [reflexivity|]. split; [exact Hsub|].
      rewrite Ht, Hticks. cbn [ticks set_requests set_ticks]. lia.
Qed.

End ClientMore.

(** ** More on the tables and the passes *)

Module LedgerMore.
Import JS Run Database RunFacts DatabaseFacts SyncFacts.
Local Open Scope run_scope.

Lemma get_app {R} userId (t1 t2 : list (Row.t R)) :
  get userId (t1 ++ t2) = get userId t1 ++ get userId t2.
Proof. unfold get. apply List.filter_app. Qed.

Lemma createNoticeRecords_other_table env userId records :
  preserves assignment_record (createNoticeRecords env userId records).
Proof.
  unfold createNoticeRecords.
  apply preserves_bind; [intros w; reflexivity|]. intros now.
  apply preserves_try_catch; [|intros e w; reflexivity].
  apply preserves_for_of. intros row w. unfold create_notice_record.
  now destruct (create_notice env (notice_record w) row).
Qed.

Lemma createAssignmentRecords_other_table env userId records :
  preserves notice_record (createAssignmentRecords env userId records).
Proof.
  unfold createAssignmentRecords.
  apply preserves_bind; [intros w; reflexivity|]. intros now.
  apply preserves_try_catch; [|intros e w; reflexivity].
  apply preserves_for_of. intros row w. unfold create_assignment_record.
  now destruct (create_assignment env (assignment_record w) row).
Qed.

(** What [createNoticeRecords] and [createAssignmentRecords] write is what
    [getNoticeRecords] and [getAssignmentRecords] read back for the same
    identity, after the rows it had, in the order given and under one time
    stamp; the rows of every other identity and the other table are as
    they were. *)
Theorem created_rows_are_read_back (env : Env) (userId : jsstring) (w : World) :
  (forall records,
     (forall table row, create_notice env table row = true) ->
     let w' := snd (createNoticeRecords env userId records w) in
     get userId (notice_record w')
     = get userId (notice_record w)
       ++ List.map (stamp userId (clock env (ticks w))) records
     /\ (forall other, other <> userId ->
         get other (notice_record w') = get other (notice_record w))
     /\ assignment_record w' = assignment_record w)
  /\ (forall records,
     (forall table row, create_assignment env table row = true) ->
     let w' := snd (createAssignmentRecords env userId records w) in
     get userId (assignment_record w')
     = get userId (assignment_record w)
       ++ List.map (stamp userId (clock env (ticks w))) records
     /\ (forall other, other <> userId ->
         get other (assignment_record w') = get other (assignment_record w))
     /\ notice_record w' = notice_record w).
Proof.
  split; intros records Haccept w'; subst w'.
  - destruct (createNoticeRecords_stores env userId records w) as [_ Hrows].
    rewrite Hrows, stored_prefix_all by exact Haccept.
    split; [now rewrite get_app, get_stamped|].
    split; [|apply createNoticeRecords_other_table].
    intros other Hother. now rewrite get_app, get_stamped_other, app_nil_r.
  - destruct (createAssignmentRecords_stores env userId records w) as [_ Hrows].
    rewrite Hrows, stored_prefix_all by exact Haccept.
    split; [now rewrite get_app, get_stamped|].
    split; [|apply createAssignmentRecords_other_table].
    intros other Hother. now rewrite get_app, get_stamped_other, app_nil_r.
Qed.

End LedgerMore.

Module PassMore.
Import JS Run Client Database RunFacts ClientFacts DatabaseFacts SyncFacts.
Local Open Scope run_scope.

(** *** A pass over a feed that holds nothing new *)

Lemma notice_collect_known (env : Env) (config : Config.t) (old : gset jsstring)
  (courseDict : gmap jsstring jsstring) (isInit : bool)
  (streamEntries : list Entry.t) (w : World) :
  (forall entry, In entry streamEntries -> Entry.se_id entry ∈ old) ->
  NoticeHandler.collect env config old courseDict isInit streamEntries w = (Ok [], w).
Proof.
  induction streamEntries as [|entry rest IH]; intros Hknown; [reflexivity|].
  cbn [NoticeHandler.collect].
  rewrite bool_decide_eq_true_2 by (apply Hknown; now left).
  apply IH. intros e He. apply Hknown. now right.
Qed.

Lemma calendar_collect_known (env : Env) (old : gset jsstring)
  (calendarData : list CalendarEntry.t) (w : World) :
  (forall entry, In entry calendarData -> CalendarEntry.id entry ∈ old) ->
  CalendarHandler.collect env old calendarData w = (Ok [], w).
Proof.
  induction calendarData as [|entry rest IH]; intros Hknown; [reflexivity|].
  cbn [CalendarHandler.collect].
  rewrite bool_decide_eq_true_2 by (apply Hknown; now left).
  apply IH. intros e He. apply Hknown. now right.
Qed.

(** A pass after the first one over a feed whose entries are all recorded
    does nothing but fetch the feed: no message, no row, no detail page, no
    further clock reading. *)
Theorem known_feed_is_silent (env : Env) (userId : jsstring) (config : Config.t)
  (w : World) :
  (forall noticeData w1,
     getNoticeData env w = (Ok noticeData, w1) ->
     NoticeHandler.init_id ∈ noticeIds userId (notice_record w) ->
     (forall entry,
        In entry (default [] (NoticeData.sv_streamEntries noticeData)) ->
        Entry.se_id entry ∈ noticeIds userId (notice_record w)) ->
     NoticeHandler.process env userId config w = (Ok tt, w1))
  /\ (forall calendarData w1,
       0 < Config.calendarAdvanceHours config ->
       getCalendarData env (Config.calendarAdvanceHours config) w
         = (Ok calendarData, w1) ->
       NoticeHandler.init_id ∈ assignmentIds userId (assignment_record w) ->
       (forall entry,
          In entry calendarData ->
          CalendarEntry.id entry ∈ assignmentIds userId (assignment_record w)) ->
       CalendarHandler.process env userId config w = (Ok tt, w1)).
Proof.
  split.
  - intros noticeData w1 Hfetch Hmark Hknown.
    assert (Hsame : notice_record w1 = notice_record w).
    { pose proof (blind_getNoticeData notice_record env w) as H.
      now rewrite Hfetch in H. }
    unfold NoticeHandler.process. rewrite try_catch_run, bind_run, Hfetch.
    rewrite bind_run. cbn [getNoticeRecords].
    fold (noticeIds userId (notice_record w1)). rewrite Hsame.
    rewrite bind_run, notice_collect_known
      by (intros entry He; rewrite elem_of_list_to_set; now apply Hknown).
    rewrite (bool_decide_eq_true_2 (NoticeHandler.init_id ∈ _))
      by (rewrite elem_of_list_to_set; exact Hmark).
    reflexivity.
  - intros calendarData w1 Hhours Hfetch Hmark Hknown.
    assert (Hsame : assignment_record w1 = assignment_record w).
    { pose proof (blind_getCalendarData assignment_record env
                    (Config.calendarAdvanceHours config) w) as H.
      now rewrite Hfetch in H. }
    unfold CalendarHandler.process. rewrite try_catch_run.
    replace (Config.calendarAdvanceHours config <=? 0) with false
      by (symmetry; apply Z.leb_gt; exact Hhours).
    rewrite bind_run, Hfetch. rewrite bind_run. cbn [getAssignmentRecords].
    fold (assignmentIds userId (assignment_record w1)). rewrite Hsame.
    rewrite bind_run, calendar_collect_known
      by (intros entry He; rewrite elem_of_list_to_set; now apply Hknown).
    rewrite (bool_decide_eq_true_2 (NoticeHandler.init_id ∈ _))
      by (rewrite elem_of_list_to_set; exact Hmark).
    reflexivity.
Qed.

(** *** What a pass lets out *)

(** The only error a pass throws is the rejection of its own failure
    report by the sink: with a sink that takes every message, [process]
    returns, whatever the platform and the driver do. *)
Theorem process_throws_send_error_only (env : Env) (userId : jsstring)
  (config : Config.t) (w : World) :
  (fst (NoticeHandler.process env userId config w) = Ok tt
   \/ exists e before,
        fst (NoticeHandler.process env userId config w) = Throw SendError
        /\ sent (snd (NoticeHandler.process env userId config w))
           = before ++ [NoticeFailed e]
        /\ deliver env (NoticeFailed e) = false)
  /\ (fst (CalendarHandler.process env userId config w) = Ok tt
      \/ exists e before,
           fst (CalendarHandler.process env userId config w) = Throw SendError
           /\ sent (snd (CalendarHandler.process env userId config w))
              = before ++ [CalendarFailed e]
           /\ deliver env (CalendarFailed e) = false).
Proof.
  split.
  - unfold NoticeHandler.process. rewrite try_catch_run.
    match goal with |- context [match ?body w with _ => _ end] =>
      destruct (body w) as [[[]|e] w1]
    end; [now left|].
    rewrite send_run. destruct (deliver env (NoticeFailed e)) eqn:Hd; [now left|].
    right. exists e, (sent w1). repeat split. exact Hd.
  - unfold CalendarHandler.process. rewrite try_catch_run.
    match goal with |- context [match ?body w with _ => _ end] =>
      destruct (body w) as [[[]|e] w1]
    end; [now left|].
    rewrite send_run. destruct (deliver env (CalendarFailed e)) eqn:Hd; [now left|].
    right. exists e, (sent w1). repeat split. exact Hd.
Qed.

(** *** The guard of the calendar pass *)

(** With [calendarAdvanceHours] at zero or below the calendar pass says so
    and does nothing else: no request, no clock reading, no row, and no
    further message but the failure report when the sink rejects the
    first. *)
Theorem calendar_pass_needs_positive_hours (env : Env) (userId : jsstring)
  (config : Config.t) (w : World) :
  Config.calendarAdvanceHours config <= 0 ->
  let w' := snd (CalendarHandler.process env userId config w) in
  requests w' = requests w
  /\ ticks w' = ticks w
  /\ cookies w' = cookies w
  /\ notice_record w' = notice_record w
  /\ assignment_record w' = assignment_record w
  /\ sent w'
     = sent w ++ AdvanceHoursNotPositive
               :: (if deliver env AdvanceHoursNotPositive then []
                   else [CalendarFailed SendError]).
Proof.
  intros Hhours. unfold CalendarHandler.process. rewrite try_catch_run.
  replace (Config.calendarAdvanceHours config <=? 0) with true
    by (symmetry; apply Z.leb_le; exact Hhours).
  rewrite send_run. destruct (deliver env AdvanceHoursNotPositive).
  - cbn [snd]. repeat split.
  - rewrite send_run. cbn [snd]. repeat split.
    cbn [sent set_sent]. now rewrite <- app_assoc.
Qed.

(** *** Alerts and rows *)

Definition delivered (env : Env) (m : Message) : Prop := deliver env m = true.

(** The loop over the records of a pass: the alerts go out in order, one
    for each record to be notified, until a text cannot be made or the sink
    rejects an alert. *)
Lemma alert_loop (env : Env) {A} (should : A -> bool) (text : A -> result jsstring)
  (alert : jsstring -> Message) (notify : A -> M unit) (l : list A) :
  (forall r w, notify r w
               = match text r with
                 | Throw e => (Throw e, w)
                 | Ok t => send env (alert t) w
                 end) ->
  forall w,
  let run := for_of l (fun r => if should r then notify r else ret tt) w in
  exists ms,
    sent (snd run) = sent w ++ ms
    /\ notice_record (snd run) = notice_record w
    /\ assignment_record (snd run) = assignment_record w
    /\ ((fst run = Ok tt
         /\ (exists texts,
               Forall2 (fun r t => text r = Ok t) (List.filter should l) texts
               /\ ms = List.map alert texts)
         /\ Forall (delivered env) ms)
        \/ (exists e r,
              fst run = Throw e /\ In r l /\ should r = true
              /\ (text r = Throw e
                  \/ exists t, text r = Ok t /\ deliver env (alert t) = false))).
Proof.
  intros Hnotify.
  induction l as [|r l IH]; intros w; cbv zeta.
  - exists []. cbn [for_of ret fst snd List.filter List.map].
    rewrite app_nil_r. repeat split. left.
    split; [reflexivity|]. split; [|apply List.Forall_nil].
    exists []. split; [constructor|reflexivity].
  - cbn [for_of List.filter]. rewrite bind_run. destruct (should r) eqn:Hr.
    + rewrite Hnotify. destruct (text r) as [t|e] eqn:Ht.
      * rewrite send_run. destruct (deliver env (alert t)) eqn:Hd.
        -- destruct (IH (set_sent (fun ms => ms ++ [alert t]) w))
             as (ms & Hs & Hn & Ha & Hcase).
           exists (alert t :: ms). rewrite Hs, Hn, Ha.
           cbn [sent set_sent notice_record assignment_record].
           rewrite <- app_assoc. repeat split.
           destruct Hcase as [(Hok & (texts & Htexts & ->) & Hall)
                             |(e & r' & Hthrow & Hin & Hshould & Hwhy)].
           ++ left. split; [exact Hok|]. split.
              ** exists (t :: texts). split; [now constructor|reflexivity].
              ** apply List.Forall_cons; assumption.
           ++ right. exists e, r'. repeat split; try assumption. now right.
        -- exists [alert t]. cbn [fst snd]. repeat split. right.
           exists SendError, r. repeat split; [now left|exact Hr|].
           right. now exists t.
      * exists []. cbn [fst snd]. rewrite app_nil_r. repeat split. right.
        exists e, r. repeat split; [now left|exact Hr|now left].
    + cbn [ret]. destruct (IH w) as (ms & Hs & Hn & Ha & Hcase).
      exists ms. repeat split; try assumption.
      destruct Hcase as [Hok|(e & r' & Hthrow & Hin & Hshould & Hwhy)];
        [now left|right].
      exists e, r'. repeat split; try assumption. now right.
Qed.

(** A pass writes rows only after the sink has taken every message of
    the pass: when an alert, or the message of the first pass, is rejected,
    both tables stay as they were. *)
Theorem rows_follow_delivery (env : Env) (userId : jsstring) (config : Config.t)
  (w : World) :
  (exists ms,
     sent (snd (NoticeHandler.process env userId config w)) = sent w ++ ms
     /\ (notice_record (snd (NoticeHandler.process env userId config w))
         <> notice_record w ->
         Forall (delivered env) ms))
  /\ (exists ms,
     sent (snd (CalendarHandler.process env userId config w)) = sent w ++ ms
     /\ (assignment_record (snd (CalendarHandler.process env userId config w))
         <> assignment_record w ->
         Forall (delivered env) ms)).
Proof.
  split.
  - unfold NoticeHandler.process. rewrite try_catch_run, bind_run.
    pose proof (blind_getNoticeData notice_record env w) as Hn1.
    pose proof (blind_getNoticeData sent env w) as Hs1.
    destruct (getNoticeData env w) as [[noticeData|e] w1]; cbn [snd] in Hn1, Hs1.
    2:{ rewrite send_run. exists [NoticeFailed e]. cbn [snd sent set_sent notice_record].
        rewrite Hs1. split; [reflexivity|]. intros H. now rewrite Hn1 in H. }
    rewrite bind_run. cbn [getNoticeRecords]. rewrite bind_run.
    match goal with |- context [NoticeHandler.collect env config ?old ?dict ?init ?l w1] =>
      destruct (notice_collect_run env config old dict init l w1)
        as (r & w2 & -> & _ & Hs2 & Hn2 & _)
    end.
    destruct r as [records|e].
    2:{ rewrite send_run. exists [NoticeFailed e]. cbn [snd sent set_sent notice_record].
        rewrite Hs2, Hs1. split; [reflexivity|]. intros H. exfalso. apply H. congruence. }
    rewrite bind_run.
    destruct (negb (bool_decide (NoticeHandler.init_id ∈ _))).
    + rewrite bind_run, send_run.
      destruct (deliver env (NoticeInitialized (length records))) eqn:Hd.
      * rewrite bind_run. cbn [Date_now ret].
        destruct (records ++ [NoticeHandler.initRecord _]) as [|r rs] eqn:Hbatch;
          [now destruct records|]. rewrite <- Hbatch.
        rewrite (caught_nothing _ _ _ tt) by apply createNoticeRecords_stores.
        exists [NoticeInitialized (length records)].
        rewrite sent_createNoticeRecords. cbn [sent set_ticks set_sent].
        rewrite Hs2, Hs1. split; [reflexivity|]. intros _.
        apply List.Forall_cons; [exact Hd|apply List.Forall_nil].
      * rewrite send_run. cbn [snd sent set_sent notice_record].
        exists [NoticeInitialized (length records); NoticeFailed SendError].
        rewrite Hs2, Hs1, <- app_assoc. split; [reflexivity|].
        intros H. exfalso. apply H. congruence.
    + rewrite bind_run.
      destruct (alert_loop env NoticeRecord.shouldNotify (notice_text config)
                  NoticeAlert (NoticeHandler.notifyNotice env config) records
                  (notifyNotice_run env config) w2)
        as (ms & Hs3 & Hn3 & _ & Hcase).
      destruct (for_of records _ w2) as [[[]|e] w3]; cbn [fst snd] in *.
      * cbn [ret]. destruct Hcase as [(_ & _ & Hall)|(? & ? & Hthrow & _)];
          [|discriminate].
        exists ms. destruct records as [|r rs].
        -- cbn [ret snd]. rewrite Hs3, Hs2, Hs1. split; [reflexivity|]. intros _. exact Hall.
        -- rewrite (caught_nothing _ _ _ tt) by apply createNoticeRecords_stores.
           rewrite sent_createNoticeRecords, Hs3, Hs2, Hs1.
           split; [reflexivity|]. intros _. exact Hall.
      * rewrite send_run. cbn [snd sent set_sent notice_record].
        exists (ms ++ [NoticeFailed e]). rewrite Hs3, Hs2, Hs1, <- app_assoc.
        split; [reflexivity|]. intros H. exfalso. apply H. congruence.
  - unfold CalendarHandler.process. rewrite try_catch_run.
    destruct (Config.calendarAdvanceHours config <=? 0).
    { rewrite send_run. destruct (deliver env AdvanceHoursNotPositive).
      - exists [AdvanceHoursNotPositive]. cbn [snd sent set_sent assignment_record].
        split; [reflexivity|]. intros H. now exfalso.
      - rewrite send_run. cbn [snd sent set_sent assignment_record].
        exists [AdvanceHoursNotPositive; CalendarFailed SendError].
        rewrite <- app_assoc. split; [reflexivity|]. intros H. now exfalso. }
    rewrite bind_run.
    pose proof (blind_getCalendarData assignment_record env
                  (Config.calendarAdvanceHours config) w) as Hn1.
    pose proof (blind_getCalendarData sent env
                  (Config.calendarAdvanceHours config) w) as Hs1.
    destruct (getCalendarData env _ w) as [[calendarData|e] w1]; cbn [snd] in Hn1, Hs1.
    2:{ rewrite send_run. exists [CalendarFailed e].
        cbn [snd sent set_sent assignment_record].
        rewrite Hs1. split; [reflexivity|]. intros H. now rewrite Hn1 in H. }
    rewrite bind_run. cbn [getAssignmentRecords]. rewrite bind_run.
    match goal with |- context [CalendarHandler.collect env ?old ?l w1] =>
      destruct (calendar_collect_run env old l w1)
        as (records & w2 & -> & _ & Hs2 & _ & Hn2 & _)
    end.
    rewrite bind_run.
    destruct (negb (bool_decide (NoticeHandler.init_id ∈ _))).
    + rewrite bind_run, send_run.
      destruct (deliver env CalendarInitialized) eqn:Hd.
      * rewrite bind_run. cbn [Date_now ret].
        destruct (records ++ [CalendarHandler.initRecord _]) as [|r rs] eqn:Hbatch;
          [now destruct records|]. rewrite <- Hbatch.
        rewrite (caught_nothing _ _ _ tt) by apply createAssignmentRecords_stores.
        exists [CalendarInitialized].
        rewrite sent_createAssignmentRecords. cbn [sent set_ticks set_sent].
        rewrite Hs2, Hs1. split; [reflexivity|]. intros _.
        apply List.Forall_cons; [exact Hd|apply List.Forall_nil].
      * rewrite send_run. cbn [snd sent set_sent assignment_record].
        exists [CalendarInitialized; CalendarFailed SendError].
        rewrite Hs2, Hs1, <- app_assoc. split; [reflexivity|].
        intros H. exfalso. apply H. congruence.
    + rewrite bind_run.
      destruct (alert_loop env AssignmentRecord.shouldNotify (assignment_text config)
                  AssignmentAlert (CalendarHandler.notifyAssignment env config) records
                  (notifyAssignment_run env config) w2)
        as (ms & Hs3 & _ & Hn3 & Hcase).
      destruct (for_of records _ w2) as [[[]|e] w3]; cbn [fst snd] in *.
      * cbn [ret]. destruct Hcase as [(_ & _ & Hall)|(? & ? & Hthrow & _)];
          [|discriminate].
        exists ms. destruct records as [|r rs].
        -- cbn [ret snd]. rewrite Hs3, Hs2, Hs1. split; [reflexivity|]. intros _. exact Hall.
        -- rewrite (caught_nothing _ _ _ tt) by apply createAssignmentRecords_stores.
           rewrite sent_createAssignmentRecords, Hs3, Hs2, Hs1.
           split; [reflexivity|]. intros _. exact Hall.
      * rewrite send_run. cbn [snd sent set_sent assignment_record].
        exists (ms ++ [CalendarFailed e]). rewrite Hs3, Hs2, Hs1, <- app_assoc.
        split; [reflexivity|]. intros H. exfalso. apply H. congruence.
Qed.

(** The subject of an alert can be made whenever the alias column holds
    an object whose values are scalars, or could not be parsed. *)
Lemma subject_scalars (aliases : option JSON.value) (prefix course title : jsstring) :
  aliases = None \/ (exists properties, aliases = Some (JSON.object properties)) ->
  exists text, NoticeHandler.subject aliases prefix course title = Ok text.
Proof.
  intros Hcolumn. unfold NoticeHandler.subject.
  assert (Hobject : exists properties,
             NoticeHandler.parseJSON aliases = JSON.object properties).
  { destruct Hcolumn as [->|[properties ->]]; eexists; reflexivity. }
  destruct Hobject as [properties ->]. unfold JSON.object, JSON.get.
  destruct (properties !! toLowerCase course) as [[|[]|number|[|c alias]]|].
  - cbn. eauto.
  - cbn. eauto.
  - cbn. eauto.
  - cbn [JSON.of_scalar]. destruct (jseqb number (lit "0")); cbn; eauto.
  - cbn. eauto.
  - cbn. eauto.
  - unfold JSON.inherited.
    destruct (List.find _ JSON.object_prototype) as [[name v]|] eqn:Hfound;
      [|cbn; eauto].
    apply List.find_some in Hfound as [Hin _].
    cbn [snd JSON.or_else JSON.length_positive JSON.text].
    unfold JSON.object_prototype in Hin. cbn [In] in Hin.
    repeat (destruct Hin as [Hin|Hin]; [injection Hin as _ <-; cbn; eauto|]).
    destruct Hin.
Qed.

(** A pass after the first one, with a sink that takes every message, a
    driver that stores every row and columns that can be read (every new
    entry of the notice feed is judged, and the text of an alert can be made
    for every record): each new entry of the feed gives one row, in feed
    order, and one alert when its record says so; an entry that is not to be
    notified is stored all the same. *)
Theorem later_pass_alerts_and_stores (env : Env) (userId : jsstring)
  (config : Config.t) (w : World) :
  (forall m, deliver env m = true) ->
  (forall noticeData w1,
     getNoticeData env w = (Ok noticeData, w1) ->
     NoticeHandler.init_id ∈ noticeIds userId (notice_record w) ->
     (forall table row, create_notice env table row = true) ->
     let entries :=
       fresh (oldNoticeIds userId w)
             (default [] (NoticeData.sv_streamEntries noticeData)) in
     (forall entry,
        In entry entries ->
        exists verdict,
          judged config
            (NoticeHandler.courseDict_of
               (default [] (NoticeData.sx_courses noticeData)))
            entry = Ok verdict) ->
     (forall record, exists text, notice_text config record = Ok text) ->
     let w' := snd (NoticeHandler.process env userId config w) in
     exists records now texts,
       List.map NoticeRecord.noticeId records = List.map Entry.se_id entries
       /\ Forall2 (fun r text => notice_text config r = Ok text)
                  (List.filter NoticeRecord.shouldNotify records) texts
       /\ sent w' = sent w ++ List.map NoticeAlert texts
       /\ notice_record w'
          = notice_record w ++ List.map (stamp userId now) records)
  /\ (forall calendarData w1,
       0 < Config.calendarAdvanceHours config ->
       getCalendarData env (Config.calendarAdvanceHours config) w
         = (Ok calendarData, w1) ->
       NoticeHandler.init_id ∈ assignmentIds userId (assignment_record w) ->
       (forall table row, create_assignment env table row = true) ->
       (forall record, exists text, assignment_text config record = Ok text) ->
       let w' := snd (CalendarHandler.process env userId config w) in
       exists records now texts,
         List.map AssignmentRecord.assignmentId records
         = List.map CalendarEntry.id
             (fresh_calendar (oldAssignmentIds userId w) calendarData)
         /\ Forall2 (fun r text => assignment_text config r = Ok text)
                    (List.filter AssignmentRecord.shouldNotify records) texts
         /\ sent w' = sent w ++ List.map AssignmentAlert texts
         /\ assignment_record w'
            = assignment_record w ++ List.map (stamp userId now) records).
Proof.
  intros Hsink. split.
  - intros noticeData w1 Hfetch Hmark Haccept entries Hjudged Htexts.
    pose proof (blind_getNoticeData notice_record env w) as Hn1.
    pose proof (blind_getNoticeData sent env w) as Hs1.
    rewrite Hfetch in Hn1, Hs1. cbn [snd] in Hn1, Hs1.
    cbv zeta. unfold NoticeHandler.process.
    rewrite try_catch_run, bind_run, Hfetch, bind_run.
    cbn [getNoticeRecords]. fold (noticeIds userId (notice_record w1)).
    rewrite Hn1. fold (oldNoticeIds userId w). rewrite bind_run.
    rewrite (bool_decide_eq_true_2 (NoticeHandler.init_id ∈ oldNoticeIds userId w))
      by (unfold oldNoticeIds; rewrite elem_of_list_to_set; exact Hmark).
    cbn [negb].
    match goal with |- context [NoticeHandler.collect env config ?old ?dict ?init ?l w1] =>
      destruct (notice_collect_run env config old dict init l w1)
        as (r & w2 & Hcollect & Hids & Hs2 & Hn2 & _);
      destruct (notice_collect_returns env config old dict init l Hjudged w1)
        as (records & w2' & Hreturns)
    end.
    rewrite Hcollect in Hreturns. injection Hreturns as -> <-.
    specialize (Hids records eq_refl). rewrite Hcollect.
    rewrite !bind_run.
    destruct (alert_loop env NoticeRecord.shouldNotify (notice_text config)
                NoticeAlert (NoticeHandler.notifyNotice env config) records
                (notifyNotice_run env config) w2)
      as (ms & Hs3 & Hn3 & _ & Hcase).
    destruct Hcase as [(Hok & (texts & Htext & ->) & _)
                      |(e & r & _ & _ & _ & [Hno|(t & _ & Hrej)])];
      [|destruct (Htexts r) as [t Ht]; congruence
       |rewrite Hsink in Hrej; discriminate].
    destruct (for_of records _ w2) as [[[]|e] w3]; cbn [fst snd] in *;
      [|discriminate].
    cbn [ret]. exists records, (clock env (ticks w3)), texts.
    split; [exact Hids|]. split; [exact Htext|]. destruct records as [|r rs].
    + cbn [ret snd List.map List.filter] in *.
      rewrite Hs3, Hs2, Hs1, Hn3, Hn2, Hn1, !app_nil_r. split; reflexivity.
    + rewrite (caught_nothing _ _ _ tt) by apply createNoticeRecords_stores.
      rewrite sent_createNoticeRecords, Hs3, Hs2, Hs1. split; [reflexivity|].
      destruct (createNoticeRecords_stores env userId (r :: rs) w3) as [_ Hrows].
      rewrite Hrows, stored_prefix_all by exact Haccept.
      now rewrite Hn3, Hn2, Hn1.
  - intros calendarData w1 Hhours Hfetch Hmark Haccept Htexts.
    pose proof (blind_getCalendarData assignment_record env
                  (Config.calendarAdvanceHours config) w) as Hn1.
    pose proof (blind_getCalendarData sent env
                  (Config.calendarAdvanceHours config) w) as Hs1.
    rewrite Hfetch in Hn1, Hs1. cbn [snd] in Hn1, Hs1.
    cbv zeta. unfold CalendarHandler.process. rewrite try_catch_run.
    replace (Config.calendarAdvanceHours config <=? 0) with false
      by (symmetry; apply Z.leb_gt; exact Hhours).
    rewrite bind_run, Hfetch, bind_run.
    cbn [getAssignmentRecords]. fold (assignmentIds userId (assignment_record w1)).
    rewrite Hn1. fold (oldAssignmentIds userId w). rewrite bind_run.
    rewrite (bool_decide_eq_true_2
               (NoticeHandler.init_id ∈ oldAssignmentIds userId w))
      by (unfold oldAssignmentIds; rewrite elem_of_list_to_set; exact Hmark).
    cbn [negb].
    destruct (calendar_collect_run env (oldAssignmentIds userId w) calendarData w1)
      as (records & w2 & -> & Hids & Hs2 & _ & Hn2 & _).
    rewrite !bind_run.
    destruct (alert_loop env AssignmentRecord.shouldNotify (assignment_text config)
                AssignmentAlert (CalendarHandler.notifyAssignment env config) records
                (notifyAssignment_run env config) w2)
      as (ms & Hs3 & _ & Hn3 & Hcase).
    destruct Hcase as [(Hok & (texts & Htext & ->) & _)
                      |(e & r & _ & _ & _ & [Hno|(t & _ & Hrej)])];
      [|destruct (Htexts r) as [t Ht]; congruence
       |rewrite Hsink in Hrej; discriminate].
    destruct (for_of records _ w2) as [[[]|e] w3]; cbn [fst snd] in *;
      [|discriminate].
    cbn [ret]. exists records, (clock env (ticks w3)), texts.
    split; [exact Hids|]. split; [exact Htext|]. destruct records as [|r rs].
    + cbn [ret snd List.map List.filter] in *.
      rewrite Hs3, Hs2, Hs1, Hn3, Hn2, Hn1, !app_nil_r. split; reflexivity.
    + rewrite (caught_nothing _ _ _ tt) by apply createAssignmentRecords_stores.
      rewrite sent_createAssignmentRecords, Hs3, Hs2, Hs1. split; [reflexivity|].
      destruct (createAssignmentRecords_stores env userId (r :: rs) w3) as [_ Hrows].
      rewrite Hrows, stored_prefix_all by exact Haccept.
      now rewrite Hn3, Hn2, Hn1.
Qed.

(** *** The record of one entry *)

Import ClientMore.

(** The record [filterAssignmentInfo] makes of a calendar entry, up to the
    two fields the attempt page decides. *)
Definition deadline_record (env : Env) (entry : CalendarEntry.t)
  (description : jsstring) (shouldNotify : bool) : AssignmentRecord.t :=
  {| AssignmentRecord.assignmentId := CalendarEntry.id entry;
     AssignmentRecord.time := convertTimezone env (CalendarEntry.endDate entry);
     AssignmentRecord.course :=
       Html.replace_first Html.re_suffix (CalendarEntry.calendarName entry);
     AssignmentRecord.title := CalendarEntry.title entry;
     AssignmentRecord.description := trim description;
     AssignmentRecord.shouldNotify := shouldNotify |}.

(** A personal event is recorded as it is and is to be notified, without
    any request.  For the deadline of a course the attempt page decides: a
    page that shows a submission makes the record silent, any other page
    adds the instructions it holds, and a page that cannot be fetched
    leaves the record as for a personal event, with a line in the log. *)
Theorem filterAssignmentInfo_cases (env : Env) (entry : CalendarEntry.t)
  (w : World) :
  let id := CalendarEntry.id entry in
  let description := NoticeHandler.or_empty (CalendarEntry.description entry) in
  let cookie := cookie_header (cookies w) in
  (is_course_deadline entry = false ->
   CalendarHandler.filterAssignmentInfo env entry w
   = (Ok (deadline_record env entry description true), w))
  /\ (is_course_deadline entry = true ->
      forall e,
        calendarAttemptPage env id cookie = Throw e ->
        exists w',
          CalendarHandler.filterAssignmentInfo env entry w
          = (Ok (deadline_record env entry description true), w')
          /\ log w' = log w ++ [LogAssignmentDetailFailed (PageFetchFailed e)])
  /\ (is_course_deadline entry = true ->
      forall response,
        calendarAttemptPage env id cookie = Ok response ->
        let page := Http.data response in
        exists w',
          CalendarHandler.filterAssignmentInfo env entry w
          = (Ok (deadline_record env entry
                   (if Html.hasAttempted page then description
                    else match Html.parseInstruction page with
                         | [] => description
                         | instruction => description ++ [10] ++ instruction
                         end)
                   (negb (Html.hasAttempted page))), w')
          /\ log w' = log w).
Proof.
  cbv zeta. unfold is_course_deadline, deadline_record, cookie_header.
  cbv [CalendarHandler.filterAssignmentInfo bind try_catch getAssignmentFromCalendar
       generateCookieString http modify lift throw write_log ret].
  destruct (negb (jseqb _ CalendarHandler.personal)).
  - split; [discriminate|]. split.
    + intros _ e He. rewrite He. eexists. split; reflexivity.
    + intros _ response Hresponse. rewrite Hresponse.
      match goal with |- context [extractCookies response ?w0] =>
        destruct (extractCookies_world response w0) as (Hok & _ & _ & Hlog & _);
        destruct (extractCookies response w0) as [[[]|e] w1]; [|discriminate]
      end.
      cbn [fst snd log set_requests] in *. exists w1. split; [|exact Hlog].
      destruct (Html.hasAttempted (Http.data response)); cbn [negb];
        [reflexivity|].
      now destruct (Html.parseInstruction (Http.data response)).
  - split; [reflexivity|]. split; discriminate.
Qed.

(** Whether [filterNoticeInfo] asks for the item page of an entry whose
    event is or is not to be announced. *)
Definition wants_detail (entry : Entry.t) (shouldNotify isInit : bool) : bool :=
  let event := NoticeHandler.or_empty (Entry.event_type entry) in
  jseqb event (lit "AS:AS_AVAIL") && truthy (Entry.se_itemUri entry)
  && shouldNotify && negb isInit.

(** [filterNoticeInfo] throws at once, before any request, when the entry
    cannot be judged.  Otherwise it returns a record, and it asks for the
    item page only for an entry that announces an assignment, carries the
    address of the page and is to be notified, and never in a first pass.
    The page adds to the content only: without it, or when it cannot be
    fetched, the record is the one made of the entry alone, and the failure
    is a line in the log. *)
Theorem filterNoticeInfo_detail_is_optional (env : Env) (config : Config.t)
  (entry : Entry.t) (courseDict : gmap jsstring jsstring) (isInit : bool)
  (w : World) :
  let uri := NoticeHandler.or_empty (Entry.se_itemUri entry) in
  let cookie := cookie_header (cookies w) in
  match judged config courseDict entry with
  | Throw e =>
    NoticeHandler.filterNoticeInfo env config entry courseDict isInit w = (Throw e, w)
  | Ok verdict =>
    let alone := plain_record env entry verdict in
    let wanted := wants_detail entry (snd verdict) isInit in
    exists record w',
      NoticeHandler.filterNoticeInfo env config entry courseDict isInit w
      = (Ok record, w')
      /\ requests w'
         = requests w ++ (if wanted then [NoticeItemPage uri cookie] else [])
      /\ NoticeRecord.noticeId record = NoticeRecord.noticeId alone
      /\ NoticeRecord.time record = NoticeRecord.time alone
      /\ NoticeRecord.course record = NoticeRecord.course alone
      /\ NoticeRecord.title record = NoticeRecord.title alone
      /\ NoticeRecord.event record = NoticeRecord.event alone
      /\ NoticeRecord.shouldNotify record = NoticeRecord.shouldNotify alone
      /\ (wanted = false -> record = alone /\ w' = w)
      /\ (forall e,
            wanted = true ->
            noticeItemPage env uri cookie = Throw e ->
            record = alone
            /\ log w' = log w ++ [LogAssignmentDetailFailed (PageFetchFailed e)])
  end.
Proof.
  cbv zeta. unfold judged, NoticeHandler.filterNoticeInfo.
  destruct (JSON.or_else _ _) as [course|v]; [|reflexivity].
  rewrite bind_run. unfold lift.
  destruct (NoticeHandler.isEventAllowed config course _) as [shouldNotify|e];
    [|reflexivity].
  unfold wants_detail, plain_record, cookie_header. cbn [fst snd].
  cbv [bind try_catch getAssignmentFromNotice
       generateCookieString http modify lift throw write_log ret].
  destruct (_ && negb isInit).
  - destruct (noticeItemPage env _ _) as [response|e].
    + match goal with |- context [extractCookies response ?w0] =>
        destruct (extractCookies_world response w0) as (Hok & _ & Hreq & _);
        destruct (extractCookies response w0) as [[[]|e] w1]; [|discriminate]
      end.
      cbn [fst snd requests set_requests] in *.
      eexists _, w1. split; [reflexivity|]. split; [exact Hreq|].
      cbn [NoticeRecord.noticeId NoticeRecord.time NoticeRecord.course
           NoticeRecord.title NoticeRecord.event NoticeRecord.shouldNotify].
      repeat (split; [reflexivity|]). split; [discriminate|]. intros; discriminate.
    + eexists _, _. split; [reflexivity|]. split; [reflexivity|].
      cbn [NoticeRecord.noticeId NoticeRecord.time NoticeRecord.course
           NoticeRecord.title NoticeRecord.event NoticeRecord.shouldNotify].
      repeat (split; [reflexivity|]). split; [discriminate|].
      intros e' _ He. injection He as <-. split; reflexivity.
  - eexists _, w. split; [reflexivity|]. rewrite app_nil_r.
    repeat (split; [reflexivity|]). split; [|discriminate]. split; reflexivity.
Qed.

(** *** Runs on the campus platform *)

(** The settings of [defaults] with the hours set to zero. *)
Definition no_hours : Config.t :=
  {| Config.courseAliases := Some (JSON.strings ∅);
     Config.noticeTitlePrefix := lit "[bb]";
     Config.generalAllowedEvents := lit "123";
     Config.specificCourseEvents := Some (JSON.strings ∅);
     Config.calendarAdvanceHours := 0;
     Config.assignmentTitlePrefix := lit "[DDL!]" |}.

(** A world in which the first pass of [u] is over and nothing of the
    feeds is recorded yet. *)
Definition marked_world : World :=
  {| cookies := []; ticks := 0; requests := []; sent := []; log := [];
     notice_record := [stamp (lit "u") 0 (NoticeHandler.initRecord (lit "time"))];
     assignment_record :=
       [stamp (lit "u") 0 (CalendarHandler.initRecord (lit "time"))] |}.

(** The world after the first notice pass of [u] on the campus platform. *)
Definition synced_world : World :=
  snd (NoticeHandler.process campus (lit "u") defaults empty_world).

Lemma calendar_pass_needs_positive_hours_witness :
  requests (snd (CalendarHandler.process campus (lit "u") no_hours empty_world)) = []
  /\ sent (snd (CalendarHandler.process campus (lit "u") no_hours empty_world))
     = [AdvanceHoursNotPositive].
Proof.
  destruct (calendar_pass_needs_positive_hours campus (lit "u") no_hours empty_world)
    as (Hrequests & _); [cbn; lia|].
  split; [exact Hrequests|vm_compute; reflexivity].
Defined.

Lemma known_feed_is_silent_witness :
  NoticeHandler.process campus (lit "u") defaults synced_world
  = (Ok tt, snd (getNoticeData campus synced_world)).
Proof.
  destruct (known_feed_is_silent campus (lit "u") defaults synced_world) as [Hsilent _].
  destruct (getNoticeData campus synced_world) as [[noticeData|e] w1] eqn:Hfetch;
    [|vm_compute in Hfetch; discriminate].
  cbn [snd]. apply (Hsilent noticeData w1 eq_refl).
  - apply list_elem_of_In. vm_compute. right. right. left. reflexivity.
  - intros entry Hentry. vm_compute in Hfetch. injection Hfetch as <- _.
    apply list_elem_of_In.
    destruct Hentry as [<-|[<-|[]]]; vm_compute; [left|right; left]; reflexivity.
Defined.

Lemma later_pass_alerts_and_stores_witness :
  exists records now texts,
    List.map NoticeRecord.noticeId records = [lit "n1"; lit "n2"]
    /\ sent (snd (NoticeHandler.process campus (lit "u") defaults marked_world))
       = List.map NoticeAlert texts
    /\ List.length texts = 2%nat
    /\ notice_record (snd (NoticeHandler.process campus (lit "u") defaults marked_world))
       = notice_record marked_world ++ List.map (stamp (lit "u") now) records.
Proof.
  destruct (later_pass_alerts_and_stores campus (lit "u") defaults marked_world
              (fun _ => eq_refl)) as [Hnotice _].
  destruct (getNoticeData campus marked_world) as [[noticeData|e] w1] eqn:Hfetch;
    [|vm_compute in Hfetch; discriminate].
  vm_compute in Hfetch. injection Hfetch as <- _.
  match type of Hnotice with
  | forall noticeData w1, ?run = _ -> _ =>
    destruct (Hnotice _ _ ltac:(vm_compute; reflexivity))
      as (records & now & texts & Hids & _ & Hsent & Hrows)
  end.
  - apply list_elem_of_In. vm_compute. left. reflexivity.
  - intros table row. reflexivity.
  - intros entry Hin. vm_compute in Hin.
    destruct Hin as [<-|[<-|[]]]; eexists; vm_compute; reflexivity.
  - intros record. unfold notice_text.
    destruct (subject_scalars (Config.courseAliases defaults)
                (Config.noticeTitlePrefix defaults) (NoticeRecord.course record)
                (NoticeRecord.title record)) as [text ->]; [|eauto].
    right. eexists. reflexivity.
  - change (sent marked_world) with (@nil Message) in Hsent. cbn [app] in Hsent.
    exists records, now, texts. split; [rewrite Hids; vm_compute; reflexivity|].
    split; [exact Hsent|]. split; [|exact Hrows].
    apply (f_equal (@length _)) in Hsent. rewrite List.length_map in Hsent.
    rewrite <- Hsent. vm_compute. reflexivity.
Defined.

End PassMore.

(** ** The commands *)

Module ConfigCommandFacts.
Import JS ConfigCommand.

(** What a column may hold after the dialogue set it. *)
Definition valid (host : Host) (key : Key) (v : Value) : Prop :=
  match key with
  | notifyNotice | notifyAssignment => exists b, v = VBool b
  | calendarAdvanceHours => exists n, v = VNumber n /\ 3 <= n <= 48
  | generalAllowedEvents =>
    exists s, v = VString s /\ s <> []
              /\ Forall (fun c => c = 49 \/ c = 50 \/ c = 51) s
  | noticeTitlePrefix | assignmentTitlePrefix =>
    exists s, v = VString s /\ s <> []
  | courseAliases | specificCourseEvents =>
    exists s, v = VString s
              /\ (s = lit "{}" \/ exists typed, normalize host typed = Some s)
  end.

Lemma only_123_units (s : jsstring) :
  only_123 s = true -> s <> [] /\ Forall (fun c => c = 49 \/ c = 50 \/ c = 51) s.
Proof.
  destruct s as [|c s]; [discriminate|]. unfold only_123. intros H.
  split; [discriminate|]. apply List.Forall_forall. intros x Hx.
  rewrite forallb_forall in H. specialize (H x Hx).
  apply orb_true_iff in H as [H|H]; [apply orb_true_iff in H as [H|H]|];
    apply Z.eqb_eq in H; auto.
Qed.

Lemma gives_up_none (answer : option jsstring) :
  gives_up answer = false -> exists c s, answer = Some (c :: s).
Proof. destruct answer as [[|c s]|]; try discriminate. intros _. now exists c, s. Qed.

Definition kind_of (key : Key) : Kind :=
  match key with
  | courseAliases | specificCourseEvents => json
  | notifyNotice | notifyAssignment => boolean
  | noticeTitlePrefix | assignmentTitlePrefix => string
  | generalAllowedEvents => events
  | calendarAdvanceHours => number
  end.

Lemma configOptions_kind name key kind :
  configOptions name = Own key kind -> kind = kind_of key.
Proof.
  unfold configOptions.
  repeat match goal with
         | |- context [if ?b then _ else _] => destruct b
         end; intros H; inversion H; reflexivity.
Qed.

Lemma answer_valid host asked key value k v :
  update (answer host asked key (kind_of key) value) = Some (k, v) -> valid host k v.
Proof.
  unfold answer. destruct (gives_up value) eqn:Hup; [discriminate|].
  apply gives_up_none in Hup as (c & s & ->).
  cbn [default from_option id].
  destruct key; cbn [kind_of].
  - (* courseAliases *)
    destruct (jseqb _ (lit "clear")).
    + intros H. injection H as <- <-. eexists. split; [reflexivity|now left].
    + destruct (normalize host (trim (c :: s))) as [parsed|] eqn:E; [|discriminate].
      intros H. injection H as <- <-. eexists. split; [reflexivity|].
      right. now exists (trim (c :: s)).
  - (* notifyNotice *)
    destruct (_ || _); [intros H; injection H as <- <-; now eexists|].
    destruct (_ || _); [intros H; injection H as <- <-; now eexists|discriminate].
  - (* noticeTitlePrefix *)
    intros H. injection H as <- <-. eexists. split; [reflexivity|discriminate].
  - (* generalAllowedEvents *)
    destruct (only_123 (trim (c :: s))) eqn:E; cbn [negb orb]; [|discriminate].
    destruct (length (trim (c :: s)) =? 0)%nat; [discriminate|].
    intros H. injection H as <- <-. apply only_123_units in E as [Hne Hall].
    eexists. split; [reflexivity|]. split; assumption.
  - (* specificCourseEvents *)
    destruct (jseqb _ (lit "clear")).
    + intros H. injection H as <- <-. eexists. split; [reflexivity|now left].
    + destruct (normalize host (trim (c :: s))) as [parsed|] eqn:E; [|discriminate].
      intros H. injection H as <- <-. eexists. split; [reflexivity|].
      right. now exists (trim (c :: s)).
  - (* notifyAssignment *)
    destruct (_ || _); [intros H; injection H as <- <-; now eexists|].
    destruct (_ || _); [intros H; injection H as <- <-; now eexists|discriminate].
  - (* calendarAdvanceHours *)
    destruct (parseInt (trim (c :: s))) as [num|]; [|discriminate].
    destruct ((num <? 3) || (48 <? num)) eqn:E; [discriminate|].
    intros H. injection H as <- <-.
    apply orb_false_iff in E as [E1 E2].
    apply Z.ltb_ge in E1. apply Z.ltb_ge in E2.
    eexists. split; [reflexivity|lia].
  - (* assignmentTitlePrefix *)
    intros H. injection H as <- <-. eexists. split; [reflexivity|discriminate].
Qed.

(** Whatever the user types, the dialogue hands [upsertBBConfig] only a
    value that fits the column: a boolean for the two switches, an integer
    from 3 to 48 for the hours, a non-empty string of the digits 1, 2, 3
    for the event types, a non-empty string for a prefix, and [{}] or a
    text that went through [JSON.parse] and [JSON.stringify] for the two
    JSON columns. *)
Theorem set_stores_valid_values (host : Host) (choice value : option jsstring)
  (key : Key) (v : Value) :
  update (set host choice value) = Some (key, v) -> valid host key v.
Proof.
  unfold set. destruct (negb (takes host OptionsList)); [discriminate|].
  destruct (gives_up choice); [discriminate|].
  destruct (configOptions _) as [k kind| |] eqn:E; try discriminate.
  destruct (negb (takes host (Ask k kind))); [discriminate|].
  rewrite (configOptions_kind _ _ _ E). apply answer_valid.
Qed.

(** A host that takes every prompt, stores every update and knows one
    JSON text. *)
Definition friendly : Host :=
  {| takes := fun _ => true;
     stores := fun _ _ => true;
     normalize := fun s => if jseqb s (lit "{}") then Some (lit "{}") else None |}.

Lemma set_stores_valid_values_witness :
  update (set friendly (Some (lit " 7 ")) (Some (lit " 12 hours")))
  = Some (calendarAdvanceHours, VNumber 12)
  /\ valid friendly calendarAdvanceHours (VNumber 12).
Proof.
  assert (H : update (set friendly (Some (lit " 7 ")) (Some (lit " 12 hours")))
              = Some (calendarAdvanceHours, VNumber 12)) by (vm_compute; reflexivity).
  split; [exact H|]. exact (set_stores_valid_values _ _ _ _ _ H).
Defined.

(** Without two answers nothing is set: a reply that is missing or empty
    or [quit], in any case of the letters, ends the dialogue with no
    update, and so does a choice that is not one of the eight numbers. *)
Theorem set_needs_two_answers (host : Host) (choice value : option jsstring) :
  (gives_up choice = true \/ gives_up value = true
   \/ (forall key kind, configOptions (trim (default [] choice)) <> Own key kind)) ->
  update (set host choice value) = None.
Proof.
  intros H. unfold set. destruct (negb (takes host OptionsList)); [reflexivity|].
  destruct (gives_up choice) eqn:Hc; [reflexivity|].
  destruct (configOptions _) as [k kind| |] eqn:E; try reflexivity.
  destruct (negb (takes host (Ask k kind))); [reflexivity|].
  destruct H as [H|[H|H]]; [discriminate| |now destruct (H k kind)].
  unfold answer. now rewrite H.
Qed.

Lemma set_needs_two_answers_witness :
  update (set friendly (Some (lit "7")) (Some (lit "QUIT"))) = None
  /\ update (set friendly (Some (lit "9")) (Some (lit "12"))) = None
  /\ update (set friendly None (Some (lit "12"))) = None.
Proof.
  split; [|split]; apply set_needs_two_answers.
  - right. left. reflexivity.
  - right. right. intros key kind. vm_compute. discriminate.
  - left. reflexivity.
Defined.

End ConfigCommandFacts.

Module AccountFacts.
Import JS Accounts SyncFacts.

Lemma owned_by_spec userId row :
  owned_by userId row = true <-> IAAAUser.userId row = userId.
Proof. unfold owned_by. apply jseqb_eq. Qed.

Definition rebound (now : Z) (userId username password : jsstring)
  (row : IAAAUser.t) : IAAAUser.t :=
  if owned_by userId row
  then {| IAAAUser.userId := userId;
          IAAAUser.username := username;
          IAAAUser.password := password;
          IAAAUser.createdAt := IAAAUser.createdAt row;
          IAAAUser.updatedAt := now |}
  else row.

Lemma rebound_owner now userId username password row other :
  owned_by other (rebound now userId username password row) = owned_by other row.
Proof.
  unfold rebound. destruct (owned_by userId row) eqn:E; [|reflexivity].
  apply owned_by_spec in E. unfold owned_by. cbn [IAAAUser.userId]. now rewrite E.
Qed.

Lemma get_rebound now userId username password table other :
  get other (List.map (rebound now userId username password) table)
  = List.map (rebound now userId username password) (get other table).
Proof.
  unfold get. induction table as [|row table IH]; [reflexivity|].
  cbn [List.map List.filter]. rewrite rebound_owner.
  destruct (owned_by other row); cbn [List.map]; now rewrite IH.
Qed.

Lemma rebound_other now userId username password table other :
  other <> userId ->
  List.map (rebound now userId username password) (get other table) = get other table.
Proof.
  intros Hne. unfold get. induction table as [|row table IH]; [reflexivity|].
  cbn [List.filter]. destruct (owned_by other row) eqn:E; [|exact IH].
  cbn [List.map]. rewrite IH. f_equal. unfold rebound.
  destruct (owned_by userId row) eqn:E'; [|reflexivity].
  apply owned_by_spec in E. apply owned_by_spec in E'. congruence.
Qed.

Lemma accounts_get_app userId (t1 t2 : list IAAAUser.t) :
  get userId (t1 ++ t2) = get userId t1 ++ get userId t2.
Proof. unfold get. apply List.filter_app. Qed.

Lemma rebound_ids now userId username password table :
  List.map IAAAUser.userId (List.map (rebound now userId username password) table)
  = List.map IAAAUser.userId table.
Proof.
  induction table as [|row table IH]; [reflexivity|]. cbn [List.map].
  rewrite IH. f_equal. unfold rebound.
  destruct (owned_by userId row) eqn:E; [|reflexivity].
  apply owned_by_spec in E. now rewrite E.
Qed.

Lemma get_none_ids userId table :
  get userId table = [] -> userId ∉ List.map IAAAUser.userId table.
Proof.
  unfold get. induction table as [|row table IH]; intros H.
  - apply not_elem_of_nil.
  - cbn [List.filter] in H. destruct (owned_by userId row) eqn:E; [discriminate|].
    cbn [List.map]. intros Hin. apply elem_of_cons in Hin as [Hin|Hin].
    + symmetry in Hin. apply owned_by_spec in Hin. congruence.
    + now apply IH.
Qed.

Lemma getIAAAUser_upserted (now : Z) (userId username password : jsstring)
  (table : list IAAAUser.t) :
  exists createdAt updatedAt,
    getIAAAUser userId (upsertIAAAUser now userId username password table)
    = Some {| IAAAUser.userId := userId; IAAAUser.username := username;
              IAAAUser.password := password;
              IAAAUser.createdAt := createdAt;
              IAAAUser.updatedAt := updatedAt |}.
Proof.
  unfold upsertIAAAUser, getIAAAUser.
  fold (rebound now userId username password).
  destruct (get userId table) as [|old rest] eqn:Hget; cbn [length Nat.ltb Nat.leb].
  - change (0 <? 0)%nat with false. cbv iota.
    rewrite accounts_get_app, Hget. cbn [app get List.filter]. unfold owned_by.
    cbn [IAAAUser.userId]. rewrite jseqb_refl. cbn [head]. now eexists _, _.
  - change (0 <? S (length rest))%nat with true. cbv iota.
    rewrite get_rebound, Hget. cbn [List.map head].
    assert (Hold : owned_by userId old = true).
    { assert (Hin : In old (get userId table)) by (rewrite Hget; now left).
      unfold get in Hin. now apply List.filter_In in Hin as [_ Hin]. }
    unfold rebound at 1. rewrite Hold. now eexists _, _.
Qed.

(** [upsertIAAAUser] followed by [getIAAAUser] gives the credentials just
    written, with the creation time of the row that was there, if any;
    the rows of the other identities are as they were, and identities
    that had one row each still have one row each. *)
Theorem upsertIAAAUser_then_get (now : Z) (userId username password : jsstring)
  (table : list IAAAUser.t) :
  let table' := upsertIAAAUser now userId username password table in
  (exists row,
     getIAAAUser userId table' = Some row
     /\ IAAAUser.username row = username
     /\ IAAAUser.password row = password
     /\ IAAAUser.updatedAt row = now
     /\ IAAAUser.createdAt row
        = match getIAAAUser userId table with
          | Some old => IAAAUser.createdAt old
          | None => now
          end)
  /\ (forall other, other <> userId -> get other table' = get other table)
  /\ (NoDup (List.map IAAAUser.userId table) ->
      NoDup (List.map IAAAUser.userId table')).
Proof.
  cbv zeta. unfold upsertIAAAUser, getIAAAUser.
  fold (rebound now userId username password).
  destruct (get userId table) as [|old rest] eqn:Hget; cbn [length Nat.ltb Nat.leb].
  - change (0 <? 0)%nat with false. cbv iota. split; [|split].
    + rewrite accounts_get_app, Hget. cbn [app get List.filter]. unfold owned_by.
      cbn [IAAAUser.userId]. rewrite jseqb_refl. cbn [head]. eexists. repeat split.
    + intros other Hother. rewrite accounts_get_app.
      match goal with |- context [get other [?row]] =>
        assert (Hnew : owned_by other row = false)
      end.
      { apply not_true_is_false. intros H. apply owned_by_spec in H.
        cbn [IAAAUser.userId] in H. congruence. }
      cbn [get List.filter]. rewrite Hnew. now rewrite app_nil_r.
    + intros Hdistinct. rewrite List.map_app. cbn [List.map IAAAUser.userId].
      apply NoDup_app. split; [exact Hdistinct|]. split; [|apply NoDup_singleton].
      intros x Hx Hx'. apply list_elem_of_singleton in Hx'. subst x.
      now apply (get_none_ids userId table Hget).
  - change (0 <? S (length rest))%nat with true. cbv iota. split; [|split].
    + rewrite get_rebound, Hget. cbn [List.map head].
      assert (Hold : owned_by userId old = true).
      { assert (Hin : In old (get userId table)) by (rewrite Hget; now left).
        unfold get in Hin. now apply List.filter_In in Hin as [_ Hin]. }
      unfold rebound at 1. rewrite Hold. eexists. repeat split.
    + intros other Hother. rewrite get_rebound. now apply rebound_other.
    + intros Hdistinct. now rewrite rebound_ids.
Qed.

End AccountFacts.

Module CommandFacts.
Import JS Run Client Commands RunFacts ClientFacts SyncFacts VaultFacts ClientMore.
Local Open Scope run_scope.

(** [login] returns in every world, after the request to the provider. *)
Lemma login_returns env username password w :
  exists b w' l,
    login env username password w = (Ok b, w')
    /\ requests w' = requests w ++ OauthLogin username password :: l
    /\ sent w' = sent w.
Proof.
  unfold login, http. rewrite try_catch_run, !bind_run. cbn [modify lift].
  assert (Hcaught : forall e w0 l0,
             requests w0 = requests w ++ OauthLogin username password :: l0 ->
             sent w0 = sent w ->
             exists b w' l,
               bind (log_failure LogLoginFailed e) (fun _ => ret false) w0 = (Ok b, w')
               /\ requests w' = requests w ++ OauthLogin username password :: l
               /\ sent w' = sent w).
  { intros e w0 l0 Hr Hs. rewrite bind_run.
    destruct (log_failure_world LogLoginFailed e w0) as (Hok & _ & Hr' & _ & Hs').
    destruct (log_failure LogLoginFailed e w0) as [[[]|e'] w1]; [|discriminate].
    cbn [fst snd ret] in *. exists false, w1, l0. split; [reflexivity|].
    split; congruence. }
  destruct (oauthlogin env username password) as [r1|e1].
  2:{ apply (Hcaught e1 _ []); reflexivity. }
  rewrite !bind_run.
  destruct (negb (Http.success (Http.data r1))); cbn [ret throw].
  { apply (Hcaught LoginRejected _ []); reflexivity. }
  rewrite !bind_run. cbn [modify lift].
  destruct (campusLogin env (Http.token (Http.data r1))) as [r2|e2].
  2:{ apply (Hcaught e2 _ [CampusLogin (Http.token (Http.data r1))]);
        [|reflexivity].
      cbn [requests set_requests]. now rewrite <- app_assoc. }
  rewrite !bind_run.
  match goal with |- context [extractCookies r2 ?W] =>
    destruct (extractCookies_world r2 W) as (Hok & _ & Hreq & _ & _ & Hsent);
    destruct (extractCookies r2 W) as [[[]|e] w1]; [|discriminate]
  end.
  cbn [fst snd ret] in *. exists true, w1, [CampusLogin (Http.token (Http.data r1))].
  split; [reflexivity|]. rewrite Hreq, Hsent. cbn [requests sent set_requests].
  now rewrite <- app_assoc.
Qed.

(** With a sink that takes every message a pass returns. *)
Lemma pass_returns env userId config w :
  (forall m, deliver env m = true) ->
  fst (NoticeHandler.process env userId config w) = Ok tt
  /\ fst (CalendarHandler.process env userId config w) = Ok tt.
Proof.
  intros Hsink. split.
  - unfold NoticeHandler.process. rewrite try_catch_run.
    match goal with |- context [match ?body w with _ => _ end] =>
      destruct (body w) as [[[]|e] w1]
    end; [reflexivity|]. rewrite send_run. now rewrite Hsink.
  - unfold CalendarHandler.process. rewrite try_catch_run.
    match goal with |- context [match ?body w with _ => _ end] =>
      destruct (body w) as [[[]|e] w1]
    end; [reflexivity|]. rewrite send_run. now rewrite Hsink.
Qed.

(** *** Requests only grow *)

Definition any_request (r : Request) : Prop := True.

Definition grows {A} (m : M A) : Prop := appends requests any_request m.

Lemma grows_untouched {A} (m : M A) : preserves requests m -> grows m.
Proof. apply preserves_appends. Qed.

Lemma grows_filter_of {A} (l : list A) (p : A -> M bool) :
  (forall x, grows (p x)) -> grows (filter_of l p).
Proof.
  intros Hp. induction l as [|x l IH]; cbn [filter_of]; [apply requests_ret|].
  apply appends_bind; [apply Hp|]. intros keep.
  apply appends_bind; [exact IH|]. intros rest. apply requests_ret.
Qed.

Ltac growing :=
  repeat first
    [ apply appends_http; exact I
    | apply requests_extractCookies
    | apply requests_generateCookieString
    | apply requests_log_failure
    | apply requests_write_log
    | apply requests_Date_now
    | apply requests_ret
    | apply requests_throw
    | apply requests_send
    | apply requests_createNoticeRecords
    | apply requests_createAssignmentRecords
    | apply grows_filter_of; intros ?
    | apply appends_if
    | apply appends_for_of; intros ?
    | apply appends_try_catch; [|intros ?]
    | apply appends_bind; [|intros ?]
    | apply grows_untouched; intros ?; reflexivity ].

Lemma grows_getNoticeData env : grows (getNoticeData env).
Proof. unfold grows, getNoticeData, delay. growing. Qed.

Lemma grows_getCalendarData env advanceHours :
  grows (getCalendarData env advanceHours).
Proof. unfold grows, getCalendarData, testWithinHours. growing. Qed.

Lemma grows_filterNoticeInfo env config entry courseDict isInit :
  grows (NoticeHandler.filterNoticeInfo env config entry courseDict isInit).
Proof.
  unfold grows, NoticeHandler.filterNoticeInfo, getAssignmentFromNotice.
  destruct (JSON.or_else _ _); growing.
Qed.

Lemma grows_notice_collect env config old courseDict isInit
  (streamEntries : list Entry.t) :
  grows (NoticeHandler.collect env config old courseDict isInit streamEntries).
Proof.
  induction streamEntries as [|entry rest IH]; cbn [NoticeHandler.collect];
    [apply requests_ret|].
  destruct (bool_decide _); [exact IH|].
  apply appends_bind; [apply grows_filterNoticeInfo|]. intros record.
  apply appends_bind; [exact IH|]. intros records. apply requests_ret.
Qed.

Lemma grows_filterAssignmentInfo env entry :
  grows (CalendarHandler.filterAssignmentInfo env entry).
Proof.
  unfold grows, CalendarHandler.filterAssignmentInfo, getAssignmentFromCalendar.
  growing. destruct (Html.parseInstruction _); growing.
Qed.

Lemma grows_calendar_collect env old (calendarData : list CalendarEntry.t) :
  grows (CalendarHandler.collect env old calendarData).
Proof.
  induction calendarData as [|entry rest IH]; cbn [CalendarHandler.collect];
    [apply requests_ret|].
  destruct (bool_decide _); [exact IH|].
  apply appends_bind; [apply grows_filterAssignmentInfo|]. intros record.
  apply appends_bind; [exact IH|]. intros records. apply requests_ret.
Qed.

Lemma grows_notice_process env userId config :
  grows (NoticeHandler.process env userId config).
Proof.
  unfold grows, NoticeHandler.process.
  apply appends_try_catch; [|intros e; apply requests_send].
  apply appends_bind; [apply grows_getNoticeData|]. intros noticeData.
  apply appends_bind; [apply grows_untouched; intros w; reflexivity|]. intros old.
  apply appends_bind; [apply grows_notice_collect|]. intros records.
  apply appends_bind.
  - apply appends_if; growing; unfold NoticeHandler.notifyNotice; growing.
  - intros [|r rs]; growing.
Qed.

Lemma grows_calendar_process env userId config :
  grows (CalendarHandler.process env userId config).
Proof.
  unfold grows, CalendarHandler.process.
  apply appends_try_catch; [|intros e; apply requests_send].
  apply appends_if; [apply requests_send|].
  apply appends_bind; [apply grows_getCalendarData|]. intros calendarData.
  apply appends_bind; [apply grows_untouched; intros w; reflexivity|]. intros old.
  apply appends_bind; [apply grows_calendar_collect|]. intros records.
  apply appends_bind.
  - apply appends_if; growing; unfold CalendarHandler.notifyAssignment; growing.
  - intros [|r rs]; growing.
Qed.

Lemma grows_run {A} (m : M A) w :
  grows m -> exists l, requests (snd (m w)) = requests w ++ l.
Proof. intros H. destruct (H w) as (l & Hl & _). now exists l. Qed.

Section WithCipher.
Context {C : Vault.BlockCipher}.

(** The two passes of a check, as [check] runs them after the login. *)
Lemma passes_run env userId (cfg : BBConfig.t) w :
  let passes :=
    bind (if BBConfig.notifyNotice cfg
          then NoticeHandler.process env userId (BBConfig.settings cfg)
          else ret tt)
         (fun _ =>
            bind (if BBConfig.notifyAssignment cfg
                  then CalendarHandler.process env userId (BBConfig.settings cfg)
                  else ret tt)
                 (fun _ => ret Completed)) in
  (exists l, requests (snd (passes w)) = requests w ++ l)
  /\ ((forall m, deliver env m = true) -> fst (passes w) = Ok Completed).
Proof.
  intros passes. split.
  - apply grows_run. unfold passes, grows.
    apply appends_bind;
      [apply appends_if; [apply grows_notice_process|apply requests_ret]|].
    intros _. apply appends_bind;
      [apply appends_if; [apply grows_calendar_process|apply requests_ret]|].
    intros _. apply requests_ret.
  - intros Hsink. unfold passes.
    set (first := if BBConfig.notifyNotice cfg
                  then NoticeHandler.process env userId (BBConfig.settings cfg)
                  else ret tt).
    set (second := if BBConfig.notifyAssignment cfg
                   then CalendarHandler.process env userId (BBConfig.settings cfg)
                   else ret tt).
    assert (Hfirst : forall w0, fst (first w0) = Ok tt).
    { intros w0. unfold first. destruct (BBConfig.notifyNotice cfg); [|reflexivity].
      now apply pass_returns. }
    assert (Hsecond : forall w0, fst (second w0) = Ok tt).
    { intros w0. unfold second.
      destruct (BBConfig.notifyAssignment cfg); [|reflexivity].
      now apply pass_returns. }
    rewrite bind_run. specialize (Hfirst w).
    destruct (first w) as [r1 w1]. cbn [fst] in Hfirst. subst r1.
    rewrite bind_run. specialize (Hsecond w1).
    destruct (second w1) as [r2 w2]. cbn [fst] in Hsecond. subst r2.
    reflexivity.
Qed.


(** [iaaa.bind] writes the table only after a login that succeeded.  When
    the action returns, every reply but the last leaves the table as it was;
    the reply that the account is bound means that both arguments were given,
    that the login of a fresh client with them returned [true], and that the
    table is the old one with the row of this identity set to the student
    number and to the password as [encrypt] returned it, never the password
    itself. *)
Theorem bind_account_stores_after_login env (encryptionKey : jsstring)
  (iv : list Z) (iaaa_user : list IAAAUser.t) (userId : jsstring)
  (username password : option jsstring) w reply table :
  fst (bind_account env encryptionKey iv iaaa_user userId username password w)
  = Ok (reply, table) ->
  (reply <> Bound -> table = iaaa_user)
  /\ (reply = Bound ->
      exists u p stored w1,
        username = Some u /\ password = Some p /\ u <> [] /\ p <> []
        /\ login env u p (set_cookies (fun _ => []) w) = (Ok true, w1)
        /\ Vault.encrypt encryptionKey iv p = Ok stored
        /\ table
           = Accounts.upsertIAAAUser (clock env (ticks w1)) userId u stored
               iaaa_user).
Proof.
  unfold bind_account.
  destruct username as [[|c u]|]; cbn [truthy negb orb default from_option id];
    try (intros [= <- <-]; split; [reflexivity|discriminate]).
  destruct password as [[|d p]|]; cbn [truthy negb orb default from_option id];
    try (intros [= <- <-]; split; [reflexivity|discriminate]).
  rewrite bind_run, try_catch_run, bind_run. unfold new_client.
  cbn [modify]. rewrite bind_run.
  destruct (login_returns env (c :: u) (d :: p) (set_cookies (fun _ => []) w))
    as (b & w1 & l1 & Hlogin & _ & _).
  rewrite Hlogin. cbn [ret].
  destruct b.
  2:{ intros [= <- <-]; split; [reflexivity|discriminate]. }
  rewrite bind_run.
  destruct (Vault.encrypt encryptionKey iv (d :: p)) as [stored|e] eqn:Hstored;
    cbn [lift]; [|discriminate].
  rewrite bind_run. unfold Date_now at 1. cbn [ret fst].
  intros [= <- <-]. split; [now intros []|]. intros _.
  exists (c :: u), (d :: p), stored, w1. repeat split; try discriminate.
  - exact Hlogin.
  - exact Hstored.
Qed.

(** An account bound by [iaaa.bind] is the one [blackboard.check] logs in
    with.  For a key of Basic Latin characters, 16 random bytes and a
    well-formed password: when the reply of the binding is that the account
    is bound, a later check of the same identity under the same key, on any
    platform and from any state, begins with the login request that carries
    the bound student number and the password as it was typed. *)
Theorem bound_credentials_are_used env (encryptionKey : jsstring) (iv : list Z)
  (iaaa_user : list IAAAUser.t) (userId u p : jsstring) w table :
  Forall (fun c => is_ascii c = true) encryptionKey ->
  VaultFacts.is_block iv -> well_formed p ->
  fst (bind_account env encryptionKey iv iaaa_user userId (Some u) (Some p) w)
  = Ok (Bound, table) ->
  forall env' bbConfig w',
  exists l,
    requests (snd (check env' encryptionKey table bbConfig userId w'))
    = requests w' ++ OauthLogin u p :: l.
Proof.
  intros Hkey Hiv Hwf Hbound env' bbConfig w'.
  destruct (VaultFacts.key_buffer_ascii encryptionKey Hkey) as (_ & Hlen & Hbytes).
  destruct (VaultFacts.decrypt_encrypt_same_buffer encryptionKey encryptionKey iv p
              eq_refl Hlen Hbytes Hiv Hwf) as (stored & Henc & Hdec).
  assert (Hrow : exists createdAt updatedAt,
             Accounts.getIAAAUser userId table
             = Some {| IAAAUser.userId := userId; IAAAUser.username := u;
                       IAAAUser.password := stored;
                       IAAAUser.createdAt := createdAt;
                       IAAAUser.updatedAt := updatedAt |}).
  { revert Hbound. unfold bind_account.
    destruct u as [|c u]; [cbn; discriminate|].
    destruct p as [|d p]; [cbn; discriminate|].
    cbn [truthy negb orb default from_option id].
    rewrite bind_run, try_catch_run, bind_run. unfold new_client.
    cbn [modify]. rewrite bind_run.
    destruct (login_returns env (c :: u) (d :: p) (set_cookies (fun _ => []) w))
      as (b & w1 & l1 & Hlogin & _ & _).
    rewrite Hlogin. cbn [ret]. destruct b; [|discriminate].
    rewrite bind_run, Henc. cbn [lift]. rewrite bind_run.
    unfold Date_now at 1. cbn [ret fst]. intros [= <-].
    apply AccountFacts.getIAAAUser_upserted. }
  destruct Hrow as (createdAt & updatedAt & Hrow).
  unfold check. rewrite Hrow. cbn [IAAAUser.username IAAAUser.password].
  rewrite try_catch_run, bind_run, Hdec. cbn [lift].
  rewrite bind_run. unfold new_client. cbn [modify]. rewrite bind_run.
  destruct (login_returns env' u p (set_cookies (fun _ => []) w'))
    as (b & w1 & l1 & Hlogin & Hreq & _).
  rewrite Hlogin.
  destruct (passes_run env' userId bbConfig w1) as [[l2 Hgrow] _].
  cbv zeta in Hgrow.
  match goal with |- context [match ?m w1 with _ => _ end] =>
    destruct (m w1) as [[reply|e] w2] eqn:Hpasses
  end; cbn [fst snd ret] in *;
    exists (l1 ++ l2); rewrite Hgrow, Hreq; cbn [requests set_cookies];
    now rewrite <- app_assoc.
Qed.

End WithCipher.

Import VaultRuns.

Definition student : jsstring := lit "2800011451".
Definition typed_password : jsstring := lit "pswd1234".

(** The table after [iaaa.bind 2800011451 pswd1234] of the identity [u1] on
    the platform [campus], from an empty table. *)
Definition bound_table : list IAAAUser.t :=
  match fst (bind_account campus short_key counting_iv [] (lit "u1")
               (Some student) (Some typed_password) empty_world) with
  | Ok (_, table) => table
  | Throw _ => []
  end.

Lemma bind_account_stores_after_login_witness :
  fst (bind_account campus short_key counting_iv [] (lit "u1")
         (Some student) (Some typed_password) empty_world)
  = Ok (Bound, bound_table)
  /\ exists stored w1,
      login campus student typed_password
        (set_cookies (fun _ => []) empty_world) = (Ok true, w1)
      /\ Vault.encrypt short_key counting_iv typed_password = Ok stored
      /\ bound_table
         = Accounts.upsertIAAAUser (clock campus (ticks w1)) (lit "u1") student
             stored [].
Proof.
  assert (Hrun : fst (bind_account campus short_key counting_iv [] (lit "u1")
                        (Some student) (Some typed_password) empty_world)
                 = Ok (Bound, bound_table)) by (vm_compute; reflexivity).
  split; [exact Hrun|].
  destruct (bind_account_stores_after_login campus short_key counting_iv []
              (lit "u1") (Some student) (Some typed_password) empty_world
              Bound bound_table Hrun) as [_ Hbound].
  destruct (Hbound eq_refl)
    as (u & p & stored & w1 & Hu & Hp & _ & _ & Hlogin & Henc & Htable).
  injection Hu as <-. injection Hp as <-.
  exists stored, w1. split; [exact Hlogin|]. split; [exact Henc|exact Htable].
Defined.

Lemma bound_credentials_are_used_witness :
  fst (bind_account campus short_key counting_iv [] (lit "u1")
         (Some student) (Some typed_password) empty_world)
  = Ok (Bound, bound_table)
  /\ exists l,
      requests (snd (check rejecting_provider short_key bound_table
                       {| BBConfig.notifyNotice := true;
                          BBConfig.notifyAssignment := true;
                          BBConfig.settings := defaults |}
                       (lit "u1") empty_world))
      = requests empty_world ++ OauthLogin student typed_password :: l.
Proof.
  assert (Hrun : fst (bind_account campus short_key counting_iv [] (lit "u1")
                        (Some student) (Some typed_password) empty_world)
                 = Ok (Bound, bound_table)) by (vm_compute; reflexivity).
  split; [exact Hrun|].
  apply (bound_credentials_are_used campus short_key counting_iv []
           (lit "u1") student typed_password empty_world bound_table);
    [ascii_key|block|paired|exact Hrun].
Defined.

(** A check on a platform whose identity provider rejects the credentials
    still runs both passes, and still replies that it is complete. *)
Example check_after_refused_login :
  let run := check rejecting_provider short_key bound_table
               {| BBConfig.notifyNotice := true;
                  BBConfig.notifyAssignment := true;
                  BBConfig.settings := defaults |}
               (lit "u1") empty_world in
  fst run = Ok Completed
  /\ List.map (fun r => match r with
                        | OauthLogin _ _ => 1
                        | StreamViewerView _ => 2
                        | SelectedCalendarEvents _ _ _ => 3
                        | _ => 0
                        end) (requests (snd run)) = [1; 2; 3].
Proof. vm_compute. split; reflexivity. Qed.

End CommandFacts.
